(** * GTA-GXTEditor: the patch-table codec (whm_table.py) and the key
      validation and text import of the editor (main.py)

    A shallow embedding of the pure parts of the two Python sources, and
    the properties of the specification checked against it.

    Conventions.
    - A Python [int] is a [Z].
    - A Python [bytes] / [bytearray] value is a [list byte].
    - A Python [str] is the list of its code points, each a [Z].
    - A Python call that may raise returns a [result]; [try/except] is a
      match on it.
    - A binary file is its bytes; a text file opened for reading is the
      list of the lines that iterating it yields ([Py.readlines] gives
      them for a decoded text); a text file opened for writing is the
      text written to it so far.
    - The operating system is met in [Files]: a path is what a read finds
      there or the exception it raises, and whether a write is let
      through.  The functions that take the bytes or the lines directly
      are the code after a read that succeeded. *)

From Stdlib Require Import String Ascii Strings.Byte.
From Stdlib Require Import ZArith List Lia Bool Permutation Sorted.
Import ListNotations.
Open Scope Z_scope.

(* ================================================================== *)
(** * Python runtime: exceptions, bytes, str *)

Module Py.

(** The exception classes the modelled code can meet. *)
Inductive exn : Type :=
| UnicodeDecodeError
| UnicodeEncodeError
| StructError      (* struct.error *)
| IndexError
| KeyError
| ValueError
| OSError.

Inductive result (A : Type) : Type :=
| Ok (a : A)
| Raise (e : exn).
Arguments Ok {A} a.
Arguments Raise {A} e.

Definition bind {A B} (m : result A) (k : A -> result B) : result B :=
  match m with
  | Ok a => k a
  | Raise e => Raise e
  end.

Definition is_ok {A} (m : result A) : bool :=
  match m with Ok _ => true | Raise _ => false end.

(** [for x in xs: ys.append(f(x))], stopping at the first exception. *)
Fixpoint for_each {A B} (f : A -> result B) (xs : list A) : result (list B) :=
  match xs with
  | [] => Ok []
  | x :: xs' =>
      bind (f x) (fun y => bind (for_each f xs') (fun ys => Ok (y :: ys)))
  end.

Abbreviation bytes := (list byte).
Abbreviation str := (list Z).

Definition len {A} (l : list A) : Z := Z.of_nat (length l).

(** [l[i:j]] for [0 <= i], [0 <= j]: Python clips a slice to the
    sequence, it never raises. *)
Definition slice {A} (l : list A) (i j : Z) : list A :=
  firstn (Z.to_nat (j - i)) (skipn (Z.to_nat i) l).

(** [l[i]] for [0 <= i]. *)
Definition index {A} (l : list A) (i : Z) : result A :=
  match nth_error l (Z.to_nat i) with
  | Some x => Ok x
  | None => Raise IndexError
  end.

Definition byte_val (b : byte) : Z := Z.of_N (Byte.to_N b).

Definition byte_of (z : Z) : byte :=
  match Byte.of_N (Z.to_N (z mod 256)) with
  | Some b => b
  | None => x00
  end.

(** A string literal of the sources, as a [str]. *)
Definition lit (s : string) : str :=
  map (fun a => Z.of_N (N_of_ascii a)) (list_ascii_of_string s).

Fixpoint str_eqb (a b : str) : bool :=
  match a, b with
  | [], [] => true
  | x :: a', y :: b' => (x =? y) && str_eqb a' b'
  | _, _ => false
  end.

(** [str.isspace] on one character (CPython's [_Py_ascii_whitespace]
    and [_PyUnicode_IsWhitespace]). *)
Definition isspace (c : Z) : bool :=
  ((9 <=? c) && (c <=? 13)) || ((28 <=? c) && (c <=? 32))
  || (c =? 133) || (c =? 160) || (c =? 5760)
  || ((8192 <=? c) && (c <=? 8202))
  || (c =? 8232) || (c =? 8233) || (c =? 8239) || (c =? 8287)
  || (c =? 12288).

Fixpoint lstrip (s : str) : str :=
  match s with
  | c :: s' => if isspace c then lstrip s' else s
  | [] => []
  end.

(** [s.strip()] *)
Definition strip (s : str) : str := rev (lstrip (rev (lstrip s))).

(** [s.split(sep, 1)] when [sep in s]: the parts before and after the
    first [sep]; [None] when [sep] does not occur. *)
Fixpoint split_once (sep : Z) (s : str) : option (str * str) :=
  match s with
  | [] => None
  | c :: s' =>
      if c =? sep then Some ([], s')
      else match split_once sep s' with
           | Some (a, b) => Some (c :: a, b)
           | None => None
           end
  end.

(** The lines a text-mode file object yields (universal newlines:
    a line ends at LF, CR LF or CR).  The terminator is left out: every
    caller strips the line first. *)
Fixpoint readlines (s : str) : list str :=
  match s with
  | [] => []
  | c :: rest =>
      if c =? 10 then [] :: readlines rest
      else if c =? 13 then
        match rest with
        | c2 :: rest2 =>
            if c2 =? 10 then [] :: readlines rest2 else [] :: readlines rest
        | [] => [[]]
        end
      else
        match readlines rest with
        | [] => [[c]]
        | l :: ls => (c :: l) :: ls
        end
  end.

(** [enumerate(xs, n)] *)
Fixpoint enumerate {A} (n : Z) (xs : list A) : list (Z * A) :=
  match xs with
  | [] => []
  | x :: xs' => (n, x) :: enumerate (n + 1) xs'
  end.

End Py.

Import Py.

Declare Scope py_scope.
Delimit Scope py_scope with py.
Notation "x <- m ;; k" := (bind m (fun x => k))
  (at level 61, m at next level, right associativity) : py_scope.
Notation "' p <- m ;; k" := (bind m (fun x => let p := x in k))
  (at level 61, p pattern, m at next level, right associativity) : py_scope.
Open Scope py_scope.

(* ================================================================== *)
(** * The codecs behind [str.encode], [bytes.decode] and [bytes.hex] *)

Module Codec.

(** The encodings [decode_bytes] names. *)
Inductive encoding : Type := Utf8 | Cp1252 | Latin1.

Definition is_surrogate (c : Z) : bool := (55296 <=? c) && (c <=? 57343).

(** A code point that UTF-8 can carry: a Unicode scalar value. *)
Definition is_scalar (c : Z) : bool :=
  (0 <=? c) && (c <=? 1114111) && negb (is_surrogate c).

(** UTF-8 form of one code point; a surrogate is refused (the strict
    error handler of [str.encode]). *)
Definition utf8_encode_char (c : Z) : result bytes :=
  if negb (is_scalar c) then Raise UnicodeEncodeError
  else if c <? 128 then Ok [byte_of c]
  else if c <? 2048 then
    Ok [byte_of (192 + c / 64); byte_of (128 + c mod 64)]
  else if c <? 65536 then
    Ok [byte_of (224 + c / 4096); byte_of (128 + (c / 64) mod 64);
        byte_of (128 + c mod 64)]
  else
    Ok [byte_of (240 + c / 262144); byte_of (128 + (c / 4096) mod 64);
        byte_of (128 + (c / 64) mod 64); byte_of (128 + c mod 64)].

(** [s.encode("utf-8")] *)
Fixpoint utf8_encode (s : str) : result bytes :=
  match s with
  | [] => Ok []
  | c :: s' =>
      b <- utf8_encode_char c ;;
      bs <- utf8_encode s' ;;
      Ok (b ++ bs)
  end.

Definition is_cont (b : Z) : bool := (128 <=? b) && (b <=? 191).

(** [bts.decode("utf-8")]: strict, so overlong forms, surrogates, values
    above U+10FFFF and truncated sequences all raise. *)
Fixpoint utf8_decode (bts : bytes) : result str :=
  match bts with
  | [] => Ok []
  | b0 :: r0 =>
      let v0 := byte_val b0 in
      if v0 <? 128 then
        s <- utf8_decode r0 ;; Ok (v0 :: s)
      else if (194 <=? v0) && (v0 <=? 223) then
        match r0 with
        | b1 :: r1 =>
            let v1 := byte_val b1 in
            if is_cont v1 then
              s <- utf8_decode r1 ;;
              Ok (((v0 - 192) * 64 + (v1 - 128)) :: s)
            else Raise UnicodeDecodeError
        | _ => Raise UnicodeDecodeError
        end
      else if (224 <=? v0) && (v0 <=? 239) then
        match r0 with
        | b1 :: b2 :: r2 =>
            let v1 := byte_val b1 in
            let v2 := byte_val b2 in
            let c := (v0 - 224) * 4096 + (v1 - 128) * 64 + (v2 - 128) in
            if is_cont v1 && is_cont v2 && (2048 <=? c)
               && negb (is_surrogate c) then
              s <- utf8_decode r2 ;; Ok (c :: s)
            else Raise UnicodeDecodeError
        | _ => Raise UnicodeDecodeError
        end
      else if (240 <=? v0) && (v0 <=? 244) then
        match r0 with
        | b1 :: b2 :: b3 :: r3 =>
            let v1 := byte_val b1 in
            let v2 := byte_val b2 in
            let v3 := byte_val b3 in
            let c := (v0 - 240) * 262144 + (v1 - 128) * 4096
                     + (v2 - 128) * 64 + (v3 - 128) in
            if is_cont v1 && is_cont v2 && is_cont v3 && (65536 <=? c)
               && (c <=? 1114111) then
              s <- utf8_decode r3 ;; Ok (c :: s)
            else Raise UnicodeDecodeError
        | _ => Raise UnicodeDecodeError
        end
      else Raise UnicodeDecodeError
  end.

(** The upper half 0x80..0x9F of code page 1252; five bytes have no
    character and make [decode("cp1252")] raise. *)
Definition cp1252_high : list (option Z) :=
  [ Some 8364; None;     Some 8218; Some 402;  Some 8222; Some 8230;
    Some 8224; Some 8225; Some 710; Some 8240; Some 352;  Some 8249;
    Some 338;  None;     Some 381;  None;
    None;      Some 8216; Some 8217; Some 8220; Some 8221; Some 8226;
    Some 8211; Some 8212; Some 732; Some 8482; Some 353;  Some 8250;
    Some 339;  None;     Some 382;  Some 376 ].

Definition cp1252_char (b : byte) : result Z :=
  let v := byte_val b in
  if (128 <=? v) && (v <=? 159) then
    match nth (Z.to_nat (v - 128)) cp1252_high None with
    | Some c => Ok c
    | None => Raise UnicodeDecodeError
    end
  else Ok v.

Definition latin1_char (b : byte) : result Z := Ok (byte_val b).

(** [bts.decode(enc)] *)
Definition decode (enc : encoding) (bts : bytes) : result str :=
  match enc with
  | Utf8 => utf8_decode bts
  | Cp1252 => for_each cp1252_char bts
  | Latin1 => for_each latin1_char bts
  end.

Definition hex_digit (n : Z) : Z := if n <? 10 then 48 + n else 87 + n.

(** [bts.hex()]: two lower-case hexadecimal digits per byte. *)
Fixpoint hex (bts : bytes) : str :=
  match bts with
  | [] => []
  | b :: r => hex_digit (byte_val b / 16) :: hex_digit (byte_val b mod 16)
                :: hex r
  end.

End Codec.

(* ================================================================== *)
(** * Files: what the operating system gives for a path *)

Module Files.

Import Codec.

(** What [Path.read_bytes()] finds at a path: the bytes of the file, or
    the exception the read raises ([OSError] when there is no such file
    or it may not be read). *)
Inductive binary_file : Type :=
| Unreadable (e : exn)
| Holds (data : bytes).

(** [path.read_bytes()] *)
Definition read_bytes (path : binary_file) : result bytes :=
  match path with
  | Unreadable e => Raise e
  | Holds data => Ok data
  end.

(** A path given to [Path.write_bytes()]: the file can be written, or
    the write raises ([OSError]). *)
Inductive target : Type :=
| Refused (e : exn)
| Writable.

(** [out_path.write_bytes(data)]: the bytes the file holds afterwards. *)
Definition write_bytes (out_path : target) (data : bytes) : result bytes :=
  match out_path with
  | Refused e => Raise e
  | Writable => Ok data
  end.

(** What [open(path, 'r', encoding=...)] gives: the exception [open]
    raises ([OSError]), or a file object that yields [lines] and then
    stops, at the end of the file ([None]) or with the exception the
    reading raises ([UnicodeDecodeError] on bytes that are no text in
    the encoding, [OSError]).  The reading decodes the file piece by
    piece, so lines may have been yielded before it fails. *)
Inductive text_file : Type :=
| CannotOpen (e : exn)
| Yields (lines : list str) (stop : option exn).

(** The lines a file yields, and the exception that ends its reading. *)
Definition yielded (f : text_file) : list str :=
  match f with
  | CannotOpen _ => []
  | Yields lines _ => lines
  end.

Definition failure (f : text_file) : option exn :=
  match f with
  | CannotOpen e => Some e
  | Yields _ stop => stop
  end.

(** A file opened by [open(path, 'w', encoding='utf-8')]: the text
    written so far and the exception that ended the writing, if any.
    The [with] block closes the file on its way out, so what was written
    before an exception stays in the file. *)
Record out_file : Type := mk_out { written : str; failed : option exn }.

Definition opened : out_file := mk_out [] None.

(** [f.write(s)]: the string is encoded as a whole, and refused with
    [UnicodeEncodeError] before any of it is written when it holds a
    surrogate.  An exception leaves the [with] block: no later write
    takes place. *)
Definition write (f : out_file) (s : str) : out_file :=
  match failed f with
  | Some _ => f
  | None =>
      if forallb is_scalar s then mk_out (written f ++ s) None
      else mk_out (written f) (Some UnicodeEncodeError)
  end.

(** How the [with] block ends: with the text of the file, or with the
    exception. *)
Definition close (f : out_file) : result str :=
  match failed f with
  | None => Ok (written f)
  | Some e => Raise e
  end.

End Files.

(* ================================================================== *)
(** * The [struct] formats the codec uses *)

Module Struct.

(** The four bytes of [v], least significant first. *)
Definition le32 (v : Z) : bytes :=
  [byte_of v; byte_of (v / 256); byte_of (v / 65536);
   byte_of (v / 16777216)].

(** [struct.pack("<I", v)]: [struct.error] unless [0 <= v < 2**32]. *)
Definition pack_I (v : Z) : result bytes :=
  if (0 <=? v) && (v <? 4294967296) then Ok (le32 v)
  else Raise StructError.

(** [struct.pack("<II", a, b)] *)
Definition pack_II (a b : Z) : result bytes :=
  x <- pack_I a ;; y <- pack_I b ;; Ok (x ++ y).

(** [struct.unpack_from("<I", b, off)[0]] for [0 <= off]:
    [struct.error] when fewer than 4 bytes follow [off]. *)
Definition unpack_from_I (b : bytes) (off : Z) : result Z :=
  match skipn (Z.to_nat off) b with
  | b0 :: b1 :: b2 :: b3 :: _ =>
      Ok (byte_val b0 + 256 * byte_val b1 + 65536 * byte_val b2
          + 16777216 * byte_val b3)
  | _ => Raise StructError
  end.

(** [struct.unpack_from("<II", b, off)] *)
Definition unpack_from_II (b : bytes) (off : Z) : result (Z * Z) :=
  match skipn (Z.to_nat off) b with
  | _ :: _ :: _ :: _ :: _ :: _ :: _ :: _ :: _ =>
      x <- unpack_from_I b off ;;
      y <- unpack_from_I b (off + 4) ;;
      Ok (x, y)
  | _ => Raise StructError
  end.

(** [struct.calcsize("<II")] *)
Definition calcsize_II : Z := 8.

End Struct.

(* ================================================================== *)
(** * [int(s, 16)] on a [str] *)

Module PyInt.
Section WithUnicodeData.

(** CPython's [Py_UNICODE_TODECIMAL] on the characters from 127 on: the
    decimal value of a character of category Nd, [None] for any other.
    The table belongs to the interpreter's Unicode database, so it is a
    parameter here; for characters below 127 it is never consulted. *)
Variable unicode_decimal : Z -> option Z.

(** [_PyUnicode_TransformDecimalAndSpaceToASCII], one character: ASCII
    is kept, other white space becomes a blank, other decimal digits
    become their ASCII digit, and anything else ends the number ([None]). *)
Definition to_ascii (c : Z) : option Z :=
  if c <? 127 then Some c
  else if isspace c then Some 32
  else match unicode_decimal c with
       | Some d => Some (48 + d)
       | None => None
       end.

Fixpoint transform (s : str) : option str :=
  match s with
  | [] => Some []
  | c :: s' =>
      match to_ascii c, transform s' with
      | Some a, Some r => Some (a :: r)
      | _, _ => None
      end
  end.

(** [Py_ISSPACE] *)
Definition c_isspace (c : Z) : bool :=
  ((9 <=? c) && (c <=? 13)) || (c =? 32).

Fixpoint skip_space (s : str) : str :=
  match s with
  | c :: s' => if c_isspace c then skip_space s' else s
  | [] => []
  end.

(** [_PyLong_DigitValue] restricted to base 16. *)
Definition digit16 (c : Z) : option Z :=
  if (48 <=? c) && (c <=? 57) then Some (c - 48)
  else if (97 <=? c) && (c <=? 102) then Some (c - 87)
  else if (65 <=? c) && (c <=? 70) then Some (c - 55)
  else None.

(** The digit loop of [long_from_binary_base]: digits, with single
    underscores between them.  Returns the value, whether a digit was
    read, whether the last character read was an underscore, and the
    rest of the text; [None] on a doubled underscore. *)
Fixpoint digits (s : str) (prev_us : bool) (seen : bool) (acc : Z)
  : option (Z * bool * bool * str) :=
  match s with
  | [] => Some (acc, seen, prev_us, [])
  | c :: s' =>
      if c =? 95 then
        if prev_us then None else digits s' true seen acc
      else
        match digit16 c with
        | Some d => digits s' false true (16 * acc + d)
        | None => Some (acc, seen, prev_us, s)
        end
  end.

(** After the sign: an optional [0x] / [0X], one optional underscore
    after it, then the digits. *)
Definition strip_prefix (s : str) : str :=
  match s with
  | c0 :: c1 :: r =>
      if (c0 =? 48) && ((c1 =? 120) || (c1 =? 88)) then
        match r with
        | c2 :: r' => if c2 =? 95 then r' else r
        | [] => r
        end
      else s
  | _ => s
  end.

Definition unsigned16 (s : str) : option Z :=
  let s := strip_prefix s in
  match s with
  | c :: _ =>
      if c =? 95 then None
      else
        match digits s false false 0 with
        | Some (v, true, false, rest) =>
            match skip_space rest with
            | [] => Some v
            | _ => None
            end
        | _ => None
        end
  | [] => None
  end.

(** [int(s, 16)]; [None] stands for [ValueError], the only exception
    the call raises on a [str]. *)
Definition int16 (s : str) : option Z :=
  match transform s with
  | None => None
  | Some a =>
      match skip_space a with
      | c :: r =>
          if c =? 43 then unsigned16 r
          else if c =? 45 then option_map Z.opp (unsigned16 r)
          else unsigned16 (c :: r)
      | [] => None
      end
  end.

End WithUnicodeData.
End PyInt.

(* ================================================================== *)
(** * whm_table.py *)

Module Whm.

Import Codec Files Struct.

(** One entry, the dict [{"hash": h, "text": text}]. *)
Record item : Type := mk_item { hash : Z; text : str }.

(** [read_u32(b, off)] *)
Definition read_u32 (b : bytes) (off : Z) : result (Z * Z) :=
  v <- unpack_from_I b off ;; Ok (v, off + 4).

(** The [for _ in range(count)] loop of [read_entries]. *)
Fixpoint read_entries_loop (data : bytes) (count : nat) (off : Z)
  : result (list (Z * Z) * Z) :=
  match count with
  | O => Ok ([], off)
  | S count' =>
      ho <- unpack_from_II data off ;;
      '(entries, off') <- read_entries_loop data count' (off + calcsize_II) ;;
      Ok (ho :: entries, off')
  end.

(** [read_entries(data)]: the (hash, offset) pairs, where the blob
    starts, and the blob size the header announces. *)
Definition read_entries (data : bytes) : result (list (Z * Z) * Z * Z) :=
  '(count, off) <- read_u32 data 0 ;;
  '(entries, off) <- read_entries_loop data (Z.to_nat count) off ;;
  '(blob_size, _) <- read_u32 data off ;;
  let blob_start := off + 4 in
  Ok (entries, blob_start, blob_size).

(** The [for enc in (...)] loop of [decode_bytes]: [except Exception:
    continue] swallows whatever a decode raises; falling out of the loop
    returns [bts.hex()]. *)
Fixpoint decode_loop (encs : list encoding) (bts : bytes) : result str :=
  match encs with
  | [] => Ok (hex bts)
  | enc :: encs' =>
      match decode enc bts with
      | Ok s => Ok s
      | Raise _ => decode_loop encs' bts
      end
  end.

Definition encodings : list encoding := [Utf8; Cp1252; Latin1].

Definition decode_bytes (bts : bytes) : result str :=
  decode_loop encodings bts.

Definition BINARY : str := lit "[BINARY]".

(** [while j < blob_size and blob[j] != 0: j += 1].  Each turn moves [j]
    one step towards [blob_size]; [fuel] bounds the number of turns. *)
Fixpoint scan_nul (blob : bytes) (blob_size : Z) (fuel : nat) (j : Z)
  : result Z :=
  match fuel with
  | O => Ok j
  | S fuel' =>
      if j <? blob_size then
        b <- index blob j ;;
        if byte_val b =? 0 then Ok j
        else scan_nul blob blob_size fuel' (j + 1)
      else Ok j
  end.

(** The bytes of one entry: [blob[off:j]] when the offset is inside the
    blob, [b''] otherwise. *)
Definition entry_bytes (blob : bytes) (blob_size off : Z) : result bytes :=
  if off <? blob_size then
    j <- scan_nul blob blob_size (Z.to_nat (blob_size - off)) off ;;
    Ok (slice blob off j)
  else Ok [].

(** The body of the [for h, off in entries] loop. *)
Definition entry_item (blob : bytes) (blob_size : Z) (e : Z * Z)
  : result item :=
  let '(h, off) := e in
  bts <- entry_bytes blob blob_size off ;;
  t <- match bts with
       | [] => Ok BINARY
       | _ => decode_bytes bts
       end ;;
  Ok (mk_item h t).

(** [parse_whm_table], on the bytes of the file. *)
Definition parse_whm_table (data : bytes) : result (list item) :=
  '(entries, blob_start, blob_size) <- read_entries data ;;
  let blob := slice data blob_start (blob_start + blob_size) in
  for_each (entry_item blob blob_size) entries.

(** [parse_whm_table(path)], the read of the file included. *)
Definition parse_whm_table_file (path : binary_file) : result (list item) :=
  data <- read_bytes path ;;
  parse_whm_table data.

(** The first loop of [dump_whm_table]. *)
Fixpoint build_blob (items : list item) (blob : bytes) (offsets : list Z)
  : result (bytes * list Z) :=
  match items with
  | [] => Ok (blob, offsets)
  | it :: rest =>
      b <- utf8_encode (text it) ;;
      build_blob rest (blob ++ b ++ [x00]) (offsets ++ [len blob])
  end.

(** The [for (item, off) in zip(items, offsets)] loop. *)
Fixpoint build_header (pairs : list (item * Z)) (header : bytes)
  : result bytes :=
  match pairs with
  | [] => Ok header
  | (it, off) :: rest =>
      e <- pack_II (hash it) off ;;
      build_header rest (header ++ e)
  end.

(** [dump_whm_table]: the bytes written to [out_path]; nothing is
    written when an exception is raised before. *)
Definition dump_whm_table (items : list item) : result bytes :=
  '(blob, offsets) <- build_blob items [] [] ;;
  let count := len items in
  header <- pack_I count ;;
  header <- build_header (combine items offsets) header ;;
  size <- pack_I (len blob) ;;
  Ok ((header ++ size) ++ blob).

(** [dump_whm_table(out_path, items)], the write of the file included:
    the write is the last statement, so the file is not touched when an
    exception is raised before. *)
Definition dump_whm_table_file (out_path : target) (items : list item)
  : result bytes :=
  out_data <- dump_whm_table items ;;
  write_bytes out_path out_data.

(** What [load_txt_items] prints. *)
Inductive warning : Type :=
| InvalidHash (line_num : Z)        (* 第{line_num}行哈希格式无效 - 已跳过 *)
| MissingSeparator (line_num : Z).  (* 第{line_num}行缺少'='分隔符 - 已跳过 *)

Section Loader.

Variable unicode_decimal : Z -> option Z.

(** The body of the loop of [load_txt_items], on the items and the
    printed warnings so far. *)
Definition load_line (st : list item * list warning) (nl : Z * str)
  : list item * list warning :=
  let '(items, out) := st in
  let '(line_num, line) := nl in
  let line := strip line in
  match line with
  | [] => st
  | _ =>
      match split_once 61 line with
      | Some (hash_part, text) =>
          match PyInt.int16 unicode_decimal hash_part with
          | Some hash_val => (items ++ [mk_item hash_val text], out)
          | None => (items, out ++ [InvalidHash line_num])
          end
      | None => (items, out ++ [MissingSeparator line_num])
      end
  end.

(** [load_txt_items], on the lines the opened file yields: the
    returned items and the warnings printed on the way. *)
Definition load_txt_items_out (f : list str)
  : list item * list warning :=
  fold_left load_line (enumerate 1 f) ([], []).

(** What [load_txt_items] returns. *)
Definition load_txt_items (f : list str) : list item :=
  fst (load_txt_items_out f).

End Loader.

End Whm.

(* ================================================================== *)
(** * [re.fullmatch] on the patterns of main.py *)

Module Re.

(** A bracket expression, as its inclusive ranges of code points. *)
Definition charset := list (Z * Z).

Definition in_set (cs : charset) (c : Z) : bool :=
  existsb (fun r => (fst r <=? c) && (c <=? snd r)) cs.

(** The patterns of the source are built from [Cls] (one character of a
    set), [Rep] (a set repeated [lo] to [hi] times; no [hi] for [+]) and
    [Seq]; [Empty], [Eps] and [Alt] arise as derivatives. *)
Inductive regex : Type :=
| Empty
| Eps
| Cls (cs : charset)
| Rep (cs : charset) (lo : nat) (hi : option nat)
| Seq (r1 r2 : regex)
| Alt (r1 r2 : regex).

Fixpoint nullable (r : regex) : bool :=
  match r with
  | Empty => false
  | Eps => true
  | Cls _ => false
  | Rep _ lo _ => (lo =? 0)%nat
  | Seq r1 r2 => nullable r1 && nullable r2
  | Alt r1 r2 => nullable r1 || nullable r2
  end.

(** What is left of [r] after reading the character [c]. *)
Fixpoint deriv (c : Z) (r : regex) : regex :=
  match r with
  | Empty => Empty
  | Eps => Empty
  | Cls cs => if in_set cs c then Eps else Empty
  | Rep cs lo hi =>
      if in_set cs c then
        match hi with
        | None => Rep cs (pred lo) None
        | Some O => Empty
        | Some (S h) => Rep cs (pred lo) (Some h)
        end
      else Empty
  | Seq r1 r2 =>
      if nullable r1 then Alt (Seq (deriv c r1) r2) (deriv c r2)
      else Seq (deriv c r1) r2
  | Alt r1 r2 => Alt (deriv c r1) (deriv c r2)
  end.

(** [re.fullmatch(r, s) is not None] *)
Fixpoint fullmatch (r : regex) (s : str) : bool :=
  match s with
  | [] => nullable r
  | c :: s' => fullmatch (deriv c r) s'
  end.

Definition digit : charset := [(48, 57)].          (* 0-9 *)
Definition upper : charset := [(65, 90)].          (* A-Z *)
Definition lower : charset := [(97, 122)].         (* a-z *)
Definition underscore : charset := [(95, 95)].     (* _ *)
Definition hexdigit : charset := [(48, 57); (97, 102); (65, 70)].

End Re.

(* ================================================================== *)
(** * main.py: key validation and the standard text import *)

Module Main.

Import Re Files.

(** The [version] argument: the four dialect tags the code tests for,
    and any other value. *)
Inductive version : Type := VC | SA | III | IV | OtherVersion.

(** The [file_type] argument: ['dat'], or anything else (['gxt']). *)
Inductive file_type : Type := Gxt | Dat.

(** r'0[xX][0-9a-fA-F]{8}' *)
Definition re_hash : regex :=
  Seq (Cls [(48, 48)]) (Seq (Cls [(120, 120); (88, 88)])
                            (Rep hexdigit 8 (Some 8%nat))).
(** r'[0-9A-Z_]{1,7}' *)
Definition re_vc : regex := Rep (digit ++ upper ++ underscore) 1 (Some 7%nat).
(** r'[0-9a-fA-F]{1,8}' *)
Definition re_sa : regex := Rep hexdigit 1 (Some 8%nat).
(** r'[0-9a-zA-Z_]{1,7}' *)
Definition re_iii : regex :=
  Rep (digit ++ lower ++ upper ++ underscore) 1 (Some 7%nat).
(** r'[A-Za-z0-9_]+' *)
Definition re_iv_plain : regex :=
  Rep (upper ++ lower ++ digit ++ underscore) 1 None.

(** [key.lower().startswith('0x')].  Lower-casing is character by
    character here: only '0' lower-cases to '0', and only 'x' and 'X'
    to 'x'. *)
Definition lower_startswith_0x (key : str) : bool :=
  match key with
  | c0 :: c1 :: _ => (c0 =? 48) && ((c1 =? 120) || (c1 =? 88))
  | _ => false
  end.

Definition _validate_key_static (key : str) (v : version) (ft : file_type)
  : bool :=
  match ft with
  | Dat => fullmatch re_hash key
  | Gxt =>
      match v with
      | VC => fullmatch re_vc key
      | SA => fullmatch re_sa key
      | III => fullmatch re_iii key
      | IV =>
          if lower_startswith_0x key then fullmatch re_hash key
          else fullmatch re_iv_plain key
      | OtherVersion => true
      end
  end.

(** The messages of [_get_key_validation_message], by their case. *)
Inductive message : Type :=
| NoMessage      (* "" *)
| MsgDat         (* DAT文件键名必须是0x或0X开头的8位十六进制数 *)
| MsgVC          (* VC键名必须是1-7位数字、大写字母或下划线 *)
| MsgSA          (* SA键名必须是1-8位十六进制数 *)
| MsgIII         (* III键名必须是1-7位数字、字母或下划线 *)
| MsgIV          (* IV键名必须是字母数字下划线组成的明文，或是0x/0X开头的8位十六进制数 *)
| MsgOther.      (* 键名格式不正确 *)

Definition _get_key_validation_message (v : version) (ft : file_type)
  : message :=
  match ft with
  | Dat => MsgDat
  | Gxt =>
      match v with
      | VC => MsgVC
      | SA => MsgSA
      | III => MsgIII
      | IV => MsgIV
      | OtherVersion => MsgOther
      end
  end.

Definition _validate_key_for_import_optimized (key : str) (v : version)
  : bool * message :=
  if _validate_key_static key v Gxt then (true, NoMessage)
  else (false, _get_key_validation_message v Gxt).

(** A Python [dict] with [str] keys, in insertion order. *)
Definition dict (V : Type) := list (str * V).

Fixpoint dict_get {V} (d : dict V) (k : str) : option V :=
  match d with
  | [] => None
  | (k', v) :: d' => if str_eqb k' k then Some v else dict_get d' k
  end.

(** [k in d] *)
Definition dict_mem {V} (d : dict V) (k : str) : bool :=
  match dict_get d k with Some _ => true | None => false end.

(** [d[k] = v]: an existing key keeps its place, a new one goes last. *)
Fixpoint dict_set {V} (d : dict V) (k : str) (v : V) : dict V :=
  match d with
  | [] => [(k, v)]
  | (k', v') :: d' =>
      if str_eqb k' k then (k', v) :: d' else (k', v') :: dict_set d' k v
  end.

Definition table := dict str.
Definition archive := dict table.

(** An entry of [invalid_keys]: (key, line_num, file_path, msg). *)
Definition key_error : Type := str * Z * str * message.

(** The variables the loops of [_load_standard_txt] update. *)
Record state : Type := mk_state {
  data : archive;
  invalid_keys : list key_error;
  current_table : option str
}.

Definition startswith_char (c : Z) (s : str) : bool :=
  match s with
  | c' :: _ => c' =? c
  | [] => false
  end.

Definition endswith_char (c : Z) (s : str) : bool :=
  startswith_char c (rev s).

(** The body of the inner loop, on one numbered line of [file_path]. *)
Definition load_line (has_tables : bool) (v : version) (file_path : str)
  (st : state) (nl : Z * str) : result state :=
  let '(line_num, line) := nl in
  let line := strip line in
  match line with
  | [] => Ok st
  | _ =>
      if has_tables && startswith_char 91 line && endswith_char 93 line
      then
        let name := strip (slice line 1 (len line - 1)) in
        let d :=
          match name with
          | [] => data st
          | _ => if dict_mem (data st) name then data st
                 else dict_set (data st) name []
          end in
        Ok (mk_state d (invalid_keys st) (Some name))
      else
        match split_once 61 line, current_table st with
        | Some (key, value), Some cur =>
            let key := strip key in
            let '(is_valid, msg) :=
              _validate_key_for_import_optimized key v in
            if negb is_valid then
              Ok (mk_state (data st)
                    (invalid_keys st ++ [(key, line_num, file_path, msg)])
                    (current_table st))
            else
              match key with
              | [] => Ok st
              | _ =>
                  match dict_get (data st) cur with
                  | None => Raise KeyError
                  | Some t =>
                      Ok (mk_state
                            (dict_set (data st) cur
                               (dict_set t key (strip value)))
                            (invalid_keys st) (current_table st))
                  end
              end
        | _, _ => Ok st
        end
  end.

(** A [for] loop whose body may raise. *)
Fixpoint fold_result {S A} (f : S -> A -> result S) (xs : list A) (s : S)
  : result S :=
  match xs with
  | [] => Ok s
  | x :: xs' => s' <- f s x ;; fold_result f xs' s'
  end.

(** The loop over the lines of one file. *)
Definition load_file (has_tables : bool) (v : version) (st : state)
  (file : str * list str) : result state :=
  let '(file_path, f) := file in
  fold_result (load_line has_tables v file_path) (enumerate 1 f) st.

Definition MAIN : str := lit "MAIN".

(** [_load_standard_txt(files, has_tables, version)] on files that open
    and are read to their end; a file is its path and the lines it
    yields. *)
Definition _load_standard_txt (files : list (str * list str))
  (has_tables : bool) (v : version)
  : result (archive * list key_error) :=
  let init :=
    mk_state (if has_tables then [] else [(MAIN, [])]) []
             (if has_tables then None else Some MAIN) in
  st <- fold_result (load_file has_tables v) files init ;;
  Ok (data st, invalid_keys st).

(** The body of the loop over the files, [open] and the reading
    included: [open] may raise; the lines the file yields go through the
    inner loop; the reading may end with an exception instead of the end
    of the file. *)
Definition load_text_file (has_tables : bool) (v : version) (st : state)
  (file : str * text_file) : result state :=
  let '(file_path, f) := file in
  match f with
  | CannotOpen e => Raise e
  | Yields lines stop =>
      st <- fold_result (load_line has_tables v file_path)
                        (enumerate 1 lines) st ;;
      match stop with
      | None => Ok st
      | Some e => Raise e
      end
  end.

(** [_load_standard_txt(files, has_tables, version)]; a file is its path
    and what [open] gives for it. *)
Definition _load_standard_txt_files (files : list (str * text_file))
  (has_tables : bool) (v : version)
  : result (archive * list key_error) :=
  let init :=
    mk_state (if has_tables then [] else [(MAIN, [])]) []
             (if has_tables then None else Some MAIN) in
  st <- fold_result (load_text_file has_tables v) files init ;;
  Ok (data st, invalid_keys st).

End Main.

(* ================================================================== *)
(** * The properties of the specification, as definitions *)

Module Spec.

Import Codec Struct Whm Re Main.

(** ** The patch-table layout *)

(** A value that fits a [uint32] field. *)
Definition u32 (v : Z) : Prop := 0 <= v < 4294967296.

(** A NUL-terminated string. *)
Definition cstring (e : bytes) : bytes := e ++ [x00].

(** The blob: the NUL-terminated strings, one after the other. *)
Definition blob_of (encs : list bytes) : bytes := concat (map cstring encs).

(** Where string number [k] starts in the blob. *)
Definition offset_of (encs : list bytes) (k : nat) : Z :=
  len (blob_of (firstn k encs)).

(** The header pair of entry number [k]. *)
Definition header_entry (encs : list bytes) (p : item * nat) : bytes :=
  le32 (hash (fst p)) ++ le32 (offset_of encs (snd p)).

(** The whole file for [items] whose texts encode to [encs]. *)
Definition layout (items : list item) (encs : list bytes) : bytes :=
  le32 (len items)
  ++ concat (map (header_entry encs) (combine items (seq 0 (length items))))
  ++ le32 (len (blob_of encs))
  ++ blob_of encs.

(** [encs] are the UTF-8 forms of the texts of [items]. *)
Definition encoded (items : list item) (encs : list bytes) : Prop :=
  Forall2 (fun it e => utf8_encode (text it) = Ok e) items encs.

(** A buffer that holds everything its header announces. *)
Definition complete (data : bytes) (blob_start blob_size : Z) : Prop :=
  blob_start + blob_size <= len data.

(** A byte other than NUL. *)
Definition nonzero (b : byte) : Prop := byte_val b <> 0.

(** A text of Unicode scalar values without the NUL character. *)
Definition c_text (t : str) : Prop :=
  Forall (fun c => is_scalar c = true /\ c <> 0) t.

(** What an entry reads back as. *)
Definition read_back (it : item) : item :=
  match text it with
  | [] => mk_item (hash it) BINARY
  | _ => it
  end.

(** The part of a text before its first NUL character. *)
Fixpoint before_nul (t : str) : str :=
  match t with
  | [] => []
  | c :: r => if c =? 0 then [] else c :: before_nul r
  end.

(** What a written entry reads back as, whatever its text: the text cut
    before its first NUL character, the placeholder when nothing is
    left. *)
Definition read_back_cut (it : item) : item :=
  read_back (mk_item (hash it) (before_nul (text it))).

(** ** First success in an ordered list of decoders *)

Definition fails (bts : bytes) (enc : encoding) : Prop :=
  is_ok (decode enc bts) = false.

(** [s] is what the first encoding of [encs] that decodes [bts] gives. *)
Definition first_success (encs : list encoding) (bts : bytes) (s : str)
  : Prop :=
  exists before enc after,
    encs = before ++ enc :: after
    /\ Forall (fails bts) before
    /\ decode enc bts = Ok s.

(** ** The key patterns of the specification's table *)

Definition is_digit (c : Z) : bool := (48 <=? c) && (c <=? 57).
Definition is_upper (c : Z) : bool := (65 <=? c) && (c <=? 90).
Definition is_lower (c : Z) : bool := (97 <=? c) && (c <=? 122).
Definition is_letter (c : Z) : bool := is_upper c || is_lower c.
Definition is_underscore (c : Z) : bool := c =? 95.
Definition is_hex (c : Z) : bool :=
  is_digit c || ((97 <=? c) && (c <=? 102)) || ((65 <=? c) && (c <=? 70)).

(** [lo] to [hi] characters, each satisfying [p]. *)
Definition chars_between (lo hi : nat) (p : Z -> bool) (key : str) : bool :=
  (lo <=? length key)%nat && (length key <=? hi)%nat && forallb p key.

(** plain-7: 1-7 characters, digits/letters/underscore. *)
Definition plain_7 : str -> bool :=
  chars_between 1 7 (fun c => is_digit c || is_letter c || is_underscore c).

(** hashed-short-upper: 1-7 characters, digits/uppercase/underscore. *)
Definition hashed_short_upper : str -> bool :=
  chars_between 1 7 (fun c => is_digit c || is_upper c || is_underscore c).

(** hashed-8hex: 1-8 hex digits. *)
Definition hashed_8hex : str -> bool := chars_between 1 8 is_hex.

(** A bare identifier: letters/digits/underscore, any length (at least
    one character). *)
Definition bare_identifier (key : str) : bool :=
  (1 <=? length key)%nat
  && forallb (fun c => is_letter c || is_digit c || is_underscore c) key.

(** [0x] followed by exactly 8 hex digits. *)
Definition zero_x_8hex (key : str) : bool :=
  match key with
  | c0 :: c1 :: ds => (c0 =? 48) && (c1 =? 120) && chars_between 8 8 is_hex ds
  | _ => false
  end.

(** plain-or-hash: a bare identifier OR [0x] + 8 hex digits. *)
Definition plain_or_hash (key : str) : bool :=
  bare_identifier key || zero_x_8hex key.

(** [0x] or [0X] followed by exactly 8 hex digits: what the code's
    pattern for a hash key says. *)
Definition zero_xX_8hex (key : str) : bool :=
  match key with
  | c0 :: c1 :: ds =>
      (c0 =? 48) && ((c1 =? 120) || (c1 =? 88)) && chars_between 8 8 is_hex ds
  | _ => false
  end.

(** ** The lines of the interchange text *)

(** The grammar of 4.5: a blank line, a [[name]] header (only when the
    dialect has tables), a [key=value] line, or a line of none of these
    shapes, which lacks the separator. *)
Inductive line_kind : Type :=
| Blank
| Header (name : str)
| KeyValue (key value : str)
| NoSeparator.

Definition classify (has_tables : bool) (line : str) : line_kind :=
  let l := strip line in
  match l with
  | [] => Blank
  | _ =>
      if has_tables && startswith_char 91 l && endswith_char 93 l
      then Header (strip (slice l 1 (len l - 1)))
      else match split_once 61 l with
           | Some (k, v) => KeyValue (strip k) (strip v)
           | None => NoSeparator
           end
  end.

(** A [key=value] line whose key fails the rule of the dialect. *)
Definition invalid_key_line (has_tables : bool) (v : version) (line : str)
  : bool :=
  match classify has_tables line with
  | KeyValue k _ => negb (_validate_key_static k v Gxt)
  | _ => false
  end.

(** A non-blank, non-header line without ['=']. *)
Definition missing_separator (has_tables : bool) (line : str) : bool :=
  match classify has_tables line with
  | NoSeparator => true
  | _ => false
  end.

(** The text with the lines chosen by [p] emptied; the other lines keep
    their numbers. *)
Definition blank_where (p : str -> bool) (f : list str) : list str :=
  map (fun line => if p line then [] else line) f.

(** The errors the import owes for numbered lines: one for each
    [key=value] line with an invalid key that stands under a table
    ([in_table]: a header was met, or the dialect has no tables). *)
Fixpoint reported (has_tables : bool) (v : version) (file_path : str)
  (in_table : bool) (lines : list (Z * str)) : list key_error :=
  match lines with
  | [] => []
  | (n, line) :: rest =>
      match classify has_tables line with
      | Header _ => reported has_tables v file_path true rest
      | KeyValue k _ =>
          (if in_table && negb (_validate_key_static k v Gxt)
           then [(k, n, file_path, _get_key_validation_message v Gxt)]
           else [])
          ++ reported has_tables v file_path in_table rest
      | _ => reported has_tables v file_path in_table rest
      end
  end.

(** No table header with an empty name. *)
Definition named_headers (has_tables : bool) (f : list str) : Prop :=
  Forall (fun line => classify has_tables line <> Header []) f.

Definition nonempty {A} (l : list A) : bool :=
  match l with [] => false | _ => true end.

(** The value the lines give to [key] in the table [table_name]: the
    value of the last [key=value] line with this key that stands under
    a header of this name, the key being accepted by the dialect and not
    empty.  [cur] is the table the lines begin in, if any, and [before]
    the value so far. *)
Fixpoint stored (has_tables : bool) (v : version) (cur : option str)
  (lines : list str) (table_name key : str) (before : option str)
  : option str :=
  match lines with
  | [] => before
  | line :: rest =>
      match classify has_tables line with
      | Header name =>
          stored has_tables v (Some name) rest table_name key before
      | KeyValue k value =>
          stored has_tables v cur rest table_name key
            (match cur with
             | Some c =>
                 if _validate_key_static k v Gxt && nonempty k
                    && str_eqb c table_name && str_eqb k key
                 then Some value else before
             | None => before
             end)
      | _ => stored has_tables v cur rest table_name key before
      end
  end.

(** Whether the lines have a header with the name [table_name]. *)
Definition has_header (has_tables : bool) (lines : list str)
  (table_name : str) : bool :=
  existsb (fun line =>
             match classify has_tables line with
             | Header name => str_eqb name table_name
             | _ => false
             end) lines.

(** A text with entries before its first header, a key the dialect
    refuses, a key given twice and a second table. *)
Definition sample_text : list str :=
  [lit "early=1"; lit "[T1]"; lit "ABC=hello"; lit "bad-key=x";
   lit "XYZ = world "; lit "[T2]"; lit "ABC=other"; lit "[T1]";
   lit "ABC=again"].

(** What one line of the patch-table text adds to the items, and what
    it makes [load_txt_items] print. *)
Definition line_items (ud : Z -> option Z) (line : str) : list item :=
  match classify false line with
  | KeyValue _ _ =>
      match split_once 61 (strip line) with
      | Some (key, t) =>
          match PyInt.int16 ud key with
          | Some v => [mk_item v t]
          | None => []
          end
      | None => []
      end
  | _ => []
  end.

Definition line_warnings (ud : Z -> option Z) (nl : Z * str)
  : list warning :=
  match classify false (snd nl) with
  | KeyValue _ _ =>
      match split_once 61 (strip (snd nl)) with
      | Some (key, _) =>
          match PyInt.int16 ud key with
          | Some _ => []
          | None => [InvalidHash (fst nl)]
          end
      | None => []
      end
  | NoSeparator => [Whm.MissingSeparator (fst nl)]
  | _ => []
  end.

(** The state with another error list. *)
Definition with_errors (st : state) (errs : list key_error) : state :=
  mk_state (data st) errs (current_table st).

(** The current table, when there is one, is a table of the archive. *)
Definition table_open (st : state) : Prop :=
  forall cur, current_table st = Some cur -> dict_mem (data st) cur = true.

Definition is_some {A} (o : option A) : bool :=
  match o with Some _ => true | None => false end.

(** ** Concrete tables *)

(** The bytes of an ASCII literal. *)
Definition blit (s : string) : bytes := list_byte_of_string s.

(** The two entries of the specification's scenario. *)
Definition hello_world : list item :=
  [mk_item 3735928559 (lit "Hello"); mk_item 1 (lit "World")].

Definition hello_world_utf8 : list bytes := [blit "Hello"; blit "World"].

(** A table with an empty text between two others. *)
Definition with_empty : list item :=
  [mk_item 7 (lit "a"); mk_item 8 []; mk_item 9 (lit "b")].

Definition with_empty_utf8 : list bytes := [blit "a"; []; blit "b"].

(** A text with a NUL character inside. *)
Definition with_nul : list item := [mk_item 1 [97; 0; 98]].

(** Texts with NUL characters: inside, in front, and twice. *)
Definition with_nuls : list item :=
  [mk_item 1 [97; 0; 98]; mk_item 2 [0; 99]; mk_item 3 [100; 101; 0; 0; 102]].

Definition with_nuls_utf8 : list bytes :=
  [[x61; x00; x62]; [x00; x63]; [x64; x65; x00; x00; x66]].

(** A buffer of two entries over the five-byte blob "AB\0CD": the
    first at offset 0, the second at offset 5, the blob size. *)
Definition boundary_buffer : bytes :=
  le32 2 ++ (le32 1 ++ le32 0) ++ (le32 2 ++ le32 5) ++ le32 5
  ++ blit "AB" ++ [x00] ++ blit "CD".

(** The same header over a file cut short inside the blob: five blob
    bytes are announced, two are there. *)
Definition truncated_buffer : bytes :=
  le32 2 ++ (le32 1 ++ le32 0) ++ (le32 2 ++ le32 5) ++ le32 5
  ++ blit "AB".

(** A buffer of one entry whose text is the single byte 0xE9: not
    UTF-8, U+00E9 in the fallback encoding. *)
Definition fallback_buffer : bytes :=
  le32 1 ++ (le32 5 ++ le32 0) ++ le32 2 ++ [xe9; x00].

(** A buffer of two entries over the blob "A\0\0": the second entry
    points at the last NUL. *)
Definition nul_buffer : bytes :=
  le32 2 ++ (le32 1 ++ le32 0) ++ (le32 2 ++ le32 2) ++ le32 3
  ++ blit "A" ++ [x00; x00].

End Spec.

(* ================================================================== *)
(** * [format(n, "08X")] *)

Module Fmt.

Definition upper_hex_digit (n : Z) : Z := if n <? 10 then 48 + n else 55 + n.

(** The hexadecimal digits of [n >= 0], most significant first; [fuel]
    bounds their number. *)
Fixpoint to_hex (fuel : nat) (n : Z) : str :=
  match fuel with
  | O => []
  | S fuel' =>
      if n <? 16 then [upper_hex_digit n]
      else to_hex fuel' (n / 16) ++ [upper_hex_digit (n mod 16)]
  end.

(** [format(n, "X")] for [n >= 0]: a number below [2 ^ (k + 1)] has at
    most [k + 1] hexadecimal digits. *)
Definition format_X (n : Z) : str := to_hex (S (Z.to_nat (Z.log2 n))) n.

(** Zero padding on the left, up to [width] characters. *)
Definition zfill (width : nat) (s : str) : str :=
  repeat 48 (width - length s) ++ s.

(** [format(n, "08X")]: the sign counts in the width. *)
Definition format_08X (n : Z) : str :=
  if n <? 0 then 45 :: zfill 7 (format_X (- n)) else zfill 8 (format_X n).

End Fmt.

(* ================================================================== *)
(** * whm_table.py: the text side and the command line *)

Module WhmTxt.

Import Codec Files Struct Whm Fmt.

(** The line [save_txt_items] writes for one item, without its end. *)
Definition item_line (it : item) : str :=
  (lit "0x" ++ format_08X (hash it)) ++ [61] ++ text it.

(** [save_txt_items]: the file written to [txt_path], one [write] for
    each item. *)
Definition save_txt_items (items : list item) : out_file :=
  fold_left (fun f it => write f (item_line it ++ [10])) items opened.

(** The text of a file of items: one line for each. *)
Fixpoint items_text (items : list item) : str :=
  match items with
  | [] => []
  | it :: rest => item_line it ++ [10] ++ items_text rest
  end.

(** The command [parse]: the binary file in, the text file out. *)
Definition cmd_parse (data : bytes) : result str :=
  items <- parse_whm_table data ;; close (save_txt_items items).

Section CommandDump.

Variable unicode_decimal : Z -> option Z.

(** The command [dump]: the text file in, the binary file out. *)
Definition cmd_dump (content : str) : result bytes :=
  dump_whm_table (load_txt_items unicode_decimal (readlines content)).

End CommandDump.

End WhmTxt.

(* ================================================================== *)
(** * main.py: opening and saving a whm_table.dat *)

Module Dat.

Import Codec Struct Whm Fmt Main.

(** [f'0x{item["hash"]:08X}'] *)
Definition whm_key (h : Z) : str := lit "0x" ++ format_08X h.

(** The loop of [open_dat]: the table "whm_table" built from the items. *)
Definition open_dat_table (items : list item) : table :=
  fold_left (fun t it => dict_set t (whm_key (hash it)) (text it)) items [].

Section Save.

Variable unicode_decimal : Z -> option Z.

(** The loop of [_save_to_path] for a 'dat' file: a key that [int(key,
    16)] refuses is skipped. *)
Definition items_to_dump (table_content : table) : list item :=
  fold_left
    (fun items kt =>
       match PyInt.int16 unicode_decimal (fst kt) with
       | Some hash_val => items ++ [mk_item hash_val (snd kt)]
       | None => items
       end)
    table_content [].

(** What [_save_to_path] writes for a 'dat' file. *)
Definition save_dat (table_content : table) : result bytes :=
  dump_whm_table (items_to_dump table_content).

End Save.

End Dat.

(* ================================================================== *)
(** * Properties of the further code, as definitions *)

Module Props.

Import Codec Struct Whm Re Main Fmt.

(** A text without a line break. *)
Definition one_line (t : str) : Prop := Forall (fun c => c <> 10 /\ c <> 13) t.

(** A text that does not end in white space. *)
Definition no_trailing_space (t : str) : Prop := lstrip (rev t) = rev t.

(** A text that does not begin with white space. *)
Definition no_leading_space (t : str) : Prop := lstrip t = t.

(** The value of a hexadecimal digit (0 for any other character). *)
Definition digit_value (c : Z) : Z :=
  match PyInt.digit16 c with Some d => d | None => 0 end.

(** The number a string of hexadecimal digits writes. *)
Definition hex_value (s : str) : Z :=
  fold_left (fun acc c => 16 * acc + digit_value c) s 0.

(** A table of three items with non-trivial hashes. *)
Definition three_items : list item :=
  [mk_item 3735928559 (lit "Hello"); mk_item 1 (lit " = World"); mk_item 255 []].

End Props.

(* ================================================================== *)
(** * What the import of a text keeps true *)

Module Loader.

Import Codec Struct Whm Re Main Spec.

Definition is_nil {A} (l : list A) : bool :=
  match l with [] => true | _ => false end.

(** Whether the header read last, if any, had an empty name. *)
Fixpoint unnamed_after (has_tables : bool) (unnamed : bool) (f : list str)
  : bool :=
  match f with
  | [] => unnamed
  | line :: rest =>
      match classify has_tables line with
      | Header name => unnamed_after has_tables (is_nil name) rest
      | _ => unnamed_after has_tables unnamed rest
      end
  end.

(** Whether some [key=value] line with a key that is valid and not empty
    stands under a header with an empty name. *)
Fixpoint unnamed_entry (has_tables : bool) (v : version) (unnamed : bool)
  (f : list str) : bool :=
  match f with
  | [] => false
  | line :: rest =>
      match classify has_tables line with
      | Header name => unnamed_entry has_tables v (is_nil name) rest
      | KeyValue k _ =>
          (unnamed && _validate_key_static k v Gxt && negb (is_nil k))
          || unnamed_entry has_tables v unnamed rest
      | _ => unnamed_entry has_tables v unnamed rest
      end
  end.

(** A table as the import builds it: no key twice, every key valid for
    the dialect and not empty, every value stripped. *)
Definition valid_table (v : version) (t : table) : Prop :=
  NoDup (map fst t)
  /\ Forall (fun kv => fst kv <> []
                       /\ _validate_key_static (fst kv) v Gxt = true
                       /\ strip (snd kv) = snd kv) t.

(** An archive as the import builds it: no table twice, every table
    named, every table valid. *)
Definition valid_archive (v : version) (a : archive) : Prop :=
  NoDup (map fst a)
  /\ Forall (fun nt => fst nt <> [] /\ valid_table v (snd nt)) a.

(** A file that opens and is read to its end. *)
Definition readable (file : str * Files.text_file) : Prop :=
  Files.failure (snd file) = None.

(** The lines the files yield, one file after the other. *)
Definition all_lines (files : list (str * Files.text_file)) : list str :=
  concat (map (fun file => Files.yielded (snd file)) files).

(** Two files: the first ends under a header without a name, the second
    begins with a line the dialect refuses. *)
Definition two_files (last_line : str) : list (str * Files.text_file) :=
  [(lit "a.txt", Files.Yields [lit "[T]"; lit "A=1"; lit "[ ]"] None);
   (lit "b.txt", Files.Yields [lit "bad key=1"; last_line] None)].

(** The key of an entry of [invalid_keys]. *)
Definition error_key (e : key_error) : str := fst (fst (fst e)).
Definition error_message (e : key_error) : message := snd e.

Definition rejected (v : version) (e : key_error) : Prop :=
  _validate_key_static (error_key e) v Gxt = false
  /\ error_message e = _get_key_validation_message v Gxt.

(** What holds of the variables of [_load_standard_txt] between two
    lines; [unnamed] tells whether the current table is the one of a
    header with an empty name. *)
Definition loader_inv (v : version) (unnamed : bool) (st : state) : Prop :=
  valid_archive v (data st)
  /\ Forall (rejected v) (invalid_keys st)
  /\ match current_table st with
     | None => unnamed = false
     | Some [] => unnamed = true
     | Some cur => unnamed = false /\ dict_mem (data st) cur = true
     end.

End Loader.

(* ================================================================== *)
(** * Merging an imported text into the open archive *)

Module Merge.

Import Main Loader.

(** [(table, key) in existing_keys] *)
Definition existing (data : archive) (table_name key : str) : bool :=
  match dict_get data table_name with
  | Some t => dict_mem t key
  | None => false
  end.

(** The first loop of [_merge_data_with_optimized_prompt]. *)
Definition conflicts (data temp_data : archive) : list (str * str) :=
  flat_map (fun nt =>
              flat_map (fun kv =>
                          if existing data (fst nt) (fst kv)
                          then [(fst nt, fst kv)] else [])
                       (snd nt))
           temp_data.

(** [d[k]] *)
Definition getitem {V} (d : dict V) (k : str) : result V :=
  match dict_get d k with
  | Some v => Ok v
  | None => Raise KeyError
  end.

(** The body of the inner loop of the merge, on [self.data] and the two
    counters. *)
Definition merge_entry (should_overwrite : bool) (table_name : str)
  (acc : archive * Z * Z) (kv : str * str) : result (archive * Z * Z) :=
  let '(data, added_count, overwritten_count) := acc in
  let '(key, value) := kv in
  t <- getitem data table_name ;;
  if dict_mem t key then
    if should_overwrite then
      Ok (dict_set data table_name (dict_set t key value),
          added_count, overwritten_count + 1)
    else Ok acc
  else
    Ok (dict_set data table_name (dict_set t key value),
        added_count + 1, overwritten_count).

(** The body of the outer loop. *)
Definition merge_table (should_overwrite : bool) (acc : archive * Z * Z)
  (nt : str * table) : result (archive * Z * Z) :=
  let '(data, added_count, overwritten_count) := acc in
  let '(table_name, table_data) := nt in
  let data :=
    if negb (dict_mem data table_name) then dict_set data table_name []
    else data in
  fold_result (merge_entry should_overwrite table_name) table_data
    (data, added_count, overwritten_count).

(** What the merge leaves behind: [self.data], whether the question was
    asked, the two counters of the closing message, and whether
    [set_modified(True)] was called. *)
Record outcome : Type := mk_outcome {
  new_data : archive;
  asked : bool;
  added_count : Z;
  overwritten_count : Z;
  set_modified : bool
}.

(** [_merge_data_with_optimized_prompt(temp_data)] on [self.data];
    [answer] tells whether the user, if asked, chooses to overwrite. *)
Definition _merge_data_with_optimized_prompt (data temp_data : archive)
  (answer : bool) : result outcome :=
  let cs := conflicts data temp_data in
  let should_overwrite := if is_nil cs then false else answer in
  '(d, added, overwritten) <-
     fold_result (merge_table should_overwrite) temp_data (data, 0, 0) ;;
  Ok (mk_outcome d (negb (is_nil cs)) added overwritten
                 ((0 <? added) || (0 <? overwritten))).

(** [data[table][key]], when both are there. *)
Definition lookup (a : archive) (table_name key : str) : option str :=
  match dict_get a table_name with
  | Some t => dict_get t key
  | None => None
  end.

(** The (table, key) pairs of an archive, in order. *)
Definition pairs (a : archive) : list (str * str) :=
  flat_map (fun nt => map (fun kv => (fst nt, fst kv)) (snd nt)) a.

(** An archive that is a dictionary of dictionaries: no key twice. *)
Definition is_dict {V} (d : dict V) : Prop := NoDup (map fst d).

Definition is_archive (a : archive) : Prop :=
  is_dict a /\ Forall (fun nt => is_dict (snd nt)) a.

(** [self.data] and [temp_data] of a merge where the two share a key and
    the import brings a table without entries. *)
Definition open_archive : archive :=
  [(lit "MAIN", [(lit "A", lit "old"); (lit "B", lit "kept")])].

Definition imported : archive :=
  [(lit "MAIN", [(lit "A", lit "new"); (lit "C", lit "added")]);
   (lit "EMPTY", [])].

End Merge.

(* ================================================================== *)
(** * Exporting the archive as text *)

Module TxtExport.

Import Codec Files Main Loader Merge Props.

(** [a < b] on [str]: by code points, a proper prefix first. *)
Fixpoint str_ltb (a b : str) : bool :=
  match a, b with
  | _, [] => false
  | [], _ :: _ => true
  | x :: a', y :: b' => (x <? y) || ((x =? y) && str_ltb a' b')
  end.

(** [sorted(d.items())].  The keys of a dictionary differ, so the
    (key, value) tuples are ordered by their keys alone; the sort is the
    stable one, an item going before the items not smaller than it. *)
Fixpoint insert {V} (x : str * V) (l : dict V) : dict V :=
  match l with
  | [] => [x]
  | y :: l' => if str_ltb (fst y) (fst x) then y :: insert x l' else x :: l
  end.

Fixpoint sorted_items {V} (d : dict V) : dict V :=
  match d with
  | [] => []
  | x :: d' => insert x (sorted_items d')
  end.

(** [self.version != 'III'] *)
Definition not_III (v : version) : bool :=
  match v with III => false | _ => true end.

(** f"[{t}]\n" *)
Definition header_line (t : str) : str := [91] ++ t ++ [93; 10].

(** f"{k}={v}\n" *)
Definition entry_line (kv : str * str) : str := fst kv ++ [61] ++ snd kv ++ [10].

(** The text the body of the loop of [export_txt] writes for table
    number [i] when no write fails, its entries [d] being in the order
    they are written in. *)
Definition render_table (v : version) (it : Z * (str * table)) : str :=
  let '(i, (t, d)) := it in
  (if 0 <? i then [10; 10] else [])
  ++ (if not_III v then header_line t else [])
  ++ concat (map entry_line d).

(** The body of the loop of [export_txt] for table number [i]: its
    writes to the file [f]. *)
Definition write_table (v : version) (f : out_file) (it : Z * (str * table))
  : out_file :=
  let '(i, (t, d)) := it in
  let f := if 0 <? i then write f [10; 10] else f in
  let f := if not_III v then write f (header_line t) else f in
  fold_left (fun f kv => write f (entry_line kv)) (sorted_items d) f.

(** [export_txt(single=True)]: the file written, with the exception that
    ended the writing if there is one (the [except] clause reports it);
    [None] when there is no data and nothing is written. *)
Definition export_txt_single (data : archive) (v : version)
  : option out_file :=
  if is_nil data then None
  else Some (fold_left (write_table v) (enumerate 0 (sorted_items data))
                       opened).

(** [export_current_table]: the file written; [None] when no table is
    selected or the table has no entries. *)
Definition export_current_table (data : archive) (current_table : option str)
  (v : version) : option out_file :=
  match current_table with
  | None | Some [] => None
  | Some cur =>
      match dict_get data cur with
      | None | Some [] => None
      | Some d =>
          let f := opened in
          let f := if not_III v then write f (header_line cur) else f in
          Some (fold_left (fun f kv => write f (entry_line kv))
                          (sorted_items d) f)
      end
  end.

(** The strings written for table number [i], its entries [d] being in
    the order they are written in. *)
Definition render_chunks (v : version) (it : Z * (str * table)) : list str :=
  let '(i, (t, d)) := it in
  (if 0 <? i then [[10; 10]] else [])
  ++ (if not_III v then [header_line t] else [])
  ++ map entry_line d.

(** The lines of [render_table], without their line ends. *)
Definition table_lines (v : version) (it : Z * (str * table)) : list str :=
  let '(i, (t, d)) := it in
  (if 0 <? i then [[]; []] else [])
  ++ (if not_III v then [[91] ++ t ++ [93]] else [])
  ++ map (fun kv => fst kv ++ 61 :: snd kv) d.

(** The archive with its tables and their entries in sorted order. *)
Definition sorted_archive (a : archive) : archive :=
  map (fun nt => (fst nt, sorted_items (snd nt))) (sorted_items a).

(** A text the file, opened with the encoding UTF-8, takes: one of
    Unicode scalar values. *)
Definition encodable (t : str) : Prop := Forall (fun c => is_scalar c = true) t.

(** An archive whose export reads back: a valid one, with names and
    values that fit on a line, names without surrounding space, and
    names and values that can be encoded. *)
Definition exportable (v : version) (a : archive) : Prop :=
  valid_archive v a
  /\ Forall (fun nt => strip (fst nt) = fst nt
                       /\ one_line (fst nt)
                       /\ Forall (fun kv => one_line (snd kv)) (snd nt)) a
  /\ Forall (fun nt => encodable (fst nt)
                       /\ Forall (fun kv => encodable (snd kv)) (snd nt)) a.

(** An item whose key is smaller than the key of another. *)
Definition key_lt {V} (a b : str * V) : Prop :=
  str_ltb (fst a) (fst b) = true.

(** An archive of two tables, not in order. *)
Definition two_tables : archive :=
  [(lit "MAIN", [(lit "B", lit "two words"); (lit "A", lit "x=1")]);
   (lit "AUX", [])].

End TxtExport.

(* ================================================================== *)
(** * The characters of the archive that need a glyph *)

Module Chars.

Import Main Loader.

(** A Python [set] of characters: its elements, each once. *)
Definition set_mem (s : list Z) (c : Z) : bool := existsb (Z.eqb c) s.

(** [s.add(c)] *)
Definition set_add (s : list Z) (c : Z) : list Z :=
  if set_mem s c then s else s ++ [c].

(** [s.discard(c)] *)
Definition set_discard (s : list Z) (c : Z) : list Z :=
  filter (fun x => negb (x =? c)) s.

(** [{char for table in data.values() for value in table.values()
      for char in value}] *)
Definition all_chars (data : archive) : list Z :=
  fold_left set_add
    (flat_map (fun nt => flat_map snd (snd nt)) data) [].

(** The loop that keeps the characters above 255. *)
Definition special_chars (chars : list Z) : list Z :=
  fold_left (fun s c => if 255 <? c then set_add s c else s) chars [].

(** [sorted(list(s), key=lambda c: ord(c))] *)
Fixpoint insert_ord (c : Z) (l : list Z) : list Z :=
  match l with
  | [] => [c]
  | y :: l' => if y <? c then y :: insert_ord c l' else c :: l
  end.

Fixpoint sorted_ord (l : list Z) : list Z :=
  match l with
  | [] => []
  | c :: l' => insert_ord c (sorted_ord l')
  end.

Definition collect_and_filter_chars (data : archive) : str :=
  if is_nil data then []
  else
    let special := special_chars (all_chars data) in
    let special := set_discard special 8482 in    (* chr(0x2122) *)
    let special := set_discard special 12288 in   (* chr(0x3000) *)
    let special := set_discard special 65279 in   (* chr(0xFEFF) *)
    sorted_ord special.

(** [c] occurs in some value of the archive. *)
Definition occurs (data : archive) (c : Z) : Prop :=
  exists table_name t key value,
    In (table_name, t) data /\ In (key, value) t /\ In c value.

End Chars.

(* ================================================================== *)
(** * Saving a San Andreas archive: table order and integer keys *)

Module SaSave.

Import Main Loader Merge TxtExport.

(** The local function [table_sort_method] of [_save_to_path]. *)
Definition table_sort_method (lhs rhs : str) : bool :=
  if str_eqb rhs MAIN then false
  else if str_eqb lhs MAIN then true
  else str_ltb lhs rhs.

(** [sorted(items, key=cmp_to_key(lambda a, b: -1 if lt(a[0], b[0])
    else 1))]: the sort compares two keys with [<], which the wrapper
    answers by [lt] on the names. *)
Fixpoint insert_by {V} (lt : str -> str -> bool) (x : str * V) (l : dict V)
  : dict V :=
  match l with
  | [] => [x]
  | y :: l' => if lt (fst y) (fst x) then y :: insert_by lt x l' else x :: l
  end.

Fixpoint sorted_by {V} (lt : str -> str -> bool) (d : dict V) : dict V :=
  match d with
  | [] => []
  | x :: d' => insert_by lt x (sorted_by lt d')
  end.

Definition sa_sorted_items (data : archive) : archive :=
  sorted_by table_sort_method data.

(** A [dict] with [int] keys, in insertion order. *)
Fixpoint zdict_get (m : list (Z * str)) (n : Z) : option str :=
  match m with
  | [] => None
  | (n', v) :: m' => if n' =? n then Some v else zdict_get m' n
  end.

Fixpoint zdict_set (m : list (Z * str)) (n : Z) (v : str) : list (Z * str) :=
  match m with
  | [] => [(n, v)]
  | (n', v') :: m' =>
      if n' =? n then (n', v) :: m' else (n', v') :: zdict_set m' n v
  end.

Section WithUnicodeData.

Variable unicode_decimal : Z -> option Z.

(** [{int(k, 16): v for k, v in d.items()}] *)
Definition int_keys (d : table) : result (list (Z * str)) :=
  fold_result
    (fun m kv =>
       match PyInt.int16 unicode_decimal (fst kv) with
       | Some n => Ok (zdict_set m n (snd kv))
       | None => Raise ValueError
       end)
    d [].

(** [g.m_GxtData] as [_save_to_path] builds it for version SA. *)
Definition sa_gxt_data (data : archive)
  : result (list (str * list (Z * str))) :=
  for_each (fun nt => m <- int_keys (snd nt) ;; Ok (fst nt, m))
           (sa_sorted_items data).

End WithUnicodeData.

(** The value of the last entry of [d] whose key writes the number [n]. *)
Definition last_value (d : table) (n : Z) : option str :=
  option_map snd (find (fun kv => Props.hex_value (fst kv) =? n) (rev d)).

(** Two keys that write the same number in different ways. *)
Definition colliding : archive :=
  [(lit "ZZ", [(lit "1", lit "z")]);
   (lit "MAIN", [(lit "0a", lit "first"); (lit "B", lit "b"); (lit "A", lit "second")]);
   (lit "AA", [])].

End SaSave.

(* ================================================================== *)
(** * The dialog that adds or edits entries (EditKeyDialog) *)

Module Dialog.

Import Main Loader.

(** [s.split('\n')] *)
Fixpoint split_nl (s : str) : list str :=
  match s with
  | [] => [[]]
  | c :: r =>
      if c =? 10 then [] :: split_nl r
      else match split_nl r with
           | l :: ls => (c :: l) :: ls
           | [] => [[c]]
           end
  end.

(** [[line.strip() for line in content.split('\n') if line.strip()]] *)
Definition batch_lines (content : str) : list str :=
  map strip
      (filter (fun line => negb (is_nil (strip line))) (split_nl content)).

(** The entries of [errors], by their case. *)
Inductive batch_error : Type :=
| LineWithoutSeparator (i : Z)          (* 第 {i} 行: 缺少等号'='分隔符 *)
| LineEmptyKey (i : Z)                  (* 第 {i} 行: 键名不能为空 *)
| LineInvalidKey (i : Z) (msg : message).

(** The body of the loop over the numbered lines. *)
Definition parse_line (v : version) (ft : file_type)
  (acc : list (str * str) * list batch_error) (il : Z * str)
  : list (str * str) * list batch_error :=
  let '(parsed_pairs, errors) := acc in
  let '(i, line) := il in
  match split_once 61 line with
  | None => (parsed_pairs, errors ++ [LineWithoutSeparator i])
  | Some (key, value) =>
      let key := strip key in
      let value := strip value in
      if is_nil key then (parsed_pairs, errors ++ [LineEmptyKey i])
      else if negb (_validate_key_static key v ft) then
        (parsed_pairs,
         errors ++ [LineInvalidKey i (_get_key_validation_message v ft)])
      else (parsed_pairs ++ [(key, value)], errors)
  end.

(** How [accept] ends in one of the batch modes: with one of its three
    message boxes, the dialog staying open, or with [key_value_pairs]
    set and the dialog accepted. *)
Inductive verdict : Type :=
| LineCountMismatch
| NothingEntered
| InputErrors (errors : list batch_error)
| Accepted (key_value_pairs : list (str * str)).

(** [accept] when [is_batch_add_mode or is_batch_edit_mode]; [text] is
    the content of the editor. *)
Definition accept_batch (is_batch_add_mode is_batch_edit_mode : bool)
  (original_batch_keys : list str) (v : version) (ft : file_type)
  (text : str) : verdict :=
  let content := strip text in
  let lines := batch_lines content in
  if is_batch_edit_mode && negb (len lines =? len original_batch_keys)
  then LineCountMismatch
  else if is_nil lines && is_batch_add_mode then NothingEntered
  else
    let '(parsed_pairs, errors) :=
      fold_left (parse_line v ft) (enumerate 1 lines) ([], []) in
    if negb (is_nil errors) then InputErrors errors
    else Accepted parsed_pairs.

(** A line and the pair the dialog reads from it. *)
Definition reads_as (v : version) (ft : file_type) (line : str)
  (kv : str * str) : Prop :=
  exists key value,
    split_once 61 line = Some (key, value)
    /\ kv = (strip key, strip value)
    /\ strip key <> []
    /\ _validate_key_static (strip key) v ft = true.

(** [d[k] = v] for each pair in turn. *)
Definition store_all (pairs : list (str * str)) (t : table) : table :=
  fold_left (fun t kv => dict_set t (fst kv) (snd kv)) pairs t.

End Dialog.

(* ================================================================== *)
(** * Adding and editing entries of a table (add_key, edit_selected_items) *)

Module Entries.

Import Codec Main Loader Dialog.

(** The loop of [add_key] over the pairs of a batch, on the current
    table [self.data[self.current_table]], the counter and the list of
    the keys refused. *)
Definition add_pair (acc : table * Z * list str) (kv : str * str)
  : table * Z * list str :=
  let '(t, added_count, duplicate_keys) := acc in
  let '(key, value) := kv in
  if dict_mem t key then (t, added_count, duplicate_keys ++ [key])
  else (dict_set t key value, added_count + 1, duplicate_keys).

Definition add_key_batch (t : table) (pairs : list (str * str))
  : table * Z * list str :=
  fold_left add_pair pairs (t, 0, []).

(** The value of the first pair with key [k]. *)
Definition first_value (pairs : list (str * str)) (k : str) : option str :=
  option_map snd (find (fun kv => str_eqb (fst kv) k) pairs).

(** ["\n".join(lines)] *)
Fixpoint join_nl (lines : list str) : str :=
  match lines with
  | [] => []
  | [l] => l
  | l :: rest => l ++ 10 :: join_nl rest
  end.

(** [batch_text] of [edit_selected_items]: one line [k=v] for each
    selected entry. *)
Definition batch_text (entries : list (str * str)) : str :=
  join_nl (map (fun kv => fst kv ++ 61 :: snd kv) entries).

(** A character that the editor of the dialog gives back as it took
    it.  [QTextEdit.setPlainText] makes a paragraph break of a line
    feed, of a carriage return and of U+2029, U+FDD0 and U+FDD1;
    [toPlainText] returns a line feed for each paragraph break and for
    the line separator U+2028, and a space for the no-break space
    U+00A0.  So a line feed comes back as a line feed, and these other
    characters do not come back; NUL and the surrogates are left out as
    well. *)
Definition editor_keeps (c : Z) : bool :=
  is_scalar c
  && negb ((c =? 0) || (c =? 13) || (c =? 160) || (c =? 8232) || (c =? 8233)
           || (c =? 64976) || (c =? 64977)).

(** The dialog [edit_selected_items] opens for the selected entries,
    accepted with its text as it was shown: [setPlainText(batch_text)]
    in the constructor, [toPlainText()] in [accept].  [plain_text] is
    what the editor returns for the text it was given. *)
Definition edit_dialog (plain_text : str -> str) (entries : list (str * str))
  (v : version) (ft : file_type) : verdict :=
  accept_batch false true (map fst entries) v ft
               (plain_text (batch_text entries)).

(** An editor that converts character by character. *)
Definition editor_char (c : Z) : Z :=
  if (c =? 13) || (c =? 8232) || (c =? 8233) || (c =? 64976) || (c =? 64977)
  then 10
  else if c =? 160 then 32 else c.

Definition sample_editor (s : str) : str := map editor_char s.

(** The batch edit of the entries of one table (the search being local
    to the current table).  [edits_by_table[tbl][old_k] = (new_k,
    new_v)] over [zip(original_entries, new_pairs)]. *)
Definition edits_of (original_keys : list str) (new_pairs : list (str * str))
  : dict (str * str) :=
  fold_left (fun e p => dict_set e (fst p) (snd p))
            (combine original_keys new_pairs) [].

(** A key that occurs more than once ([cnt > 1] in the [Counter]). *)
Fixpoint has_duplicate (keys : list str) : bool :=
  match keys with
  | [] => false
  | k :: rest => existsb (str_eqb k) rest || has_duplicate rest
  end.

(** [set(self.data[t].keys()) - set(orig_keys)] *)
Definition other_keys (t : table) (original_keys : list str) : list str :=
  filter (fun k => negb (existsb (str_eqb k) original_keys)) (map fst t).

(** The loop that builds [new_table_dict]. *)
Definition rebuild (t : table) (edits : dict (str * str)) : table :=
  fold_left
    (fun new_table_dict kv =>
       match dict_get edits (fst kv) with
       | Some (new_key, new_value) => dict_set new_table_dict new_key new_value
       | None => dict_set new_table_dict (fst kv) (snd kv)
       end)
    t [].

(** How the batch edit ends once the dialog is accepted. *)
Inductive edit_outcome : Type :=
| CountMismatch          (* 批量编辑返回的数据与原始选择数不匹配 *)
| DuplicateKeys          (* 重复键 *)
| KeyConflict            (* 键名冲突 *)
| Updated (new_table : table).

Definition apply_batch_edit (t : table) (original_keys : list str)
  (new_pairs : list (str * str)) : edit_outcome :=
  if negb (len new_pairs =? len original_keys) then CountMismatch
  else if has_duplicate (map fst new_pairs) then DuplicateKeys
  else if existsb (fun k => existsb (str_eqb k) (other_keys t original_keys))
                  (map fst new_pairs)
       then KeyConflict
  else Updated (rebuild t (edits_of original_keys new_pairs)).

(** What an edit makes of one entry. *)
Definition edited (edits : dict (str * str)) (kv : str * str) : str * str :=
  match dict_get edits (fst kv) with
  | Some e => e
  | None => kv
  end.

End Entries.

(* ================================================================== *)
(** * Opening text files (open_txt, for the versions other than IV) *)

Module OpenTxt.

Import Files Main Loader Merge Dialog.

(** [temp_data[table_name].update(table_content)], the table being
    made first when it is missing. *)
Definition update_table (temp_data : archive) (nt : str * table)
  : result archive :=
  let '(table_name, table_content) := nt in
  let temp_data :=
    if negb (dict_mem temp_data table_name)
    then dict_set temp_data table_name [] else temp_data in
  t <- getitem temp_data table_name ;;
  Ok (dict_set temp_data table_name (store_all table_content t)).

(** The body of the loop over the files, the operation not being
    cancelled: a file with an invalid key adds its errors and nothing
    else. *)
Definition open_file (has_tables : bool) (v : version)
  (acc : archive * list key_error) (file : str * text_file)
  : result (archive * list key_error) :=
  let '(temp_data, all_invalid_keys) := acc in
  '(parsed_data, invalid_keys) <-
     _load_standard_txt_files [file] has_tables v ;;
  if negb (is_nil invalid_keys) then
    Ok (temp_data, all_invalid_keys ++ invalid_keys)
  else
    temp_data <- fold_result update_table parsed_data temp_data ;;
    Ok (temp_data, all_invalid_keys).

(** How [open_txt] ends: in its [except] clause, with the dialog of the
    invalid keys, or with [temp_data] handed on (to [self.data], or to
    the merge). *)
Inductive import_outcome : Type :=
| ImportFailed (e : exn)
| ImportRejected (all_invalid_keys : list key_error)
| Imported (temp_data : archive).

Definition open_txt_standard (files : list (str * text_file))
  (has_tables : bool) (v : version) : import_outcome :=
  match fold_result (open_file has_tables v) files ([], []) with
  | Raise e => ImportFailed e
  | Ok (temp_data, all_invalid_keys) =>
      if negb (is_nil all_invalid_keys) then ImportRejected all_invalid_keys
      else Imported temp_data
  end.

(** The value of [key] in [table_name] in the last of the archives that
    has one. *)
Definition last_lookup (archives : list archive) (table_name key : str)
  (before : option str) : option str :=
  fold_left (fun acc a =>
               match lookup a table_name key with
               | Some value => Some value
               | None => acc
               end) archives before.

End OpenTxt.

(* ================================================================== *)
(** * Tables of the archive: names, renaming *)

Module Tables.

Import Re Main Loader Merge.

(** [re.match('^' + r + '$', s) is not None] for a pattern [r] that
    matches no line feed: ['$'] stands at the end of the text, and also
    before a line feed that ends it. *)
Definition match_to_end (r : regex) (s : str) : bool :=
  fullmatch r s
  || match rev s with
     | 10 :: before => fullmatch r (rev before)
     | _ => false
     end.

(** [validate_table_name]; the patterns are those of the keys of VC and
    of III. *)
Definition validate_table_name (name : str) (v : version) : bool :=
  match v with
  | VC | SA => match_to_end re_vc name      (* r'^[0-9A-Z_]{1,7}$' *)
  | IV => match_to_end re_iii name          (* r'^[0-9a-zA-Z_]{1,7}$' *)
  | _ => true
  end.




End Tables.

(* ================================================================== *)
(** * The JSON variant of the codec (second half of whm_table.py) *)

Module Json.

Import Codec Struct Whm.

(** An item of the JSON file; [None] is a key that is missing or
    [null]. *)
Record jitem : Type := mk_jitem {
  jhash : Z;
  original : option str;
  translated : option str;
  desc : option str
}.

(** [decode_bytes] of the variant: the same codecs, and the empty text
    when all of them fail. *)
Fixpoint decode_loop (encs : list encoding) (bts : bytes) : result str :=
  match encs with
  | [] => Ok []
  | enc :: encs' =>
      match decode enc bts with
      | Ok s => Ok s
      | Raise _ => decode_loop encs' bts
      end
  end.

Definition decode_bytes (bts : bytes) : result str :=
  decode_loop encodings bts.

(** The body of the loop of [parse_whm_table]. *)
Definition entry_item (blob : bytes) (blob_size : Z) (e : Z * Z)
  : result jitem :=
  let '(h, off) := e in
  t <- (if (off <? 0) || (blob_size <=? off) then Ok []
        else
          j <- scan_nul blob blob_size (Z.to_nat (blob_size - off)) off ;;
          match slice blob off j with
          | [] => Ok []
          | bts => decode_bytes bts
          end) ;;
  Ok (mk_jitem (Z.land h 4294967295) (Some t) (Some []) (Some [])).

Definition parse_whm_table (data : bytes) : result (list jitem) :=
  '(entries, blob_start, blob_size) <- read_entries data ;;
  let blob := slice data blob_start (blob_start + blob_size) in
  for_each (entry_item blob blob_size) entries.

(** [item.get("translated") or item.get("original") or ""] *)
Definition chosen_text (it : jitem) : str :=
  match translated it with
  | Some (c :: t) => c :: t
  | _ =>
      match original it with
      | Some (c :: t) => c :: t
      | _ => []
      end
  end.

Fixpoint build_blob (items : list jitem) (blob : bytes) (offsets : list Z)
  : result (bytes * list Z) :=
  match items with
  | [] => Ok (blob, offsets)
  | it :: rest =>
      b <- utf8_encode (chosen_text it) ;;
      build_blob rest (blob ++ b ++ [x00]) (offsets ++ [len blob])
  end.

Fixpoint build_header (pairs : list (jitem * Z)) (header : bytes)
  : result bytes :=
  match pairs with
  | [] => Ok header
  | (it, off) :: rest =>
      e <- pack_II (jhash it) off ;;
      build_header rest (header ++ e)
  end.

Definition dump_whm_table (items : list jitem) : result bytes :=
  '(blob, offsets) <- build_blob items [] [] ;;
  let count := len items in
  header <- pack_I count ;;
  header <- build_header (combine items offsets) header ;;
  size <- pack_I (len blob) ;;
  Ok ((header ++ size) ++ blob).

(** The item of the first variant that a JSON item is written as. *)
Definition written (it : jitem) : item := mk_item (jhash it) (chosen_text it).

(** The item of the first variant for an item the JSON variant reads:
    the placeholder for the empty text. *)
Definition read_as (it : jitem) : item :=
  mk_item (jhash it)
          (match original it with
           | Some (c :: t) => c :: t
           | _ => BINARY
           end).

End Json.

(* ================================================================== *)
(** * Bytes and the [struct] formats *)

Import Codec Files Struct Whm Spec.

Lemma Ok_inj {A} (a b : A) : Ok a = Ok b -> a = b.
Proof. congruence. Qed.

Lemma byte_val_range b : 0 <= byte_val b < 256.
Proof.
  unfold byte_val. pose proof (Byte.to_N_bounded b). lia.
Qed.

Lemma byte_val_of z : byte_val (byte_of z) = z mod 256.
Proof.
  unfold byte_val, byte_of.
  pose proof (Z.mod_pos_bound z 256 ltac:(lia)) as Hm.
  pose proof (Byte.to_of_N_option_map (Z.to_N (z mod 256))) as H.
  destruct (Byte.of_N (Z.to_N (z mod 256))) as [b|] eqn:E; cbn in H.
  - destruct (Z.to_N (z mod 256) <=? 255)%N; inversion H as [H1].
    rewrite H1. lia.
  - destruct (Z.to_N (z mod 256) <=? 255)%N eqn:E2; [discriminate|].
    apply N.leb_gt in E2. lia.
Qed.

Lemma byte_of_val b : byte_of (byte_val b) = b.
Proof.
  unfold byte_of, byte_val.
  pose proof (Byte.to_N_bounded b).
  rewrite Z.mod_small by lia.
  rewrite N2Z.id, Byte.of_to_N. reflexivity.
Qed.

Lemma byte_val_inj a b : byte_val a = byte_val b -> a = b.
Proof.
  intro H. rewrite <- (byte_of_val a), <- (byte_of_val b), H. reflexivity.
Qed.

Lemma le32_value v :
  u32 v ->
  byte_val (byte_of v) + 256 * byte_val (byte_of (v / 256))
  + 65536 * byte_val (byte_of (v / 65536))
  + 16777216 * byte_val (byte_of (v / 16777216)) = v.
Proof.
  unfold u32. intro H. rewrite !byte_val_of.
  Z.div_mod_to_equations; lia.
Qed.

Lemma len_app {A} (a b : list A) : len (a ++ b) = len a + len b.
Proof. unfold len. rewrite length_app. lia. Qed.

Lemma len_nonneg {A} (a : list A) : 0 <= len a.
Proof. unfold len. lia. Qed.

Lemma len_le32 v : len (le32 v) = 4.
Proof. reflexivity. Qed.

Lemma skipn_len_app {A} (pre post : list A) :
  skipn (Z.to_nat (len pre)) (pre ++ post) = post.
Proof.
  unfold len. rewrite Nat2Z.id, skipn_app, skipn_all, Nat.sub_diag.
  reflexivity.
Qed.

Lemma pack_I_u32 v : u32 v -> pack_I v = Ok (le32 v).
Proof.
  unfold u32, pack_I. intro H.
  destruct (0 <=? v) eqn:E1; [|lia].
  destruct (v <? 4294967296) eqn:E2; [reflexivity|lia].
Qed.

Lemma pack_I_not_u32 v : ~ u32 v -> pack_I v = Raise StructError.
Proof.
  unfold u32, pack_I. intro H.
  destruct (0 <=? v) eqn:E1; [|reflexivity].
  destruct (v <? 4294967296) eqn:E2; [lia|reflexivity].
Qed.

Lemma unpack_from_I_app pre v post :
  u32 v -> unpack_from_I (pre ++ le32 v ++ post) (len pre) = Ok v.
Proof.
  intro H. unfold unpack_from_I. rewrite skipn_len_app. cbn.
  f_equal. apply le32_value, H.
Qed.

Lemma unpack_from_I_u32 b off v : unpack_from_I b off = Ok v -> u32 v.
Proof.
  unfold unpack_from_I, u32.
  destruct (skipn (Z.to_nat off) b) as [|b0 [|b1 [|b2 [|b3 r]]]];
    try discriminate.
  intros H%Ok_inj. subst v.
  pose proof (byte_val_range b0). pose proof (byte_val_range b1).
  pose proof (byte_val_range b2). pose proof (byte_val_range b3). lia.
Qed.

Lemma unpack_from_II_app pre a b post :
  u32 a -> u32 b ->
  unpack_from_II (pre ++ le32 a ++ le32 b ++ post) (len pre) = Ok (a, b).
Proof.
  intros Ha Hb.
  assert (H2 : unpack_from_I (pre ++ le32 a ++ le32 b ++ post) (len pre + 4)
               = Ok b).
  { replace (len pre + 4) with (len (pre ++ le32 a))
      by (rewrite len_app, len_le32; reflexivity).
    rewrite (app_assoc pre). apply unpack_from_I_app, Hb. }
  unfold unpack_from_II. rewrite skipn_len_app.
  rewrite H2, (unpack_from_I_app pre a (le32 b ++ post) Ha). reflexivity.
Qed.

(* ================================================================== *)
(** * [dump_whm_table] *)

Lemma blob_of_app a b : blob_of (a ++ b) = blob_of a ++ blob_of b.
Proof. unfold blob_of. rewrite map_app, concat_app. reflexivity. Qed.

Lemma offset_of_prefix pre encs :
  offset_of (pre ++ encs) (length pre) = len (blob_of pre).
Proof.
  unfold offset_of. rewrite firstn_app, firstn_all, Nat.sub_diag.
  cbn. rewrite app_nil_r. reflexivity.
Qed.

Lemma offset_of_bounds encs k :
  0 <= offset_of encs k <= len (blob_of encs).
Proof.
  unfold offset_of. split; [apply len_nonneg|].
  rewrite <- (firstn_skipn k encs) at 2. rewrite blob_of_app, len_app.
  pose proof (len_nonneg (blob_of (skipn k encs))). lia.
Qed.

Lemma encoded_length items encs : encoded items encs -> length items = length encs.
Proof. apply Forall2_length. Qed.

Lemma build_blob_spec items : forall encs pre blob offs,
  encoded items encs ->
  blob = blob_of pre ->
  build_blob items blob offs
  = Ok (blob_of (pre ++ encs),
        offs ++ map (offset_of (pre ++ encs)) (seq (length pre) (length encs))).
Proof.
  induction items as [|it rest IH]; intros encs pre blob offs Henc Hblob;
    inversion Henc as [|? e ? encs' He Hrest]; subst.
  - cbn. rewrite !app_nil_r. reflexivity.
  - cbn [build_blob]. rewrite He. cbn [bind].
    rewrite (IH encs' (pre ++ [e]) _ _ Hrest).
    + rewrite <- !app_assoc. cbn [app length seq map].
      rewrite offset_of_prefix, length_app, Nat.add_1_r. reflexivity.
    + rewrite blob_of_app. unfold blob_of at 2. cbn.
      rewrite app_nil_r. reflexivity.
Qed.

Lemma build_header_spec pairs : forall header,
  Forall (fun p => u32 (hash (fst p)) /\ u32 (snd p)) pairs ->
  build_header pairs header
  = Ok (header
        ++ concat (map (fun p => le32 (hash (fst p)) ++ le32 (snd p)) pairs)).
Proof.
  induction pairs as [|[it off] rest IH]; intros header H.
  - cbn. rewrite app_nil_r. reflexivity.
  - inversion H as [|? ? [Hh Ho] Hrest]; subst. cbn [fst snd] in Hh, Ho.
    cbn [build_header]. unfold pack_II.
    rewrite (pack_I_u32 _ Hh), (pack_I_u32 _ Ho). cbn [bind].
    rewrite (IH _ Hrest). cbn [map concat fst snd].
    rewrite <- !app_assoc. reflexivity.
Qed.

Lemma combine_map_r {A B C} (g : B -> C) (xs : list A) : forall ks,
  combine xs (map g ks) = map (fun p => (fst p, g (snd p))) (combine xs ks).
Proof.
  induction xs as [|x xs IH]; intros [|k ks]; cbn; try reflexivity.
  rewrite IH. reflexivity.
Qed.

Lemma len_count_le_blob encs : len encs <= len (blob_of encs).
Proof.
  induction encs as [|e encs IH]; [cbn; lia|].
  change (e :: encs) with ([e] ++ encs) at 2. rewrite blob_of_app, len_app.
  unfold blob_of at 1. cbn [map concat]. rewrite app_nil_r.
  unfold cstring. rewrite len_app.
  pose proof (len_nonneg e). unfold len in *. cbn [length] in *. lia.
Qed.

(** What [dump_whm_table] writes when every field fits: the layout of the
    specification. *)
Lemma dump_whm_table_spec items encs :
  encoded items encs ->
  Forall (fun it => u32 (hash it)) items ->
  len (blob_of encs) < 4294967296 ->
  dump_whm_table items = Ok (layout items encs).
Proof.
  intros Henc Hhash Hsize.
  pose proof (encoded_length _ _ Henc) as Hlen.
  unfold dump_whm_table.
  rewrite (build_blob_spec items encs [] [] [] Henc eq_refl).
  cbn [app length bind].
  assert (Hcount : u32 (len items)).
  { pose proof (len_count_le_blob encs). unfold u32, len in *. lia. }
  rewrite (pack_I_u32 _ Hcount). cbn [bind].
  rewrite combine_map_r, build_header_spec.
  - cbn [bind]. rewrite pack_I_u32
      by (split; [apply len_nonneg | exact Hsize]).
    cbn [bind]. unfold layout. rewrite map_map, Hlen.
    rewrite <- !app_assoc. reflexivity.
  - apply Forall_forall. intros p Hp. apply in_map_iff in Hp.
    destruct Hp as [[it k] [<- Hin]]. cbn [fst snd]. split.
    + apply in_combine_l in Hin. rewrite Forall_forall in Hhash. auto.
    + pose proof (offset_of_bounds encs k). unfold u32. lia.
Qed.

(* ================================================================== *)
(** * UTF-8 *)

Ltac zcases :=
  repeat match goal with
    | |- context [?a <? ?b] => destruct (Z.ltb_spec a b); try lia
    | |- context [?a <=? ?b] => destruct (Z.leb_spec a b); try lia
    | |- context [?a =? ?b] => destruct (Z.eqb_spec a b); try lia
    end;
  cbn [andb orb negb].

Lemma is_scalar_spec c :
  is_scalar c = true <-> 0 <= c <= 1114111 /\ ~ (55296 <= c <= 57343).
Proof.
  unfold is_scalar, is_surrogate. zcases; intuition (discriminate || lia).
Qed.

Lemma utf8_decode_cons b0 r0 :
  utf8_decode (b0 :: r0)
  = let v0 := byte_val b0 in
    if v0 <? 128 then
      s <- utf8_decode r0 ;; Ok (v0 :: s)
    else if (194 <=? v0) && (v0 <=? 223) then
      match r0 with
      | b1 :: r1 =>
          let v1 := byte_val b1 in
          if is_cont v1 then
            s <- utf8_decode r1 ;;
            Ok (((v0 - 192) * 64 + (v1 - 128)) :: s)
          else Raise UnicodeDecodeError
      | _ => Raise UnicodeDecodeError
      end
    else if (224 <=? v0) && (v0 <=? 239) then
      match r0 with
      | b1 :: b2 :: r2 =>
          let v1 := byte_val b1 in
          let v2 := byte_val b2 in
          let c := (v0 - 224) * 4096 + (v1 - 128) * 64 + (v2 - 128) in
          if is_cont v1 && is_cont v2 && (2048 <=? c)
             && negb (is_surrogate c) then
            s <- utf8_decode r2 ;; Ok (c :: s)
          else Raise UnicodeDecodeError
      | _ => Raise UnicodeDecodeError
      end
    else if (240 <=? v0) && (v0 <=? 244) then
      match r0 with
      | b1 :: b2 :: b3 :: r3 =>
          let v1 := byte_val b1 in
          let v2 := byte_val b2 in
          let v3 := byte_val b3 in
          let c := (v0 - 240) * 262144 + (v1 - 128) * 4096
                   + (v2 - 128) * 64 + (v3 - 128) in
          if is_cont v1 && is_cont v2 && is_cont v3 && (65536 <=? c)
             && (c <=? 1114111) then
            s <- utf8_decode r3 ;; Ok (c :: s)
          else Raise UnicodeDecodeError
      | _ => Raise UnicodeDecodeError
      end
    else Raise UnicodeDecodeError.
Proof. reflexivity. Qed.

Lemma bind_cons_eq (m : result str) (a b : Z) :
  a = b -> (s <- m ;; Ok (a :: s)) = (s <- m ;; Ok (b :: s)).
Proof. intros ->. reflexivity. Qed.

(** Decoding undoes the encoding of one code point. *)
Lemma utf8_decode_encode_char c e r :
  utf8_encode_char c = Ok e ->
  utf8_decode (e ++ r) = (s <- utf8_decode r ;; Ok (c :: s)).
Proof.
  unfold utf8_encode_char.
  destruct (is_scalar c) eqn:Hs; cbn [negb]; [|discriminate].
  apply is_scalar_spec in Hs.
  destruct (Z.ltb_spec c 128);
    [|destruct (Z.ltb_spec c 2048); [|destruct (Z.ltb_spec c 65536)]];
    intros He%Ok_inj; subst e; cbn [app];
    rewrite utf8_decode_cons; cbv zeta; unfold is_cont, is_surrogate;
    rewrite !byte_val_of.
  - rewrite (Z.mod_small c 256) by lia. zcases; reflexivity.
  - Z.div_mod_to_equations; zcases; apply bind_cons_eq; lia.
  - Z.div_mod_to_equations; zcases; apply bind_cons_eq; lia.
  - Z.div_mod_to_equations; zcases; apply bind_cons_eq; lia.
Qed.

Lemma utf8_decode_encode s : forall e,
  utf8_encode s = Ok e -> utf8_decode e = Ok s.
Proof.
  induction s as [|c s IH]; intros e; cbn [utf8_encode].
  - intros He%Ok_inj. subst e. reflexivity.
  - destruct (utf8_encode_char c) as [b|] eqn:Hc; [|discriminate].
    destruct (utf8_encode s) as [bs|] eqn:Hs; [|discriminate].
    cbn [bind]. intros He%Ok_inj. subst e.
    rewrite (utf8_decode_encode_char _ _ bs Hc), (IH bs eq_refl). reflexivity.
Qed.

(** Every text of scalar values encodes. *)
Lemma utf8_encode_total s :
  Forall (fun c => is_scalar c = true) s -> exists e, utf8_encode s = Ok e.
Proof.
  induction 1 as [|c s Hc _ [e He]]; [exists []; reflexivity|].
  cbn [utf8_encode]. unfold utf8_encode_char. rewrite Hc, He. cbn [negb bind].
  destruct (c <? 128); [|destruct (c <? 2048); [|destruct (c <? 65536)]];
    cbn [bind]; eexists; reflexivity.
Qed.

(** The encoding of a code point other than NUL holds no zero byte and
    is not empty. *)
Lemma utf8_encode_char_nonzero c e :
  utf8_encode_char c = Ok e -> c <> 0 -> Forall nonzero e /\ e <> [].
Proof.
  unfold utf8_encode_char.
  destruct (is_scalar c) eqn:Hs; cbn [negb]; [|discriminate].
  apply is_scalar_spec in Hs. intros He Hc.
  destruct (Z.ltb_spec c 128);
    [|destruct (Z.ltb_spec c 2048); [|destruct (Z.ltb_spec c 65536)]];
    apply Ok_inj in He; subst e; (split; [|discriminate]);
    repeat constructor; unfold nonzero; rewrite byte_val_of;
    Z.div_mod_to_equations; lia.
Qed.

Lemma utf8_encode_nonzero s : forall e,
  utf8_encode s = Ok e -> Forall (fun c => c <> 0) s ->
  Forall nonzero e /\ (s <> [] -> e <> []).
Proof.
  induction s as [|c s IH]; intros e; cbn [utf8_encode].
  - intros He%Ok_inj _. subst e. split; [constructor | congruence].
  - destruct (utf8_encode_char c) as [b|] eqn:Hc; [|discriminate].
    destruct (utf8_encode s) as [bs|] eqn:Hs; [|discriminate].
    cbn [bind]. intros He%Ok_inj Hnz. subst e.
    inversion Hnz as [|? ? Hc0 Hrest]; subst.
    destruct (utf8_encode_char_nonzero _ _ Hc Hc0) as [Hb Hne].
    destruct (IH bs eq_refl Hrest) as [Hbs _].
    split; [apply Forall_app; auto|].
    intros _ Happ. apply app_eq_nil in Happ. tauto.
Qed.

(* ================================================================== *)
(** * [decode_bytes] *)

Lemma decode_loop_spec bts encs :
  exists s, decode_loop encs bts = Ok s
            /\ (first_success encs bts s
                \/ (Forall (fails bts) encs /\ s = hex bts)).
Proof.
  induction encs as [|enc encs [s [Hs Hcase]]]; cbn [decode_loop].
  - exists (hex bts). split; [reflexivity|]. right. split; [constructor|reflexivity].
  - destruct (decode enc bts) as [t|e] eqn:Hd.
    + exists t. split; [reflexivity|]. left.
      exists [], enc, encs. repeat split; [constructor | exact Hd].
    + assert (Hf : fails bts enc) by (unfold fails; rewrite Hd; reflexivity).
      exists s. split; [exact Hs|].
      destruct Hcase as [(before & enc' & after & -> & Hb & Hok) | [Hall ->]].
      * left. exists (enc :: before), enc', after.
        repeat split; [constructor; assumption | exact Hok].
      * right. split; [constructor; assumption | reflexivity].
Qed.

Lemma decode_bytes_utf8 bts s : utf8_decode bts = Ok s -> decode_bytes bts = Ok s.
Proof.
  intro H. unfold decode_bytes, encodings. cbn [decode_loop decode].
  rewrite H. reflexivity.
Qed.

Lemma decode_bytes_total bts : exists s, decode_bytes bts = Ok s.
Proof.
  destruct (decode_loop_spec bts encodings) as [s [Hs _]]. exists s. exact Hs.
Qed.

Lemma hex_digit_inj a b :
  0 <= a < 16 -> 0 <= b < 16 -> hex_digit a = hex_digit b -> a = b.
Proof. unfold hex_digit. intros Ha Hb. zcases; lia. Qed.

(** [bts.hex()] loses nothing: the bytes can be told from their text. *)
Lemma hex_inj a : forall b, hex a = hex b -> a = b.
Proof.
  induction a as [|x a IH]; intros [|y b]; cbn [hex]; try discriminate;
    [reflexivity|].
  intro H. injection H as H1 H2 H3.
  pose proof (byte_val_range x). pose proof (byte_val_range y).
  apply hex_digit_inj in H1; [|Z.div_mod_to_equations; lia ..].
  apply hex_digit_inj in H2; [|Z.div_mod_to_equations; lia ..].
  f_equal; [|apply IH, H3].
  apply byte_val_inj. Z.div_mod_to_equations; lia.
Qed.

(** C4.  The encoding resolver is total and ordered: [decode_bytes] goes
    through UTF-8, cp1252 and latin-1 in this order and returns what the
    first decode that succeeds gives; it returns (never raises) on every
    byte string, falling back on the hexadecimal text of the bytes, from
    which the bytes can be recovered, when every decode fails. *)
Theorem decode_bytes_total_and_ordered : forall bts : bytes,
  encodings = [Utf8; Cp1252; Latin1]
  /\ (exists s, decode_bytes bts = Ok s
                /\ (first_success encodings bts s
                    \/ (Forall (fails bts) encodings /\ s = hex bts)))
  /\ (forall other : bytes, hex other = hex bts -> other = bts).
Proof.
  intro bts. split; [reflexivity|]. split.
  - apply decode_loop_spec.
  - intros other. apply hex_inj.
Qed.

(* ================================================================== *)
(** * Reading back what [dump_whm_table] wrote *)

Lemma read_entries_loop_app es : forall pre post,
  Forall (fun e => u32 (fst e) /\ u32 (snd e)) es ->
  read_entries_loop
    (pre ++ concat (map (fun e => le32 (fst e) ++ le32 (snd e)) es) ++ post)
    (length es) (len pre)
  = Ok (es, len pre + 8 * len es).
Proof.
  induction es as [|[h o] es IH]; intros pre post H.
  - cbn. f_equal. f_equal. unfold len. cbn. lia.
  - inversion H as [|? ? [Hh Ho] Hes]; subst. cbn [fst snd] in Hh, Ho.
    cbn [length read_entries_loop map concat fst snd].
    rewrite <- !app_assoc.
    rewrite (unpack_from_II_app pre h o _ Hh Ho). cbn [bind].
    replace (len pre + calcsize_II) with (len (pre ++ le32 h ++ le32 o))
      by (rewrite !len_app, !len_le32; unfold calcsize_II; lia).
    replace (pre ++ le32 h ++ le32 o ++
             concat (map (fun e => le32 (fst e) ++ le32 (snd e)) es) ++ post)
      with ((pre ++ le32 h ++ le32 o) ++
            concat (map (fun e => le32 (fst e) ++ le32 (snd e)) es) ++ post)
      by (rewrite <- !app_assoc; reflexivity).
    rewrite (IH _ post Hes). cbn [bind]. f_equal. f_equal.
    rewrite !len_app, !len_le32. unfold len. cbn [length]. lia.
Qed.

Lemma slice_app_exact {A} (hdr blob : list A) :
  slice (hdr ++ blob) (len hdr) (len hdr + len blob) = blob.
Proof.
  unfold slice. rewrite skipn_len_app.
  replace (len hdr + len blob - len hdr) with (len blob) by lia.
  unfold len. rewrite Nat2Z.id. apply firstn_all.
Qed.

Lemma index_app_here {A} (pre : list A) x post :
  index (pre ++ x :: post) (len pre) = Ok x.
Proof.
  unfold index, len. rewrite Nat2Z.id, nth_error_app2, Nat.sub_diag by lia.
  reflexivity.
Qed.

(** From the start of a NUL-terminated string the scan stops on its
    terminator. *)
Lemma scan_nul_found e : forall pre post blob_size fuel,
  Forall nonzero e ->
  len pre + len e < blob_size ->
  (length e < fuel)%nat ->
  scan_nul (pre ++ e ++ x00 :: post) blob_size fuel (len pre)
  = Ok (len pre + len e).
Proof.
  induction e as [|c e IH]; intros pre post blob_size fuel Hnz Hsz Hfuel;
    (destruct fuel as [|fuel]; [cbn in Hfuel; lia|]); cbn [scan_nul app].
  - unfold len in *. cbn [length] in *.
    destruct (Z.ltb_spec (Z.of_nat (length pre)) blob_size); [|lia].
    pose proof (index_app_here pre x00 post) as Hi. unfold len in Hi.
    rewrite Hi. cbn [bind]. change (byte_val x00 =? 0) with true.
    cbv iota. f_equal. lia.
  - inversion Hnz as [|? ? Hc He]; subst.
    assert (Hlen : len (pre ++ [c]) = len pre + 1)
      by (rewrite len_app; reflexivity).
    destruct (Z.ltb_spec (len pre) blob_size);
      [|unfold len in *; cbn [length] in *; lia].
    rewrite index_app_here. cbn [bind].
    destruct (Z.eqb_spec (byte_val c) 0); [contradiction|].
    rewrite <- Hlen.
    replace (pre ++ c :: e ++ x00 :: post)
      with ((pre ++ [c]) ++ e ++ x00 :: post)
      by (rewrite <- app_assoc; reflexivity).
    rewrite IH; [| assumption | | cbn [length] in Hfuel; lia].
    + f_equal. rewrite Hlen. unfold len. cbn [length]. lia.
    + rewrite Hlen. unfold len in *. cbn [length] in *. lia.
Qed.

Lemma slice_middle {A} (pre e post : list A) :
  slice (pre ++ e ++ post) (len pre) (len pre + len e) = e.
Proof.
  unfold slice. rewrite skipn_len_app.
  replace (len pre + len e - len pre) with (len e) by lia.
  unfold len. rewrite Nat2Z.id, firstn_app, firstn_all, Nat.sub_diag.
  cbn. apply app_nil_r.
Qed.

Lemma blob_of_split pre e post :
  blob_of (pre ++ e :: post) = blob_of pre ++ e ++ x00 :: blob_of post.
Proof.
  rewrite blob_of_app. f_equal. unfold blob_of. cbn [map concat].
  unfold cstring. rewrite <- app_assoc. reflexivity.
Qed.

(** The bytes of the entry that starts where string [e] does. *)
Lemma entry_bytes_at pre e post :
  Forall nonzero e ->
  entry_bytes (blob_of (pre ++ e :: post)) (len (blob_of (pre ++ e :: post)))
              (len (blob_of pre))
  = Ok e.
Proof.
  intro Hnz. rewrite blob_of_split.
  set (blob := blob_of pre ++ e ++ x00 :: blob_of post).
  assert (Hlen : len blob = len (blob_of pre) + len e + 1 + len (blob_of post)).
  { unfold blob. rewrite !len_app. unfold len. cbn [length]. lia. }
  pose proof (len_nonneg (blob_of post)) as Hpost.
  unfold entry_bytes.
  destruct (Z.ltb_spec (len (blob_of pre)) (len blob));
    [|pose proof (len_nonneg e); lia].
  unfold blob at 1.
  rewrite scan_nul_found; [| assumption | lia | unfold len in *; lia].
  cbn [bind]. unfold blob. rewrite slice_middle. reflexivity.
Qed.

Lemma entry_item_at pre e post h t :
  utf8_encode t = Ok e ->
  c_text t ->
  entry_item (blob_of (pre ++ e :: post)) (len (blob_of (pre ++ e :: post)))
             (h, len (blob_of pre))
  = Ok (read_back (mk_item h t)).
Proof.
  intros He Ht.
  assert (Hnz : Forall (fun c => c <> 0) t).
  { eapply Forall_impl; [|exact Ht]. cbn. tauto. }
  destruct (utf8_encode_nonzero _ _ He Hnz) as [Hb Hne].
  unfold entry_item. rewrite (entry_bytes_at pre e post Hb). cbn [bind].
  unfold read_back. cbn [text hash].
  destruct t as [|c t].
  - cbn in He. apply Ok_inj in He. subst e. reflexivity.
  - destruct e as [|b e]; [exfalso; apply Hne; congruence|].
    rewrite (decode_bytes_utf8 _ _ (utf8_decode_encode _ _ He)). reflexivity.
Qed.

Lemma for_each_entries items : forall encs pre,
  encoded items encs ->
  Forall (fun it => c_text (text it)) items ->
  for_each (entry_item (blob_of (pre ++ encs)) (len (blob_of (pre ++ encs))))
    (map (fun p => (hash (fst p), offset_of (pre ++ encs) (snd p)))
         (combine items (seq (length pre) (length items))))
  = Ok (map read_back items).
Proof.
  induction items as [|[h t] items IH]; intros encs pre Henc Htxt;
    inversion Henc as [|? e ? encs' He Hrest]; subst; [reflexivity|].
  inversion Htxt as [|? ? Ht Htxt']; subst. cbn [text] in He, Ht.
  cbn [length seq combine map for_each fst snd hash].
  rewrite offset_of_prefix, (entry_item_at pre e encs' h t He Ht). cbn [bind].
  replace (pre ++ e :: encs') with ((pre ++ [e]) ++ encs')
    by (rewrite <- app_assoc; reflexivity).
  replace (S (length pre)) with (length (pre ++ [e]))
    by (rewrite length_app; cbn; lia).
  rewrite (IH encs' (pre ++ [e]) Hrest Htxt'). reflexivity.
Qed.

Lemma read_entries_layout items encs :
  encoded items encs ->
  Forall (fun it => u32 (hash it)) items ->
  len (blob_of encs) < 4294967296 ->
  read_entries (layout items encs)
  = Ok (map (fun p => (hash (fst p), offset_of encs (snd p)))
            (combine items (seq 0 (length items))),
        len (layout items encs) - len (blob_of encs),
        len (blob_of encs)).
Proof.
  intros Henc Hhash Hsize.
  pose proof (encoded_length _ _ Henc) as Hlen.
  set (es := map (fun p => (hash (fst p), offset_of encs (snd p)))
                 (combine items (seq 0 (length items)))).
  assert (Hes : Forall (fun e => u32 (fst e) /\ u32 (snd e)) es).
  { apply Forall_forall. intros p Hp. apply in_map_iff in Hp.
    destruct Hp as [[it k] [<- Hin]]. cbn [fst snd]. split.
    - apply in_combine_l in Hin. rewrite Forall_forall in Hhash. auto.
    - pose proof (offset_of_bounds encs k). unfold u32. lia. }
  assert (Hn : length es = length items).
  { unfold es. rewrite length_map, length_combine, length_seq. lia. }
  assert (Hcount : u32 (len items)).
  { pose proof (len_count_le_blob encs). unfold u32, len in *. lia. }
  assert (Hbody : concat (map (header_entry encs)
                            (combine items (seq 0 (length items))))
                  = concat (map (fun e => le32 (fst e) ++ le32 (snd e)) es)).
  { unfold es. rewrite map_map. reflexivity. }
  unfold layout. rewrite Hbody. unfold read_entries, read_u32.
  pose proof (unpack_from_I_app [] (len items)) as H0. cbn [app] in H0.
  change (len []) with 0 in H0. rewrite (H0 _ Hcount). cbn [bind].
  replace (Z.to_nat (len items)) with (length es)
    by (unfold len; rewrite Nat2Z.id; exact Hn).
  change (0 + 4) with (len (le32 (len items))).
  rewrite read_entries_loop_app by exact Hes. cbn [bind].
  set (body := concat (map (fun e => le32 (fst e) ++ le32 (snd e)) es)).
  assert (Hbl : len body = 8 * len es).
  { unfold body. clear. induction es as [|e es IH]; [reflexivity|].
    cbn [map concat]. rewrite !len_app, !len_le32, IH.
    unfold len. cbn [length]. lia. }
  replace (len (le32 (len items)) + 8 * len es)
    with (len (le32 (len items) ++ body))
    by (rewrite len_app, Hbl; reflexivity).
  rewrite (app_assoc (le32 (len items)) body).
  rewrite unpack_from_I_app
    by (split; [apply len_nonneg | exact Hsize]).
  cbn [bind]. f_equal. f_equal. f_equal.
  rewrite !len_app, !len_le32. lia.
Qed.

(** Reading back a written table: every entry comes back in place, an
    empty text as the placeholder. *)
Lemma parse_dump items encs :
  encoded items encs ->
  Forall (fun it => u32 (hash it)) items ->
  Forall (fun it => c_text (text it)) items ->
  len (blob_of encs) < 4294967296 ->
  parse_whm_table (layout items encs) = Ok (map read_back items).
Proof.
  intros Henc Hhash Htxt Hsize.
  unfold parse_whm_table.
  rewrite (read_entries_layout items encs Henc Hhash Hsize). cbn [bind].
  set (hdr_len := len (layout items encs) - len (blob_of encs)).
  assert (Hsplit : exists hdr, layout items encs = hdr ++ blob_of encs
                               /\ len hdr = hdr_len).
  { exists (le32 (len items)
            ++ concat (map (header_entry encs)
                         (combine items (seq 0 (length items))))
            ++ le32 (len (blob_of encs))).
    unfold hdr_len, layout. rewrite <- !app_assoc. split; [reflexivity|].
    rewrite !len_app. lia. }
  destruct Hsplit as [hdr [Hl Hh]]. rewrite Hl, <- Hh, slice_app_exact.
  exact (for_each_entries items encs [] Henc Htxt).
Qed.

(** ** Texts with a NUL character *)

Lemma before_nul_spec t :
  exists rest,
    t = before_nul t ++ rest
    /\ ~ In 0 (before_nul t)
    /\ (rest = [] \/ exists r, rest = 0 :: r).
Proof.
  induction t as [|c t (rest & Ht & Hnot & Hrest)]; cbn [before_nul].
  - exists []. split; [reflexivity|]. split; [intros []|]. left. reflexivity.
  - destruct (Z.eqb_spec c 0) as [-> | Hc].
    + exists (0 :: t). split; [reflexivity|]. split; [intros []|].
      right. exists t. reflexivity.
    + exists rest. split; [cbn [app]; rewrite <- Ht; reflexivity|].
      split; [|exact Hrest]. intros [H | H]; [congruence | exact (Hnot H)].
Qed.

(** The UTF-8 form of a text, NUL terminated, begins with the UTF-8 form
    of its part before the first NUL character, NUL terminated. *)
Lemma utf8_encode_before_nul t : forall e,
  utf8_encode t = Ok e ->
  exists ep tail,
    utf8_encode (before_nul t) = Ok ep
    /\ c_text (before_nul t)
    /\ e ++ [x00] = ep ++ x00 :: tail.
Proof.
  induction t as [|c t IH]; intros e; cbn [utf8_encode before_nul].
  - intros He%Ok_inj. subst e. exists [], []. repeat split. constructor.
  - destruct (utf8_encode_char c) as [b|] eqn:Hc; [|discriminate].
    destruct (utf8_encode t) as [bs|] eqn:Hs; [|discriminate].
    cbn [bind]. intros He%Ok_inj. subst e.
    destruct (Z.eqb_spec c 0) as [-> | Hnz].
    + exists [], (bs ++ [x00]). split; [reflexivity|]. split; [constructor|].
      vm_compute in Hc. apply Ok_inj in Hc. subst b. reflexivity.
    + destruct (IH bs eq_refl) as (ep & tail & Hep & Htxt & Heq).
      exists (b ++ ep), tail. split; [|split].
      * cbn [utf8_encode]. rewrite Hc, Hep. reflexivity.
      * constructor; [|exact Htxt]. split; [|exact Hnz].
        unfold utf8_encode_char in Hc.
        destruct (is_scalar c); [reflexivity | discriminate].
      * rewrite <- !app_assoc. f_equal. exact Heq.
Qed.

(** The bytes of the entry that starts before a NUL-terminated string,
    whatever follows the terminator. *)
Lemma entry_bytes_here bpre e bpost :
  Forall nonzero e ->
  entry_bytes (bpre ++ e ++ x00 :: bpost) (len (bpre ++ e ++ x00 :: bpost))
              (len bpre)
  = Ok e.
Proof.
  intro Hnz.
  set (blob := bpre ++ e ++ x00 :: bpost).
  assert (Hlen : len blob = len bpre + len e + 1 + len bpost).
  { unfold blob. rewrite !len_app. unfold len. cbn [length]. lia. }
  pose proof (len_nonneg bpost) as Hpost.
  unfold entry_bytes.
  destruct (Z.ltb_spec (len bpre) (len blob));
    [|pose proof (len_nonneg e); lia].
  unfold blob at 1.
  rewrite scan_nul_found; [| assumption | lia | unfold len in *; lia].
  cbn [bind]. unfold blob. rewrite slice_middle. reflexivity.
Qed.

Lemma entry_item_cut pre e post h t :
  utf8_encode t = Ok e ->
  entry_item (blob_of (pre ++ e :: post)) (len (blob_of (pre ++ e :: post)))
             (h, len (blob_of pre))
  = Ok (read_back_cut (mk_item h t)).
Proof.
  intro He.
  destruct (utf8_encode_before_nul t e He) as (ep & tail & Hep & Htxt & Heq).
  assert (Hnz : Forall (fun c => c <> 0) (before_nul t)).
  { eapply Forall_impl; [|exact Htxt]. cbn. tauto. }
  destruct (utf8_encode_nonzero _ _ Hep Hnz) as [Hb Hne].
  assert (Hblob : blob_of (pre ++ e :: post)
                  = blob_of pre ++ ep ++ x00 :: (tail ++ blob_of post)).
  { rewrite blob_of_split. f_equal.
    change (e ++ x00 :: blob_of post) with (e ++ [x00] ++ blob_of post).
    rewrite app_assoc, Heq, <- app_assoc. reflexivity. }
  rewrite Hblob. unfold entry_item.
  rewrite (entry_bytes_here (blob_of pre) ep (tail ++ blob_of post) Hb).
  cbn [bind]. unfold read_back_cut, read_back. cbn [text hash].
  destruct (before_nul t) as [|c t'].
  - cbn in Hep. apply Ok_inj in Hep. subst ep. reflexivity.
  - destruct ep as [|b ep]; [exfalso; apply Hne; congruence|].
    rewrite (decode_bytes_utf8 _ _ (utf8_decode_encode _ _ Hep)). reflexivity.
Qed.

Lemma for_each_entries_cut items : forall encs pre,
  encoded items encs ->
  for_each (entry_item (blob_of (pre ++ encs)) (len (blob_of (pre ++ encs))))
    (map (fun p => (hash (fst p), offset_of (pre ++ encs) (snd p)))
         (combine items (seq (length pre) (length items))))
  = Ok (map read_back_cut items).
Proof.
  induction items as [|[h t] items IH]; intros encs pre Henc;
    inversion Henc as [|? e ? encs' He Hrest]; subst; [reflexivity|].
  cbn [text] in He.
  cbn [length seq combine map for_each fst snd hash].
  rewrite offset_of_prefix, (entry_item_cut pre e encs' h t He). cbn [bind].
  replace (pre ++ e :: encs') with ((pre ++ [e]) ++ encs')
    by (rewrite <- app_assoc; reflexivity).
  replace (S (length pre)) with (length (pre ++ [e]))
    by (rewrite length_app; cbn; lia).
  rewrite (IH encs' (pre ++ [e]) Hrest). reflexivity.
Qed.

(** Reading back a written table, whatever its texts: every entry comes
    back in place, its text cut before the first NUL character. *)
Lemma parse_dump_cut items encs :
  encoded items encs ->
  Forall (fun it => u32 (hash it)) items ->
  len (blob_of encs) < 4294967296 ->
  parse_whm_table (layout items encs) = Ok (map read_back_cut items).
Proof.
  intros Henc Hhash Hsize.
  unfold parse_whm_table.
  rewrite (read_entries_layout items encs Henc Hhash Hsize). cbn [bind].
  set (hdr_len := len (layout items encs) - len (blob_of encs)).
  assert (Hsplit : exists hdr, layout items encs = hdr ++ blob_of encs
                               /\ len hdr = hdr_len).
  { exists (le32 (len items)
            ++ concat (map (header_entry encs)
                         (combine items (seq 0 (length items))))
            ++ le32 (len (blob_of encs))).
    unfold hdr_len, layout. rewrite <- !app_assoc. split; [reflexivity|].
    rewrite !len_app. lia. }
  destruct Hsplit as [hdr [Hl Hh]]. rewrite Hl, <- Hh, slice_app_exact.
  exact (for_each_entries_cut items encs [] Henc).
Qed.

(* ================================================================== *)
(** * [parse_whm_table] on any complete buffer *)

Lemma index_in_range {A} (l : list A) j :
  0 <= j < len l -> exists x, index l j = Ok x.
Proof.
  intro H. unfold index.
  destruct (nth_error l (Z.to_nat j)) as [x|] eqn:E; [eauto|].
  apply nth_error_None in E. unfold len in H. lia.
Qed.

(** Inside a blob that is all there, the scan never reads out of range. *)
Lemma scan_nul_ok blob blob_size fuel : forall j,
  0 <= j -> blob_size <= len blob ->
  exists j', scan_nul blob blob_size fuel j = Ok j'.
Proof.
  induction fuel as [|fuel IH]; intros j Hj Hsz; cbn [scan_nul]; [eauto|].
  destruct (Z.ltb_spec j blob_size); [|eauto].
  destruct (index_in_range blob j ltac:(lia)) as [b ->]. cbn [bind].
  destruct (byte_val b =? 0); [eauto|]. apply IH; lia.
Qed.

Lemma entry_item_out_of_range blob blob_size h off :
  blob_size <= off -> entry_item blob blob_size (h, off) = Ok (mk_item h BINARY).
Proof.
  intro H. unfold entry_item, entry_bytes.
  destruct (Z.ltb_spec off blob_size); [lia|]. reflexivity.
Qed.

Lemma entry_item_at_nul blob blob_size h off :
  off < blob_size -> index blob off = Ok x00 ->
  entry_item blob blob_size (h, off) = Ok (mk_item h BINARY).
Proof.
  intros H Hi. unfold entry_item, entry_bytes.
  destruct (Z.ltb_spec off blob_size); [|lia].
  destruct (Z.to_nat (blob_size - off)) as [|fuel] eqn:Hf; [lia|].
  cbn [scan_nul]. destruct (Z.ltb_spec off blob_size); [|lia].
  rewrite Hi. cbn [bind]. change (byte_val x00 =? 0) with true. cbv iota.
  cbn [bind]. unfold slice. rewrite Z.sub_diag. reflexivity.
Qed.

Lemma entry_item_total blob blob_size h off :
  0 <= off -> blob_size <= len blob ->
  exists t, entry_item blob blob_size (h, off) = Ok (mk_item h t).
Proof.
  intros Hoff Hsz. unfold entry_item, entry_bytes.
  destruct (off <? blob_size); [|eexists; reflexivity].
  destruct (scan_nul_ok blob blob_size (Z.to_nat (blob_size - off)) off Hoff Hsz)
    as [j ->].
  cbn [bind]. destruct (slice blob off j) as [|b bts]; [eexists; reflexivity|].
  destruct (decode_bytes_total (b :: bts)) as [s ->]. eexists; reflexivity.
Qed.

Lemma unpack_from_II_u32 b off x y :
  unpack_from_II b off = Ok (x, y) -> u32 x /\ u32 y.
Proof.
  unfold unpack_from_II.
  destruct (skipn (Z.to_nat off) b) as [|? [|? [|? [|? [|? [|? [|? [|? ?]]]]]]]];
    try discriminate.
  destruct (unpack_from_I b off) as [x'|] eqn:Hx; [|discriminate].
  destruct (unpack_from_I b (off + 4)) as [y'|] eqn:Hy; [|discriminate].
  cbn [bind]. intros H%Ok_inj. inversion H; subst.
  split; eapply unpack_from_I_u32; eassumption.
Qed.

Lemma read_entries_loop_inv data count : forall off entries off',
  read_entries_loop data count off = Ok (entries, off') ->
  Forall (fun e => u32 (fst e) /\ u32 (snd e)) entries
  /\ off' = off + 8 * Z.of_nat count.
Proof.
  induction count as [|count IH]; intros off entries off'; cbn [read_entries_loop].
  - intros H%Ok_inj. inversion H; subst. split; [constructor | lia].
  - destruct (unpack_from_II data off) as [[h o]|] eqn:Hho; [|discriminate].
    cbn [bind].
    destruct (read_entries_loop data count (off + calcsize_II))
      as [[es off1]|] eqn:Hrec; [|discriminate].
    cbn [bind]. intros H%Ok_inj. inversion H; subst.
    destruct (IH _ _ _ Hrec) as [Hes Hoff].
    split; [constructor; [apply (unpack_from_II_u32 _ _ _ _ Hho) | exact Hes]|].
    unfold calcsize_II in Hoff. lia.
Qed.

Lemma read_entries_inv data entries blob_start blob_size :
  read_entries data = Ok (entries, blob_start, blob_size) ->
  Forall (fun e => u32 (fst e) /\ u32 (snd e)) entries
  /\ 0 <= blob_start /\ u32 blob_size.
Proof.
  unfold read_entries, read_u32.
  destruct (unpack_from_I data 0) as [count|] eqn:Hc; [|discriminate].
  cbn [bind].
  destruct (read_entries_loop data (Z.to_nat count) (0 + 4))
    as [[es off]|] eqn:Hl; [|discriminate].
  cbn [bind].
  destruct (unpack_from_I data off) as [sz|] eqn:Hs; [|discriminate].
  cbn [bind]. intros H%Ok_inj. inversion H; subst.
  destruct (read_entries_loop_inv _ _ _ _ _ Hl) as [Hes Hoff].
  repeat split; try exact Hes; try apply (unpack_from_I_u32 _ _ _ Hs). lia.
Qed.

Lemma len_slice_complete {A} (data : list A) i n :
  0 <= i -> 0 <= n -> i + n <= len data -> len (slice data i (i + n)) = n.
Proof.
  intros Hi Hn H. unfold slice, len in *.
  rewrite length_firstn, length_skipn. lia.
Qed.

Lemma for_each_total {A B} (f : A -> result B) (P : A -> B -> Prop) xs :
  Forall (fun x => exists y, f x = Ok y /\ P x y) xs ->
  exists ys, for_each f xs = Ok ys /\ Forall2 P xs ys.
Proof.
  induction 1 as [|x xs [y [Hy HP]] _ [ys [Hys HF]]].
  - exists []. split; [reflexivity | constructor].
  - exists (y :: ys). cbn [for_each]. rewrite Hy, Hys.
    split; [reflexivity | constructor; assumption].
Qed.

(** On a complete buffer [parse_whm_table] returns one item per header
    entry, in order: the item the entry gives on its own. *)
Lemma parse_whm_table_total data entries blob_start blob_size :
  read_entries data = Ok (entries, blob_start, blob_size) ->
  complete data blob_start blob_size ->
  exists results,
    parse_whm_table data = Ok results
    /\ Forall2 (fun e r =>
                  entry_item (slice data blob_start (blob_start + blob_size))
                             blob_size e = Ok r
                  /\ hash r = fst e)
               entries results.
Proof.
  intros Hre Hc. unfold parse_whm_table. rewrite Hre. cbn [bind].
  destruct (read_entries_inv _ _ _ _ Hre) as (Hes & Hbs & Hsz).
  apply for_each_total. apply Forall_forall. intros [h off] Hin.
  rewrite Forall_forall in Hes. destruct (Hes _ Hin) as [_ Hoff].
  cbn [snd] in Hoff.
  destruct (entry_item_total (slice data blob_start (blob_start + blob_size))
              blob_size h off) as [t Ht].
  - unfold u32 in Hoff. lia.
  - unfold u32 in Hsz. rewrite len_slice_complete; unfold complete in Hc; lia.
  - exists (mk_item h t). split; [exact Ht | split; [exact Ht | reflexivity]].
Qed.

(* ================================================================== *)
(** * What [parse_whm_table] returns can be written back *)

Lemma c_text_cons c s : is_scalar c = true -> c <> 0 -> c_text s -> c_text (c :: s).
Proof. intros. constructor; [split|]; assumption. Qed.

(** A strict UTF-8 decode yields scalar values, and no NUL unless a zero
    byte was there. *)
Lemma utf8_decode_c_text n : forall bts s,
  (length bts <= n)%nat ->
  utf8_decode bts = Ok s ->
  Forall nonzero bts ->
  c_text s /\ (bts <> [] -> s <> []).
Proof.
  induction n as [|n IH]; intros bts s Hlen Hdec Hnz.
  - destruct bts; [|cbn in Hlen; lia]. cbn in Hdec. apply Ok_inj in Hdec.
    subst s. split; [constructor | congruence].
  - destruct bts as [|b0 r0].
    { cbn in Hdec. apply Ok_inj in Hdec. subst s.
      split; [constructor | congruence]. }
    split; [|intros _ ->; revert Hdec; rewrite utf8_decode_cons; cbv zeta;
             unfold is_cont, is_surrogate;
             repeat (match goal with
                     | |- context [match ?l with [] => _ | _ :: _ => _ end] =>
                         destruct l
                     | |- context [if ?c then _ else _] => destruct c
                     | |- context [bind ?m _] => destruct m; cbn [bind]
                     end); discriminate].
    rewrite utf8_decode_cons in Hdec. cbv zeta in Hdec.
    inversion Hnz as [|? ? Hb0 Hr0]; subst. unfold nonzero in Hb0.
    pose proof (byte_val_range b0) as R0.
    revert Hdec. unfold is_cont, is_surrogate.
    destruct (Z.ltb_spec (byte_val b0) 128).
    { destruct (utf8_decode r0) as [s0|] eqn:Hr; [|discriminate]. cbn [bind].
      intros Hs%Ok_inj. subst s.
      destruct (IH r0 s0 ltac:(cbn in Hlen; lia) Hr Hr0) as [Hc _].
      apply c_text_cons; [apply is_scalar_spec; lia | lia | exact Hc]. }
    destruct (Z.leb_spec 194 (byte_val b0)); cbn [andb];
      [destruct (Z.leb_spec (byte_val b0) 223); cbn [andb]|].
    { destruct r0 as [|b1 r1]; [discriminate|].
      pose proof (byte_val_range b1) as R1.
      destruct (Z.leb_spec 128 (byte_val b1)); cbn [andb]; [|discriminate].
      destruct (Z.leb_spec (byte_val b1) 191); cbn [andb]; [|discriminate].
      destruct (utf8_decode r1) as [s0|] eqn:Hr; [|discriminate]. cbn [bind].
      intros Hs%Ok_inj. subst s.
      inversion Hr0; subst.
      destruct (IH r1 s0 ltac:(cbn in Hlen; lia) Hr ltac:(assumption)) as [Hc _].
      apply c_text_cons; [apply is_scalar_spec; lia | lia | exact Hc]. }
    all: destruct (Z.leb_spec 224 (byte_val b0)); cbn [andb];
      [destruct (Z.leb_spec (byte_val b0) 239); cbn [andb]|].
    all: try (destruct r0 as [|b1 [|b2 r2]]; try discriminate;
      pose proof (byte_val_range b1) as R1;
      pose proof (byte_val_range b2) as R2;
      destruct (Z.leb_spec 128 (byte_val b1)); cbn [andb]; [|discriminate];
      destruct (Z.leb_spec (byte_val b1) 191); cbn [andb]; [|discriminate];
      destruct (Z.leb_spec 128 (byte_val b2)); cbn [andb]; [|discriminate];
      destruct (Z.leb_spec (byte_val b2) 191); cbn [andb]; [|discriminate];
      match goal with
      | |- context [2048 <=? ?c] =>
          destruct (Z.leb_spec 2048 c); cbn [andb]; [|discriminate];
          destruct (Z.leb_spec 55296 c); cbn [andb negb];
          [destruct (Z.leb_spec c 57343); cbn [andb negb]; [discriminate|]|]
      end;
      (destruct (utf8_decode r2) as [s0|] eqn:Hr; [|discriminate]); cbn [bind];
      intros Hs%Ok_inj; subst s;
      inversion Hr0 as [|? ? ? Hr1]; subst; inversion Hr1; subst;
      destruct (IH r2 s0 ltac:(cbn in Hlen; lia) Hr ltac:(assumption)) as [Hc _];
      (apply c_text_cons; [apply is_scalar_spec; lia | lia | exact Hc])).
    all: destruct (Z.leb_spec 240 (byte_val b0)); cbn [andb];
      [destruct (Z.leb_spec (byte_val b0) 244); cbn [andb]|]; try discriminate.
    all: destruct r0 as [|b1 [|b2 [|b3 r3]]]; try discriminate;
      pose proof (byte_val_range b1) as R1;
      pose proof (byte_val_range b2) as R2;
      pose proof (byte_val_range b3) as R3;
      destruct (Z.leb_spec 128 (byte_val b1)); cbn [andb]; [|discriminate];
      destruct (Z.leb_spec (byte_val b1) 191); cbn [andb]; [|discriminate];
      destruct (Z.leb_spec 128 (byte_val b2)); cbn [andb]; [|discriminate];
      destruct (Z.leb_spec (byte_val b2) 191); cbn [andb]; [|discriminate];
      destruct (Z.leb_spec 128 (byte_val b3)); cbn [andb]; [|discriminate];
      destruct (Z.leb_spec (byte_val b3) 191); cbn [andb]; [|discriminate];
      match goal with
      | |- context [65536 <=? ?c] =>
          destruct (Z.leb_spec 65536 c); cbn [andb]; [|discriminate];
          destruct (Z.leb_spec c 1114111); cbn [andb]; [|discriminate]
      end;
      (destruct (utf8_decode r3) as [s0|] eqn:Hr; [|discriminate]); cbn [bind];
      intros Hs%Ok_inj; subst s;
      inversion Hr0 as [|? ? ? Hr1]; subst; inversion Hr1 as [|? ? ? Hr2]; subst;
      inversion Hr2; subst;
      destruct (IH r3 s0 ltac:(cbn in Hlen; lia) Hr ltac:(assumption)) as [Hc _];
      (apply c_text_cons; [apply is_scalar_spec; lia | lia | exact Hc]).
Qed.

Lemma cp1252_char_c_text b c :
  cp1252_char b = Ok c -> nonzero b -> is_scalar c = true /\ c <> 0.
Proof.
  unfold cp1252_char, nonzero. pose proof (byte_val_range b) as R.
  destruct ((128 <=? byte_val b) && (byte_val b <=? 159)) eqn:Hhigh.
  - apply andb_prop in Hhigh. destruct Hhigh as [H1 H2].
    apply Z.leb_le in H1, H2.
    assert (Hn : (Z.to_nat (byte_val b - 128) < 32)%nat) by lia.
    revert Hn. generalize (Z.to_nat (byte_val b - 128)). intros k Hk.
    do 32 (destruct k as [|k];
           [cbn; first [ discriminate
                       | intros H%Ok_inj _; subst c;
                         split; [reflexivity | discriminate] ] |]).
    lia.
  - intros H%Ok_inj Hb. subst c. split; [apply is_scalar_spec; lia | exact Hb].
Qed.

Lemma for_each_chars_c_text (f : byte -> result Z) bts : forall s,
  (forall b c, f b = Ok c -> nonzero b -> is_scalar c = true /\ c <> 0) ->
  for_each f bts = Ok s ->
  Forall nonzero bts ->
  c_text s /\ (bts <> [] -> s <> []).
Proof.
  induction bts as [|b bts IH]; intros s Hf; cbn [for_each].
  - intros H%Ok_inj _. subst s. split; [constructor | congruence].
  - destruct (f b) as [c|] eqn:Hc; [|discriminate]. cbn [bind].
    destruct (for_each f bts) as [s'|] eqn:Hs; [|discriminate]. cbn [bind].
    intros H%Ok_inj Hnz. subst s. inversion Hnz; subst.
    destruct (IH s' Hf eq_refl ltac:(assumption)) as [Hc' _].
    split; [|discriminate].
    constructor; [apply (Hf b c Hc); assumption | exact Hc'].
Qed.

Lemma hex_c_text bts : c_text (hex bts) /\ (bts <> [] -> hex bts <> []).
Proof.
  split; [|destruct bts; [congruence | discriminate]].
  induction bts as [|b bts IH]; cbn [hex]; [constructor|].
  pose proof (byte_val_range b) as R.
  assert (Hd : forall n, 0 <= n < 16 ->
                         is_scalar (hex_digit n) = true /\ hex_digit n <> 0).
  { intros n Hn. unfold hex_digit.
    destruct (Z.ltb_spec n 10); (split; [apply is_scalar_spec|]); lia. }
  constructor; [apply Hd; Z.div_mod_to_equations; lia|].
  constructor; [apply Hd; Z.div_mod_to_equations; lia | exact IH].
Qed.

(** Whatever [decode_bytes] makes of bytes without a NUL is a text that
    can be written back. *)
Lemma decode_bytes_c_text bts s :
  decode_bytes bts = Ok s ->
  Forall nonzero bts ->
  c_text s /\ (bts <> [] -> s <> []).
Proof.
  unfold decode_bytes, encodings. cbn [decode_loop decode]. intros H Hnz.
  destruct (utf8_decode bts) as [s1|] eqn:H1.
  { apply Ok_inj in H. subst s1.
    exact (utf8_decode_c_text (length bts) bts s (le_n _) H1 Hnz). }
  destruct (for_each cp1252_char bts) as [s2|] eqn:H2.
  { apply Ok_inj in H. subst s2.
    exact (for_each_chars_c_text cp1252_char bts s cp1252_char_c_text H2 Hnz). }
  destruct (for_each latin1_char bts) as [s3|] eqn:H3.
  { apply Ok_inj in H. subst s3.
    apply (for_each_chars_c_text latin1_char bts s); try assumption.
    intros b c Hc%Ok_inj Hb. subst c. pose proof (byte_val_range b).
    split; [apply is_scalar_spec; lia | exact Hb]. }
  apply Ok_inj in H. subst s. apply hex_c_text.
Qed.

Lemma slice_empty {A} (l : list A) i : slice l i i = [].
Proof. unfold slice. rewrite Z.sub_diag. reflexivity. Qed.

Lemma slice_cons {A} (l : list A) i j x :
  0 <= i -> i < j -> index l i = Ok x -> slice l i j = x :: slice l (i + 1) j.
Proof.
  intros Hi Hj Hx. unfold index in Hx.
  destruct (nth_error l (Z.to_nat i)) as [y|] eqn:E; [|discriminate].
  apply Ok_inj in Hx. subst y. unfold slice.
  apply nth_error_split in E. destruct E as (l1 & l2 & -> & Hl1).
  replace (Z.to_nat (i + 1)) with (S (length l1)) by lia.
  rewrite <- Hl1, !skipn_app, skipn_all, (skipn_all2 l1) by lia.
  rewrite Nat.sub_diag.
  replace (S (length l1) - length l1)%nat with 1%nat by lia.
  cbn [app skipn].
  replace (Z.to_nat (j - i)) with (S (Z.to_nat (j - (i + 1)))) by lia.
  reflexivity.
Qed.

(** The scan only passes bytes other than NUL. *)
Lemma scan_nul_nonzero blob blob_size fuel : forall j j',
  0 <= j ->
  scan_nul blob blob_size fuel j = Ok j' ->
  j <= j' /\ Forall nonzero (slice blob j j').
Proof.
  induction fuel as [|fuel IH]; intros j j' Hj; cbn [scan_nul].
  - intros H%Ok_inj. subst j'. rewrite slice_empty. split; [lia | constructor].
  - destruct (j <? blob_size).
    + destruct (index blob j) as [b|] eqn:Hb; [|discriminate]. cbn [bind].
      destruct (Z.eqb_spec (byte_val b) 0).
      * intros H%Ok_inj. subst j'. rewrite slice_empty.
        split; [lia | constructor].
      * intro H. destruct (IH (j + 1) j' ltac:(lia) H) as [Hle Hall].
        split; [lia|].
        rewrite (slice_cons blob j j' b Hj ltac:(lia) Hb).
        constructor; assumption.
    + intros H%Ok_inj. subst j'. rewrite slice_empty.
      split; [lia | constructor].
Qed.

(** Every item [entry_item] returns has a text that is not empty, holds
    no NUL and consists of scalar values. *)
Lemma entry_item_c_text blob blob_size h off r :
  0 <= off ->
  entry_item blob blob_size (h, off) = Ok r ->
  hash r = h /\ c_text (text r) /\ text r <> [].
Proof.
  intros Hoff. unfold entry_item.
  destruct (entry_bytes blob blob_size off) as [bts|] eqn:Hb; [|discriminate].
  cbn [bind].
  assert (Hnz : Forall nonzero bts).
  { revert Hb. unfold entry_bytes. destruct (off <? blob_size).
    - destruct (scan_nul blob blob_size (Z.to_nat (blob_size - off)) off)
        as [j|] eqn:Hs; [|discriminate].
      cbn [bind]. intros H%Ok_inj. subst bts.
      apply (scan_nul_nonzero _ _ _ _ _ Hoff Hs).
    - intros H%Ok_inj. subst bts. constructor. }
  destruct bts as [|b bts].
  - cbn [bind]. intros H%Ok_inj. subst r. cbn [hash text].
    split; [reflexivity|]. split; [|discriminate].
    unfold BINARY. repeat constructor; discriminate.
  - destruct (decode_bytes (b :: bts)) as [t|] eqn:Hd; [|discriminate].
    cbn [bind]. intros H%Ok_inj. subst r. cbn [hash text].
    destruct (decode_bytes_c_text _ _ Hd Hnz) as [Hc Hne].
    split; [reflexivity|]. split; [exact Hc | apply Hne; discriminate].
Qed.

Lemma for_each_Forall2 {A B} (f : A -> result B) xs : forall ys,
  for_each f xs = Ok ys -> Forall2 (fun x y => f x = Ok y) xs ys.
Proof.
  induction xs as [|x xs IH]; intros ys; cbn [for_each].
  - intros H%Ok_inj. subst ys. constructor.
  - destruct (f x) as [y|] eqn:Hy; [|discriminate]. cbn [bind].
    destruct (for_each f xs) as [ys'|] eqn:Hys; [|discriminate]. cbn [bind].
    intros H%Ok_inj. subst ys. constructor; [exact Hy | apply IH; reflexivity].
Qed.

(** The items [parse_whm_table] returns are fit for [dump_whm_table]. *)
Lemma parse_whm_table_items data items :
  parse_whm_table data = Ok items ->
  Forall (fun it => u32 (hash it)) items
  /\ Forall (fun it => c_text (text it)) items
  /\ Forall (fun it => text it <> []) items.
Proof.
  unfold parse_whm_table.
  destruct (read_entries data) as [[[entries blob_start] blob_size]|] eqn:Hre;
    [|discriminate].
  cbn [bind]. intro Hfe. apply for_each_Forall2 in Hfe.
  destruct (read_entries_inv _ _ _ _ Hre) as (Hes & _ & _). clear Hre.
  induction Hfe as [|[h off] r entries items Hr _ IH];
    [repeat split; constructor|].
  inversion Hes as [|? ? [Hh Ho] Hes']; subst. cbn [fst snd] in Hh, Ho.
  destruct (IH Hes') as (I1 & I2 & I3).
  assert (Hoff : 0 <= off) by (unfold u32 in Ho; lia).
  destruct (entry_item_c_text _ _ _ _ _ Hoff Hr) as (E1 & E2 & E3).
  repeat split; constructor; try assumption. rewrite E1. exact Hh.
Qed.

Lemma encoded_total items :
  Forall (fun it => c_text (text it)) items -> exists encs, encoded items encs.
Proof.
  induction 1 as [|it items Hit _ [encs Hencs]]; [exists []; constructor|].
  destruct (utf8_encode_total (text it)) as [e He].
  { eapply Forall_impl; [|exact Hit]. cbn. tauto. }
  exists (e :: encs). constructor; assumption.
Qed.

(* ================================================================== *)
(** * The patch-table claims *)

Lemma Forall2_map_same {A B} (P : A -> B -> Prop) (f : A -> B) xs :
  (forall x, In x xs -> P x (f x)) -> Forall2 P xs (map f xs).
Proof.
  induction xs as [|x xs IH]; intro H; cbn [map]; constructor.
  - apply H. left. reflexivity.
  - apply IH. intros y Hy. apply H. right. exact Hy.
Qed.

Lemma map_read_back_nonempty items :
  Forall (fun it => text it <> []) items -> map read_back items = items.
Proof.
  induction 1 as [|[h t] items Ht _ IH]; [reflexivity|].
  cbn [map]. rewrite IH. f_equal. unfold read_back. cbn [text] in *.
  destruct t; [contradiction | reflexivity].
Qed.

(** In the blob, at the offset of entry [k], stands its text, NUL
    terminated. *)
Lemma offset_of_entry encs k e :
  nth_error encs k = Some e ->
  slice (blob_of encs) (offset_of encs k) (offset_of encs k + len (cstring e))
  = cstring e.
Proof.
  intro H. apply nth_error_split in H. destruct H as (l1 & l2 & -> & <-).
  rewrite offset_of_prefix.
  replace (blob_of (l1 ++ e :: l2))
    with (blob_of l1 ++ cstring e ++ blob_of l2).
  - apply slice_middle.
  - rewrite blob_of_split. unfold cstring. rewrite <- app_assoc. reflexivity.
Qed.

(** C2.  Write layout: for entries whose hashes are uint32 values, whose
    texts have the UTF-8 forms [encs], and whose blob fits a uint32 size,
    [dump_whm_table] writes, little-endian, the entry count, then one
    (hash, offset) pair per entry in input order, then the blob size,
    then the blob; the blob is the NUL-terminated UTF-8 texts one after
    the other, and each offset is where the entry's text starts in it. *)
Theorem dump_whm_table_layout items encs :
  encoded items encs ->
  Forall (fun it => u32 (hash it)) items ->
  len (blob_of encs) < 4294967296 ->
  dump_whm_table items
  = Ok (le32 (len items)
        ++ concat (map (fun p => le32 (hash (fst p))
                                 ++ le32 (offset_of encs (snd p)))
                       (combine items (seq 0 (length items))))
        ++ le32 (len (blob_of encs))
        ++ blob_of encs)
  /\ blob_of encs = concat (map (fun e => e ++ [x00]) encs)
  /\ (forall k it e,
         nth_error items k = Some it ->
         nth_error encs k = Some e ->
         utf8_encode (text it) = Ok e
         /\ slice (blob_of encs) (offset_of encs k)
                  (offset_of encs k + len e + 1)
            = e ++ [x00]).
Proof.
  intros Henc Hhash Hsize. split; [|split].
  - rewrite (dump_whm_table_spec items encs Henc Hhash Hsize). reflexivity.
  - reflexivity.
  - intros k it e Hit He. split.
    + clear Hhash Hsize. revert k Hit He.
      induction Henc as [|it' e' items encs Hie _ IH]; intros [|k];
        cbn [nth_error]; try discriminate.
      * intros [= ->] [= ->]. exact Hie.
      * apply IH.
    + pose proof (offset_of_entry encs k e He) as Hs.
      unfold cstring in Hs. rewrite len_app in Hs.
      change (len [x00]) with 1 in Hs. rewrite Z.add_assoc in Hs. exact Hs.
Qed.

Lemma dump_whm_table_layout_witness :
  dump_whm_table hello_world
  = Ok (le32 2
        ++ (le32 3735928559 ++ le32 0) ++ (le32 1 ++ le32 6)
        ++ le32 12
        ++ blit "Hello" ++ [x00] ++ blit "World" ++ [x00]).
Proof.
  refine (eq_trans (proj1 (dump_whm_table_layout hello_world hello_world_utf8
                             _ _ _)) _).
  - repeat constructor.
  - repeat constructor; cbn; lia.
  - vm_compute. reflexivity.
  - vm_compute. reflexivity.
Defined.

(** C1, as the code has it.  Round trip: entries with uint32 hashes and
    texts that are not empty, hold no NUL character and consist of
    Unicode scalar values, whose blob fits a uint32 size, are written by
    [dump_whm_table] to a file that [parse_whm_table] reads back as the
    same (hash, text) pairs in the same order.  Encoding normalisation:
    the items [parse_whm_table] returns for any buffer - their texts
    decoded by UTF-8 or by a fallback encoding - are such entries, so
    they are written back, as UTF-8, and read again as the same pairs,
    if the new blob still fits.  Texts with a NUL character: whatever
    the texts that encode, every entry is read back in its place with
    its hash and its text cut before the first NUL character - the part
    of the text that holds no NUL and is followed by nothing or by a
    NUL - and with the placeholder "[BINARY]" when nothing is left of
    the text, as for a text that is empty or begins with NUL. *)
Theorem patch_table_round_trip :
  (forall items encs,
      encoded items encs ->
      Forall (fun it => u32 (hash it)) items ->
      Forall (fun it => c_text (text it)) items ->
      Forall (fun it => text it <> []) items ->
      len (blob_of encs) < 4294967296 ->
      exists data,
        dump_whm_table items = Ok data /\ parse_whm_table data = Ok items)
  /\ (forall data items,
         parse_whm_table data = Ok items ->
         exists encs,
           encoded items encs
           /\ (len (blob_of encs) < 4294967296 ->
               exists data',
                 dump_whm_table items = Ok data'
                 /\ parse_whm_table data' = Ok items))
  /\ (forall items encs,
         encoded items encs ->
         Forall (fun it => u32 (hash it)) items ->
         len (blob_of encs) < 4294967296 ->
         exists data,
           dump_whm_table items = Ok data
           /\ parse_whm_table data
              = Ok (map (fun it =>
                           mk_item (hash it)
                             (match before_nul (text it) with
                              | [] => BINARY
                              | c :: t => c :: t
                              end))
                        items))
  /\ (forall t,
         exists rest,
           t = before_nul t ++ rest
           /\ ~ In 0 (before_nul t)
           /\ (rest = [] \/ exists r, rest = 0 :: r)).
Proof.
  assert (Hround : forall items encs,
             encoded items encs ->
             Forall (fun it => u32 (hash it)) items ->
             Forall (fun it => c_text (text it)) items ->
             Forall (fun it => text it <> []) items ->
             len (blob_of encs) < 4294967296 ->
             exists data,
               dump_whm_table items = Ok data /\ parse_whm_table data = Ok items).
  { intros items encs Henc Hhash Htxt Hne Hsize.
    exists (layout items encs). split.
    - apply dump_whm_table_spec; assumption.
    - rewrite parse_dump by assumption. f_equal.
      apply map_read_back_nonempty, Hne. }
  split; [exact Hround|]. split; [|split].
  - intros data items Hparse.
    destruct (parse_whm_table_items data items Hparse) as (Hhash & Htxt & Hne).
    destruct (encoded_total items Htxt) as [encs Henc].
    exists encs. split; [exact Henc|]. intro Hsize.
    exact (Hround items encs Henc Hhash Htxt Hne Hsize).
  - intros items encs Henc Hhash Hsize.
    exists (layout items encs). split.
    + apply dump_whm_table_spec; assumption.
    + rewrite parse_dump_cut by assumption. f_equal.
      apply map_ext. intros [h t]. unfold read_back_cut, read_back.
      cbn [hash text]. destruct (before_nul t); reflexivity.
  - apply before_nul_spec.
Qed.

Lemma patch_table_round_trip_witness :
  (exists data,
      dump_whm_table hello_world = Ok data
      /\ parse_whm_table data = Ok hello_world)
  /\ parse_whm_table fallback_buffer = Ok [mk_item 5 [233]]
  /\ (exists encs,
         encoded [mk_item 5 [233]] encs
         /\ (len (blob_of encs) < 4294967296 ->
             exists data',
               dump_whm_table [mk_item 5 [233]] = Ok data'
               /\ parse_whm_table data' = Ok [mk_item 5 [233]]))
  /\ (exists data,
         dump_whm_table with_nuls = Ok data
         /\ parse_whm_table data
            = Ok (map (fun it =>
                         mk_item (hash it)
                           (match before_nul (text it) with
                            | [] => BINARY
                            | c :: t => c :: t
                            end))
                      with_nuls))
  /\ map (fun it => before_nul (text it)) with_nuls = [[97]; []; [100; 101]].
Proof.
  split; [|split; [|split; [|split]]].
  - apply (proj1 patch_table_round_trip hello_world hello_world_utf8).
    + repeat constructor.
    + repeat constructor; cbn; lia.
    + repeat constructor; cbn; lia.
    + repeat constructor; discriminate.
    + vm_compute. reflexivity.
  - vm_compute. reflexivity.
  - apply (proj1 (proj2 patch_table_round_trip) fallback_buffer).
    vm_compute. reflexivity.
  - apply (proj1 (proj2 (proj2 patch_table_round_trip))
             with_nuls with_nuls_utf8).
    + repeat constructor.
    + repeat constructor; cbn; lia.
    + vm_compute. reflexivity.
  - vm_compute. reflexivity.
Defined.

(** C1 as stated fails: a text with a NUL character inside comes back cut
    before the NUL, a text that begins with NUL and an empty text come
    back as the placeholder. *)
Lemma patch_table_round_trip_counterexample :
  (data <- dump_whm_table with_nul ;; parse_whm_table data)
    = Ok [mk_item 1 [97]]
  /\ (data <- dump_whm_table [mk_item 1 [0; 99]] ;; parse_whm_table data)
    = Ok [mk_item 1 BINARY]
  /\ (data <- dump_whm_table [mk_item 1 []] ;; parse_whm_table data)
    = Ok [mk_item 1 BINARY].
Proof. repeat split; vm_compute; reflexivity. Qed.

(** C3, as the code has it.  An out-of-range offset degrades, it never
    fails the read - on a buffer that holds the blob its header
    announces.  For every buffer whose header parses: an entry whose
    offset is at or beyond the blob size gives the placeholder text
    "[BINARY]", without an exception and without a look at the blob; the
    read returns as soon as each entry whose offset is inside the blob
    can be read, which is so whenever the buffer holds the blob the
    header announces; and it then returns one item per header entry, in
    order, each the item its entry gives on its own, the out-of-range
    ones with the placeholder. *)
Theorem out_of_range_offset_gives_placeholder data entries blob_start blob_size :
  read_entries data = Ok (entries, blob_start, blob_size) ->
  let blob := slice data blob_start (blob_start + blob_size) in
  let returned results :=
    parse_whm_table data = Ok results
    /\ Forall2 (fun e r =>
                  entry_item blob blob_size e = Ok r
                  /\ hash r = fst e
                  /\ (blob_size <= snd e -> text r = BINARY))
               entries results in
  (forall any_blob h off,
      blob_size <= off ->
      entry_item any_blob blob_size (h, off) = Ok (mk_item h BINARY))
  /\ ((forall e, In e entries -> snd e < blob_size ->
                 is_ok (entry_item blob blob_size e) = true) ->
      exists results, returned results)
  /\ (complete data blob_start blob_size -> exists results, returned results).
Proof.
  intros Hre blob returned.
  assert (Hin_range : (forall e, In e entries -> snd e < blob_size ->
                                 is_ok (entry_item blob blob_size e) = true) ->
                      exists results, returned results).
  { intro Hok. unfold returned, parse_whm_table. rewrite Hre. cbn [bind].
    fold blob.
    apply (for_each_total (entry_item blob blob_size)
             (fun e r => entry_item blob blob_size e = Ok r
                         /\ hash r = fst e
                         /\ (blob_size <= snd e -> text r = BINARY))).
    apply Forall_forall. intros [h off] Hin.
    destruct (Z.le_gt_cases blob_size off) as [Hout | Hinside].
    - exists (mk_item h BINARY).
      rewrite (entry_item_out_of_range blob blob_size h off Hout).
      repeat split.
    - specialize (Hok (h, off) Hin ltac:(cbn [snd]; lia)).
      destruct (entry_item blob blob_size (h, off)) as [r|] eqn:Hr;
        [|discriminate].
      exists r. split; [reflexivity|]. split; [reflexivity|]. split.
      + revert Hr. unfold entry_item.
        destruct (entry_bytes blob blob_size off); [|discriminate]. cbn [bind].
        destruct (match a with [] => Ok BINARY | _ :: _ => decode_bytes a end);
          [|discriminate].
        cbn [bind]. intros H%Ok_inj. subst r. reflexivity.
      + cbn [snd]. lia. }
  split; [|split].
  - intros any_blob h off. apply entry_item_out_of_range.
  - exact Hin_range.
  - intro Hc. apply Hin_range. intros [h off] Hin _.
    destruct (read_entries_inv _ _ _ _ Hre) as (Hes & Hbs & Hsz).
    rewrite Forall_forall in Hes. destruct (Hes _ Hin) as [_ Hoff].
    cbn [snd] in Hoff. unfold u32 in Hoff, Hsz.
    destruct (entry_item_total blob blob_size h off) as [t Ht]; [lia | |].
    + unfold blob. rewrite len_slice_complete; unfold complete in Hc; lia.
    + rewrite Ht. reflexivity.
Qed.

Lemma out_of_range_offset_gives_placeholder_witness :
  parse_whm_table boundary_buffer
  = Ok [mk_item 1 (lit "AB"); mk_item 2 BINARY]
  /\ exists results,
       parse_whm_table boundary_buffer = Ok results
       /\ Forall2 (fun e r =>
                     entry_item (slice boundary_buffer 24 (24 + 5)) 5 e = Ok r
                     /\ hash r = fst e
                     /\ (5 <= snd e -> text r = BINARY))
                  [(1, 0); (2, 5)] results.
Proof.
  split; [vm_compute; reflexivity|].
  apply (out_of_range_offset_gives_placeholder boundary_buffer
           [(1, 0); (2, 5)] 24 5).
  - vm_compute. reflexivity.
  - unfold complete. vm_compute. discriminate.
Defined.

(** C3 as stated fails: on a buffer whose header parses but whose blob
    is cut short, the scan of the entry at offset 0 leaves the bytes
    that are there and raises [IndexError]; nothing is returned, the
    placeholder of the entry whose offset is the blob size included. *)
Lemma out_of_range_offset_gives_placeholder_counterexample :
  read_entries truncated_buffer = Ok ([(1, 0); (2, 5)], 24, 5)
  /\ len truncated_buffer = 26
  /\ entry_item (slice truncated_buffer 24 (24 + 5)) 5 (2, 5)
     = Ok (mk_item 2 BINARY)
  /\ parse_whm_table truncated_buffer = Raise IndexError.
Proof. repeat split; vm_compute; reflexivity. Qed.

(** C9.  Empty texts read back as the placeholder.  An entry whose
    offset is inside the blob and points at a NUL byte gives the text
    "[BINARY]", which is not the empty string, and on a buffer that holds
    the blob its header announces [parse_whm_table] returns it so; hence
    an entry written with the text "" is not read back as "". *)
Theorem empty_text_reads_back_as_placeholder :
  (forall blob blob_size h off,
      off < blob_size ->
      index blob off = Ok x00 ->
      entry_item blob blob_size (h, off) = Ok (mk_item h BINARY))
  /\ (forall data entries blob_start blob_size,
      read_entries data = Ok (entries, blob_start, blob_size) ->
      complete data blob_start blob_size ->
      exists results,
        parse_whm_table data = Ok results
        /\ Forall2 (fun e r =>
                      snd e < blob_size ->
                      index (slice data blob_start (blob_start + blob_size))
                            (snd e) = Ok x00 ->
                      r = mk_item (fst e) BINARY)
                   entries results)
  /\ BINARY <> []
  /\ (forall items encs,
         encoded items encs ->
         Forall (fun it => u32 (hash it)) items ->
         Forall (fun it => c_text (text it)) items ->
         len (blob_of encs) < 4294967296 ->
         exists data results,
           dump_whm_table items = Ok data
           /\ parse_whm_table data = Ok results
           /\ Forall2 (fun it r =>
                         text it = [] -> r = mk_item (hash it) BINARY)
                      items results).
Proof.
  split; [|split; [|split]].
  - intros blob blob_size h off. apply entry_item_at_nul.
  - intros data entries blob_start blob_size Hre Hc.
    destruct (parse_whm_table_total _ _ _ _ Hre Hc) as [results [Hp HF]].
    exists results. split; [exact Hp|].
    eapply Forall2_impl; [|exact HF]. intros [h off] r [Hr _]. cbn [fst snd].
    intros Hoff Hnul. rewrite (entry_item_at_nul _ _ h off Hoff Hnul) in Hr.
    apply Ok_inj in Hr. congruence.
  - discriminate.
  - intros items encs Henc Hhash Htxt Hsize.
    exists (layout items encs), (map read_back items). repeat split.
    + apply dump_whm_table_spec; assumption.
    + apply parse_dump; assumption.
    + apply Forall2_map_same. intros [h t] _. cbn [text hash].
      intros ->. reflexivity.
Qed.

Lemma empty_text_reads_back_as_placeholder_witness :
  (exists results,
      parse_whm_table nul_buffer = Ok results
      /\ Forall2 (fun e r =>
                    snd e < 3 ->
                    index (slice nul_buffer 24 (24 + 3)) (snd e) = Ok x00 ->
                    r = mk_item (fst e) BINARY)
                 [(1, 0); (2, 2)] results)
  /\ (exists data results,
         dump_whm_table with_empty = Ok data
         /\ parse_whm_table data = Ok results
         /\ Forall2 (fun it r => text it = [] -> r = mk_item (hash it) BINARY)
                    with_empty results).
Proof.
  split.
  - apply (proj1 (proj2 empty_text_reads_back_as_placeholder) nul_buffer
             [(1, 0); (2, 2)] 24 3).
    + vm_compute. reflexivity.
    + unfold complete. vm_compute. discriminate.
  - apply (proj2 (proj2 (proj2 empty_text_reads_back_as_placeholder))
             with_empty with_empty_utf8).
    + repeat constructor.
    + repeat constructor; cbn; lia.
    + repeat constructor; cbn; lia.
    + vm_compute. reflexivity.
Defined.

(* ================================================================== *)
(** * Regular expressions *)

Import Re Main.

Lemma fullmatch_Empty s : fullmatch Empty s = false.
Proof. induction s; [reflexivity | assumption]. Qed.

Lemma fullmatch_Alt s : forall r1 r2,
  fullmatch (Alt r1 r2) s = fullmatch r1 s || fullmatch r2 s.
Proof. induction s as [|c s IH]; intros r1 r2; cbn; [reflexivity | apply IH]. Qed.

Lemma fullmatch_Seq_Empty s r : fullmatch (Seq Empty r) s = false.
Proof. induction s; [reflexivity | assumption]. Qed.

Lemma fullmatch_Seq_Eps s r : fullmatch (Seq Eps r) s = fullmatch r s.
Proof.
  destruct s as [|c s]; [reflexivity|].
  cbn. rewrite fullmatch_Alt, fullmatch_Seq_Empty. reflexivity.
Qed.

(** A one-character set, then [r]. *)
Lemma fullmatch_Seq_Cls cs r s :
  fullmatch (Seq (Cls cs) r) s
  = match s with
    | c :: s' => in_set cs c && fullmatch r s'
    | [] => false
    end.
Proof.
  destruct s as [|c s]; [reflexivity|]. cbn.
  destruct (in_set cs c); [apply fullmatch_Seq_Eps | apply fullmatch_Seq_Empty].
Qed.

(** A set repeated [lo] to [hi] times. *)
Lemma fullmatch_Rep_some cs s : forall lo hi,
  fullmatch (Rep cs lo (Some hi)) s
  = (lo <=? length s)%nat && (length s <=? hi)%nat && forallb (in_set cs) s.
Proof.
  induction s as [|c s IH]; intros lo hi; cbn [fullmatch deriv nullable length forallb].
  - destruct lo; reflexivity.
  - destruct (in_set cs c); cbn [andb].
    + destruct hi as [|hi].
      * rewrite fullmatch_Empty.
        destruct (lo <=? S (length s))%nat; reflexivity.
      * rewrite IH. f_equal. f_equal.
        destruct lo; [reflexivity|]. reflexivity.
    + rewrite fullmatch_Empty, andb_false_r. reflexivity.
Qed.

(** A set repeated at least [lo] times. *)
Lemma fullmatch_Rep_none cs s : forall lo,
  fullmatch (Rep cs lo None) s
  = (lo <=? length s)%nat && forallb (in_set cs) s.
Proof.
  induction s as [|c s IH]; intros lo; cbn [fullmatch deriv nullable length forallb].
  - destruct lo; reflexivity.
  - destruct (in_set cs c); cbn [andb].
    + rewrite IH. f_equal. destruct lo; reflexivity.
    + rewrite fullmatch_Empty, andb_false_r. reflexivity.
Qed.

Lemma forallb_same {A} (f g : A -> bool) l :
  (forall x, f x = g x) -> forallb f l = forallb g l.
Proof. intro H. induction l as [|x l IH]; cbn; [|rewrite H, IH]; reflexivity. Qed.

Ltac class_eq :=
  intros; cbv [in_set existsb fst snd app digit upper lower underscore hexdigit
               is_digit is_upper is_lower is_letter is_underscore is_hex];
  zcases; reflexivity.

Lemma in_set_vc c :
  in_set (digit ++ upper ++ underscore) c
  = is_digit c || is_upper c || is_underscore c.
Proof. class_eq. Qed.

Lemma in_set_iii c :
  in_set (digit ++ lower ++ upper ++ underscore) c
  = is_digit c || is_letter c || is_underscore c.
Proof. class_eq. Qed.

Lemma in_set_iv c :
  in_set (upper ++ lower ++ digit ++ underscore) c
  = is_letter c || is_digit c || is_underscore c.
Proof. class_eq. Qed.

Lemma in_set_hex c : in_set hexdigit c = is_hex c.
Proof. class_eq. Qed.

Lemma in_set_0 c : in_set [(48, 48)] c = (c =? 48).
Proof. class_eq. Qed.

Lemma in_set_xX c : in_set [(120, 120); (88, 88)] c = (c =? 120) || (c =? 88).
Proof. class_eq. Qed.

Lemma fullmatch_re_vc key : fullmatch re_vc key = hashed_short_upper key.
Proof.
  unfold re_vc, hashed_short_upper, chars_between.
  rewrite fullmatch_Rep_some. f_equal. apply forallb_same, in_set_vc.
Qed.

Lemma fullmatch_re_sa key : fullmatch re_sa key = hashed_8hex key.
Proof.
  unfold re_sa, hashed_8hex, chars_between.
  rewrite fullmatch_Rep_some. f_equal. apply forallb_same, in_set_hex.
Qed.

Lemma fullmatch_re_iii key : fullmatch re_iii key = plain_7 key.
Proof.
  unfold re_iii, plain_7, chars_between.
  rewrite fullmatch_Rep_some. f_equal. apply forallb_same, in_set_iii.
Qed.

Lemma fullmatch_re_iv_plain key : fullmatch re_iv_plain key = bare_identifier key.
Proof.
  unfold re_iv_plain, bare_identifier.
  rewrite fullmatch_Rep_none. f_equal. apply forallb_same, in_set_iv.
Qed.

Lemma fullmatch_re_hash key : fullmatch re_hash key = zero_xX_8hex key.
Proof.
  unfold re_hash, zero_xX_8hex, chars_between.
  rewrite fullmatch_Seq_Cls. destruct key as [|c0 key]; [reflexivity|].
  rewrite fullmatch_Seq_Cls. destruct key as [|c1 key];
    [rewrite andb_false_r; reflexivity|].
  rewrite fullmatch_Rep_some, in_set_0, in_set_xX, andb_assoc.
  f_equal. f_equal. apply forallb_same, in_set_hex.
Qed.

(* ================================================================== *)
(** * Key validation *)

Lemma zero_xX_8hex_starts key :
  zero_xX_8hex key = true -> lower_startswith_0x key = true.
Proof.
  unfold zero_xX_8hex, lower_startswith_0x.
  destruct key as [|c0 [|c1 ds]]; try discriminate.
  intro H. apply andb_prop in H. tauto.
Qed.

Lemma zero_x_8hex_xX key : zero_x_8hex key = true -> zero_xX_8hex key = true.
Proof.
  unfold zero_x_8hex, zero_xX_8hex.
  destruct key as [|c0 [|c1 ds]]; try discriminate.
  intro H. apply andb_prop in H. destruct H as [H ->].
  apply andb_prop in H. destruct H as [-> ->]. reflexivity.
Qed.

Lemma is_hex_alnum c :
  is_hex c = true -> is_letter c || is_digit c || is_underscore c = true.
Proof.
  cbv [is_hex is_letter is_digit is_upper is_lower is_underscore].
  zcases; intro; try reflexivity; try discriminate.
Qed.

Lemma zero_xX_8hex_bare key :
  zero_xX_8hex key = true -> bare_identifier key = true.
Proof.
  unfold zero_xX_8hex, bare_identifier, chars_between.
  destruct key as [|c0 [|c1 ds]]; try discriminate.
  intro H. apply andb_prop in H. destruct H as [H Hds].
  apply andb_prop in H. destruct H as [H0 H1].
  apply andb_prop in Hds. destruct Hds as [_ Hall].
  cbn [length forallb Nat.leb andb].
  apply andb_true_intro; split; [|apply andb_true_intro; split].
  - revert H0. cbv [is_letter is_digit is_upper is_lower is_underscore].
    zcases; intro; try reflexivity; discriminate.
  - revert H1. cbv [is_letter is_digit is_upper is_lower is_underscore].
    zcases; intro; try reflexivity; discriminate.
  - rewrite forallb_forall in Hall.
    apply forallb_forall. intros c Hc. apply is_hex_alnum. auto.
Qed.

(** C6, as the code has it.  The static validator accepts a key exactly
    when it matches its dialect's row of the table - plain-7 (III),
    hashed-short-upper (VC), hashed-8hex (SA) - and, for plain-or-hash
    (IV), when it matches the row and, if it starts with 0x or 0X, is 0x
    or 0X followed by exactly 8 hex digits. *)
Theorem validate_key_static_matches_table : forall key : str,
  _validate_key_static key III Gxt = plain_7 key
  /\ _validate_key_static key VC Gxt = hashed_short_upper key
  /\ _validate_key_static key SA Gxt = hashed_8hex key
  /\ _validate_key_static key IV Gxt
     = plain_or_hash key
       && (negb (lower_startswith_0x key) || zero_xX_8hex key).
Proof.
  intro key. cbn [_validate_key_static].
  rewrite fullmatch_re_iii, fullmatch_re_vc, fullmatch_re_sa.
  repeat split.
  rewrite fullmatch_re_hash, fullmatch_re_iv_plain. unfold plain_or_hash.
  destruct (lower_startswith_0x key) eqn:Hs; cbn [negb orb].
  - destruct (zero_xX_8hex key) eqn:Hx.
    + rewrite (zero_xX_8hex_bare _ Hx). reflexivity.
    + rewrite andb_false_r. reflexivity.
  - rewrite andb_true_r.
    destruct (zero_x_8hex key) eqn:Hx; [|rewrite orb_false_r; reflexivity].
    apply zero_x_8hex_xX, zero_xX_8hex_starts in Hx. congruence.
Qed.

(** C6 as stated fails: "0x12" is a bare identifier, which the
    plain-or-hash row accepts, and the validator rejects it. *)
Lemma validate_key_static_counterexample :
  plain_or_hash (lit "0x12") = true
  /\ _validate_key_static (lit "0x12") IV Gxt = false.
Proof. split; vm_compute; reflexivity. Qed.

(* ================================================================== *)
(** * [int(s, 16)] on hexadecimal keys *)

Lemma is_hex_digit16 c :
  is_hex c = true ->
  (c =? 95) = false /\ c < 127
  /\ exists d, PyInt.digit16 c = Some d /\ 0 <= d < 16.
Proof.
  cbv [is_hex is_digit PyInt.digit16].
  zcases; intro; try discriminate; (split; [reflexivity|split; [lia|]]);
    eexists; (split; [reflexivity | lia]).
Qed.

Lemma digits_hex s : forall prev seen acc,
  forallb is_hex s = true ->
  0 <= acc ->
  exists v,
    PyInt.digits s prev seen acc
    = Some (v, seen || negb (Nat.eqb (length s) 0),
            match s with [] => prev | _ => false end, [])
    /\ acc * 16 ^ len s <= v < (acc + 1) * 16 ^ len s.
Proof.
  induction s as [|c s IH]; intros prev seen acc Hall Hacc.
  - exists acc. cbn. rewrite orb_false_r. split; [reflexivity | lia].
  - cbn [forallb] in Hall. apply andb_prop in Hall. destruct Hall as [Hc Hs].
    destruct (is_hex_digit16 c Hc) as (Hus & _ & d & Hd & Hdr).
    cbn [PyInt.digits]. rewrite Hus, Hd.
    destruct (IH false true (16 * acc + d) Hs ltac:(lia)) as [v [Hv Hb]].
    exists v. rewrite Hv. cbn [orb length Nat.eqb negb]. rewrite orb_true_r.
    split; [destruct s; reflexivity|].
    replace (len (c :: s)) with (Z.succ (len s))
      by (unfold len; cbn [length]; lia).
    rewrite Z.pow_succ_r by apply len_nonneg.
    assert (0 < 16 ^ len s) by (apply Z.pow_pos_nonneg; [lia | apply len_nonneg]).
    nia.
Qed.

Lemma transform_ascii ud s :
  Forall (fun c => c < 127) s -> PyInt.transform ud s = Some s.
Proof.
  induction 1 as [|c s Hc _ IH]; [reflexivity|].
  cbn [PyInt.transform]. unfold PyInt.to_ascii.
  destruct (Z.ltb_spec c 127); [|lia]. rewrite IH. reflexivity.
Qed.

(** A key of the form 0x / 0X + 8 hex digits parses, to a uint32. *)
Lemma int16_hash_key ud key :
  zero_xX_8hex key = true -> exists v, PyInt.int16 ud key = Some v /\ u32 v.
Proof.
  unfold zero_xX_8hex, chars_between.
  destruct key as [|c0 [|c1 ds]]; try discriminate.
  intro H. apply andb_prop in H. destruct H as [H Hds].
  apply andb_prop in H. destruct H as [H0 H1].
  apply andb_prop in Hds. destruct Hds as [Hlen Hall].
  apply andb_prop in Hlen. destruct Hlen as [Hl1 Hl2].
  apply Nat.leb_le in Hl1, Hl2. apply Z.eqb_eq in H0. subst c0.
  assert (Hascii : Forall (fun c => c < 127) (48 :: c1 :: ds)).
  { constructor; [lia|]. constructor.
    - revert H1. zcases; intro; try discriminate; lia.
    - apply Forall_forall. intros c Hc. rewrite forallb_forall in Hall.
      apply is_hex_digit16. auto. }
  destruct (digits_hex ds false false 0 Hall ltac:(lia)) as [v [Hv Hb]].
  exists v. split.
  - unfold PyInt.int16. rewrite (transform_ascii ud _ Hascii).
    cbn [PyInt.skip_space]. change (PyInt.c_isspace 48) with false. cbv iota.
    change (48 =? 43) with false. change (48 =? 45) with false. cbv iota.
    unfold PyInt.unsigned16, PyInt.strip_prefix.
    change (48 =? 48) with true. rewrite H1. cbn [andb].
    destruct ds as [|d ds']; [cbn in Hl1; lia|].
    cbn [forallb] in Hall. apply andb_prop in Hall. destruct Hall as [Hd _].
    destruct (is_hex_digit16 d Hd) as (Hus & _). rewrite Hus, Hv.
    cbn [length Nat.eqb negb orb]. rewrite Hus. reflexivity.
  - replace (len ds) with 8 in Hb by (unfold len; lia).
    unfold u32. change (16 ^ 8) with 4294967296 in Hb. lia.
Qed.

(* ================================================================== *)
(** * [load_txt_items] *)

Lemma whm_load_line_kv ud items out n line key t :
  strip line <> [] ->
  split_once 61 (strip line) = Some (key, t) ->
  Whm.load_line ud (items, out) (n, line)
  = match PyInt.int16 ud key with
    | Some v => (items ++ [mk_item v t], out)
    | None => (items, out ++ [InvalidHash n])
    end.
Proof.
  intros Hne Hs. unfold Whm.load_line.
  destruct (strip line) as [|c l]; [contradiction|]. rewrite Hs. reflexivity.
Qed.

Lemma build_blob_length items : forall blob offs blob' offs',
  build_blob items blob offs = Ok (blob', offs') ->
  length offs' = (length offs + length items)%nat.
Proof.
  induction items as [|it items IH]; intros blob offs blob' offs';
    cbn [build_blob].
  - intros H%Ok_inj. inversion H; subst. cbn. lia.
  - destruct (utf8_encode (text it)) as [b|]; [|discriminate]. cbn [bind].
    intro H. apply IH in H. rewrite length_app in H. cbn [length] in *. lia.
Qed.

Lemma build_header_bad_hash pairs : forall header,
  Exists (fun p => ~ u32 (hash (fst p))) pairs ->
  is_ok (build_header pairs header) = false.
Proof.
  induction pairs as [|[it off] pairs IH]; intros header H;
    inversion H as [? ? Hbad | ? ? Hrest]; subst; cbn [build_header].
  - cbn [fst] in Hbad. unfold pack_II. rewrite (pack_I_not_u32 _ Hbad).
    reflexivity.
  - destruct (pack_II (hash it) off); [cbn [bind]; apply IH, Hrest | reflexivity].
Qed.

Lemma Exists_combine_l {A B} (P : A -> Prop) (xs : list A) : forall ys : list B,
  length ys = length xs ->
  Exists P xs -> Exists (fun p => P (fst p)) (combine xs ys).
Proof.
  induction xs as [|x xs IH]; intros [|y ys] Hlen H; inversion H; subst;
    try discriminate; cbn [combine].
  - apply Exists_cons_hd. assumption.
  - apply Exists_cons_tl. apply IH; [cbn in Hlen; lia | assumption].
Qed.

(** A hash outside the uint32 range makes [dump_whm_table] raise. *)
Lemma dump_whm_table_bad_hash items :
  Exists (fun it => ~ u32 (hash it)) items ->
  is_ok (dump_whm_table items) = false.
Proof.
  intro H. unfold dump_whm_table.
  destruct (build_blob items [] []) as [[blob offs]|] eqn:Hb; [|reflexivity].
  cbn [bind]. apply build_blob_length in Hb. cbn [length] in Hb.
  destruct (pack_I (len items)) as [h0|]; [|reflexivity]. cbn [bind].
  pose proof (build_header_bad_hash (combine items offs) h0
                (Exists_combine_l _ items offs Hb H)) as Hh.
  destruct (build_header (combine items offs) h0); [discriminate | reflexivity].
Qed.

(** C10.  [load_txt_items] puts no 32-bit bound on a hash: a line whose
    key part parses as a hexadecimal integer is accepted with that
    value, whatever it is - 2^32 and -1 for instance - and
    [dump_whm_table] on such items raises ([struct.error], from packing
    the hash) instead of producing a file. *)
Theorem load_txt_items_has_no_32_bit_bound : forall ud : Z -> option Z,
  (forall items out n line key t v,
      strip line <> [] ->
      split_once 61 (strip line) = Some (key, t) ->
      PyInt.int16 ud key = Some v ->
      Whm.load_line ud (items, out) (n, line) = (items ++ [mk_item v t], out))
  /\ load_txt_items ud [lit "0x100000000=a"] = [mk_item 4294967296 (lit "a")]
  /\ load_txt_items ud [lit "-0x1=a"] = [mk_item (-1) (lit "a")]
  /\ pack_I 4294967296 = Raise StructError
  /\ pack_I (-1) = Raise StructError
  /\ dump_whm_table (load_txt_items ud [lit "0x100000000=a"]) = Raise StructError
  /\ dump_whm_table (load_txt_items ud [lit "-0x1=a"]) = Raise StructError
  /\ (forall items,
         Exists (fun it => ~ u32 (hash it)) items ->
         is_ok (dump_whm_table items) = false).
Proof.
  intro ud. split.
  - intros items out n line key t v Hne Hs Hv.
    rewrite (whm_load_line_kv ud items out n line key t Hne Hs), Hv.
    reflexivity.
  - split; [vm_compute; reflexivity|].
    split; [vm_compute; reflexivity|].
    split; [reflexivity|].
    split; [reflexivity|].
    split; [vm_compute; reflexivity|].
    split; [vm_compute; reflexivity|].
    apply dump_whm_table_bad_hash.
Qed.

Lemma load_txt_items_has_no_32_bit_bound_witness :
  Whm.load_line (fun _ => None) ([], []) (1, lit "0x100000000=a")
  = ([mk_item 4294967296 (lit "a")], [])
  /\ is_ok (dump_whm_table [mk_item 4294967296 (lit "a")]) = false.
Proof.
  pose proof (load_txt_items_has_no_32_bit_bound (fun _ => None)) as H.
  split.
  - apply (proj1 H [] [] 1 (lit "0x100000000=a") (lit "0x100000000") (lit "a")).
    + vm_compute. discriminate.
    + vm_compute. reflexivity.
    + vm_compute. reflexivity.
  - apply (proj2 (proj2 (proj2 (proj2 (proj2 (proj2 (proj2 H))))))).
    apply Exists_cons_hd. cbn. unfold u32. lia.
Defined.

(** C7, as the code has it.  The rule "0x (or 0X) followed by exactly 8
    hex digits" is the one [_validate_key_static] applies to a 'dat' key.
    [load_txt_items] accepts a line exactly when [int(key, 16)] parses
    its key part, and skips it with a warning otherwise; every key of the
    strict form parses, to a uint32 value. *)
Theorem patch_table_key_strictness : forall ud : Z -> option Z,
  (forall key v, _validate_key_static key v Dat = zero_xX_8hex key)
  /\ (forall items out n line key t,
         strip line <> [] ->
         split_once 61 (strip line) = Some (key, t) ->
         Whm.load_line ud (items, out) (n, line)
         = match PyInt.int16 ud key with
           | Some v => (items ++ [mk_item v t], out)
           | None => (items, out ++ [InvalidHash n])
           end)
  /\ (forall key,
         zero_xX_8hex key = true ->
         exists v, PyInt.int16 ud key = Some v /\ u32 v).
Proof.
  intro ud. split; [|split].
  - intros key v. cbn [_validate_key_static]. apply fullmatch_re_hash.
  - intros. apply whm_load_line_kv; assumption.
  - apply int16_hash_key.
Qed.

Lemma patch_table_key_strictness_witness :
  Whm.load_line (fun _ => None) ([], []) (1, lit "0xDEADBEEF=Hello")
  = ([mk_item 3735928559 (lit "Hello")], [])
  /\ exists v, PyInt.int16 (fun _ => None) (lit "0xDEADBEEF") = Some v /\ u32 v.
Proof.
  pose proof (patch_table_key_strictness (fun _ => None)) as [_ [H2 H3]].
  split.
  - rewrite (H2 [] [] 1 (lit "0xDEADBEEF=Hello") (lit "0xDEADBEEF") (lit "Hello")).
    + vm_compute. reflexivity.
    + vm_compute. discriminate.
    + vm_compute. reflexivity.
  - apply H3. vm_compute. reflexivity.
Defined.

(** The scenario of the specification: the two lines are loaded as two
    entries, which are written and read back unchanged. *)
Example hello_world_scenario : forall ud : Z -> option Z,
  load_txt_items ud (readlines (lit "0xDEADBEEF=Hello
0x00000001=World
")) = hello_world
  /\ (data <- dump_whm_table hello_world ;; parse_whm_table data)
     = Ok hello_world.
Proof. intro ud. split; vm_compute; reflexivity. Qed.

(** C7 as stated fails: the key part "1" is not 0x followed by 8 hex
    digits, and [load_txt_items] accepts the line "1=Hello". *)
Lemma patch_table_key_strictness_counterexample :
  split_once 61 (strip (lit "1=Hello")) = Some (lit "1", lit "Hello")
  /\ zero_x_8hex (lit "1") = false
  /\ (forall ud, load_txt_items ud [lit "1=Hello"] = [mk_item 1 (lit "Hello")]).
Proof. repeat split; vm_compute; reflexivity. Qed.

(* ================================================================== *)
(** * [_load_standard_txt] *)

Lemma str_eqb_refl a : str_eqb a a = true.
Proof. induction a as [|x a IH]; cbn; [|rewrite Z.eqb_refl, IH]; reflexivity. Qed.

Lemma dict_mem_set_same {V} (d : dict V) k v : dict_mem (dict_set d k v) k = true.
Proof.
  unfold dict_mem. induction d as [|[k' v'] d IH]; cbn [dict_set dict_get].
  - rewrite str_eqb_refl. reflexivity.
  - destruct (str_eqb k' k) eqn:E; cbn [dict_get]; rewrite E; [reflexivity | exact IH].
Qed.

(** What [load_line] does, by the kind of the line. *)
Lemma load_line_classify ht v path st n line :
  Main.load_line ht v path st (n, line)
  = match classify ht line with
    | Blank | NoSeparator => Ok st
    | Header name =>
        Ok (mk_state
              (match name with
               | [] => data st
               | _ => if dict_mem (data st) name then data st
                      else dict_set (data st) name []
               end)
              (invalid_keys st) (Some name))
    | KeyValue key value =>
        match current_table st with
        | None => Ok st
        | Some cur =>
            if _validate_key_static key v Gxt then
              match key with
              | [] => Ok st
              | _ =>
                  match dict_get (data st) cur with
                  | None => Raise KeyError
                  | Some t =>
                      Ok (mk_state
                            (dict_set (data st) cur (dict_set t key value))
                            (invalid_keys st) (current_table st))
                  end
              end
            else
              Ok (mk_state (data st)
                    (invalid_keys st
                     ++ [(key, n, path, _get_key_validation_message v Gxt)])
                    (current_table st))
        end
    end.
Proof.
  unfold Main.load_line, classify.
  destruct (strip line) as [|c l]; [reflexivity|].
  destruct (ht && startswith_char 91 (c :: l) && endswith_char 93 (c :: l));
    [reflexivity|].
  destruct (split_once 61 (c :: l)) as [[key value]|]; [|reflexivity].
  destruct (current_table st) as [cur|]; [|reflexivity].
  unfold _validate_key_for_import_optimized.
  destruct (_validate_key_static (strip key) v Gxt); reflexivity.
Qed.

Lemma classify_blank ht : classify ht [] = Blank.
Proof. reflexivity. Qed.

Lemma enumerate_map {A B} (f : A -> B) xs : forall n,
  enumerate n (map f xs) = map (fun p => (fst p, f (snd p))) (enumerate n xs).
Proof.
  induction xs as [|x xs IH]; intro n; cbn; [reflexivity|].
  rewrite IH. reflexivity.
Qed.

Lemma map_snd_enumerate {A} (xs : list A) : forall n,
  map snd (enumerate n xs) = xs.
Proof.
  induction xs as [|x xs IH]; intro n; cbn; [|rewrite IH]; reflexivity.
Qed.

(** One line, on a state whose current table is open: the step returns,
    keeps the table open, adds the error the line owes - and on the
    emptied line it returns the same archive and table with no error
    added. *)
Lemma load_line_step ht v path st n line :
  table_open st ->
  classify ht line <> Header [] ->
  exists st',
    Main.load_line ht v path st (n, line) = Ok st'
    /\ table_open st'
    /\ invalid_keys st'
       = invalid_keys st
         ++ reported ht v path (is_some (current_table st)) [(n, line)]
    /\ (forall rest,
           reported ht v path (is_some (current_table st)) ((n, line) :: rest)
           = reported ht v path (is_some (current_table st)) [(n, line)]
             ++ reported ht v path (is_some (current_table st')) rest)
    /\ (forall errs,
           Main.load_line ht v path (with_errors st errs)
             (n, if invalid_key_line ht v line then [] else line)
           = Ok (with_errors st' errs)).
Proof.
  intros Hopen Hname. unfold invalid_key_line.
  destruct st as [d es cur]. unfold table_open in *.
  cbn [data invalid_keys current_table] in *.
  assert (Hblank : forall errs,
             Main.load_line ht v path (with_errors (mk_state d es cur) errs) (n, [])
             = Ok (with_errors (mk_state d es cur) errs)).
  { intro errs. rewrite load_line_classify, classify_blank. reflexivity. }
  assert (Hsame : forall errs,
             Main.load_line ht v path (with_errors (mk_state d es cur) errs) (n, line)
             = match classify ht line with
               | Blank | NoSeparator => Ok (mk_state d errs cur)
               | Header name =>
                   Ok (mk_state
                         (match name with
                          | [] => d
                          | _ => if dict_mem d name then d else dict_set d name []
                          end) errs (Some name))
               | KeyValue key value =>
                   match cur with
                   | None => Ok (mk_state d errs cur)
                   | Some c =>
                       if _validate_key_static key v Gxt then
                         match key with
                         | [] => Ok (mk_state d errs cur)
                         | _ =>
                             match dict_get d c with
                             | None => Raise KeyError
                             | Some t =>
                                 Ok (mk_state (dict_set d c (dict_set t key value))
                                       errs cur)
                             end
                         end
                       else
                         Ok (mk_state d
                               (errs ++ [(key, n, path,
                                          _get_key_validation_message v Gxt)])
                               cur)
                   end
               end).
  { intro errs. rewrite load_line_classify. unfold with_errors.
    cbn [data invalid_keys current_table].
    destruct (classify ht line); try reflexivity;
      destruct cur; reflexivity. }
  pose proof (Hsame es) as Hstep. unfold with_errors in Hstep, Hsame, Hblank.
  cbn [data invalid_keys current_table] in Hstep, Hsame, Hblank.
  unfold with_errors. cbn [reported data invalid_keys current_table].
  destruct (classify ht line) as [|name|key value|] eqn:Hk.
  - exists (mk_state d es cur). cbn [data invalid_keys current_table].
    split; [exact Hstep|]. split; [exact Hopen|].
    split; [rewrite app_nil_r; reflexivity|].
    split; [reflexivity|]. intro errs. apply Hsame.
  - destruct name as [|c name]; [contradiction|].
    eexists. split; [exact Hstep|]. cbn [data invalid_keys current_table is_some].
    split; [|split; [rewrite app_nil_r; reflexivity|split; [reflexivity|]]].
    + intros cur' [= <-].
      destruct (dict_mem d (c :: name)) eqn:Hm;
        [exact Hm | apply dict_mem_set_same].
    + intro errs. apply Hsame.
  - destruct cur as [cur|]; cbn [is_some andb].
    + destruct (_validate_key_static key v Gxt) eqn:Hv; cbn [negb].
      * destruct key as [|kc key].
        { exists (mk_state d es (Some cur)). cbn [data invalid_keys current_table is_some].
          split; [exact Hstep|]. split; [exact Hopen|].
          split; [rewrite app_nil_r; reflexivity|].
          split; [reflexivity|]. intro errs. apply Hsame. }
        { pose proof (Hopen cur eq_refl) as Hm. unfold dict_mem in Hm.
          destruct (dict_get d cur) as [t|] eqn:Hg; [|discriminate].
          eexists. split; [exact Hstep|].
          cbn [data invalid_keys current_table is_some].
          split; [|split; [rewrite app_nil_r; reflexivity|split; [reflexivity|]]].
          - intros cur' [= <-]. apply dict_mem_set_same.
          - intro errs. apply Hsame. }
      * eexists. split; [exact Hstep|].
        cbn [data invalid_keys current_table is_some].
        split; [exact Hopen|]. split; [reflexivity|]. split; [reflexivity|].
        intro errs. apply Hblank.
    + exists (mk_state d es None). cbn [data invalid_keys current_table is_some].
      split; [exact Hstep|]. split; [exact Hopen|].
      split; [rewrite app_nil_r; reflexivity|].
      split; [reflexivity|]. intro errs.
      destruct (_validate_key_static key v Gxt); cbn [negb];
        [apply Hsame | apply Hblank].
  - exists (mk_state d es cur). cbn [data invalid_keys current_table].
    split; [exact Hstep|]. split; [exact Hopen|].
    split; [rewrite app_nil_r; reflexivity|].
    split; [reflexivity|]. intro errs. apply Hsame.
Qed.

Lemma load_lines_spec ht v path nls : forall st,
  table_open st ->
  named_headers ht (map snd nls) ->
  exists st',
    fold_result (Main.load_line ht v path) nls st = Ok st'
    /\ table_open st'
    /\ invalid_keys st'
       = invalid_keys st ++ reported ht v path (is_some (current_table st)) nls
    /\ (forall errs,
           fold_result (Main.load_line ht v path)
             (map (fun p => (fst p,
                             if invalid_key_line ht v (snd p) then []
                             else snd p)) nls)
             (with_errors st errs)
           = Ok (with_errors st' errs)).
Proof.
  induction nls as [|[n line] nls IH]; intros st Hopen Hnames.
  - exists st. cbn. rewrite app_nil_r. repeat split; assumption.
  - cbn [map snd] in Hnames. inversion Hnames as [|? ? Hline Hrest]; subst.
    destruct (load_line_step ht v path st n line Hopen Hline)
      as (st1 & Hstep & Hopen1 & Herr1 & Hrep & Hblank).
    destruct (IH st1 Hopen1 Hrest) as (st' & Hfold & Hopen' & Herr' & Hblank').
    exists st'. cbn [fold_result map fst snd]. rewrite Hstep. cbn [bind].
    repeat split; try assumption.
    + rewrite Herr', Herr1, (Hrep nls), app_assoc. reflexivity.
    + intro errs. rewrite Hblank. cbn [bind]. apply Hblank'.
Qed.

(* ================================================================== *)
(** * Lines without a separator *)

Lemma load_line_missing_separator ht v path st n line :
  Main.load_line ht v path st
    (n, if missing_separator ht line then [] else line)
  = Main.load_line ht v path st (n, line).
Proof.
  unfold missing_separator.
  destruct (classify ht line) eqn:Hk; try reflexivity.
  rewrite !load_line_classify, classify_blank, Hk. reflexivity.
Qed.

Lemma fold_result_map_same {S A} (f : S -> A -> result S) (g : A -> A) xs :
  (forall s x, f s (g x) = f s x) ->
  forall s, fold_result f (map g xs) s = fold_result f xs s.
Proof.
  intro H. induction xs as [|x xs IH]; intro s; cbn [map fold_result];
    [reflexivity|].
  rewrite H. destruct (f s x); cbn [bind]; [apply IH | reflexivity].
Qed.

Lemma load_file_missing_separator ht v st file :
  load_file ht v st (fst file, blank_where (missing_separator ht) (snd file))
  = load_file ht v st file.
Proof.
  destruct file as [path f]. cbn [fst snd load_file]. unfold blank_where.
  rewrite enumerate_map.
  apply (fold_result_map_same (Main.load_line ht v path)
           (fun p => (fst p, if missing_separator ht (snd p) then [] else snd p))).
  intros s [n line]. apply load_line_missing_separator.
Qed.

(** One line of the patch-table text: what it adds and what it prints. *)
Lemma whm_load_line_split ud items out n line :
  Whm.load_line ud (items, out) (n, line)
  = (items ++ line_items ud line, out ++ line_warnings ud (n, line)).
Proof.
  unfold Whm.load_line, line_items, line_warnings, classify. cbn [fst snd andb].
  destruct (strip line) as [|c l]; [rewrite !app_nil_r; reflexivity|].
  destruct (split_once 61 (c :: l)) as [[key t]|]; [|rewrite app_nil_r; reflexivity].
  destruct (PyInt.int16 ud key); rewrite app_nil_r; reflexivity.
Qed.

Lemma whm_fold_split ud nls : forall items out,
  fold_left (Whm.load_line ud) nls (items, out)
  = (items ++ flat_map (fun nl => line_items ud (snd nl)) nls,
     out ++ flat_map (line_warnings ud) nls).
Proof.
  induction nls as [|[n line] nls IH]; intros items out; cbn [fold_left flat_map].
  - rewrite !app_nil_r. reflexivity.
  - rewrite whm_load_line_split, IH, <- !app_assoc. reflexivity.
Qed.

Lemma flat_map_enumerate {A B} (g : A -> list B) xs : forall n,
  flat_map (fun nl => g (snd nl)) (enumerate n xs) = flat_map g xs.
Proof.
  induction xs as [|x xs IH]; intro n; cbn; [|rewrite IH]; reflexivity.
Qed.

(** What [load_txt_items] returns and prints, line by line. *)
Lemma load_txt_items_out_spec ud f :
  load_txt_items_out ud f
  = (flat_map (line_items ud) f, flat_map (line_warnings ud) (enumerate 1 f)).
Proof.
  unfold load_txt_items_out. rewrite whm_fold_split. cbn [app].
  rewrite (flat_map_enumerate (line_items ud)). reflexivity.
Qed.

Lemma line_items_missing_separator ud line :
  line_items ud (if missing_separator false line then [] else line)
  = line_items ud line.
Proof.
  unfold missing_separator, line_items.
  destruct (classify false line) eqn:Hk; try rewrite Hk; reflexivity.
Qed.

(** C8, as the code has it.  A non-blank, non-header line without '=' is
    not reported in what the loaders return.  [_load_standard_txt] skips
    it silently: its result, archive and error list, is the one of the
    same text with the line emptied.  [load_txt_items] skips it as well:
    it returns the same items as for the text with the line emptied, and
    only prints a warning with the line number. *)
Theorem missing_separator_is_not_returned :
  (forall files has_tables v,
      _load_standard_txt
        (map (fun file =>
                (fst file, blank_where (missing_separator has_tables) (snd file)))
             files)
        has_tables v
      = _load_standard_txt files has_tables v)
  /\ (forall ud f,
         load_txt_items ud (blank_where (missing_separator false) f)
         = load_txt_items ud f)
  /\ (forall ud items out n line,
         missing_separator false line = true ->
         Whm.load_line ud (items, out) (n, line)
         = (items, out ++ [Whm.MissingSeparator n])).
Proof.
  split; [|split].
  - intros files ht v. unfold _load_standard_txt. f_equal.
    apply (fold_result_map_same (load_file ht v)
             (fun file => (fst file, blank_where (missing_separator ht) (snd file)))).
    intros s file. apply load_file_missing_separator.
  - intros ud f. unfold load_txt_items. rewrite !load_txt_items_out_spec.
    cbn [fst]. unfold blank_where. rewrite flat_map_concat_map, map_map.
    rewrite (flat_map_concat_map (line_items ud)). f_equal.
    apply map_ext. intro line. apply line_items_missing_separator.
  - intros ud items out n line H. rewrite whm_load_line_split.
    unfold missing_separator in H. unfold line_items, line_warnings.
    cbn [fst snd]. destruct (classify false line); try discriminate.
    rewrite app_nil_r. reflexivity.
Qed.

Lemma missing_separator_is_not_returned_witness :
  Whm.load_line (fun _ => None) ([], []) (1, lit "nosep")
  = ([], [Whm.MissingSeparator 1]).
Proof.
  apply (proj2 (proj2 missing_separator_is_not_returned)
           (fun _ => None) [] [] 1 (lit "nosep")).
  vm_compute. reflexivity.
Defined.

(** C8 as stated fails: the line "nosep" has no '=', and neither loader
    returns an error for it. *)
Lemma missing_separator_counterexample :
  missing_separator false (lit "nosep") = true
  /\ _load_standard_txt [(lit "f.txt", [lit "nosep"; lit "A=1"])] false III
     = Ok ([(MAIN, [(lit "A", lit "1")])], [])
  /\ (forall ud, load_txt_items ud [lit "nosep"; lit "1=x"]
                 = [mk_item 1 (lit "x")]).
Proof. repeat split; vm_compute; reflexivity. Qed.

(* ================================================================== *)
(** * Hexadecimal keys: [format(h, "08X")] and [int(key, 16)] *)

Import Fmt WhmTxt Dat Props.

Lemma upper_hex_digit_spec d :
  0 <= d < 16 ->
  is_hex (upper_hex_digit d) = true
  /\ PyInt.digit16 (upper_hex_digit d) = Some d.
Proof.
  intro H. unfold upper_hex_digit, is_hex, is_digit, PyInt.digit16.
  destruct (Z.ltb_spec d 10); zcases; split; try reflexivity; f_equal; lia.
Qed.

Lemma to_hex_is_hex fuel : forall n,
  0 <= n -> forallb is_hex (to_hex fuel n) = true.
Proof.
  induction fuel as [|fuel IH]; intros n Hn; cbn [to_hex]; [reflexivity|].
  destruct (Z.ltb_spec n 16).
  - cbn [forallb]. rewrite (proj1 (upper_hex_digit_spec n ltac:(lia))).
    reflexivity.
  - rewrite forallb_app, IH by (apply Z.div_pos; lia). cbn [forallb].
    rewrite (proj1 (upper_hex_digit_spec (n mod 16)
                      ltac:(apply Z.mod_pos_bound; lia))).
    reflexivity.
Qed.

Lemma hex_value_snoc s c : hex_value (s ++ [c]) = 16 * hex_value s + digit_value c.
Proof. unfold hex_value. rewrite fold_left_app. reflexivity. Qed.

(** With fuel enough, the digits write the number. *)
Lemma to_hex_value fuel : forall n,
  0 <= n < 16 ^ Z.of_nat fuel -> hex_value (to_hex fuel n) = n.
Proof.
  induction fuel as [|fuel IH]; intros n Hn.
  - change (16 ^ Z.of_nat 0) with 1 in Hn. replace n with 0 by lia. reflexivity.
  - cbn [to_hex]. destruct (Z.ltb_spec n 16).
    + unfold hex_value, digit_value. cbn [fold_left].
      rewrite (proj2 (upper_hex_digit_spec n ltac:(lia))). lia.
    + rewrite hex_value_snoc, IH.
      * unfold digit_value.
        rewrite (proj2 (upper_hex_digit_spec (n mod 16)
                          ltac:(apply Z.mod_pos_bound; lia))).
        Z.div_mod_to_equations; lia.
      * rewrite Nat2Z.inj_succ, Z.pow_succ_r in Hn by lia.
        split; [apply Z.div_pos; lia|].
        apply Z.div_lt_upper_bound; lia.
Qed.

Lemma to_hex_length_le fuel : forall n k,
  0 <= n < 16 ^ Z.of_nat (S k) -> (length (to_hex fuel n) <= S k)%nat.
Proof.
  induction fuel as [|fuel IH]; intros n k Hn; cbn [to_hex]; [cbn; lia|].
  destruct (Z.ltb_spec n 16); [cbn; lia|].
  rewrite length_app. cbn [length].
  destruct k as [|k]; [cbn in Hn; lia|].
  specialize (IH (n / 16) k).
  rewrite (Nat2Z.inj_succ (S k)), Z.pow_succ_r in Hn by lia.
  assert (0 <= n / 16 < 16 ^ Z.of_nat (S k)).
  { split; [apply Z.div_pos; lia | apply Z.div_lt_upper_bound; lia]. }
  specialize (IH H0). lia.
Qed.

Lemma to_hex_length_gt fuel : forall n k,
  16 ^ Z.of_nat k <= n < 16 ^ Z.of_nat fuel ->
  (k < length (to_hex fuel n))%nat.
Proof.
  induction fuel as [|fuel IH]; intros n k Hn.
  - cbn in Hn. assert (0 < 16 ^ Z.of_nat k) by (apply Z.pow_pos_nonneg; lia). lia.
  - cbn [to_hex]. destruct (Z.ltb_spec n 16).
    + destruct k as [|k]; [cbn; lia|].
      rewrite Nat2Z.inj_succ, Z.pow_succ_r in Hn by lia.
      assert (0 < 16 ^ Z.of_nat k) by (apply Z.pow_pos_nonneg; lia). lia.
    + rewrite length_app. cbn [length].
      destruct k as [|k]; [lia|].
      specialize (IH (n / 16) k).
      rewrite !Nat2Z.inj_succ, !Z.pow_succ_r in Hn by lia.
      assert (16 ^ Z.of_nat k <= n / 16 < 16 ^ Z.of_nat fuel).
      { split; [apply Z.div_le_lower_bound; lia
               | apply Z.div_lt_upper_bound; lia]. }
      specialize (IH H0). lia.
Qed.

Lemma format_X_fuel n :
  0 <= n -> n < 16 ^ Z.of_nat (S (Z.to_nat (Z.log2 n))).
Proof.
  intro Hn. pose proof (Z.log2_nonneg n) as Hl.
  rewrite Nat2Z.inj_succ, Z2Nat.id by exact Hl.
  destruct (Z.eq_dec n 0) as [-> | Hnz]; [reflexivity|].
  pose proof (Z.log2_spec n ltac:(lia)) as [_ Hlt].
  apply (Z.lt_le_trans _ _ _ Hlt).
  change 16 with (2 ^ 4). rewrite <- Z.pow_mul_r by lia.
  apply Z.pow_le_mono_r; lia.
Qed.

Lemma format_X_value n : 0 <= n -> hex_value (format_X n) = n.
Proof.
  intro Hn. apply to_hex_value. split; [exact Hn | apply format_X_fuel, Hn].
Qed.

Lemma format_X_nonempty n : format_X n <> [].
Proof.
  unfold format_X. cbn [to_hex]. destruct (n <? 16); [discriminate|].
  destruct (to_hex _ _); discriminate.
Qed.

Lemma repeat_zero_is_hex k : forallb is_hex (repeat 48 k) = true.
Proof. induction k as [|k IH]; [reflexivity | exact IH]. Qed.

Lemma hex_value_zeros k s : hex_value (repeat 48 k ++ s) = hex_value s.
Proof.
  unfold hex_value. rewrite fold_left_app. f_equal.
  induction k as [|k IH]; [reflexivity | exact IH].
Qed.

(** The digit loop of [int] on hexadecimal digits: it reads them all and
    returns the number they write. *)
Lemma digits_value s : forall prev seen acc,
  forallb is_hex s = true ->
  PyInt.digits s prev seen acc
  = Some (fold_left (fun a c => 16 * a + digit_value c) s acc,
          seen || negb (Nat.eqb (length s) 0),
          match s with [] => prev | _ => false end, []).
Proof.
  induction s as [|c s IH]; intros prev seen acc Hall.
  - cbn. rewrite orb_false_r. reflexivity.
  - cbn [forallb] in Hall. apply andb_prop in Hall. destruct Hall as [Hc Hs].
    destruct (is_hex_digit16 c Hc) as (Hus & _ & d & Hd & _).
    cbn [PyInt.digits fold_left]. rewrite Hus, Hd, (IH false true _ Hs).
    replace (digit_value c) with d by (unfold digit_value; rewrite Hd; reflexivity).
    cbn [length Nat.eqb negb orb]. rewrite orb_true_r. destruct s; reflexivity.
Qed.

Lemma is_hex_ascii s :
  forallb is_hex s = true -> Forall (fun c => c < 127) s.
Proof.
  intro H. apply Forall_forall. intros c Hc. rewrite forallb_forall in H.
  apply is_hex_digit16. auto.
Qed.

(** [int("0x" + digits, 16)] is the number the digits write. *)
Lemma int16_0x_hex ud body :
  body <> [] ->
  forallb is_hex body = true ->
  PyInt.int16 ud (lit "0x" ++ body) = Some (hex_value body).
Proof.
  intros Hne Hall. unfold PyInt.int16.
  rewrite transform_ascii
    by (change (lit "0x" ++ body) with (48 :: 120 :: body);
        repeat (constructor; [lia|]); apply is_hex_ascii, Hall).
  change (lit "0x" ++ body) with (48 :: 120 :: body).
  cbn [PyInt.skip_space]. change (PyInt.c_isspace 48) with false. cbv iota.
  change (48 =? 43) with false. change (48 =? 45) with false. cbv iota.
  unfold PyInt.unsigned16, PyInt.strip_prefix.
  change ((48 =? 48) && ((120 =? 120) || (120 =? 88))) with true. cbv iota.
  destruct body as [|d body']; [contradiction|].
  pose proof Hall as Hall'. cbn [forallb] in Hall'.
  apply andb_prop in Hall'. destruct Hall' as [Hd _].
  destruct (is_hex_digit16 d Hd) as (Hus & _).
  rewrite Hus, (digits_value (d :: body') false false 0 Hall).
  cbn [length Nat.eqb negb orb PyInt.skip_space]. rewrite Hus. reflexivity.
Qed.

Lemma zfill_is_hex w s : forallb is_hex s = true -> forallb is_hex (zfill w s) = true.
Proof.
  intro H. unfold zfill. rewrite forallb_app, repeat_zero_is_hex, H. reflexivity.
Qed.

Lemma zfill_length w s : (length s <= w)%nat -> length (zfill w s) = w.
Proof. intro H. unfold zfill. rewrite length_app, repeat_length. lia. Qed.

Lemma zfill_long w s : (w <= length s)%nat -> zfill w s = s.
Proof.
  intro H. unfold zfill. replace (w - length s)%nat with 0%nat by lia. reflexivity.
Qed.

Lemma format_08X_nonneg h :
  0 <= h ->
  format_08X h <> [] /\ forallb is_hex (format_08X h) = true
  /\ hex_value (format_08X h) = h.
Proof.
  intro Hh. unfold format_08X. destruct (Z.ltb_spec h 0); [lia|].
  repeat split.
  - unfold zfill. pose proof (format_X_nonempty h).
    destruct (repeat 48 _); [assumption | discriminate].
  - apply zfill_is_hex, to_hex_is_hex, Hh.
  - unfold zfill. rewrite hex_value_zeros. apply format_X_value, Hh.
Qed.

(** Reading the key written for a hash gives the hash back. *)
Lemma int16_whm_key ud h : 0 <= h -> PyInt.int16 ud (whm_key h) = Some h.
Proof.
  intro Hh. destruct (format_08X_nonneg h Hh) as (Hne & Hall & Hv).
  unfold whm_key. rewrite (int16_0x_hex ud _ Hne Hall), Hv. reflexivity.
Qed.

Lemma format_08X_negative h :
  h < 0 -> exists rest, format_08X h = 45 :: rest /\ forallb is_hex rest = true.
Proof.
  intro Hh. unfold format_08X. destruct (Z.ltb_spec h 0); [|lia].
  eexists. split; [reflexivity|]. apply zfill_is_hex, to_hex_is_hex. lia.
Qed.

Lemma format_08X_length h :
  0 <= h ->
  (h < 4294967296 -> length (format_08X h) = 8%nat)
  /\ (4294967296 <= h -> (8 < length (format_08X h))%nat).
Proof.
  intro Hh. unfold format_08X. destruct (Z.ltb_spec h 0); [lia|]. split; intro Hb.
  - apply zfill_length. unfold format_X. apply (to_hex_length_le _ h 7).
    change (16 ^ Z.of_nat 8) with 4294967296. lia.
  - assert (Hlen : (8 < length (format_X h))%nat).
    { unfold format_X. apply to_hex_length_gt.
      change (16 ^ Z.of_nat 8) with 4294967296.
      split; [exact Hb | apply format_X_fuel, Hh]. }
    rewrite zfill_long by lia. exact Hlen.
Qed.

(** X1.  The key [open_dat] shows for a hash, [f'0x{hash:08X}'], passes
    the validation of a 'dat' key exactly when the hash is a uint32
    value; so every key made from a parsed file is valid. *)
Theorem whm_key_valid_iff_u32 : forall (h : Z) (v : version),
  _validate_key_static (whm_key h) v Dat = true <-> u32 h.
Proof.
  intros h v. cbn [_validate_key_static]. rewrite fullmatch_re_hash.
  unfold whm_key. change (lit "0x" ++ format_08X h) with (48 :: 120 :: format_08X h).
  unfold zero_xX_8hex, chars_between.
  change ((48 =? 48) && ((120 =? 120) || (120 =? 88))) with true. cbn [andb].
  unfold u32.
  destruct (Z.lt_ge_cases h 0) as [Hneg | Hpos].
  - destruct (format_08X_negative h Hneg) as (rest & -> & _).
    cbn [forallb]. change (is_hex 45) with false.
    rewrite andb_false_r. split; [discriminate | lia].
  - destruct (format_08X_nonneg h Hpos) as (_ & Hall & _).
    destruct (format_08X_length h Hpos) as [Hsmall Hbig].
    rewrite Hall, andb_true_r.
    destruct (Z.lt_ge_cases h 4294967296) as [Hlt | Hge].
    + rewrite (Hsmall Hlt). split; [lia | reflexivity].
    + specialize (Hbig Hge). split; [|lia].
      intro H. apply andb_prop in H. destruct H as [_ H].
      apply Nat.leb_le in H. lia.
Qed.

(** X2.  Reading back, with [int(key, 16)], the key written for a hash
    gives the hash when it is not negative; the key of a negative hash,
    which holds a minus sign after "0x", is refused. *)
Theorem int16_of_whm_key : forall (ud : Z -> option Z) (h : Z),
  PyInt.int16 ud (whm_key h) = if 0 <=? h then Some h else None.
Proof.
  intros ud h. destruct (Z.leb_spec 0 h) as [Hpos | Hneg].
  - apply int16_whm_key, Hpos.
  - destruct (format_08X_negative h Hneg) as (rest & Hf & Hall).
    unfold whm_key. rewrite Hf.
    change (lit "0x" ++ 45 :: rest) with (48 :: 120 :: 45 :: rest).
    unfold PyInt.int16.
    rewrite transform_ascii
      by (repeat (constructor; [lia|]); apply is_hex_ascii, Hall).
    reflexivity.
Qed.

Lemma str_eqb_true a : forall b, str_eqb a b = true -> a = b.
Proof.
  induction a as [|x a IH]; intros [|y b]; cbn; try discriminate; [reflexivity|].
  intro H. apply andb_prop in H. destruct H as [Hx Hab].
  apply Z.eqb_eq in Hx. rewrite (IH _ Hab), Hx. reflexivity.
Qed.

Lemma str_eqb_false a b : a <> b -> str_eqb a b = false.
Proof.
  intro H. destruct (str_eqb a b) eqn:E; [|reflexivity].
  apply str_eqb_true in E. contradiction.
Qed.

(** Setting a key that is not there appends it. *)
Lemma dict_set_fresh {V} (d : dict V) k v :
  ~ In k (map fst d) -> dict_set d k v = d ++ [(k, v)].
Proof.
  induction d as [|[k' v'] d IH]; intro H; cbn [dict_set app]; [reflexivity|].
  cbn [map fst In] in H.
  rewrite str_eqb_false by (intro E; apply H; left; exact E).
  rewrite IH by (intro E; apply H; right; exact E). reflexivity.
Qed.

Lemma whm_key_inj h1 h2 : 0 <= h1 -> 0 <= h2 -> whm_key h1 = whm_key h2 -> h1 = h2.
Proof.
  intros H1 H2 E.
  pose proof (int16_whm_key (fun _ => None) h1 H1) as E1.
  rewrite E, (int16_whm_key _ h2 H2) in E1. congruence.
Qed.

Lemma open_dat_fold items : forall acc,
  Forall (fun it => 0 <= hash it) items ->
  NoDup (map hash items) ->
  (forall it, In it items -> ~ In (whm_key (hash it)) (map fst acc)) ->
  fold_left (fun t it => dict_set t (whm_key (hash it)) (text it)) items acc
  = acc ++ map (fun it => (whm_key (hash it), text it)) items.
Proof.
  induction items as [|it items IH]; intros acc Hpos Hnd Hfresh;
    cbn [fold_left map]; [rewrite app_nil_r; reflexivity|].
  inversion Hpos as [|? ? Hit Hpos']; subst.
  cbn [map] in Hnd. inversion Hnd as [|? ? Hnotin Hnd']; subst.
  rewrite dict_set_fresh by (apply Hfresh; left; reflexivity).
  rewrite IH; [rewrite <- app_assoc; reflexivity | assumption | assumption |].
  intros it' Hin'. rewrite map_app, in_app_iff. cbn [map fst In].
  intros [Hacc | [Hkey | []]].
  - exact (Hfresh it' (or_intror Hin') Hacc).
  - apply Hnotin. rewrite Forall_forall in Hpos'.
    rewrite (whm_key_inj _ _ Hit (Hpos' it' Hin') Hkey).
    apply in_map, Hin'.
Qed.

Lemma items_to_dump_fold ud items : forall acc,
  Forall (fun it => 0 <= hash it) items ->
  fold_left
    (fun l kt => match PyInt.int16 ud (fst kt) with
                 | Some hash_val => l ++ [mk_item hash_val (snd kt)]
                 | None => l
                 end)
    (map (fun it => (whm_key (hash it), text it)) items) acc
  = acc ++ items.
Proof.
  induction items as [|[h t] items IH]; intros acc Hpos; cbn [map fold_left];
    [rewrite app_nil_r; reflexivity|].
  inversion Hpos as [|? ? Hh Hpos']; subst. cbn [hash text fst snd] in *.
  rewrite (int16_whm_key ud h Hh), (IH _ Hpos'), <- app_assoc. reflexivity.
Qed.

(** X3.  Opening and saving: for items whose hashes are not negative and
    pairwise distinct, the items [_save_to_path] collects from the table
    [open_dat] built are the items themselves, in order; so a parsed
    file with distinct hashes, saved unchanged, is written from the
    entries read. *)
Theorem open_dat_then_save : forall (ud : Z -> option Z) (items : list item),
  Forall (fun it => 0 <= hash it) items ->
  NoDup (map hash items) ->
  items_to_dump ud (open_dat_table items) = items
  /\ save_dat ud (open_dat_table items) = dump_whm_table items.
Proof.
  intros ud items Hpos Hnd.
  assert (H : items_to_dump ud (open_dat_table items) = items).
  { unfold items_to_dump, open_dat_table.
    rewrite (open_dat_fold items [] Hpos Hnd) by (intros it _ []).
    cbn [app]. apply (items_to_dump_fold ud items [] Hpos). }
  split; [exact H|]. unfold save_dat. rewrite H. reflexivity.
Qed.

Lemma open_dat_then_save_witness :
  items_to_dump (fun _ => None) (open_dat_table three_items) = three_items
  /\ save_dat (fun _ => None) (open_dat_table three_items)
     = dump_whm_table three_items.
Proof.
  apply (open_dat_then_save (fun _ => None) three_items).
  - repeat constructor; cbn; lia.
  - repeat constructor; cbn; intuition discriminate.
Defined.

(* ================================================================== *)
(** * The text form of a patch table *)

Lemma readlines_line l : forall rest,
  one_line l -> readlines (l ++ 10 :: rest) = l :: readlines rest.
Proof.
  induction l as [|c l IH]; intros rest Hl; [reflexivity|].
  inversion Hl as [|? ? [H10 H13] Hl']; subst.
  cbn [app readlines].
  destruct (Z.eqb_spec c 10); [contradiction|].
  destruct (Z.eqb_spec c 13); [contradiction|].
  rewrite (IH rest Hl'). reflexivity.
Qed.

Lemma lstrip_length s : (length (lstrip s) <= length s)%nat.
Proof.
  induction s as [|c s IH]; cbn [lstrip]; [lia|].
  destruct (isspace c); cbn [length]; lia.
Qed.

Lemma lstrip_fixed_head c s : lstrip (c :: s) = c :: s -> isspace c = false.
Proof.
  cbn [lstrip]. destruct (isspace c); [|reflexivity].
  intro H. pose proof (lstrip_length s) as Hl. rewrite H in Hl.
  cbn [length] in Hl. lia.
Qed.

Lemma lstrip_app_fixed a b :
  lstrip a = a -> (a = [] -> lstrip b = b) -> lstrip (a ++ b) = a ++ b.
Proof.
  destruct a as [|c a]; intros Ha Hb; [apply Hb; reflexivity|].
  pose proof (lstrip_fixed_head c a Ha) as Hc.
  cbn [app lstrip]. rewrite Hc. reflexivity.
Qed.

(** A text that neither begins nor ends with white space is left alone
    by [strip]. *)
Lemma strip_fixed s :
  no_leading_space s -> no_trailing_space s -> strip s = s.
Proof.
  unfold no_leading_space, no_trailing_space, strip.
  intros -> ->. apply rev_involutive.
Qed.

Lemma split_once_first sep a b :
  ~ In sep a -> split_once sep (a ++ sep :: b) = Some (a, b).
Proof.
  induction a as [|c a IH]; intro H; cbn [app split_once].
  - rewrite Z.eqb_refl. reflexivity.
  - cbn [In] in H. destruct (Z.eqb_spec c sep); [exfalso; apply H; left; assumption|].
    rewrite IH by (intro E; apply H; right; exact E). reflexivity.
Qed.

Lemma is_hex_plain c : is_hex c = true -> c <> 61 /\ c <> 10 /\ c <> 13.
Proof.
  cbv [is_hex is_digit]. zcases; intro; try discriminate; lia.
Qed.

Lemma whm_key_cons h : whm_key h = 48 :: 120 :: format_08X h.
Proof. reflexivity. Qed.

(** What [load_txt_items] makes of a line [save_txt_items] wrote. *)
Lemma line_items_item_line ud it :
  0 <= hash it ->
  one_line (text it) ->
  no_trailing_space (text it) ->
  one_line (item_line it)
  /\ line_items ud (item_line it) = [it]
  /\ forall n, line_warnings ud (n, item_line it) = [].
Proof.
  intros Hh Hl Ht. destruct it as [h t]. cbn [hash text] in *.
  destruct (format_08X_nonneg h Hh) as (Hne & Hall & Hv).
  assert (Hkey : forall c, In c (whm_key h) -> c <> 61 /\ c <> 10 /\ c <> 13).
  { rewrite whm_key_cons. intros c [<- | [<- | Hc]]; [lia | lia |].
    apply is_hex_plain. rewrite forallb_forall in Hall. auto. }
  assert (Hline : item_line (mk_item h t) = whm_key h ++ 61 :: t).
  { unfold item_line, whm_key. cbn [hash text]. rewrite <- app_assoc. reflexivity. }
  assert (Hstrip : strip (whm_key h ++ 61 :: t) = whm_key h ++ 61 :: t).
  { apply strip_fixed; [rewrite whm_key_cons; reflexivity|].
    unfold no_trailing_space. rewrite rev_app_distr. cbn [rev].
    rewrite <- !app_assoc. apply lstrip_app_fixed; [exact Ht|].
    intros _. reflexivity. }
  assert (Hsplit : split_once 61 (whm_key h ++ 61 :: t) = Some (whm_key h, t)).
  { apply split_once_first. intro Hin. destruct (Hkey 61 Hin) as [H _]. lia. }
  assert (Hcls : classify false (whm_key h ++ 61 :: t)
                 = KeyValue (strip (whm_key h)) (strip t)).
  { unfold classify. rewrite Hstrip. cbn [andb]. rewrite Hsplit.
    rewrite whm_key_cons. reflexivity. }
  rewrite Hline. unfold line_items, line_warnings. cbn [fst snd].
  rewrite Hcls, Hstrip, Hsplit, (int16_whm_key ud h Hh).
  split; [|split; reflexivity].
  apply Forall_app. split.
  - apply Forall_forall. intros c Hc. destruct (Hkey c Hc) as (_ & H10 & H13).
    split; assumption.
  - constructor; [lia | exact Hl].
Qed.

Lemma readlines_save items :
  Forall (fun it => one_line (item_line it)) items ->
  readlines (items_text items) = map item_line items.
Proof.
  induction 1 as [|it items Hit _ IH]; [reflexivity|].
  cbn [items_text map]. change ([10] ++ items_text items)
    with (10 :: items_text items).
  rewrite (readlines_line _ _ Hit), IH. reflexivity.
Qed.

(** ** Writing a text file *)

Lemma write_scalar w s :
  forallb is_scalar s = true -> write (mk_out w None) s = mk_out (w ++ s) None.
Proof. intro H. unfold write. cbn [failed written]. rewrite H. reflexivity. Qed.

Lemma write_refused w s :
  forallb is_scalar s = false ->
  write (mk_out w None) s = mk_out w (Some UnicodeEncodeError).
Proof. intro H. unfold write. cbn [failed written]. rewrite H. reflexivity. Qed.

(** After an exception nothing more is written. *)
Lemma write_failed {A} (g : A -> str) xs : forall w e,
  fold_left (fun f x => write f (g x)) xs (mk_out w (Some e))
  = mk_out w (Some e).
Proof.
  induction xs as [|x xs IH]; intros w e; [reflexivity|].
  cbn [fold_left]. unfold write at 2. cbn [failed]. apply IH.
Qed.

(** Strings of scalar values are written one after the other. *)
Lemma write_all {A} (g : A -> str) xs : forall w,
  Forall (fun x => forallb is_scalar (g x) = true) xs ->
  fold_left (fun f x => write f (g x)) xs (mk_out w None)
  = mk_out (w ++ concat (map g xs)) None.
Proof.
  induction xs as [|x xs IH]; intros w Hall.
  - cbn. rewrite app_nil_r. reflexivity.
  - inversion Hall as [|? ? Hx Hxs]; subst. cbn [fold_left map concat].
    rewrite (write_scalar w (g x) Hx), (IH _ Hxs), <- app_assoc. reflexivity.
Qed.

(** The first string with a surrogate ends the writing: the file keeps
    what was written before. *)
Lemma write_until {A} (g : A -> str) before x after : forall w,
  Forall (fun x => forallb is_scalar (g x) = true) before ->
  forallb is_scalar (g x) = false ->
  fold_left (fun f x => write f (g x)) (before ++ x :: after) (mk_out w None)
  = mk_out (w ++ concat (map g before)) (Some UnicodeEncodeError).
Proof.
  intros w Hb Hx. rewrite fold_left_app, (write_all g before w Hb).
  cbn [fold_left]. rewrite (write_refused _ _ Hx). apply write_failed.
Qed.

Lemma forallb_scalar s :
  forallb is_scalar s = true <-> Forall (fun c => is_scalar c = true) s.
Proof. rewrite forallb_forall, Forall_forall. reflexivity. Qed.

Lemma forallb_not_scalar s :
  Exists (fun c => is_scalar c = false) s -> forallb is_scalar s = false.
Proof.
  induction 1 as [c s Hc | c s _ IH]; cbn [forallb].
  - rewrite Hc. reflexivity.
  - rewrite IH. apply andb_false_r.
Qed.

Lemma is_hex_scalar c : is_hex c = true -> is_scalar c = true.
Proof.
  cbv [is_hex is_digit is_scalar is_surrogate].
  zcases; intro; try discriminate; reflexivity.
Qed.

Lemma forallb_hex_scalar s :
  forallb is_hex s = true -> forallb is_scalar s = true.
Proof.
  rewrite !forallb_forall. intros H c Hc. apply is_hex_scalar, H, Hc.
Qed.

(** [format(h, "08X")] writes digits, after a minus sign when [h] is
    negative. *)
Lemma format_08X_scalar h : forallb is_scalar (format_08X h) = true.
Proof.
  unfold format_08X. destruct (Z.ltb_spec h 0).
  - cbn [forallb]. rewrite andb_true_iff. split; [reflexivity|].
    apply forallb_hex_scalar, zfill_is_hex, to_hex_is_hex. lia.
  - apply forallb_hex_scalar, zfill_is_hex, to_hex_is_hex. lia.
Qed.

(** The string written for an item is refused exactly when its text
    is. *)
Lemma item_line_scalar it :
  forallb is_scalar (item_line it ++ [10]) = forallb is_scalar (text it).
Proof.
  unfold item_line. rewrite !forallb_app, format_08X_scalar.
  cbn [lit forallb andb]. rewrite !andb_true_r. reflexivity.
Qed.

Lemma items_text_concat items :
  items_text items = concat (map (fun it => item_line it ++ [10]) items).
Proof.
  induction items as [|it items IH]; [reflexivity|].
  cbn [items_text map concat]. rewrite IH, <- app_assoc. reflexivity.
Qed.

(** Items whose texts can be encoded are all written. *)
Lemma save_txt_items_text items :
  Forall (fun it => Forall (fun c => is_scalar c = true) (text it)) items ->
  save_txt_items items = mk_out (items_text items) None.
Proof.
  intro H. unfold save_txt_items, opened.
  rewrite (write_all (fun it => item_line it ++ [10]) items []).
  - rewrite items_text_concat. reflexivity.
  - eapply Forall_impl; [|exact H]. intros it Hit. cbv beta.
    rewrite item_line_scalar. apply forallb_scalar, Hit.
Qed.

Lemma load_after_save_txt_items : forall (ud : Z -> option Z) (items : list item),
  Forall (fun it => 0 <= hash it /\ one_line (text it)
                    /\ no_trailing_space (text it)) items ->
  load_txt_items_out ud (readlines (items_text items)) = (items, []).
Proof.
  intros ud items H.
  assert (Hlines : Forall (fun it => one_line (item_line it)) items).
  { eapply Forall_impl; [|exact H]. intros it (Hh & Hl & Ht).
    apply (line_items_item_line ud it Hh Hl Ht). }
  rewrite (readlines_save items Hlines), load_txt_items_out_spec.
  generalize 1 at 1. induction H as [|it items (Hh & Hl & Ht) _ IH]; intro n;
    [reflexivity|].
  inversion Hlines as [|? ? _ Hlines']; subst.
  destruct (line_items_item_line ud it Hh Hl Ht) as (_ & Hitems & Hwarn).
  specialize (IH Hlines' (n + 1)).
  cbn [map flat_map enumerate]. rewrite Hitems, Hwarn. cbn [app].
  injection IH as IH1 IH2. rewrite IH1, IH2. reflexivity.
Qed.

(** X4.  The text round trip of the command-line tool.  Items whose
    texts consist of Unicode scalar values (so that the file, opened
    with the encoding UTF-8, takes them), hold no line break and do not
    end in white space, and whose hashes are not negative, are written
    by [save_txt_items] - no exception, the file holding one line for
    each item - to a text that [load_txt_items] reads back as the same
    items, in order, without a warning.  When the text of an item holds
    a surrogate, the first such item ends the writing with
    [UnicodeEncodeError]: the file is left with the lines of the items
    before it. *)
Theorem save_then_load_txt_items : forall (ud : Z -> option Z) (items : list item),
  (Forall (fun it => Forall (fun c => is_scalar c = true) (text it)) items ->
   Forall (fun it => 0 <= hash it /\ one_line (text it)
                     /\ no_trailing_space (text it)) items ->
   exists content,
     save_txt_items items = mk_out content None
     /\ load_txt_items_out ud (readlines content) = (items, [])
     /\ load_txt_items ud (readlines content) = items)
  /\ (forall before it after,
         items = before ++ it :: after ->
         Forall (fun it => Forall (fun c => is_scalar c = true) (text it))
                before ->
         Exists (fun c => is_scalar c = false) (text it) ->
         save_txt_items items
         = mk_out (items_text before) (Some UnicodeEncodeError)).
Proof.
  intros ud items. split.
  - intros Hscalar H. exists (items_text items).
    split; [exact (save_txt_items_text items Hscalar)|].
    unfold load_txt_items.
    rewrite (load_after_save_txt_items ud items H). split; reflexivity.
  - intros before it after -> Hbefore Hit. unfold save_txt_items, opened.
    rewrite (write_until (fun it => item_line it ++ [10]) before it after []).
    + rewrite items_text_concat. reflexivity.
    + eapply Forall_impl; [|exact Hbefore]. intros it' Hit'. cbv beta.
      rewrite item_line_scalar. apply forallb_scalar, Hit'.
    + rewrite item_line_scalar. apply forallb_not_scalar, Hit.
Qed.

Lemma save_then_load_txt_items_witness :
  (exists content,
      save_txt_items three_items = mk_out content None
      /\ load_txt_items_out (fun _ => None) (readlines content)
         = (three_items, [])
      /\ load_txt_items (fun _ => None) (readlines content) = three_items)
  /\ save_txt_items [mk_item 1 (lit "a"); mk_item 2 [98; 55296]; mk_item 3 []]
     = mk_out (items_text [mk_item 1 (lit "a")]) (Some UnicodeEncodeError).
Proof.
  split.
  - apply (proj1 (save_then_load_txt_items (fun _ => None) three_items)).
    + repeat constructor.
    + repeat constructor; cbn; lia.
  - apply (proj2 (save_then_load_txt_items (fun _ => None)
                    [mk_item 1 (lit "a"); mk_item 2 [98; 55296]; mk_item 3 []])
             [mk_item 1 (lit "a")] (mk_item 2 [98; 55296]) [mk_item 3 []]).
    + reflexivity.
    + repeat constructor.
    + apply Exists_cons_tl, Exists_cons_hd. reflexivity.
Defined.

(** X5.  The two commands of the tool, one after the other: when the
    texts [parse] reads from a binary file hold no line break and do not
    end in white space, the text file it writes is read by [dump] as the
    same items, so [dump] writes what [dump_whm_table] writes for them -
    a file that reads as the same items again, provided the blob of the
    re-encoded texts fits its uint32 size. *)
Theorem cmd_parse_then_dump :
  forall (ud : Z -> option Z) (data : bytes) (items : list item),
  parse_whm_table data = Ok items ->
  Forall (fun it => one_line (text it) /\ no_trailing_space (text it)) items ->
  exists content,
    cmd_parse data = Ok content
    /\ cmd_dump ud content = dump_whm_table items
    /\ exists encs,
         encoded items encs
         /\ (len (blob_of encs) < 4294967296 ->
             exists data',
               cmd_dump ud content = Ok data'
               /\ parse_whm_table data' = Ok items).
Proof.
  intros ud data items Hparse Htexts.
  destruct (parse_whm_table_items data items Hparse) as (Hhash & Htxt & Hne).
  assert (Hload : load_txt_items ud (readlines (items_text items)) = items).
  { unfold load_txt_items. rewrite load_after_save_txt_items; [reflexivity|].
    rewrite Forall_forall in *. intros it Hin.
    destruct (Htexts it Hin) as [Hl Ht]. specialize (Hhash it Hin).
    unfold u32 in Hhash. repeat split; try assumption; lia. }
  assert (Hsave : save_txt_items items = mk_out (items_text items) None).
  { apply save_txt_items_text. eapply Forall_impl; [|exact Htxt].
    intros it Hit. eapply Forall_impl; [|exact Hit]. cbn. tauto. }
  exists (items_text items). unfold cmd_parse, cmd_dump.
  rewrite Hparse, Hload. cbn [bind]. rewrite Hsave. cbn [close failed written].
  split; [reflexivity|]. split; [reflexivity|].
  destruct (encoded_total items Htxt) as [encs Henc].
  exists encs. split; [exact Henc|]. intro Hsize.
  exists (layout items encs). split.
  - apply dump_whm_table_spec; assumption.
  - rewrite parse_dump by assumption. f_equal.
    apply map_read_back_nonempty, Hne.
Qed.

Lemma cmd_parse_then_dump_witness :
  exists content,
    cmd_parse fallback_buffer = Ok content
    /\ cmd_dump (fun _ => None) content = dump_whm_table [mk_item 5 [233]]
    /\ exists encs,
         encoded [mk_item 5 [233]] encs
         /\ (len (blob_of encs) < 4294967296 ->
             exists data',
               cmd_dump (fun _ => None) content = Ok data'
               /\ parse_whm_table data' = Ok [mk_item 5 [233]]).
Proof.
  apply (cmd_parse_then_dump (fun _ => None) fallback_buffer [mk_item 5 [233]]).
  - vm_compute. reflexivity.
  - repeat constructor; cbn; lia.
Defined.

(* ================================================================== *)
(** * When the header of a patch table parses *)

Lemma skipn_short {A} (l : list A) n :
  (length l < n + 4)%nat ->
  match skipn n l with
  | _ :: _ :: _ :: _ :: _ => False
  | _ => True
  end.
Proof.
  intro H. pose proof (length_skipn n l) as Hl.
  destruct (skipn n l) as [|? [|? [|? [|? ?]]]]; cbn [length] in Hl; try exact I.
  lia.
Qed.

(** [unpack_from("<I", b, off)] succeeds exactly when four bytes follow
    [off]; it raises [struct.error] otherwise. *)
Lemma unpack_from_I_cases b off :
  0 <= off ->
  (off + 4 <= len b -> exists v, unpack_from_I b off = Ok v)
  /\ (len b < off + 4 -> unpack_from_I b off = Raise StructError).
Proof.
  intro Hoff. unfold unpack_from_I, len.
  pose proof (length_skipn (Z.to_nat off) b) as Hl.
  split; intro H.
  - destruct (skipn (Z.to_nat off) b) as [|? [|? [|? [|? ?]]]];
      cbn [length] in Hl; try lia. eexists. reflexivity.
  - destruct (skipn (Z.to_nat off) b) as [|? [|? [|? [|? ?]]]];
      cbn [length] in Hl; try reflexivity. lia.
Qed.

Lemma unpack_from_II_cases b off :
  0 <= off ->
  (off + 8 <= len b -> exists p, unpack_from_II b off = Ok p)
  /\ (len b < off + 8 -> unpack_from_II b off = Raise StructError).
Proof.
  intro Hoff.
  destruct (unpack_from_I_cases b off Hoff) as [H1 _].
  destruct (unpack_from_I_cases b (off + 4) ltac:(lia)) as [H2 _].
  unfold unpack_from_II, len in *.
  pose proof (length_skipn (Z.to_nat off) b) as Hl.
  split; intro H.
  - destruct (H1 ltac:(lia)) as [x Hx]. destruct (H2 ltac:(lia)) as [y Hy].
    rewrite Hx, Hy.
    destruct (skipn (Z.to_nat off) b)
      as [|? [|? [|? [|? [|? [|? [|? [|? ?]]]]]]]];
      cbn [length] in Hl; try lia. eexists. reflexivity.
  - destruct (skipn (Z.to_nat off) b)
      as [|? [|? [|? [|? [|? [|? [|? [|? ?]]]]]]]];
      cbn [length] in Hl; try reflexivity. lia.
Qed.

Lemma read_entries_loop_cases data count : forall off,
  0 <= off ->
  (off + 8 * Z.of_nat count <= len data ->
   exists entries,
     read_entries_loop data count off = Ok (entries, off + 8 * Z.of_nat count)
     /\ length entries = count)
  /\ (0 < Z.of_nat count -> len data < off + 8 * Z.of_nat count ->
      read_entries_loop data count off = Raise StructError).
Proof.
  induction count as [|count IH]; intros off Hoff.
  - split; [|lia]. intro H. exists []. cbn.
    split; [f_equal; f_equal; lia | reflexivity].
  - destruct (unpack_from_II_cases data off Hoff) as [Hok Hbad].
    destruct (IH (off + calcsize_II) ltac:(unfold calcsize_II; lia))
      as [IHok IHbad].
    unfold calcsize_II in *. cbn [read_entries_loop]. split.
    + intro H. destruct (Hok ltac:(lia)) as [p Hp]. rewrite Hp. cbn [bind].
      destruct (IHok ltac:(lia)) as (entries & He & Hlen).
      unfold calcsize_II. rewrite He. cbn [bind].
      exists (p :: entries). split; [f_equal; f_equal; lia | cbn; lia].
    + intros _ H.
      destruct (Z.lt_ge_cases (len data) (off + 8)) as [Hshort | Hlong].
      * rewrite (Hbad Hshort). reflexivity.
      * destruct (Hok Hlong) as [p Hp]. rewrite Hp. cbn [bind].
        unfold calcsize_II. rewrite (IHbad ltac:(lia) ltac:(lia)). reflexivity.
Qed.

(** [read_entries] by the length of the buffer. *)
Lemma read_entries_cases data count :
  unpack_from_I data 0 = Ok count ->
  (8 + 8 * count <= len data ->
   exists entries blob_size,
     read_entries data = Ok (entries, 8 + 8 * count, blob_size)
     /\ len entries = count
     /\ unpack_from_I data (4 + 8 * count) = Ok blob_size)
  /\ (len data < 8 + 8 * count -> read_entries data = Raise StructError).
Proof.
  intros Hc. pose proof (unpack_from_I_u32 _ _ _ Hc) as Hu.
  assert (H4 : 4 <= len data).
  { destruct (Z.lt_ge_cases (len data) 4) as [Hs | Hl]; [|exact Hl].
    rewrite (proj2 (unpack_from_I_cases data 0 ltac:(lia)) ltac:(lia)) in Hc.
    discriminate. }
  unfold u32 in Hu. unfold read_entries, read_u32. rewrite Hc. cbn [bind].
  destruct (read_entries_loop_cases data (Z.to_nat count) (0 + 4) ltac:(lia))
    as [Hok Hbad].
  rewrite Z2Nat.id in Hok, Hbad by lia.
  split; intro H.
  - destruct (Hok ltac:(lia)) as (entries & He & Hlen). rewrite He.
    cbn [bind].
    destruct (proj1 (unpack_from_I_cases data (0 + 4 + 8 * count) ltac:(lia))
                ltac:(lia)) as [sz Hsz].
    rewrite Hsz. cbn [bind]. exists entries, sz.
    split; [f_equal; f_equal; f_equal; lia|].
    split; [unfold len; lia|].
    rewrite <- Hsz. f_equal; lia.
  - destruct (Z.lt_ge_cases (len data) (0 + 4 + 8 * count)) as [Hs | Hl].
    + rewrite (Hbad ltac:(lia) Hs). reflexivity.
    + destruct (Hok Hl) as (entries & He & _). rewrite He. cbn [bind].
      rewrite (proj2 (unpack_from_I_cases data (0 + 4 + 8 * count) ltac:(lia))
                 ltac:(lia)).
      reflexivity.
Qed.

Lemma read_entries_short data : len data < 4 -> read_entries data = Raise StructError.
Proof.
  intro H. unfold read_entries, read_u32.
  rewrite (proj2 (unpack_from_I_cases data 0 ltac:(lia)) ltac:(lia)).
  reflexivity.
Qed.

(** X6.  [read_entries] succeeds exactly when the buffer holds the count
    field, as many (hash, offset) pairs as it says, and the size field:
    it then returns that many entries and places the blob right after,
    at 8 + 8 * count; on any shorter buffer it raises [struct.error]. *)
Theorem read_entries_needs_whole_header : forall data : bytes,
  (len data < 4 -> read_entries data = Raise StructError)
  /\ (4 <= len data ->
      exists count,
        unpack_from_I data 0 = Ok count
        /\ (8 + 8 * count <= len data ->
            exists entries blob_size,
              read_entries data = Ok (entries, 8 + 8 * count, blob_size)
              /\ len entries = count
              /\ unpack_from_I data (4 + 8 * count) = Ok blob_size)
        /\ (len data < 8 + 8 * count ->
            read_entries data = Raise StructError)).
Proof.
  intro data. split; [apply read_entries_short|]. intro H4.
  destruct (proj1 (unpack_from_I_cases data 0 ltac:(lia)) ltac:(lia))
    as [count Hc].
  exists count. split; [exact Hc|]. apply read_entries_cases, Hc.
Qed.

Lemma read_entries_needs_whole_header_witness :
  read_entries (le32 3 ++ le32 1 ++ le32 0) = Raise StructError.
Proof.
  destruct (proj2 (read_entries_needs_whole_header
                     (le32 3 ++ le32 1 ++ le32 0)))
    as (count & Hc & _ & Hshort).
  - vm_compute. discriminate.
  - apply Hshort. apply Ok_inj in Hc. rewrite <- Hc. vm_compute. reflexivity.
Defined.

Lemma for_each_raise {A B} (f : A -> result B) xs e :
  for_each f xs = Raise e -> exists x, In x xs /\ f x = Raise e.
Proof.
  induction xs as [|x xs IH]; cbn [for_each]; [discriminate|].
  destruct (f x) as [y|e'] eqn:Hx; cbn [bind].
  - destruct (for_each f xs) as [ys|e'']; cbn [bind]; [discriminate|].
    intros [= ->]. destruct (IH eq_refl) as (x' & Hin & Hx').
    exists x'. split; [right; exact Hin | exact Hx'].
  - intros [= ->]. exists x. split; [left; reflexivity | exact Hx].
Qed.

Lemma read_entries_raise data e : read_entries data = Raise e -> e = StructError.
Proof.
  destruct (Z.lt_ge_cases (len data) 4) as [Hs | Hl].
  - rewrite (read_entries_short data Hs). congruence.
  - destruct (proj1 (unpack_from_I_cases data 0 ltac:(lia)) ltac:(lia))
      as [count Hc].
    destruct (read_entries_cases data count Hc) as [Hok Hbad].
    destruct (Z.lt_ge_cases (len data) (8 + 8 * count)) as [Hs | Hl'].
    + rewrite (Hbad Hs). congruence.
    + destruct (Hok Hl') as (entries & sz & -> & _). discriminate.
Qed.

(* ================================================================== *)
(** * The exceptions of [parse_whm_table] and [dump_whm_table] *)

Lemma scan_nul_raise blob blob_size fuel : forall j e,
  0 <= j ->
  scan_nul blob blob_size fuel j = Raise e ->
  e = IndexError /\ len blob < blob_size.
Proof.
  induction fuel as [|fuel IH]; intros j e Hj; cbn [scan_nul]; [discriminate|].
  destruct (Z.ltb_spec j blob_size); [|discriminate].
  unfold index. destruct (nth_error blob (Z.to_nat j)) as [b|] eqn:Hb; cbn [bind].
  - destruct (byte_val b =? 0); [discriminate|]. apply IH. lia.
  - intros [= <-]. apply nth_error_None in Hb. unfold len. split; [reflexivity | lia].
Qed.

Lemma entry_item_raise blob blob_size h off e :
  0 <= off ->
  entry_item blob blob_size (h, off) = Raise e ->
  e = IndexError /\ len blob < blob_size.
Proof.
  intro Hoff. unfold entry_item, entry_bytes.
  destruct (off <? blob_size).
  - destruct (scan_nul blob blob_size (Z.to_nat (blob_size - off)) off)
      as [j|e'] eqn:Hs; cbn [bind].
    + destruct (slice blob off j) as [|b bts]; cbn [bind]; [discriminate|].
      destruct (decode_bytes_total (b :: bts)) as [s ->]. discriminate.
    + intros [= <-]. exact (scan_nul_raise _ _ _ _ _ Hoff Hs).
  - cbn [bind]. discriminate.
Qed.

(** The exceptions of [parse_whm_table] once the file is read:
    [struct.error], when the header does not parse, and [IndexError],
    which can only come from a buffer shorter than the blob its header
    announces.  No decoding error ever leaves it. *)
Lemma parse_whm_table_raises : forall (data : bytes) (e : exn),
  parse_whm_table data = Raise e ->
  (e = StructError /\ read_entries data = Raise StructError)
  \/ (e = IndexError
      /\ exists entries blob_start blob_size,
           read_entries data = Ok (entries, blob_start, blob_size)
           /\ len data < blob_start + blob_size).
Proof.
  intros data e. unfold parse_whm_table.
  destruct (read_entries data) as [[[entries blob_start] blob_size]|e'] eqn:Hre;
    cbn [bind].
  - intro Hfe. right.
    destruct (for_each_raise _ _ _ Hfe) as ([h off] & Hin & Hx).
    destruct (read_entries_inv _ _ _ _ Hre) as (Hes & Hbs & Hsz).
    rewrite Forall_forall in Hes. destruct (Hes _ Hin) as [_ Hoff].
    cbn [snd] in Hoff. unfold u32 in Hoff, Hsz.
    assert (Hoff0 : 0 <= off) by lia.
    destruct (entry_item_raise _ _ _ _ _ Hoff0 Hx) as [-> Hshort].
    split; [reflexivity|]. exists entries, blob_start, blob_size.
    split; [reflexivity|].
    destruct (Z.lt_ge_cases (len data) (blob_start + blob_size)) as [Hlt | Hge];
      [exact Hlt|].
    rewrite len_slice_complete in Hshort; lia.
  - intros [= <-]. left. rewrite (read_entries_raise _ _ Hre). split; reflexivity.
Qed.

(** X7.  The exceptions of [parse_whm_table(path)].  The read of the
    file comes first: when [path.read_bytes()] raises (an [OSError]: no
    such file, no permission), that exception leaves the function.  On
    a file that is read, the function is [parse_whm_table] on its bytes,
    and its only exceptions are [struct.error], when the header does not
    parse, and [IndexError], which can only come from a file shorter
    than the blob its header announces.  No decoding error ever leaves
    it. *)
Theorem parse_whm_table_exceptions : forall path : binary_file,
  (forall e, path = Unreadable e -> parse_whm_table_file path = Raise e)
  /\ (forall data,
         path = Holds data ->
         parse_whm_table_file path = parse_whm_table data)
  /\ (forall e,
         parse_whm_table_file path = Raise e ->
         path = Unreadable e
         \/ exists data,
              path = Holds data
              /\ ((e = StructError /\ read_entries data = Raise StructError)
                  \/ (e = IndexError
                      /\ exists entries blob_start blob_size,
                           read_entries data
                           = Ok (entries, blob_start, blob_size)
                           /\ len data < blob_start + blob_size))).
Proof.
  intro path. split; [|split].
  - intros e ->. reflexivity.
  - intros data ->. reflexivity.
  - intros e. destruct path as [e'|data]; cbn [parse_whm_table_file read_bytes bind].
    + intros [= <-]. left. reflexivity.
    + intro He. right. exists data. split; [reflexivity|].
      exact (parse_whm_table_raises data e He).
Qed.

Lemma parse_whm_table_exceptions_witness :
  (Unreadable OSError = Unreadable OSError
   \/ exists data,
        Unreadable OSError = Holds data
        /\ ((OSError = StructError /\ read_entries data = Raise StructError)
            \/ (OSError = IndexError
                /\ exists entries blob_start blob_size,
                     read_entries data = Ok (entries, blob_start, blob_size)
                     /\ len data < blob_start + blob_size)))
  /\ (Holds truncated_buffer = Unreadable IndexError
      \/ exists data,
           Holds truncated_buffer = Holds data
           /\ ((IndexError = StructError
                /\ read_entries data = Raise StructError)
               \/ (IndexError = IndexError
                   /\ exists entries blob_start blob_size,
                        read_entries data = Ok (entries, blob_start, blob_size)
                        /\ len data < blob_start + blob_size))).
Proof.
  split.
  - apply (proj2 (proj2 (parse_whm_table_exceptions (Unreadable OSError)))).
    reflexivity.
  - apply (proj2 (proj2 (parse_whm_table_exceptions (Holds truncated_buffer)))).
    vm_compute. reflexivity.
Defined.

(* ------------------------------------------------------------------ *)

Lemma offset_of_succ encs k e :
  nth_error encs k = Some e ->
  offset_of encs (S k) = offset_of encs k + len e + 1.
Proof.
  intro H. apply nth_error_split in H. destruct H as (l1 & l2 & -> & <-).
  unfold offset_of.
  replace (S (length l1)) with (length (l1 ++ [e]))
    by (rewrite length_app; cbn; lia).
  replace (l1 ++ e :: l2) with ((l1 ++ [e]) ++ l2)
    by (rewrite <- app_assoc; reflexivity).
  rewrite firstn_app, firstn_all, Nat.sub_diag. cbn [firstn]. rewrite app_nil_r.
  rewrite <- app_assoc. cbn [app].
  rewrite firstn_app, firstn_all, Nat.sub_diag. cbn [firstn]. rewrite app_nil_r.
  rewrite blob_of_app, len_app. unfold blob_of at 2. cbn [map concat].
  rewrite app_nil_r. unfold cstring. rewrite len_app.
  change (len [Byte.x00]) with 1. lia.
Qed.

(** Later strings start further in the blob. *)
Lemma offset_of_lt encs k k' :
  (k < k')%nat -> (k' <= length encs)%nat -> offset_of encs k < offset_of encs k'.
Proof.
  induction 1 as [|k' Hk IH]; intro Hlen.
  - destruct (nth_error encs k) as [e|] eqn:He;
      [|apply nth_error_None in He; lia].
    rewrite (offset_of_succ encs k e He). pose proof (len_nonneg e). lia.
  - destruct (nth_error encs k') as [e|] eqn:He;
      [|apply nth_error_None in He; lia].
    rewrite (offset_of_succ encs k' e He). pose proof (len_nonneg e).
    specialize (IH ltac:(lia)). lia.
Qed.

Lemma nth_error_header {B} (f : item * nat -> B) items : forall a k e,
  nth_error (map f (combine items (seq a (length items)))) k = Some e ->
  exists it, nth_error items k = Some it /\ e = f (it, (a + k)%nat).
Proof.
  induction items as [|it items IH]; intros a [|k] e; cbn; try discriminate.
  - intros [= <-]. exists it. rewrite Nat.add_0_r. split; reflexivity.
  - intro H. destruct (IH (S a) k e H) as (it' & Hit & ->).
    exists it'. split; [exact Hit | f_equal; f_equal; lia].
Qed.

(** X8.  The header [dump_whm_table] writes: read back, it gives the
    hashes in input order with offsets that start at 0, increase strictly
    from each entry to the next and stay inside the blob - no two entries
    share an offset - and the file ends with the blob. *)
Theorem dump_whm_table_offsets : forall (items : list item) (encs : list bytes),
  encoded items encs ->
  Forall (fun it => u32 (hash it)) items ->
  len (blob_of encs) < 4294967296 ->
  exists data entries,
    dump_whm_table items = Ok data
    /\ read_entries data
       = Ok (entries, 8 + 8 * len items, len (blob_of encs))
    /\ len data = 8 + 8 * len items + len (blob_of encs)
    /\ map fst entries = map hash items
    /\ (forall e, nth_error entries 0 = Some e -> snd e = 0)
    /\ (forall k k' e e',
           (k < k')%nat ->
           nth_error entries k = Some e ->
           nth_error entries k' = Some e' ->
           snd e < snd e')
    /\ (forall e, In e entries -> 0 <= snd e < len (blob_of encs)).
Proof.
  intros items encs Henc Hhash Hsize.
  pose proof (encoded_length _ _ Henc) as Hlen.
  set (f := fun p : item * nat => (hash (fst p), offset_of encs (snd p))).
  assert (Hll : len (layout items encs) = 8 + 8 * len items + len (blob_of encs)).
  { unfold layout. rewrite !len_app, !len_le32.
    assert (Hb : forall l : list (item * nat),
               len (concat (map (header_entry encs) l)) = 8 * len l).
    { induction l as [|p l IHl]; [reflexivity|]. cbn [map concat].
      unfold header_entry at 1. rewrite !len_app, !len_le32, IHl.
      unfold len. cbn [length]. lia. }
    rewrite Hb. unfold len. rewrite length_combine, length_seq. lia. }
  exists (layout items encs), (map f (combine items (seq 0 (length items)))).
  split; [apply dump_whm_table_spec; assumption|].
  split; [rewrite (read_entries_layout items encs Henc Hhash Hsize);
          f_equal; f_equal; f_equal; lia|].
  split; [exact Hll|].
  split.
  { rewrite map_map. unfold f. cbn [fst].
    clear. generalize 0%nat. induction items as [|it items IH]; intro a;
      [reflexivity|]. cbn. f_equal. apply IH. }
  split.
  { intros e He. destruct (nth_error_header f items 0 0 e He) as (it & _ & ->).
    reflexivity. }
  split.
  { intros k k' e e' Hk He He'.
    destruct (nth_error_header f items 0 k e He) as (it & Hit & ->).
    destruct (nth_error_header f items 0 k' e' He') as (it' & Hit' & ->).
    cbn [snd f]. apply offset_of_lt; [lia|].
    assert (k' < length items)%nat by (apply nth_error_Some; congruence). lia. }
  intros e Hin. apply In_nth_error in Hin. destruct Hin as [k Hk].
  destruct (nth_error_header f items 0 k e Hk) as (it & Hit & ->).
  cbn [snd f plus].
  assert (Hk' : (k < length encs)%nat)
    by (rewrite <- Hlen; apply nth_error_Some; congruence).
  pose proof (offset_of_bounds encs k) as [Hlo _].
  pose proof (offset_of_lt encs k (length encs) Hk' (le_n _)) as Hlt.
  unfold offset_of in Hlt at 2. rewrite firstn_all in Hlt. lia.
Qed.

Lemma dump_whm_table_offsets_witness :
  exists data entries,
    dump_whm_table three_items = Ok data
    /\ read_entries data
       = Ok (entries, 8 + 8 * len three_items,
             len (blob_of [blit "Hello"; blit " = World"; []]))
    /\ len data = 8 + 8 * len three_items
                  + len (blob_of [blit "Hello"; blit " = World"; []])
    /\ map fst entries = map hash three_items
    /\ (forall e, nth_error entries 0 = Some e -> snd e = 0)
    /\ (forall k k' e e',
           (k < k')%nat ->
           nth_error entries k = Some e ->
           nth_error entries k' = Some e' ->
           snd e < snd e')
    /\ (forall e, In e entries ->
                  0 <= snd e < len (blob_of [blit "Hello"; blit " = World"; []])).
Proof.
  apply (dump_whm_table_offsets three_items [blit "Hello"; blit " = World"; []]).
  - repeat constructor.
  - repeat constructor; cbn; lia.
  - vm_compute. reflexivity.
Defined.

(* ------------------------------------------------------------------ *)

Lemma utf8_encode_char_raise c e :
  utf8_encode_char c = Raise e -> e = UnicodeEncodeError /\ is_scalar c = false.
Proof.
  unfold utf8_encode_char. destruct (is_scalar c); cbn [negb].
  - destruct (c <? 128); [|destruct (c <? 2048); [|destruct (c <? 65536)]];
      discriminate.
  - intros [= <-]. split; reflexivity.
Qed.

Lemma utf8_encode_raise s : forall e,
  utf8_encode s = Raise e ->
  e = UnicodeEncodeError /\ Exists (fun c => is_scalar c = false) s.
Proof.
  induction s as [|c s IH]; intros e; cbn [utf8_encode]; [discriminate|].
  destruct (utf8_encode_char c) as [b|e'] eqn:Hc; cbn [bind].
  - destruct (utf8_encode s) as [bs|e''] eqn:Hs; cbn [bind]; [discriminate|].
    intros [= <-]. destruct (IH _ eq_refl) as [-> Hex].
    split; [reflexivity | apply Exists_cons_tl, Hex].
  - intros [= <-]. destruct (utf8_encode_char_raise _ _ Hc) as [-> Hbad].
    split; [reflexivity | apply Exists_cons_hd, Hbad].
Qed.

Lemma utf8_encode_not_scalar s :
  Exists (fun c => is_scalar c = false) s ->
  utf8_encode s = Raise UnicodeEncodeError.
Proof.
  intro H. destruct (utf8_encode s) as [e|e] eqn:He.
  - exfalso. revert e He.
    induction H as [c s Hc | c s _ IH]; intros e; cbn [utf8_encode].
    + unfold utf8_encode_char. rewrite Hc. cbn [negb bind]. discriminate.
    + destruct (utf8_encode_char c); cbn [bind]; [|discriminate].
      destruct (utf8_encode s) as [bs|]; cbn [bind]; [|discriminate].
      intros _. exact (IH bs eq_refl).
  - destruct (utf8_encode_raise _ _ He) as [-> _]. reflexivity.
Qed.

Lemma build_blob_raise items : forall blob offs e,
  build_blob items blob offs = Raise e ->
  e = UnicodeEncodeError
  /\ Exists (fun it => Exists (fun c => is_scalar c = false) (text it)) items.
Proof.
  induction items as [|it items IH]; intros blob offs e; cbn [build_blob];
    [discriminate|].
  destruct (utf8_encode (text it)) as [b|e'] eqn:Hb; cbn [bind].
  - intro H. destruct (IH _ _ _ H) as [-> Hex].
    split; [reflexivity | apply Exists_cons_tl, Hex].
  - intros [= <-]. destruct (utf8_encode_raise _ _ Hb) as [-> Hex].
    split; [reflexivity | apply Exists_cons_hd, Hex].
Qed.

Lemma build_blob_encoded items : forall blob offs r,
  build_blob items blob offs = Ok r -> exists encs, encoded items encs.
Proof.
  induction items as [|it items IH]; intros blob offs r; cbn [build_blob].
  - intros _. exists []. constructor.
  - destruct (utf8_encode (text it)) as [b|] eqn:Hb; cbn [bind]; [|discriminate].
    intro H. destruct (IH _ _ _ H) as [encs Hencs].
    exists (b :: encs). constructor; assumption.
Qed.

Lemma encoded_scalar items encs :
  encoded items encs ->
  ~ Exists (fun it => Exists (fun c => is_scalar c = false) (text it)) items.
Proof.
  induction 1 as [|it e items encs He _ IH]; intro Hex;
    inversion Hex as [? ? Hbad | ? ? Hrest]; subst.
  - rewrite (utf8_encode_not_scalar _ Hbad) in He. discriminate.
  - exact (IH Hrest).
Qed.

Lemma pack_I_raise v e : pack_I v = Raise e -> e = StructError.
Proof.
  unfold pack_I. destruct ((0 <=? v) && (v <? 4294967296)); [discriminate|].
  intros [= <-]. reflexivity.
Qed.

Lemma pack_I_ok v b : pack_I v = Ok b -> u32 v.
Proof.
  unfold pack_I, u32.
  destruct (Z.leb_spec 0 v); destruct (Z.ltb_spec v 4294967296); cbn [andb];
    try discriminate.
  intros _. lia.
Qed.

Lemma build_header_raise pairs : forall header e,
  build_header pairs header = Raise e -> e = StructError.
Proof.
  induction pairs as [|[it off] pairs IH]; intros header e; cbn [build_header];
    [discriminate|].
  unfold pack_II.
  destruct (pack_I (hash it)) as [x|e1] eqn:Hx; cbn [bind].
  - destruct (pack_I off) as [y|e2] eqn:Hy; cbn [bind].
    + apply IH.
    + intros [= <-]. exact (pack_I_raise _ _ Hy).
  - intros [= <-]. exact (pack_I_raise _ _ Hx).
Qed.

Lemma u32_dec v : {u32 v} + {~ u32 v}.
Proof.
  unfold u32. destruct (Z_le_dec 0 v); destruct (Z_lt_dec v 4294967296);
    [left; lia | right; lia | right; lia | right; lia].
Qed.

(** Every exception of the steps after the blob loop is [struct.error]. *)
Lemma dump_whm_table_after_blob items encs e :
  encoded items encs -> dump_whm_table items = Raise e -> e = StructError.
Proof.
  intros Henc. unfold dump_whm_table.
  rewrite (build_blob_spec items encs [] [] [] Henc eq_refl). cbn [bind app].
  destruct (pack_I (len items)) as [h0|e0] eqn:H0; cbn [bind];
    [|intros [= <-]; exact (pack_I_raise _ _ H0)].
  destruct (build_header _ h0) as [h1|e1] eqn:H1; cbn [bind];
    [|intros [= <-]; exact (build_header_raise _ _ _ H1)].
  destruct (pack_I (len (blob_of encs))) as [sz|e2] eqn:H2; cbn [bind];
    [discriminate|]. intros [= <-]. exact (pack_I_raise _ _ H2).
Qed.

(** What [dump_whm_table] can raise before it writes, and exactly when:
    [UnicodeEncodeError] if and only if some text holds a character that
    is no Unicode scalar value - whatever the hashes are, since the texts
    are encoded first; [struct.error] if and only if all texts encode
    and a hash falls outside 0..2**32-1 or the blob reaches 2**32 bytes;
    and nothing else. *)
Lemma dump_whm_table_raises : forall items : list item,
  (dump_whm_table items = Raise UnicodeEncodeError
   <-> Exists (fun it => Exists (fun c => is_scalar c = false) (text it)) items)
  /\ (dump_whm_table items = Raise StructError
      <-> exists encs,
            encoded items encs
            /\ (Exists (fun it => ~ u32 (hash it)) items
                \/ 4294967296 <= len (blob_of encs)))
  /\ (forall e, dump_whm_table items = Raise e ->
                e = UnicodeEncodeError \/ e = StructError).
Proof.
  intro items.
  assert (Hraise : forall e, dump_whm_table items = Raise e ->
            (e = UnicodeEncodeError
             /\ Exists (fun it => Exists (fun c => is_scalar c = false) (text it))
                  items)
            \/ (e = StructError
                /\ exists encs,
                     encoded items encs
                     /\ (Exists (fun it => ~ u32 (hash it)) items
                         \/ 4294967296 <= len (blob_of encs)))).
  { intros e He.
    destruct (build_blob items [] []) as [r|e'] eqn:Hb.
    - right. destruct (build_blob_encoded _ _ _ _ Hb) as [encs Henc].
      split; [exact (dump_whm_table_after_blob _ _ _ Henc He)|].
      exists encs. split; [exact Henc|].
      destruct (Forall_Exists_dec (fun it => u32 (hash it))
                  (fun it => u32_dec (hash it)) items) as [Hall | Hex].
      + right. destruct (Z.lt_ge_cases (len (blob_of encs)) 4294967296)
          as [Hlt | Hge]; [|exact Hge].
        rewrite (dump_whm_table_spec _ _ Henc Hall Hlt) in He. discriminate.
      + left. exact Hex.
    - left. unfold dump_whm_table in He. rewrite Hb in He. cbn [bind] in He.
      injection He as <-. exact (build_blob_raise _ _ _ _ Hb). }
  split; [|split].
  - split.
    + intro He. destruct (Hraise _ He) as [[_ Hex] | [Hneq _]];
        [exact Hex | discriminate].
    + intro Hex. unfold dump_whm_table.
      destruct (build_blob items [] []) as [r|e] eqn:Hb; cbn [bind].
      * destruct (build_blob_encoded _ _ _ _ Hb) as [encs Henc].
        destruct (encoded_scalar _ _ Henc Hex).
      * destruct (build_blob_raise _ _ _ _ Hb) as [-> _]. reflexivity.
  - split.
    + intro He. destruct (Hraise _ He) as [[Hneq _] | [_ Hex]];
        [discriminate | exact Hex].
    + intros (encs & Henc & Hbad).
      destruct (dump_whm_table items) as [d|e] eqn:Hd.
      * exfalso. destruct Hbad as [Hhash | Hsize].
        -- pose proof (dump_whm_table_bad_hash items Hhash) as Hno.
           rewrite Hd in Hno. discriminate.
        -- revert Hd. unfold dump_whm_table.
           rewrite (build_blob_spec items encs [] [] [] Henc eq_refl).
           cbn [bind app].
           destruct (pack_I (len items)); cbn [bind]; [|discriminate].
           destruct (build_header _ _); cbn [bind]; [|discriminate].
           destruct (pack_I (len (blob_of encs))) as [sz|] eqn:Hsz;
             cbn [bind]; [|discriminate].
           apply pack_I_ok in Hsz. unfold u32 in Hsz. lia.
      * rewrite (dump_whm_table_after_blob _ _ _ Henc Hd). reflexivity.
  - intros e He. destruct (Hraise _ He) as [[-> _] | [-> _]];
      [left | right]; reflexivity.
Qed.

(** X9.  What [dump_whm_table(out_path, items)] does, case by case.
    When some text holds a character that is no Unicode scalar value it
    raises [UnicodeEncodeError], whatever the hashes are, since the
    texts are encoded first.  When all texts encode and a hash falls
    outside 0..2**32-1 or the blob reaches 2**32 bytes it raises
    [struct.error].  In both cases the file is not written.  Otherwise
    the bytes of the table are handed to [out_path.write_bytes]: the
    file then holds them, or the exception of the write (an [OSError])
    leaves the function.  There is no other case, so these are its only
    exceptions. *)
Theorem dump_whm_table_exceptions :
  forall (out_path : target) (items : list item),
  (Exists (fun it => Exists (fun c => is_scalar c = false) (text it)) items
   /\ dump_whm_table_file out_path items = Raise UnicodeEncodeError)
  \/ (exists encs,
         encoded items encs
         /\ (Exists (fun it => ~ u32 (hash it)) items
             \/ 4294967296 <= len (blob_of encs))
         /\ dump_whm_table_file out_path items = Raise StructError)
  \/ (exists encs,
         encoded items encs
         /\ Forall (fun it => u32 (hash it)) items
         /\ len (blob_of encs) < 4294967296
         /\ dump_whm_table_file out_path items
            = match out_path with
              | Refused e => Raise e
              | Writable => Ok (layout items encs)
              end).
Proof.
  intros out_path items. unfold dump_whm_table_file.
  destruct (dump_whm_table_raises items) as (Henc_iff & Hstruct_iff & _).
  destruct (build_blob items [] []) as [r|e'] eqn:Hb.
  - destruct (build_blob_encoded _ _ _ _ Hb) as [encs Henc]. right.
    destruct (Forall_Exists_dec (fun it => u32 (hash it))
                (fun it => u32_dec (hash it)) items) as [Hall | Hex].
    + destruct (Z.lt_ge_cases (len (blob_of encs)) 4294967296) as [Hlt | Hge].
      * right. exists encs.
        rewrite (dump_whm_table_spec _ _ Henc Hall Hlt). cbn [bind].
        split; [exact Henc|]. split; [exact Hall|]. split; [exact Hlt|].
        destruct out_path; reflexivity.
      * left. exists encs. split; [exact Henc|]. split; [right; exact Hge|].
        rewrite (proj2 Hstruct_iff); [reflexivity|].
        exists encs. split; [exact Henc | right; exact Hge].
    + left. exists encs. split; [exact Henc|]. split; [left; exact Hex|].
      rewrite (proj2 Hstruct_iff); [reflexivity|].
      exists encs. split; [exact Henc | left; exact Hex].
  - left. destruct (build_blob_raise _ _ _ _ Hb) as [_ Hex].
    split; [exact Hex|]. rewrite (proj2 Henc_iff Hex). reflexivity.
Qed.

(* ================================================================== *)
(** * The fallbacks of [decode_bytes] *)

Lemma for_each_latin1 bts : for_each latin1_char bts = Ok (map byte_val bts).
Proof.
  induction bts as [|b bts IH]; [reflexivity|].
  cbn [for_each map]. unfold latin1_char at 1. cbn [bind]. rewrite IH.
  reflexivity.
Qed.

Lemma cp1252_char_low b c :
  cp1252_char b = Ok c -> ~ (128 <= byte_val b <= 159) -> c = byte_val b.
Proof.
  unfold cp1252_char. cbv zeta.
  destruct (Z.leb_spec 128 (byte_val b)); destruct (Z.leb_spec (byte_val b) 159);
    cbn [andb]; first [intros Hc%Ok_inj _; symmetry; exact Hc | intros _ Hn; lia].
Qed.

(** X10.  [decode_bytes] never reaches its last line: latin-1 decodes
    every byte string, so the result is always the text of the first
    codec that accepts the bytes and never their hexadecimal dump.  When
    UTF-8 refuses the bytes, the text has one character per byte, each
    byte outside 0x80..0x9F standing for itself; when code page 1252
    refuses them too, every byte stands for itself. *)
Theorem decode_bytes_never_hex : forall bts : bytes,
  ~ Forall (fails bts) encodings
  /\ exists s,
       decode_bytes bts = Ok s
       /\ first_success encodings bts s
       /\ (forall t, utf8_decode bts = Ok t -> s = t)
       /\ (is_ok (utf8_decode bts) = false ->
           length s = length bts
           /\ Forall2 (fun b c => ~ (128 <= byte_val b <= 159) -> c = byte_val b)
                bts s
           /\ (is_ok (decode Cp1252 bts) = false -> s = map byte_val bts)).
Proof.
  intro bts.
  assert (Hlatin : decode Latin1 bts = Ok (map byte_val bts))
    by apply for_each_latin1.
  assert (Hnot : ~ Forall (fails bts) encodings).
  { intro H. unfold encodings in H.
    inversion H as [|? ? _ H1]; subst. inversion H1 as [|? ? _ H2]; subst.
    inversion H2 as [|? ? H3 _]; subst. unfold fails in H3.
    rewrite Hlatin in H3. discriminate. }
  split; [exact Hnot|].
  destruct (decode_loop_spec bts encodings) as [s [Hs [Hfirst | [Hall _]]]];
    [|destruct (Hnot Hall)].
  exists s. split; [exact Hs|]. split; [exact Hfirst|].
  unfold decode_bytes, encodings in *. cbn [decode_loop decode] in Hs.
  split.
  - intros t Ht. rewrite Ht in Hs. apply Ok_inj in Hs. symmetry. exact Hs.
  - intro Hu. destruct (utf8_decode bts) as [t|]; [discriminate|].
    destruct (for_each cp1252_char bts) as [s2|] eqn:H2.
    + apply Ok_inj in Hs. subst s2.
      pose proof (for_each_Forall2 _ _ _ H2) as HF.
      split; [symmetry; exact (Forall2_length HF)|].
      split; [|cbn [decode is_ok]; rewrite H2; discriminate].
      eapply Forall2_impl; [|exact HF]. intros b c Hbc. cbn in Hbc.
      exact (cp1252_char_low _ _ Hbc).
    + rewrite for_each_latin1 in Hs. apply Ok_inj in Hs. subst s.
      split; [apply length_map|]. split; [|reflexivity].
      clear. induction bts as [|b bts IH]; cbn [map]; constructor;
        [reflexivity | exact IH].
Qed.

Lemma decode_bytes_never_hex_witness :
  decode_bytes [Byte.xe9; Byte.x81] = Ok [233; 129].
Proof.
  destruct (decode_bytes_never_hex [Byte.xe9; Byte.x81])
    as (_ & s & Hs & _ & _ & Hfall).
  destruct (Hfall eq_refl) as (_ & _ & Hmap).
  rewrite Hs, (Hmap eq_refl). reflexivity.
Defined.

(* ================================================================== *)
(** * Dictionaries *)

Import Loader.

Lemma dict_get_set_same {V} (d : dict V) k v :
  dict_get (dict_set d k v) k = Some v.
Proof.
  induction d as [|[k' v'] d IH]; cbn [dict_set dict_get].
  - rewrite str_eqb_refl. reflexivity.
  - destruct (str_eqb k' k) eqn:E; cbn [dict_get]; rewrite E;
      [reflexivity | exact IH].
Qed.

Lemma dict_get_set_other {V} (d : dict V) k k' v :
  k <> k' -> dict_get (dict_set d k v) k' = dict_get d k'.
Proof.
  intro Hne. induction d as [|[k0 v0] d IH]; cbn [dict_set dict_get].
  - rewrite (str_eqb_false _ _ Hne). reflexivity.
  - destruct (str_eqb k0 k) eqn:E; cbn [dict_get].
    + apply str_eqb_true in E. subst k0. rewrite (str_eqb_false _ _ Hne).
      reflexivity.
    + rewrite IH. reflexivity.
Qed.

Lemma dict_get_In {V} (d : dict V) k v : dict_get d k = Some v -> In (k, v) d.
Proof.
  induction d as [|[k' v'] d IH]; cbn [dict_get]; [discriminate|].
  destruct (str_eqb k' k) eqn:E.
  - intros [= <-]. apply str_eqb_true in E. subst k'. left. reflexivity.
  - intro H. right. exact (IH H).
Qed.

Lemma dict_get_None {V} (d : dict V) k :
  dict_get d k = None <-> ~ In k (map fst d).
Proof.
  induction d as [|[k' v'] d IH]; cbn [dict_get map fst In]; [tauto|].
  destruct (str_eqb k' k) eqn:E.
  - apply str_eqb_true in E. subst k'. split; [discriminate | tauto].
  - assert (k' <> k) by (intros ->; rewrite str_eqb_refl in E; discriminate).
    tauto.
Qed.

Lemma dict_mem_In {V} (d : dict V) k :
  dict_mem d k = true <-> In k (map fst d).
Proof.
  unfold dict_mem. pose proof (dict_get_None d k) as H.
  destruct (dict_get d k) as [v|] eqn:E.
  - split; [|reflexivity]. intros _. apply dict_get_In in E.
    apply (in_map fst) in E. exact E.
  - split; [discriminate|]. intro Hin. destruct (proj1 H eq_refl Hin).
Qed.

(** [d[k] = v] keeps the keys of [d], in their order, and puts a new key
    last. *)
Lemma dict_set_keys {V} (d : dict V) k v :
  map fst (dict_set d k v)
  = if dict_mem d k then map fst d else map fst d ++ [k].
Proof.
  unfold dict_mem. induction d as [|[k' v'] d IH]; cbn [dict_set dict_get];
    [reflexivity|].
  destruct (str_eqb k' k) eqn:E; cbn [map fst]; [reflexivity|].
  rewrite IH. destruct (dict_get d k); reflexivity.
Qed.

Lemma dict_set_NoDup {V} (d : dict V) k v :
  NoDup (map fst d) -> NoDup (map fst (dict_set d k v)).
Proof.
  intro H. rewrite dict_set_keys. destruct (dict_mem d k) eqn:E; [exact H|].
  assert (Hnot : ~ In k (map fst d)).
  { intro Hin. apply dict_mem_In in Hin. congruence. }
  apply NoDup_rev in H. rewrite <- (rev_involutive (map fst d ++ [k])).
  apply NoDup_rev. rewrite rev_app_distr. cbn [rev app].
  constructor; [rewrite <- in_rev; exact Hnot | exact H].
Qed.

Lemma dict_set_Forall {V} (P : str * V -> Prop) (d : dict V) k v :
  Forall P d -> P (k, v) -> Forall P (dict_set d k v).
Proof.
  intros Hd Hk. induction Hd as [|[k' v'] d Hx Hd IH]; cbn [dict_set].
  - constructor; [exact Hk | constructor].
  - destruct (str_eqb k' k) eqn:E.
    + apply str_eqb_true in E. subst k'. constructor; assumption.
    + constructor; assumption.
Qed.

(* ================================================================== *)
(** * The archive [_load_standard_txt] builds *)

Lemma lstrip_idem s : lstrip (lstrip s) = lstrip s.
Proof.
  induction s as [|c s IH]; [reflexivity|]. cbn [lstrip].
  destruct (isspace c) eqn:E; [exact IH|]. cbn [lstrip]. rewrite E. reflexivity.
Qed.

Lemma lstrip_keeps_last a c :
  isspace c = false -> exists w, lstrip (a ++ [c]) = w ++ [c].
Proof.
  intro Hc. induction a as [|x a [w Hw]]; cbn [app lstrip].
  - rewrite Hc. exists []. reflexivity.
  - destruct (isspace x); [exists w; exact Hw|]. exists (x :: a). reflexivity.
Qed.

(** [strip] leaves nothing to strip. *)
Lemma strip_idem s : strip (strip s) = strip s.
Proof.
  unfold strip. set (x := lstrip s).
  assert (Hx : lstrip x = x) by apply lstrip_idem.
  assert (Hy : lstrip (rev (lstrip (rev x))) = rev (lstrip (rev x))).
  { destruct x as [|c x']; [reflexivity|].
    pose proof (lstrip_fixed_head c x' Hx) as Hc.
    cbn [rev]. destruct (lstrip_keeps_last (rev x') c Hc) as [w ->].
    rewrite rev_app_distr. cbn [rev app lstrip]. rewrite Hc. reflexivity. }
  rewrite Hy, rev_involutive, lstrip_idem. reflexivity.
Qed.

Lemma classify_stripped ht line k value :
  classify ht line = KeyValue k value -> strip value = value.
Proof.
  unfold classify. destruct (strip line) as [|c l]; [discriminate|].
  destruct (ht && startswith_char 91 (c :: l) && endswith_char 93 (c :: l));
    [discriminate|].
  destruct (split_once 61 (c :: l)) as [[a b]|]; [|discriminate].
  intros [= _ <-]. apply strip_idem.
Qed.

Lemma classify_no_header line name : classify false line <> Header name.
Proof.
  unfold classify. destruct (strip line) as [|c l]; [discriminate|].
  cbn [andb]. destruct (split_once 61 (c :: l)) as [[a b]|]; discriminate.
Qed.

Lemma valid_archive_no_empty v a : valid_archive v a -> dict_get a [] = None.
Proof.
  intros [_ Hall]. apply dict_get_None. intro Hin.
  apply in_map_iff in Hin. destruct Hin as ([n t] & Hn & Hin).
  rewrite Forall_forall in Hall. destruct (Hall _ Hin) as [Hne _].
  cbn [fst] in Hn, Hne. congruence.
Qed.

Lemma valid_archive_new_table v a name :
  valid_archive v a -> name <> [] -> valid_archive v (dict_set a name []).
Proof.
  intros [Hnd Hall] Hname. split; [apply dict_set_NoDup, Hnd|].
  apply dict_set_Forall; [exact Hall|]. cbn [fst snd].
  split; [exact Hname|]. split; constructor.
Qed.

Lemma valid_archive_store v a cur t k value :
  valid_archive v a ->
  dict_get a cur = Some t ->
  k <> [] -> _validate_key_static k v Gxt = true -> strip value = value ->
  valid_archive v (dict_set a cur (dict_set t k value)).
Proof.
  intros [Hnd Hall] Hget Hk Hv Hs.
  pose proof (dict_get_In _ _ _ Hget) as Hin.
  rewrite Forall_forall in Hall. destruct (Hall _ Hin) as [Hcur [Htnd Htall]].
  cbn [fst snd] in Hcur, Htnd, Htall.
  split; [apply dict_set_NoDup, Hnd|].
  apply dict_set_Forall; [rewrite Forall_forall; exact Hall|]. cbn [fst snd].
  split; [exact Hcur|]. split; [apply dict_set_NoDup, Htnd|].
  apply dict_set_Forall; [exact Htall|]. cbn [fst snd]. tauto.
Qed.

(** One line of the import: it raises [KeyError] exactly on a valid,
    non-empty key under an unnamed header, and keeps the archive valid
    otherwise. *)
Lemma load_line_inv ht v path st n line u :
  loader_inv v u st ->
  (unnamed_entry ht v u [line] = true ->
   Main.load_line ht v path st (n, line) = Raise KeyError)
  /\ (unnamed_entry ht v u [line] = false ->
      exists st',
        Main.load_line ht v path st (n, line) = Ok st'
        /\ loader_inv v (unnamed_after ht u [line]) st').
Proof.
  intros Hinv. pose proof Hinv as (Harch & Herrs & Hcur).
  rewrite load_line_classify. cbn [unnamed_entry unnamed_after].
  destruct (classify ht line) as [|name|k value|] eqn:Hcl.
  - split; [discriminate|]. intros _. exists st. split; [reflexivity | exact Hinv].
  - split; [discriminate|]. intros _. eexists. split; [reflexivity|].
    unfold loader_inv. cbn [data invalid_keys current_table].
    destruct name as [|c name]; cbn [is_nil].
    + split; [exact Harch|]. split; [exact Herrs | reflexivity].
    + destruct (dict_mem (data st) (c :: name)) eqn:Hm.
      * split; [exact Harch|]. split; [exact Herrs|]. split; [reflexivity | exact Hm].
      * split; [apply valid_archive_new_table; [exact Harch | discriminate]|].
        split; [exact Herrs|]. split; [reflexivity | apply dict_mem_set_same].
  - rewrite orb_false_r.
    destruct (current_table st) as [cur|] eqn:Hc.
    + destruct (_validate_key_static k v Gxt) eqn:Hv.
      * destruct k as [|c k]; cbn [is_nil negb].
        { rewrite !andb_false_r. split; [discriminate|]. intros _.
          exists st. split; [reflexivity | exact Hinv]. }
        rewrite !andb_true_r.
        destruct cur as [|c0 cur].
        -- subst u. rewrite (valid_archive_no_empty _ _ Harch).
           split; [reflexivity | discriminate].
        -- destruct Hcur as [-> Hm]. split; [discriminate|]. intros _.
           unfold dict_mem in Hm.
           destruct (dict_get (data st) (c0 :: cur)) as [t|] eqn:Hg;
             [|discriminate].
           eexists. split; [reflexivity|].
           unfold loader_inv. cbn [data invalid_keys current_table].
           split.
           { apply valid_archive_store; try assumption; [discriminate|].
             exact (classify_stripped _ _ _ _ Hcl). }
           split; [exact Herrs|]. split; [reflexivity | apply dict_mem_set_same].
      * rewrite andb_false_r. cbn [andb]. split; [discriminate|]. intros _.
        eexists. split; [reflexivity|].
        unfold loader_inv. cbn [data invalid_keys current_table].
        split; [exact Harch|]. split; [|exact Hcur].
        apply Forall_app. split; [exact Herrs|]. constructor; [|constructor].
        split; [exact Hv | reflexivity].
    + subst u. cbn [andb]. split; [discriminate|]. intros _.
      exists st. split; [reflexivity | exact Hinv].
  - split; [discriminate|]. intros _. exists st. split; [reflexivity | exact Hinv].
Qed.

Lemma unnamed_entry_cons ht v u line rest :
  unnamed_entry ht v u (line :: rest)
  = unnamed_entry ht v u [line]
    || unnamed_entry ht v (unnamed_after ht u [line]) rest.
Proof.
  cbn [unnamed_entry unnamed_after].
  destruct (classify ht line); try reflexivity.
  rewrite orb_false_r. reflexivity.
Qed.

Lemma unnamed_after_cons ht u line rest :
  unnamed_after ht u (line :: rest)
  = unnamed_after ht (unnamed_after ht u [line]) rest.
Proof.
  cbn [unnamed_after]. destruct (classify ht line); reflexivity.
Qed.

Lemma unnamed_entry_app ht v f : forall u g,
  unnamed_entry ht v u (f ++ g)
  = unnamed_entry ht v u f || unnamed_entry ht v (unnamed_after ht u f) g.
Proof.
  induction f as [|line f IH]; intros u g; [reflexivity|].
  cbn [app]. rewrite (unnamed_entry_cons ht v u line (f ++ g)), IH.
  rewrite (unnamed_entry_cons ht v u line f), (unnamed_after_cons ht u line f).
  rewrite orb_assoc. reflexivity.
Qed.

Lemma unnamed_after_app ht f : forall u g,
  unnamed_after ht u (f ++ g) = unnamed_after ht (unnamed_after ht u f) g.
Proof.
  induction f as [|line f IH]; intros u g; [reflexivity|].
  cbn [app]. rewrite (unnamed_after_cons ht u line (f ++ g)), IH.
  rewrite (unnamed_after_cons ht u line f). reflexivity.
Qed.

Lemma load_lines_inv ht v path f : forall n st u,
  loader_inv v u st ->
  (unnamed_entry ht v u f = true ->
   fold_result (Main.load_line ht v path) (enumerate n f) st = Raise KeyError)
  /\ (unnamed_entry ht v u f = false ->
      exists st',
        fold_result (Main.load_line ht v path) (enumerate n f) st = Ok st'
        /\ loader_inv v (unnamed_after ht u f) st').
Proof.
  induction f as [|line f IH]; intros n st u Hinv.
  - split; [discriminate|]. intros _. exists st. split; [reflexivity | exact Hinv].
  - rewrite (unnamed_entry_cons ht v u line f), (unnamed_after_cons ht u line f).
    cbn [enumerate fold_result].
    destruct (load_line_inv ht v path st n line u Hinv) as [Hbad Hgood].
    destruct (unnamed_entry ht v u [line]) eqn:Hline; cbn [orb].
    + split; [|discriminate]. intros _. rewrite (Hbad eq_refl). reflexivity.
    + destruct (Hgood eq_refl) as (st1 & -> & Hinv1). cbn [bind].
      exact (IH (n + 1) st1 _ Hinv1).
Qed.

Lemma load_files_inv ht v files : forall st u,
  loader_inv v u st ->
  (unnamed_entry ht v u (concat (map snd files)) = true ->
   fold_result (load_file ht v) files st = Raise KeyError)
  /\ (unnamed_entry ht v u (concat (map snd files)) = false ->
      exists st',
        fold_result (load_file ht v) files st = Ok st'
        /\ loader_inv v (unnamed_after ht u (concat (map snd files))) st').
Proof.
  induction files as [|[path f] files IH]; intros st u Hinv.
  - split; [discriminate|]. intros _. exists st. split; [reflexivity | exact Hinv].
  - cbn [map snd concat fold_result load_file].
    rewrite unnamed_entry_app, unnamed_after_app.
    destruct (load_lines_inv ht v path f 1 st u Hinv) as [Hbad Hgood].
    destruct (unnamed_entry ht v u f) eqn:Hf; cbn [orb].
    + split; [|discriminate]. intros _. rewrite (Hbad eq_refl). reflexivity.
    + destruct (Hgood eq_refl) as (st1 & -> & Hinv1). cbn [bind].
      exact (IH st1 _ Hinv1).
Qed.

Lemma loader_inv_init (ht : bool) v :
  loader_inv v false
    (mk_state (if ht then [] else [(MAIN, [])]) []
              (if ht then None else Some MAIN)).
Proof.
  unfold loader_inv. cbn [data invalid_keys current_table].
  destruct ht.
  - split; [split; constructor|]. split; [constructor | reflexivity].
  - split.
    + split; [constructor; [intro H; destruct H | constructor]|].
      constructor; [|constructor]. cbn [fst snd].
      split; [discriminate | split; constructor].
    + split; [constructor|]. split; reflexivity.
Qed.

(** X11.  Whatever the text, the archive [_load_standard_txt] returns is
    well formed: no table name twice and none empty, in each table no key
    twice, every key non-empty and valid for the dialect, every value
    without surrounding white space; and every entry of the error list
    has a key the dialect refuses, with the message of the dialect. *)
Theorem load_standard_txt_archive_valid :
  forall files has_tables v archive errors,
    _load_standard_txt files has_tables v = Ok (archive, errors) ->
    valid_archive v archive /\ Forall (rejected v) errors.
Proof.
  intros files ht v archive errors. unfold _load_standard_txt.
  destruct (load_files_inv ht v files _ false (loader_inv_init ht v))
    as [Hbad Hgood].
  destruct (unnamed_entry ht v false (concat (map snd files))).
  - rewrite (Hbad eq_refl). discriminate.
  - destruct (Hgood eq_refl) as (st' & -> & Harch & Herrs & _). cbn [bind].
    intros H%Ok_inj. inversion H; subst. split; assumption.
Qed.

Lemma load_standard_txt_archive_valid_witness :
  valid_archive VC [(lit "T", [(lit "A", lit "b c")])]
  /\ Forall (rejected VC) [(lit "a", 3, lit "f.txt", MsgVC)].
Proof.
  apply (load_standard_txt_archive_valid
           [(lit "f.txt", [lit "[T]"; lit " A = b c "; lit "a=1"])] true VC).
  vm_compute. reflexivity.
Defined.

(** ** Files that cannot be opened or read *)

(** On files that open and are read to their end, the loop over the
    files is the loop over their lines. *)
Lemma load_text_file_readable ht v st path lines :
  load_text_file ht v st (path, Yields lines None)
  = load_file ht v st (path, lines).
Proof.
  cbn [load_text_file load_file].
  destruct (fold_result (Main.load_line ht v path) (enumerate 1 lines) st);
    reflexivity.
Qed.

Lemma load_text_files_readable ht v files : forall st,
  fold_result (load_text_file ht v)
    (map (fun file => (fst file, Yields (snd file) None)) files) st
  = fold_result (load_file ht v) files st.
Proof.
  induction files as [|[path lines] files IH]; intro st; [reflexivity|].
  cbn [map fold_result fst snd]. rewrite load_text_file_readable.
  destruct (load_file ht v st (path, lines)); cbn [bind]; [apply IH | reflexivity].
Qed.

(** On files that open and are read to their end, [_load_standard_txt]
    is the function of their lines. *)
Lemma load_standard_txt_readable files ht v :
  _load_standard_txt_files
    (map (fun file => (fst file, Yields (snd file) None)) files) ht v
  = _load_standard_txt files ht v.
Proof.
  unfold _load_standard_txt_files, _load_standard_txt.
  rewrite load_text_files_readable. reflexivity.
Qed.

Lemma all_lines_cons file files :
  all_lines (file :: files) = yielded (snd file) ++ all_lines files.
Proof. reflexivity. Qed.

(** The loop over the files, from a state the loader can be in: when it
    returns, every file was read to its end and no entry stood under a
    header without a name; when it raises, either it is the [KeyError]
    of such an entry, or the exception of the first file that cannot be
    opened or read to its end. *)
Lemma load_text_files_inv ht v files : forall st u,
  loader_inv v u st ->
  (forall st',
      fold_result (load_text_file ht v) files st = Ok st' ->
      Forall readable files
      /\ unnamed_entry ht v u (all_lines files) = false
      /\ loader_inv v (unnamed_after ht u (all_lines files)) st')
  /\ (forall e,
         fold_result (load_text_file ht v) files st = Raise e ->
         (e = KeyError /\ unnamed_entry ht v u (all_lines files) = true)
         \/ exists before file after,
              files = before ++ file :: after
              /\ Forall readable before
              /\ failure (snd file) = Some e
              /\ unnamed_entry ht v u (all_lines (before ++ [file])) = false).
Proof.
  induction files as [|[path f] files IH]; intros st u Hinv.
  - split.
    + intros st' [= <-]. split; [constructor|]. split; [reflexivity | exact Hinv].
    + intros e. discriminate.
  - cbn [fold_result]. rewrite all_lines_cons. cbn [snd].
    destruct f as [e0 | lines stop].
    + cbn [load_text_file bind yielded app]. split; [discriminate|].
      intros e [= <-]. right. exists [], (path, CannotOpen e0), files.
      split; [reflexivity|]. split; [constructor|]. split; reflexivity.
    + cbn [load_text_file yielded].
      rewrite unnamed_entry_app, unnamed_after_app.
      destruct (load_lines_inv ht v path lines 1 st u Hinv) as [Hbad Hgood].
      destruct (unnamed_entry ht v u lines) eqn:Hu; cbn [orb].
      * rewrite (Hbad eq_refl). cbn [bind]. split; [discriminate|].
        intros e [= <-]. left. split; reflexivity.
      * destruct (Hgood eq_refl) as (st1 & -> & Hinv1). cbn [bind].
        destruct stop as [e0|]; cbn [bind].
        { split; [discriminate|]. intros e [= <-]. right.
          exists [], (path, Yields lines (Some e0)), files.
          split; [reflexivity|]. split; [constructor|]. split; [reflexivity|].
          cbn [app]. unfold all_lines. cbn [map concat snd yielded].
          rewrite app_nil_r. exact Hu. }
        { destruct (IH st1 _ Hinv1) as [IHok IHraise]. split.
          - intros st' Hrun. destruct (IHok st' Hrun) as (Hall & Hno & Hinv').
            split; [constructor; [reflexivity | exact Hall]|].
            split; assumption.
          - intros e Hrun.
            destruct (IHraise e Hrun)
              as [[-> Hyes] | (before & file & after & -> & Hb & Hf & Hno)].
            + left. split; [reflexivity | exact Hyes].
            + right. exists ((path, Yields lines None) :: before), file, after.
              split; [reflexivity|].
              split; [constructor; [reflexivity | exact Hb]|].
              split; [exact Hf|].
              cbn [app]. rewrite all_lines_cons. cbn [snd yielded].
              rewrite unnamed_entry_app, Hu. exact Hno. }
Qed.

(** X12.  When [_load_standard_txt] raises.  On files that open and are
    read to their end it raises exactly when a [key=value] line with a
    valid, non-empty key stands under a header with an empty name
    ([[]], or brackets around white space): it then raises [KeyError],
    whatever came before, also in an earlier file of the same call; on
    any other text it returns.  In general, what it raises is either
    that [KeyError] or the exception that the opening or the reading of
    one of the files raises ([OSError], [UnicodeDecodeError]); and it
    returns only if every file was read to its end and no such line was
    met. *)
Theorem load_standard_txt_key_error : forall files has_tables v,
  (Forall readable files ->
   (unnamed_entry has_tables v false (all_lines files) = true ->
    _load_standard_txt_files files has_tables v = Raise KeyError)
   /\ (unnamed_entry has_tables v false (all_lines files) = false ->
       exists archive errors,
         _load_standard_txt_files files has_tables v = Ok (archive, errors)))
  /\ (forall e,
         _load_standard_txt_files files has_tables v = Raise e ->
         (e = KeyError
          /\ unnamed_entry has_tables v false (all_lines files) = true)
         \/ exists file, In file files /\ failure (snd file) = Some e)
  /\ (forall archive errors,
         _load_standard_txt_files files has_tables v = Ok (archive, errors) ->
         Forall readable files
         /\ unnamed_entry has_tables v false (all_lines files) = false).
Proof.
  intros files ht v. unfold _load_standard_txt_files.
  destruct (load_text_files_inv ht v files _ false (loader_inv_init ht v))
    as [Hok Hraise].
  match goal with
  | |- context [fold_result ?f ?fs ?st] =>
      destruct (fold_result f fs st) as [st'|e'] eqn:Hrun
  end; cbn [bind].
  - destruct (Hok st' eq_refl) as (Hall & Hno & _).
    split; [|split].
    + intros _. split.
      * rewrite Hno. discriminate.
      * intros _. eexists. eexists. reflexivity.
    + intros e. discriminate.
    + intros archive errors _. split; assumption.
  - split; [|split].
    + intro Hall.
      destruct (Hraise e' eq_refl)
        as [[-> Hyes] | (before & file & after & -> & _ & Hf & _)].
      * split; [reflexivity|]. rewrite Hyes. discriminate.
      * exfalso. apply Forall_app in Hall. destruct Hall as [_ Hall].
        inversion Hall as [|? ? Hfile _]; subst. unfold readable in Hfile.
        rewrite Hfile in Hf. discriminate.
    + intros e [= <-].
      destruct (Hraise e' eq_refl)
        as [[-> Hyes] | (before & file & after & -> & _ & Hf & _)].
      * left. split; [reflexivity | exact Hyes].
      * right. exists file. split; [|exact Hf].
        apply in_or_app. right. left. reflexivity.
    + intros archive errors. discriminate.
Qed.

Lemma load_standard_txt_key_error_witness :
  _load_standard_txt_files (two_files (lit "B=2")) true VC = Raise KeyError
  /\ (exists archive errors,
         _load_standard_txt_files (two_files (lit "=2")) true VC
         = Ok (archive, errors))
  /\ ((UnicodeDecodeError = KeyError
       /\ unnamed_entry true VC false
            (all_lines [(lit "c.txt",
                         Yields [lit "[T]"; lit "A=1"] (Some UnicodeDecodeError))])
          = true)
      \/ exists file,
           In file [(lit "c.txt",
                     Yields [lit "[T]"; lit "A=1"] (Some UnicodeDecodeError))]
           /\ failure (snd file) = Some UnicodeDecodeError).
Proof.
  split; [|split].
  - apply (proj1 (proj1 (load_standard_txt_key_error
                           (two_files (lit "B=2")) true VC)
                    ltac:(repeat constructor))).
    vm_compute. reflexivity.
  - apply (proj2 (proj1 (load_standard_txt_key_error
                           (two_files (lit "=2")) true VC)
                    ltac:(repeat constructor))).
    vm_compute. reflexivity.
  - apply (proj1 (proj2 (load_standard_txt_key_error
                           [(lit "c.txt",
                             Yields [lit "[T]"; lit "A=1"]
                                    (Some UnicodeDecodeError))] true VC))).
    vm_compute. reflexivity.
Defined.

(* ------------------------------------------------------------------ *)

Lemma load_line_main v path t es n line :
  exists t' es',
    Main.load_line false v path (mk_state [(MAIN, t)] es (Some MAIN)) (n, line)
    = Ok (mk_state [(MAIN, t')] es' (Some MAIN)).
Proof.
  rewrite load_line_classify. cbn [data invalid_keys current_table].
  destruct (classify false line) as [|name|k value|] eqn:Hcl.
  - eexists. eexists. reflexivity.
  - destruct (classify_no_header _ _ Hcl).
  - destruct (_validate_key_static k v Gxt).
    + destruct k as [|c k]; [eexists; eexists; reflexivity|].
      cbn [dict_get dict_set]. rewrite str_eqb_refl.
      eexists. eexists. reflexivity.
    + eexists. eexists. reflexivity.
  - eexists. eexists. reflexivity.
Qed.

Lemma load_lines_main v path nls : forall t es,
  exists t' es',
    fold_result (Main.load_line false v path) nls
      (mk_state [(MAIN, t)] es (Some MAIN))
    = Ok (mk_state [(MAIN, t')] es' (Some MAIN)).
Proof.
  induction nls as [|[n line] nls IH]; intros t es.
  - exists t, es. reflexivity.
  - cbn [fold_result].
    destruct (load_line_main v path t es n line) as (t1 & es1 & ->).
    cbn [bind]. apply IH.
Qed.

(** Without tables the loop over the files ends with one table,
    [MAIN], every file read to its end - or with the exception of the
    first file that cannot be opened or read to its end. *)
Lemma load_text_files_main v files : forall t es,
  (exists t' es',
      fold_result (load_text_file false v) files
        (mk_state [(MAIN, t)] es (Some MAIN))
      = Ok (mk_state [(MAIN, t')] es' (Some MAIN))
      /\ Forall readable files)
  \/ (exists e before file after,
         fold_result (load_text_file false v) files
           (mk_state [(MAIN, t)] es (Some MAIN))
         = Raise e
         /\ files = before ++ file :: after
         /\ Forall readable before
         /\ failure (snd file) = Some e).
Proof.
  induction files as [|[path f] files IH]; intros t es.
  - left. exists t, es. split; [reflexivity | constructor].
  - cbn [fold_result]. destruct f as [e0 | lines stop].
    + right. exists e0, [], (path, CannotOpen e0), files.
      split; [reflexivity|]. split; [reflexivity|].
      split; [constructor | reflexivity].
    + cbn [load_text_file].
      destruct (load_lines_main v path (enumerate 1 lines) t es)
        as (t1 & es1 & ->).
      cbn [bind]. destruct stop as [e0|]; cbn [bind].
      * right. exists e0, [], (path, Yields lines (Some e0)), files.
        split; [reflexivity|]. split; [reflexivity|].
        split; [constructor | reflexivity].
      * destruct (IH t1 es1)
          as [(t' & es' & Hrun & Hall)
             | (e & before & file & after & Hrun & -> & Hb & Hf)].
        { left. exists t', es'. split; [exact Hrun|].
          constructor; [reflexivity | exact Hall]. }
        { right. exists e, ((path, Yields lines None) :: before), file, after.
          split; [exact Hrun|]. split; [reflexivity|].
          split; [constructor; [reflexivity | exact Hb] | exact Hf]. }
Qed.

(** X13.  For a dialect without tables the import raises nothing of its
    own: it raises exactly when one of the files cannot be opened or
    read to its end, and then the exception of the first such file
    ([OSError], [UnicodeDecodeError]).  Otherwise it returns, and all it
    read is in one table, [MAIN]: bracketed lines are no headers
    there. *)
Theorem load_standard_txt_without_tables : forall files v,
  match _load_standard_txt_files files false v with
  | Ok (archive, errors) =>
      (exists t, archive = [(MAIN, t)]) /\ Forall readable files
  | Raise e =>
      exists before file after,
        files = before ++ file :: after
        /\ Forall readable before
        /\ failure (snd file) = Some e
  end.
Proof.
  intros files v. unfold _load_standard_txt_files. cbv zeta.
  destruct (load_text_files_main v files [] [])
    as [(t' & es' & Hrun & Hall)
       | (e & before & file & after & Hrun & Hfiles & Hb & Hf)].
  - match goal with
    | |- match bind ?m _ with _ => _ end =>
        assert (Hm : m = Ok (mk_state [(MAIN, t')] es' (Some MAIN)))
          by exact Hrun;
        rewrite Hm
    end.
    cbn [bind data invalid_keys]. split; [exists t'; reflexivity | exact Hall].
  - match goal with
    | |- match bind ?m _ with _ => _ end =>
        assert (Hm : m = Raise e) by exact Hrun; rewrite Hm
    end.
    cbn [bind]. exists before, file, after.
    split; [exact Hfiles|]. split; [exact Hb | exact Hf].
Qed.

(* ================================================================== *)
(** * Merging an imported text *)

Import Merge.

Lemma lookup_set_same (a : archive) name t k :
  lookup (dict_set a name t) name k = dict_get t k.
Proof. unfold lookup. rewrite dict_get_set_same. reflexivity. Qed.

Lemma lookup_set_other (a : archive) name t tn k :
  name <> tn -> lookup (dict_set a name t) tn k = lookup a tn k.
Proof. intro H. unfold lookup. rewrite dict_get_set_other by exact H. reflexivity. Qed.

Lemma existing_lookup a tn k :
  existing a tn k = match lookup a tn k with Some _ => true | None => false end.
Proof.
  unfold existing, lookup, dict_mem. destruct (dict_get a tn); reflexivity.
Qed.

Lemma dict_mem_set_other {V} (d : dict V) k k' v :
  k <> k' -> dict_mem (dict_set d k v) k' = dict_mem d k'.
Proof. intro H. unfold dict_mem. rewrite dict_get_set_other by exact H. reflexivity. Qed.

Lemma dict_get_head_None {V} (d : dict V) k v k' :
  NoDup (map fst ((k, v) :: d)) -> In k' (map fst d) -> k <> k'.
Proof.
  cbn [map fst]. intros H Hin ->. inversion H; subst. contradiction.
Qed.

Lemma filter_ext_In {A} (p q : A -> bool) l :
  (forall x, In x l -> p x = q x) -> filter p l = filter q l.
Proof.
  induction l as [|x l IH]; intro H; [reflexivity|]. cbn [filter].
  rewrite (H x (or_introl eq_refl)), IH; [reflexivity|].
  intros y Hy. apply H. right. exact Hy.
Qed.

Lemma flat_map_ext_In {A B} (f g : A -> list B) l :
  (forall x, In x l -> f x = g x) -> flat_map f l = flat_map g l.
Proof.
  induction l as [|x l IH]; intro H; [reflexivity|]. cbn [flat_map].
  rewrite (H x (or_introl eq_refl)), IH; [reflexivity|].
  intros y Hy. apply H. right. exact Hy.
Qed.

Lemma flat_map_if_filter {A B} (p : A -> bool) (g : A -> B) l :
  flat_map (fun x => if p x then [g x] else []) l = map g (filter p l).
Proof.
  induction l as [|x l IH]; [reflexivity|]. cbn [flat_map filter].
  rewrite IH. destruct (p x); reflexivity.
Qed.

Lemma filter_map_swap {A B} (p : B -> bool) (g : A -> B) l :
  filter p (map g l) = map g (filter (fun x => p (g x)) l).
Proof.
  induction l as [|x l IH]; [reflexivity|]. cbn [map filter].
  rewrite IH. destruct (p (g x)); reflexivity.
Qed.

Lemma filter_flat_map {A B} (p : B -> bool) (f : A -> list B) l :
  filter p (flat_map f l) = flat_map (fun x => filter p (f x)) l.
Proof.
  induction l as [|x l IH]; [reflexivity|]. cbn [flat_map].
  rewrite filter_app, IH. reflexivity.
Qed.

(** The conflicts are the pairs of the import that the open archive
    already has. *)
Lemma conflicts_filter data temp :
  conflicts data temp
  = filter (fun p => existing data (fst p) (snd p)) (pairs temp).
Proof.
  unfold conflicts, pairs. rewrite filter_flat_map.
  apply flat_map_ext. intros [name td]. cbn [fst snd].
  rewrite filter_map_swap. cbn [fst snd].
  apply (flat_map_if_filter (fun kv => existing data name (fst kv))
           (fun kv => (name, fst kv))).
Qed.

Lemma len_filter_split {A} (p : A -> bool) l :
  len (filter p l) + len (filter (fun x => negb (p x)) l) = len l.
Proof.
  unfold len. induction l as [|x l IH]; [reflexivity|]. cbn [filter].
  destruct (p x); cbn [negb length]; lia.
Qed.

(** The inner loop on one table of the import. *)
Lemma merge_entries_spec so name td : forall d a o,
  NoDup (map fst td) ->
  dict_mem d name = true ->
  exists d' a' o',
    fold_result (merge_entry so name) td (d, a, o) = Ok (d', a', o')
    /\ (forall tn, tn <> name -> dict_get d' tn = dict_get d tn)
    /\ (forall tn, dict_mem d' tn = dict_mem d tn)
    /\ (forall k,
           lookup d' name k
           = match dict_get td k, lookup d name k with
             | Some w, Some v0 => Some (if so then w else v0)
             | Some w, None => Some w
             | None, x => x
             end)
    /\ a' = a + len (filter (fun kv => negb (existing d name (fst kv))) td)
    /\ o' = o + (if so
                 then len (filter (fun kv => existing d name (fst kv)) td)
                 else 0).
Proof.
  induction td as [|[k0 w0] td IH]; intros d a o Hnd Hmem.
  - exists d, a, o. cbn [fold_result filter dict_get].
    split; [reflexivity|]. split; [reflexivity|]. split; [reflexivity|].
    split; [intro k; destruct (lookup d name k); reflexivity|].
    change (len (@nil (str * str))) with 0. destruct so; split; lia.
  - cbn [map fst] in Hnd. inversion Hnd as [|? ? Hk0 Hnd']; subst.
    assert (Hg : exists t, dict_get d name = Some t).
    { unfold dict_mem in Hmem. destruct (dict_get d name) as [t|];
        [exists t; reflexivity | discriminate]. }
    destruct Hg as [t Ht].
    assert (Hlater : forall kv, In kv td -> fst kv <> k0).
    { intros kv Hin E. apply Hk0. rewrite <- E. apply in_map. exact Hin. }
    assert (Hnone : dict_get td k0 = None) by (apply dict_get_None; exact Hk0).
    assert (Hex0 : existing d name k0 = dict_mem t k0)
      by (unfold existing; rewrite Ht; reflexivity).
    assert (Hl0 : forall k, lookup d name k = dict_get t k)
      by (intro k; unfold lookup; rewrite Ht; reflexivity).
    cbn [fold_result]. unfold merge_entry at 1. unfold getitem. rewrite Ht.
    cbn [bind].
    set (d1 := dict_set d name (dict_set t k0 w0)).
    assert (Hmem1 : dict_mem d1 name = true) by apply dict_mem_set_same.
    assert (Hd1 : forall tn, tn <> name -> dict_get d1 tn = dict_get d tn).
    { intros tn Hne. unfold d1. apply dict_get_set_other. congruence. }
    assert (Hd1m : forall tn, dict_mem d1 tn = dict_mem d tn).
    { intro tn. unfold d1. destruct (list_eq_dec Z.eq_dec name tn) as [<-|Hne].
      - rewrite dict_mem_set_same. symmetry. exact Hmem.
      - apply dict_mem_set_other. exact Hne. }
    assert (Hl1 : forall k, lookup d1 name k
                            = if str_eqb k0 k then Some w0 else dict_get t k).
    { intro k. unfold d1. rewrite lookup_set_same.
      destruct (str_eqb k0 k) eqn:E.
      - apply str_eqb_true in E. subst k. apply dict_get_set_same.
      - apply dict_get_set_other. intros ->. rewrite str_eqb_refl in E.
        discriminate. }
    assert (Hfilt1 : forall p : bool -> bool,
               filter (fun kv => p (existing d1 name (fst kv))) td
               = filter (fun kv => p (existing d name (fst kv))) td).
    { intro p. apply filter_ext_In. intros kv Hin. f_equal.
      rewrite !existing_lookup, Hl1, Hl0.
      rewrite str_eqb_false; [reflexivity|].
      intro E. exact (Hlater kv Hin (eq_sym E)). }
    cbn [filter fst dict_get]. rewrite Hex0.
    destruct (dict_mem t k0) eqn:Hm0; cbn [negb].
    + destruct so.
      * fold d1. destruct (IH d1 a (o + 1) Hnd' Hmem1)
          as (d' & a' & o' & Hfold & Hother & Hmemd & Hlook & Ha & Ho).
        exists d', a', o'. split; [exact Hfold|].
        split; [intros tn Hne; rewrite (Hother tn Hne); apply Hd1, Hne|].
        split; [intro tn; rewrite Hmemd; apply Hd1m|].
        split.
        { intro k. rewrite Hlook, Hl1, Hl0.
          destruct (str_eqb k0 k) eqn:E.
          - apply str_eqb_true in E. subst k. rewrite Hnone.
            unfold dict_mem in Hm0. destruct (dict_get t k0); [reflexivity|discriminate].
          - reflexivity. }
        rewrite Ha, Ho.
        rewrite (Hfilt1 negb), (Hfilt1 (fun b => b)).
        unfold len. cbn [length]. split; lia.
      * destruct (IH d a o Hnd' Hmem)
          as (d' & a' & o' & Hfold & Hother & Hmemd & Hlook & Ha & Ho).
        exists d', a', o'. split; [exact Hfold|].
        split; [exact Hother|]. split; [exact Hmemd|].
        split.
        { intro k. rewrite Hlook, Hl0.
          destruct (str_eqb k0 k) eqn:E.
          - apply str_eqb_true in E. subst k. rewrite Hnone.
            unfold dict_mem in Hm0. destruct (dict_get t k0); [reflexivity|discriminate].
          - reflexivity. }
        split; [exact Ha | exact Ho].
    + fold d1. destruct (IH d1 (a + 1) o Hnd' Hmem1)
        as (d' & a' & o' & Hfold & Hother & Hmemd & Hlook & Ha & Ho).
      exists d', a', o'. split; [exact Hfold|].
      split; [intros tn Hne; rewrite (Hother tn Hne); apply Hd1, Hne|].
      split; [intro tn; rewrite Hmemd; apply Hd1m|].
      split.
      { intro k. rewrite Hlook, Hl1, Hl0.
        destruct (str_eqb k0 k) eqn:E.
        - apply str_eqb_true in E. subst k. rewrite Hnone.
          unfold dict_mem in Hm0. destruct (dict_get t k0); [discriminate|reflexivity].
        - reflexivity. }
      rewrite Ha, Ho.
      rewrite (Hfilt1 negb), (Hfilt1 (fun b => b)).
      unfold len. cbn [length]. split; [lia | destruct so; lia].
Qed.

Lemma pairs_table a p : In p (pairs a) -> In (fst p) (map fst a).
Proof.
  unfold pairs. intro H. apply in_flat_map in H. destruct H as ([name td] & Hin & Hp).
  apply in_map_iff in Hp. destruct Hp as (kv & <- & _). cbn [fst].
  apply (in_map fst) in Hin. exact Hin.
Qed.

Lemma len_map {A B} (g : A -> B) l : len (map g l) = len l.
Proof. unfold len. rewrite length_map. reflexivity. Qed.

(** The outer loop: what is in the archive afterwards, and what the two
    counters have counted. *)
Lemma merge_tables_spec so temp : forall d a o,
  is_archive temp ->
  exists d' a' o',
    fold_result (merge_table so) temp (d, a, o) = Ok (d', a', o')
    /\ (forall tn k,
           lookup d' tn k
           = match lookup temp tn k, lookup d tn k with
             | Some w, Some v0 => Some (if so then w else v0)
             | Some w, None => Some w
             | None, x => x
             end)
    /\ (forall tn, dict_mem d' tn = dict_mem d tn || dict_mem temp tn)
    /\ a' = a + len (filter (fun p => negb (existing d (fst p) (snd p)))
                            (pairs temp))
    /\ o' = o + (if so
                 then len (filter (fun p => existing d (fst p) (snd p))
                                  (pairs temp))
                 else 0).
Proof.
  induction temp as [|[name td] temp IH]; intros d a o [Hnd Hall].
  - exists d, a, o. cbn [fold_result pairs flat_map filter].
    split; [reflexivity|].
    split; [intros tn k; destruct (lookup d tn k); reflexivity|].
    split; [intro tn; rewrite orb_false_r; reflexivity|].
    change (len (@nil (str * str))) with 0. destruct so; split; lia.
  - unfold is_dict in Hnd. cbn [map fst] in Hnd.
    inversion Hnd as [|? ? Hname Hnd']; subst.
    inversion Hall as [|? ? Htd Hall']; subst. cbn [snd] in Htd.
    cbn [fold_result]. unfold merge_table at 1.
    set (d0 := if negb (dict_mem d name) then dict_set d name [] else d).
    assert (Hmem0 : dict_mem d0 name = true).
    { unfold d0. destruct (dict_mem d name) eqn:E; cbn [negb];
        [exact E | apply dict_mem_set_same]. }
    assert (Hl0 : forall tn k, lookup d0 tn k = lookup d tn k).
    { intros tn k. unfold d0. destruct (dict_mem d name) eqn:E; cbn [negb];
        [reflexivity|].
      destruct (list_eq_dec Z.eq_dec name tn) as [<-|Hne].
      - rewrite lookup_set_same. unfold lookup, dict_mem in *.
        destruct (dict_get d name); [discriminate | reflexivity].
      - apply lookup_set_other. exact Hne. }
    assert (Hm0 : forall tn, dict_mem d0 tn = dict_mem d tn || str_eqb name tn).
    { intro tn. unfold d0. destruct (str_eqb name tn) eqn:E.
      - apply str_eqb_true in E. subst tn. rewrite orb_true_r.
        destruct (dict_mem d name) eqn:E'; cbn [negb];
          [exact E' | apply dict_mem_set_same].
      - rewrite orb_false_r. destruct (dict_mem d name); cbn [negb];
          [reflexivity|]. apply dict_mem_set_other. intros ->.
        rewrite str_eqb_refl in E. discriminate. }
    destruct (merge_entries_spec so name td d0 a o Htd Hmem0)
      as (d1 & a1 & o1 & Hfold1 & Hother1 & Hmem1 & Hlook1 & Ha1 & Ho1).
    rewrite Hfold1. cbn [bind].
    assert (Hl1 : forall tn k, tn <> name -> lookup d1 tn k = lookup d tn k).
    { intros tn k Hne. rewrite <- Hl0. unfold lookup.
      rewrite (Hother1 tn Hne). reflexivity. }
    destruct (IH d1 a1 o1 (conj Hnd' Hall'))
      as (d' & a' & o' & Hfold & Hlook & Hmem & Ha & Ho).
    exists d', a', o'. split; [exact Hfold|].
    assert (Hnone : dict_get temp name = None) by (apply dict_get_None; exact Hname).
    split.
    { intros tn k. rewrite Hlook.
      destruct (str_eqb name tn) eqn:E.
      - apply str_eqb_true in E. subst tn.
        assert (Ht1 : lookup temp name k = None)
          by (unfold lookup; rewrite Hnone; reflexivity).
        assert (Ht2 : lookup ((name, td) :: temp) name k = dict_get td k)
          by (unfold lookup; cbn [dict_get]; rewrite str_eqb_refl; reflexivity).
        rewrite Ht1, Ht2, Hlook1, Hl0. reflexivity.
      - assert (Hne : tn <> name)
          by (intros ->; rewrite str_eqb_refl in E; discriminate).
        assert (Ht3 : lookup ((name, td) :: temp) tn k = lookup temp tn k)
          by (unfold lookup; cbn [dict_get]; rewrite E; reflexivity).
        rewrite Ht3, (Hl1 tn k Hne). reflexivity. }
    split.
    { intro tn.
      assert (Hm3 : dict_mem ((name, td) :: temp) tn
                    = str_eqb name tn || dict_mem temp tn)
        by (unfold dict_mem; cbn [dict_get]; destruct (str_eqb name tn);
            reflexivity).
      rewrite Hmem, Hmem1, Hm0, Hm3.
      destruct (dict_mem d tn), (str_eqb name tn), (dict_mem temp tn);
        reflexivity. }
    assert (Hex0 : forall k, existing d0 name k = existing d name k)
      by (intro k; rewrite !existing_lookup, Hl0; reflexivity).
    assert (Hfilt : forall p : bool -> bool,
               filter (fun q => p (existing d1 (fst q) (snd q))) (pairs temp)
               = filter (fun q => p (existing d (fst q) (snd q))) (pairs temp)).
    { intro p. apply filter_ext_In. intros q Hq. f_equal.
      rewrite !existing_lookup, Hl1; [reflexivity|].
      intros E. apply Hname. rewrite <- E. apply pairs_table. exact Hq. }
    assert (Hhere : forall p : bool -> bool,
               len (filter (fun q => p (existing d (fst q) (snd q)))
                      (map (fun kv : str * str => (name, fst kv)) td))
               = len (filter (fun kv => p (existing d0 name (fst kv))) td)).
    { intro p. rewrite filter_map_swap, len_map. cbn [fst snd]. f_equal.
      apply filter_ext. intro kv. rewrite Hex0. reflexivity. }
    unfold pairs. cbn [flat_map fst snd]. fold (pairs temp).
    rewrite !filter_app, !len_app.
    rewrite (Hhere negb), (Hhere (fun b => b)).
    rewrite Ha, Ho, Ha1, Ho1, (Hfilt negb), (Hfilt (fun b => b)).
    split; [lia | destruct so; lia].
Qed.

Lemma merge_spec data temp answer :
  is_archive temp ->
  exists d,
    _merge_data_with_optimized_prompt data temp answer
    = Ok (mk_outcome d
            (negb (is_nil (conflicts data temp)))
            (len (filter (fun p => negb (existing data (fst p) (snd p)))
                         (pairs temp)))
            (if answer then len (conflicts data temp) else 0)
            ((0 <? len (filter (fun p => negb (existing data (fst p) (snd p)))
                               (pairs temp)))
             || (0 <? (if answer then len (conflicts data temp) else 0))))
    /\ (forall tn k,
           lookup d tn k
           = match lookup temp tn k, lookup data tn k with
             | Some w, Some v0 =>
                 Some (if negb (is_nil (conflicts data temp)) && answer
                       then w else v0)
             | Some w, None => Some w
             | None, x => x
             end)
    /\ (forall tn, dict_mem d tn = dict_mem data tn || dict_mem temp tn).
Proof.
  intro Htemp. unfold _merge_data_with_optimized_prompt. cbv zeta.
  set (so := if is_nil (conflicts data temp) then false else answer).
  destruct (merge_tables_spec so temp data 0 0 Htemp)
    as (d & a & o & Hfold & Hlook & Hmem & Ha & Ho).
  rewrite Hfold. cbn [bind]. exists d.
  assert (Hso : so = negb (is_nil (conflicts data temp)) && answer)
    by (unfold so; destruct (is_nil (conflicts data temp)); reflexivity).
  assert (Ho' : o = if answer then len (conflicts data temp) else 0).
  { rewrite Ho, <- conflicts_filter. unfold so.
    destruct (conflicts data temp) as [|c cs]; cbn [is_nil];
      [destruct answer; reflexivity|]. destruct answer; lia. }
  split; [|split].
  - rewrite Ho'. rewrite Ha. cbn [Z.add]. reflexivity.
  - intros tn k. rewrite Hlook, Hso. reflexivity.
  - exact Hmem.
Qed.

(** X14.  What a merge leaves in the archive.  An entry the import does
    not have is kept; an entry only the import has is added; an entry
    both have takes the imported value when there are conflicts and the
    user agrees to overwrite, and keeps the old value otherwise.  Nothing
    is ever removed, the merge never fails, and every table of the
    import exists afterwards. *)
Theorem merge_keeps_and_adds : forall data temp_data answer,
  is_archive temp_data ->
  exists out,
    _merge_data_with_optimized_prompt data temp_data answer = Ok out
    /\ (forall table_name key,
           lookup (new_data out) table_name key
           = match lookup temp_data table_name key,
                   lookup data table_name key with
             | Some new, Some old => Some (if answer then new else old)
             | Some new, None => Some new
             | None, kept => kept
             end)
    /\ (forall table_name,
           dict_mem (new_data out) table_name
           = dict_mem data table_name || dict_mem temp_data table_name).
Proof.
  intros data temp answer Htemp.
  destruct (merge_spec data temp answer Htemp) as (d & Hrun & Hlook & Hmem).
  eexists. split; [exact Hrun|]. cbn [new_data]. split; [|exact Hmem].
  intros tn k. rewrite Hlook.
  destruct (lookup temp tn k) as [w|] eqn:Hw; [|reflexivity].
  destruct (lookup data tn k) as [v0|] eqn:Hv; [|reflexivity].
  assert (Hc : is_nil (conflicts data temp) = false).
  { rewrite conflicts_filter.
    assert (Hin : In (tn, k) (filter (fun p => existing data (fst p) (snd p))
                                (pairs temp))).
    { apply filter_In. split.
      - unfold pairs. apply in_flat_map. unfold lookup in Hw.
        destruct (dict_get temp tn) as [td|] eqn:Htd; [|discriminate].
        exists (tn, td). split; [exact (dict_get_In _ _ _ Htd)|].
        cbn [fst snd]. apply in_map_iff. exists (k, w).
        split; [reflexivity | exact (dict_get_In _ _ _ Hw)].
      - cbn [fst snd]. rewrite existing_lookup, Hv. reflexivity. }
    destruct (filter (fun p => existing data (fst p) (snd p)) (pairs temp));
      [destruct (in_nil Hin) | reflexivity]. }
  rewrite Hc. reflexivity.
Qed.

Lemma merge_keeps_and_adds_witness :
  exists out,
    _merge_data_with_optimized_prompt open_archive imported false = Ok out
    /\ (forall table_name key,
           lookup (new_data out) table_name key
           = match lookup imported table_name key,
                   lookup open_archive table_name key with
             | Some new, Some old => Some (if false then new else old)
             | Some new, None => Some new
             | None, kept => kept
             end)
    /\ (forall table_name,
           dict_mem (new_data out) table_name
           = dict_mem open_archive table_name || dict_mem imported table_name).
Proof.
  apply (merge_keeps_and_adds open_archive imported false).
  split; [|repeat constructor]; unfold is_dict; cbn [map fst imported];
    repeat constructor; cbn; intuition discriminate.
Defined.

(** X15.  What a merge counts.  The question is asked exactly when some
    (table, key) pair of the import is already in the archive; the
    conflicts it announces are exactly those pairs, in the order of the
    import.  Every pair of the import is either a conflict or is added
    and counted as added; the pairs counted as overwritten are all the
    conflicts when the user agrees and none otherwise; and
    [set_modified(True)] is called exactly when a counter is positive. *)
Theorem merge_counts : forall data temp_data answer,
  is_archive temp_data ->
  exists out,
    _merge_data_with_optimized_prompt data temp_data answer = Ok out
    /\ conflicts data temp_data
       = filter (fun p => existing data (fst p) (snd p)) (pairs temp_data)
    /\ asked out = negb (is_nil (conflicts data temp_data))
    /\ added_count out + len (conflicts data temp_data) = len (pairs temp_data)
    /\ overwritten_count out
       = (if answer then len (conflicts data temp_data) else 0)
    /\ (set_modified out = true
        <-> 0 < added_count out \/ 0 < overwritten_count out).
Proof.
  intros data temp answer Htemp.
  destruct (merge_spec data temp answer Htemp) as (d & Hrun & _).
  eexists. split; [exact Hrun|].
  cbn [asked added_count overwritten_count set_modified].
  split; [apply conflicts_filter|]. split; [reflexivity|].
  split.
  { rewrite conflicts_filter.
    pose proof (len_filter_split (fun p => existing data (fst p) (snd p))
                  (pairs temp)) as Hs. cbv beta in Hs. lia. }
  split; [reflexivity|].
  rewrite orb_true_iff, !Z.ltb_lt. reflexivity.
Qed.

Lemma merge_counts_witness :
  exists out,
    _merge_data_with_optimized_prompt open_archive imported true = Ok out
    /\ conflicts open_archive imported
       = filter (fun p => existing open_archive (fst p) (snd p)) (pairs imported)
    /\ asked out = negb (is_nil (conflicts open_archive imported))
    /\ added_count out + len (conflicts open_archive imported)
       = len (pairs imported)
    /\ overwritten_count out
       = (if true then len (conflicts open_archive imported) else 0)
    /\ (set_modified out = true
        <-> 0 < added_count out \/ 0 < overwritten_count out).
Proof.
  apply (merge_counts open_archive imported true).
  split; [|repeat constructor]; unfold is_dict; cbn [map fst imported];
    repeat constructor; cbn; intuition discriminate.
Defined.

(* ================================================================== *)
(** * Export and import of the archive as text *)

Import TxtExport.

Lemma insert_perm {V} (x : str * V) l : Permutation (insert x l) (x :: l).
Proof.
  induction l as [|y l IH]; cbn [insert]; [apply Permutation_refl|].
  destruct (str_ltb (fst y) (fst x)); [|apply Permutation_refl].
  apply perm_trans with (y :: x :: l); [apply perm_skip, IH | apply perm_swap].
Qed.

(** [sorted] rearranges, it neither drops nor adds. *)
Lemma sorted_items_perm {V} (d : dict V) : Permutation (sorted_items d) d.
Proof.
  induction d as [|x d IH]; cbn [sorted_items]; [constructor|].
  eapply perm_trans; [apply insert_perm|]. apply perm_skip, IH.
Qed.

Lemma sorted_items_NoDup {V} (d : dict V) :
  NoDup (map fst d) -> NoDup (map fst (sorted_items d)).
Proof.
  apply Permutation_NoDup, Permutation_map, Permutation_sym, sorted_items_perm.
Qed.

Lemma sorted_items_Forall {V} (P : str * V -> Prop) (d : dict V) :
  Forall P d -> Forall P (sorted_items d).
Proof.
  apply Permutation_Forall, Permutation_sym, sorted_items_perm.
Qed.

Lemma dict_get_Some_In {V} (d : dict V) k v :
  NoDup (map fst d) -> In (k, v) d -> dict_get d k = Some v.
Proof.
  induction d as [|[k' v'] d IH]; intros Hnd Hin; [destruct Hin|].
  cbn [map fst] in Hnd. inversion Hnd as [|? ? Hk Hnd']; subst.
  cbn [dict_get]. destruct Hin as [E | Hin].
  - inversion E; subst. rewrite str_eqb_refl. reflexivity.
  - rewrite str_eqb_false; [exact (IH Hnd' Hin)|].
    intros ->. apply Hk. apply (in_map fst) in Hin. exact Hin.
Qed.

(** Looking a key up does not depend on the order of the items. *)
Lemma dict_get_perm {V} (d d' : dict V) k :
  NoDup (map fst d) -> Permutation d d' -> dict_get d' k = dict_get d k.
Proof.
  intros Hnd Hp.
  assert (Hnd' : NoDup (map fst d'))
    by (eapply Permutation_NoDup; [apply Permutation_map, Hp | exact Hnd]).
  destruct (dict_get d k) as [v|] eqn:E.
  - apply dict_get_Some_In; [exact Hnd'|].
    eapply Permutation_in; [exact Hp | exact (dict_get_In _ _ _ E)].
  - apply dict_get_None. apply dict_get_None in E. intro Hin. apply E.
    eapply Permutation_in; [apply Permutation_map, Permutation_sym, Hp | exact Hin].
Qed.

Lemma dict_get_app_last {V} (d : dict V) name t :
  ~ In name (map fst d) -> dict_get (d ++ [(name, t)]) name = Some t.
Proof.
  induction d as [|[k v] d IH]; intro H; cbn [app dict_get].
  - rewrite str_eqb_refl. reflexivity.
  - cbn [map fst In] in H. rewrite str_eqb_false by tauto. apply IH. tauto.
Qed.

Lemma dict_set_app_last {V} (d : dict V) name t t1 :
  ~ In name (map fst d) -> dict_set (d ++ [(name, t)]) name t1 = d ++ [(name, t1)].
Proof.
  induction d as [|[k v] d IH]; intro H; cbn [app dict_set].
  - rewrite str_eqb_refl. reflexivity.
  - cbn [map fst In] in H. rewrite str_eqb_false by tauto. rewrite IH by tauto.
    reflexivity.
Qed.

(* ------------------------------------------------------------------ *)

Lemma bare_char_range c :
  is_letter c || is_digit c || is_underscore c = true -> 48 <= c <= 122.
Proof.
  cbv [is_letter is_digit is_upper is_lower is_underscore].
  zcases; intro; try discriminate; lia.
Qed.

Lemma isspace_range c : 48 <= c <= 122 -> isspace c = false.
Proof. intro H. unfold isspace. zcases; reflexivity. Qed.

Lemma isspace_bare c :
  is_letter c || is_digit c || is_underscore c = true -> isspace c = false.
Proof. intro H. apply isspace_range, bare_char_range, H. Qed.

Lemma bare_char_plain c :
  is_letter c || is_digit c || is_underscore c = true -> c <> 61 /\ c <> 91.
Proof.
  cbv [is_letter is_digit is_upper is_lower is_underscore].
  zcases; intro; try discriminate; lia.
Qed.

(** A key the validator accepts is a bare identifier, whatever the
    dialect. *)
Lemma valid_key_bare v key :
  v <> OtherVersion ->
  _validate_key_static key v Gxt = true -> bare_identifier key = true.
Proof.
  intros Hv. destruct v; cbn [_validate_key_static]; try congruence.
  - rewrite fullmatch_re_vc. unfold hashed_short_upper, chars_between, bare_identifier.
    intro H. apply andb_prop in H. destruct H as [H Hall].
    apply andb_prop in H. destruct H as [H1 _]. rewrite H1. cbn [andb].
    rewrite forallb_forall in *. intros c Hc. specialize (Hall c Hc).
    revert Hall. cbv [is_letter is_digit is_upper is_lower is_underscore].
    zcases; intro; try reflexivity; discriminate.
  - rewrite fullmatch_re_sa. unfold hashed_8hex, chars_between, bare_identifier.
    intro H. apply andb_prop in H. destruct H as [H Hall].
    apply andb_prop in H. destruct H as [H1 _]. rewrite H1. cbn [andb].
    rewrite forallb_forall in *. intros c Hc. apply is_hex_alnum, Hall, Hc.
  - rewrite fullmatch_re_iii. unfold plain_7, chars_between, bare_identifier.
    intro H. apply andb_prop in H. destruct H as [H Hall].
    apply andb_prop in H. destruct H as [H1 _]. rewrite H1. cbn [andb].
    rewrite forallb_forall in *. intros c Hc. specialize (Hall c Hc).
    revert Hall. cbv [is_letter is_digit is_upper is_lower is_underscore].
    zcases; intro; try reflexivity; discriminate.
  - destruct (lower_startswith_0x key).
    + rewrite fullmatch_re_hash. apply zero_xX_8hex_bare.
    + rewrite fullmatch_re_iv_plain. tauto.
Qed.

Lemma bare_identifier_chars key :
  bare_identifier key = true ->
  key <> []
  /\ Forall (fun c => is_letter c || is_digit c || is_underscore c = true) key.
Proof.
  unfold bare_identifier. intro H. apply andb_prop in H. destruct H as [Hlen Hall].
  split; [destruct key; [discriminate | discriminate]|].
  rewrite forallb_forall in Hall. apply Forall_forall. exact Hall.
Qed.

Lemma lstrip_strip s : lstrip (strip s) = strip s.
Proof.
  unfold strip. set (x := lstrip s).
  assert (Hx : lstrip x = x) by apply lstrip_idem.
  destruct x as [|c x']; [reflexivity|].
  pose proof (lstrip_fixed_head c x' Hx) as Hc.
  cbn [rev]. destruct (lstrip_keeps_last (rev x') c Hc) as [w ->].
  rewrite rev_app_distr. cbn [rev app lstrip]. rewrite Hc. reflexivity.
Qed.

Lemma stripped_no_space s :
  strip s = s -> no_leading_space s /\ no_trailing_space s.
Proof.
  intro H. unfold no_leading_space, no_trailing_space. split.
  - rewrite <- H. apply lstrip_strip.
  - rewrite <- H at 1 2. unfold strip. rewrite rev_involutive.
    rewrite lstrip_idem. reflexivity.
Qed.

Lemma bare_stripped key :
  key <> [] ->
  Forall (fun c => is_letter c || is_digit c || is_underscore c = true) key ->
  strip key = key.
Proof.
  intros Hne Hall. apply strip_fixed.
  - unfold no_leading_space. destruct key as [|c key]; [reflexivity|].
    inversion Hall; subst. cbn [lstrip]. rewrite isspace_bare by assumption.
    reflexivity.
  - unfold no_trailing_space. apply Forall_rev in Hall.
    destruct (rev key) as [|c r]; [reflexivity|].
    inversion Hall; subst. cbn [lstrip]. rewrite isspace_bare by assumption.
    reflexivity.
Qed.

(** A line [key=value] of the export is read as that key and value. *)
Lemma classify_entry ht key value :
  bare_identifier key = true ->
  strip value = value ->
  classify ht (key ++ 61 :: value) = KeyValue key value.
Proof.
  intros Hkey Hval. destruct (bare_identifier_chars _ Hkey) as [Hne Hall].
  destruct (stripped_no_space _ Hval) as [_ Htrail].
  assert (Hline : strip (key ++ 61 :: value) = key ++ 61 :: value).
  { apply strip_fixed.
    - unfold no_leading_space. destruct key as [|c key]; [congruence|].
      inversion Hall; subst. cbn [app lstrip].
      rewrite isspace_bare by assumption. reflexivity.
    - unfold no_trailing_space in *. rewrite rev_app_distr. cbn [rev].
      apply lstrip_app_fixed; [|intro E; destruct (rev value); discriminate].
      apply lstrip_app_fixed; [exact Htrail | intros _; reflexivity]. }
  unfold classify. rewrite Hline.
  destruct key as [|c key]; [congruence|]. cbn [app].
  inversion Hall as [|? ? Hc Hall']; subst.
  assert (H91 : startswith_char 91 (c :: key ++ 61 :: value) = false).
  { cbn [startswith_char]. destruct (bare_char_plain c Hc) as [_ Hc91].
    destruct (Z.eqb_spec c 91); [contradiction | reflexivity]. }
  rewrite H91, andb_false_r. cbn [andb].
  change (c :: key ++ 61 :: value) with ((c :: key) ++ 61 :: value).
  rewrite split_once_first.
  - rewrite (bare_stripped (c :: key) Hne Hall), Hval. reflexivity.
  - intro Hin. rewrite Forall_forall in Hall.
    destruct (bare_char_plain 61 (Hall _ Hin)) as [H61 _]. congruence.
Qed.

(** A line [[name]] of the export is read as the header of [name]. *)
Lemma classify_header name :
  strip name = name -> classify true (91 :: name ++ [93]) = Header name.
Proof.
  intro Hname.
  assert (Hline : strip (91 :: name ++ [93]) = 91 :: name ++ [93]).
  { apply strip_fixed.
    - reflexivity.
    - unfold no_trailing_space. cbn [rev]. rewrite rev_app_distr. reflexivity. }
  unfold classify. rewrite Hline.
  assert (Hend : endswith_char 93 (91 :: name ++ [93]) = true).
  { unfold endswith_char. cbn [rev]. rewrite rev_app_distr. reflexivity. }
  rewrite Hend. cbn [startswith_char andb Z.eqb Pos.eqb]. f_equal.
  unfold slice, len. cbn [length].
  rewrite length_app. cbn [length].
  replace (Z.to_nat (Z.of_nat (S (length name + 1)) - 1 - 1)) with (length name)
    by lia.
  change (Z.to_nat 1) with 1%nat. cbn [skipn].
  rewrite firstn_app, firstn_all, Nat.sub_diag. cbn [firstn].
  rewrite app_nil_r. exact Hname.
Qed.

Lemma fold_result_app {S A} (f : S -> A -> result S) xs ys s :
  fold_result f (xs ++ ys) s
  = (s' <- fold_result f xs s ;; fold_result f ys s').
Proof.
  revert s. induction xs as [|x xs IH]; intro s; [reflexivity|].
  cbn [app fold_result]. destruct (f s x); cbn [bind]; [apply IH | reflexivity].
Qed.

Lemma enumerate_app {A} (xs ys : list A) : forall n,
  enumerate n (xs ++ ys) = enumerate n xs ++ enumerate (n + len xs) ys.
Proof.
  induction xs as [|x xs IH]; intro n.
  - cbn [app enumerate]. change (len []) with 0. rewrite Z.add_0_r. reflexivity.
  - cbn [app enumerate]. rewrite IH. do 3 f_equal. unfold len. cbn [length]. lia.
Qed.

(** The entries of one table of the export, read under that table. *)
Lemma load_entries ht v path (d : archive) name (es : table) :
  forall (t0 : table) errs n,
  v <> OtherVersion ->
  ~ In name (map fst d) ->
  NoDup (map fst (t0 ++ es)) ->
  Forall (fun kv => _validate_key_static (fst kv) v Gxt = true
                    /\ strip (snd kv) = snd kv) es ->
  fold_result (Main.load_line ht v path)
    (enumerate n (map (fun kv => fst kv ++ 61 :: snd kv) es))
    (mk_state (d ++ [(name, t0)]) errs (Some name))
  = Ok (mk_state (d ++ [(name, t0 ++ es)]) errs (Some name)).
Proof.
  induction es as [|[k value] es IH]; intros t0 errs n Hv Hname Hnd Hall.
  - rewrite app_nil_r. reflexivity.
  - inversion Hall as [|? ? [Hvalid Hval] Hall']; subst. cbn [fst snd] in *.
    pose proof (valid_key_bare _ _ Hv Hvalid) as Hbare.
    destruct (bare_identifier_chars _ Hbare) as [Hne _].
    cbn [map enumerate fold_result fst snd].
    rewrite load_line_classify, (classify_entry ht k value Hbare Hval).
    rewrite Hvalid.
    destruct k as [|c k]; [congruence|].
    cbn [current_table data invalid_keys].
    rewrite (dict_get_app_last d name t0 Hname). cbn [bind].
    rewrite (dict_set_app_last d name t0 _ Hname).
    assert (Hfresh : ~ In (c :: k) (map fst t0)).
    { rewrite map_app in Hnd. cbn [map fst] in Hnd.
      apply NoDup_remove_2 in Hnd. intro Hin. apply Hnd.
      apply in_or_app. left. exact Hin. }
    rewrite (dict_set_fresh t0 (c :: k) value Hfresh).
    rewrite (IH (t0 ++ [(c :: k, value)]) errs (n + 1) Hv Hname).
    + rewrite <- app_assoc. reflexivity.
    + rewrite <- app_assoc. exact Hnd.
    + exact Hall'.
Qed.

Lemma load_blank ht v path st n : Main.load_line ht v path st (n, []) = Ok st.
Proof. reflexivity. Qed.

(** One table of the export, read after the tables [d]. *)
Lemma load_table_lines v path (d : archive) name (es : table) i n errs cur :
  v <> OtherVersion -> not_III v = true ->
  ~ In name (map fst d) -> name <> [] -> strip name = name ->
  NoDup (map fst es) ->
  Forall (fun kv => _validate_key_static (fst kv) v Gxt = true
                    /\ strip (snd kv) = snd kv) es ->
  fold_result (Main.load_line true v path)
    (enumerate n (table_lines v (i, (name, es)))) (mk_state d errs cur)
  = Ok (mk_state (d ++ [(name, es)]) errs (Some name)).
Proof.
  intros Hv H3 Hname Hne Hstrip Hnd Hall.
  unfold table_lines. rewrite H3.
  rewrite enumerate_app, fold_result_app.
  assert (Hpre : fold_result (Main.load_line true v path)
                   (enumerate n (if 0 <? i then [[]; []] else []))
                   (mk_state d errs cur)
                 = Ok (mk_state d errs cur))
    by (destruct (0 <? i); reflexivity).
  rewrite Hpre. cbn [bind].
  cbn [app enumerate fold_result].
  rewrite load_line_classify, (classify_header name Hstrip).
  cbn [data invalid_keys current_table].
  destruct name as [|c name]; [congruence|].
  assert (Hmem : dict_mem d (c :: name) = false).
  { destruct (dict_mem d (c :: name)) eqn:E; [|reflexivity].
    apply dict_mem_In in E. contradiction. }
  rewrite Hmem, (dict_set_fresh d (c :: name) [] Hname). cbn [bind].
  apply (load_entries true v path d (c :: name) es [] errs); assumption.
Qed.

(** The tables of the export, read one after the other. *)
Lemma load_archive_lines v path (a : archive) : forall (d : archive) i n errs cur,
  v <> OtherVersion -> not_III v = true ->
  NoDup (map fst (d ++ a)) ->
  Forall (fun nt => fst nt <> [] /\ strip (fst nt) = fst nt
                    /\ NoDup (map fst (snd nt))
                    /\ Forall (fun kv =>
                                 _validate_key_static (fst kv) v Gxt = true
                                 /\ strip (snd kv) = snd kv) (snd nt)) a ->
  exists cur',
    fold_result (Main.load_line true v path)
      (enumerate n (flat_map (table_lines v) (enumerate i a)))
      (mk_state d errs cur)
    = Ok (mk_state (d ++ a) errs cur').
Proof.
  induction a as [|[name es] a IH]; intros d i n errs cur Hv H3 Hnd Hall.
  - exists cur. rewrite app_nil_r. reflexivity.
  - inversion Hall as [|? ? (Hne & Hstrip & Hkeys & Hes) Hall']; subst.
    cbn [fst snd] in *.
    assert (Hname : ~ In name (map fst d)).
    { rewrite map_app in Hnd. cbn [map fst] in Hnd.
      apply NoDup_remove_2 in Hnd. intro Hin. apply Hnd.
      apply in_or_app. left. exact Hin. }
    cbn [enumerate flat_map]. rewrite enumerate_app, fold_result_app.
    rewrite (load_table_lines v path d name es i n errs cur); try assumption.
    cbn [bind].
    destruct (IH (d ++ [(name, es)]) (i + 1)
                 (n + len (table_lines v (i, (name, es)))) errs (Some name)
                 Hv H3) as [cur' Hrun].
    + rewrite <- app_assoc. exact Hnd.
    + exact Hall'.
    + exists cur'. rewrite Hrun, <- app_assoc. reflexivity.
Qed.

Lemma render_table_lines v it :
  render_table v it = concat (map (fun l => l ++ [10]) (table_lines v it)).
Proof.
  destruct it as [i [t d]]. unfold render_table, table_lines.
  rewrite !map_app, !concat_app. f_equal; [destruct (0 <? i); reflexivity|].
  f_equal.
  - destruct (not_III v); [|reflexivity]. unfold header_line. cbn [map concat].
    rewrite app_nil_r, <- !app_assoc. reflexivity.
  - rewrite map_map. f_equal. apply map_ext. intros [k value].
    unfold entry_line. cbn [fst snd]. rewrite <- app_assoc. reflexivity.
Qed.

Lemma render_lines v xs :
  concat (map (render_table v) xs)
  = concat (map (fun l => l ++ [10]) (flat_map (table_lines v) xs)).
Proof.
  induction xs as [|x xs IH]; [reflexivity|].
  cbn [map concat flat_map]. rewrite map_app, concat_app, IH, render_table_lines.
  reflexivity.
Qed.

Lemma readlines_lines ls :
  Forall one_line ls -> readlines (concat (map (fun l => l ++ [10]) ls)) = ls.
Proof.
  induction 1 as [|l ls Hl _ IH]; [reflexivity|].
  cbn [map concat]. rewrite <- app_assoc. cbn [app].
  rewrite (readlines_line _ _ Hl), IH. reflexivity.
Qed.

Lemma one_line_bare key :
  Forall (fun c => is_letter c || is_digit c || is_underscore c = true) key ->
  one_line key.
Proof.
  unfold one_line. apply Forall_impl. intros c Hc.
  apply bare_char_range in Hc. lia.
Qed.

Lemma one_line_app a b : one_line a -> one_line b -> one_line (a ++ b).
Proof. unfold one_line. intros Ha Hb. apply Forall_app. split; assumption. Qed.

Lemma table_lines_one_line v i name (es : table) :
  v <> OtherVersion ->
  one_line name ->
  Forall (fun kv => _validate_key_static (fst kv) v Gxt = true
                    /\ one_line (snd kv)) es ->
  Forall one_line (table_lines v (i, (name, es))).
Proof.
  intros Hv Hname Hes. unfold table_lines.
  apply Forall_app. split; [destruct (0 <? i); repeat constructor|].
  apply Forall_app. split.
  - destruct (not_III v); [|constructor]. constructor; [|constructor].
    apply one_line_app; [repeat constructor; lia|].
    apply one_line_app; [exact Hname | repeat constructor; lia].
  - apply Forall_map. eapply Forall_impl; [|exact Hes].
    intros [k value] [Hvalid Hval]. cbn [fst snd] in *.
    apply one_line_app.
    + apply one_line_bare.
      exact (proj2 (bare_identifier_chars _ (valid_key_bare _ _ Hv Hvalid))).
    + constructor; [lia | exact Hval].
Qed.

(** The sorted archive is as exportable as the archive. *)
Lemma exportable_sorted v data :
  exportable v data ->
  NoDup (map fst (sorted_archive data))
  /\ Forall (fun nt => fst nt <> [] /\ strip (fst nt) = fst nt
                       /\ NoDup (map fst (snd nt))
                       /\ Forall (fun kv =>
                                    _validate_key_static (fst kv) v Gxt = true
                                    /\ strip (snd kv) = snd kv) (snd nt))
       (sorted_archive data)
  /\ Forall (fun nt => one_line (fst nt)
                       /\ Forall (fun kv =>
                                    _validate_key_static (fst kv) v Gxt = true
                                    /\ one_line (snd kv)) (snd nt))
       (sorted_archive data).
Proof.
  intros [[Hnd Hvalid] [Hlines _]]. unfold sorted_archive.
  split; [|split].
  - rewrite map_map. cbn [fst]. apply sorted_items_NoDup, Hnd.
  - apply Forall_map, sorted_items_Forall.
    rewrite Forall_forall in *. intros [name t] Hin. cbn [fst snd].
    destruct (Hvalid _ Hin) as (Hne & Htnd & Htall).
    destruct (Hlines _ Hin) as (Hstrip & _ & _). cbn [fst snd] in *.
    split; [exact Hne|]. split; [exact Hstrip|].
    split; [apply sorted_items_NoDup, Htnd|].
    apply sorted_items_Forall. eapply Forall_impl; [|exact Htall].
    cbn. tauto.
  - apply Forall_map, sorted_items_Forall.
    rewrite Forall_forall in *. intros [name t] Hin. cbn [fst snd].
    destruct (Hvalid _ Hin) as (_ & _ & Htall).
    destruct (Hlines _ Hin) as (_ & Hone & Hvals). cbn [fst snd] in *.
    split; [exact Hone|]. apply sorted_items_Forall.
    rewrite Forall_forall in *. intros kv Hkv.
    split; [exact (proj1 (proj2 (Htall _ Hkv))) | exact (Hvals _ Hkv)].
Qed.

Lemma lines_one_line v (a : archive) : forall i,
  v <> OtherVersion ->
  Forall (fun nt => one_line (fst nt)
                    /\ Forall (fun kv =>
                                 _validate_key_static (fst kv) v Gxt = true
                                 /\ one_line (snd kv)) (snd nt)) a ->
  Forall one_line (flat_map (table_lines v) (enumerate i a)).
Proof.
  induction a as [|[name es] a IH]; intros i Hv Hall; [constructor|].
  inversion Hall as [|? ? [Hname Hes] Hall']; subst. cbn [fst snd] in *.
  cbn [enumerate flat_map]. apply Forall_app. split.
  - apply table_lines_one_line; assumption.
  - apply IH; assumption.
Qed.

Lemma lookup_sorted_archive data tn k :
  is_archive data -> lookup (sorted_archive data) tn k = lookup data tn k.
Proof.
  intros [Hnd Hall]. unfold lookup.
  assert (Hmap : forall a : archive,
             dict_get (map (fun nt => (fst nt, sorted_items (snd nt))) a) tn
             = option_map sorted_items (dict_get a tn)).
  { induction a as [|[n t] a IH]; [reflexivity|]. cbn [map dict_get fst snd].
    destruct (str_eqb n tn); [reflexivity | exact IH]. }
  unfold sorted_archive. rewrite Hmap.
  rewrite (dict_get_perm data (sorted_items data) tn Hnd)
    by apply Permutation_sym, sorted_items_perm.
  destruct (dict_get data tn) as [t|] eqn:Ht; [|reflexivity].
  cbn [option_map]. apply dict_get_perm.
  - rewrite Forall_forall in Hall. exact (Hall _ (dict_get_In _ _ _ Ht)).
  - apply Permutation_sym, sorted_items_perm.
Qed.

Lemma exportable_is_archive v data : exportable v data -> is_archive data.
Proof.
  intros [[Hnd Hvalid] _]. split; [exact Hnd|].
  eapply Forall_impl; [|exact Hvalid]. intros nt (_ & Htnd & _). exact Htnd.
Qed.

(** ** The writes of the export *)

Lemma render_chunks_text v it : concat (render_chunks v it) = render_table v it.
Proof.
  destruct it as [i [t d]]. unfold render_chunks, render_table.
  rewrite !concat_app. f_equal; [destruct (0 <? i); reflexivity|].
  f_equal. destruct (not_III v); [|reflexivity]. cbn [concat].
  apply app_nil_r.
Qed.

Lemma write_table_chunks v it : forall f,
  write_table v f it
  = fold_left write
      (render_chunks v (fst it, (fst (snd it), sorted_items (snd (snd it))))) f.
Proof.
  destruct it as [i [t d]]. intro f. unfold write_table, render_chunks.
  cbn [fst snd]. rewrite !fold_left_app.
  assert (Hmap : forall (l : table) g,
             fold_left write (map entry_line l) g
             = fold_left (fun f kv => write f (entry_line kv)) l g).
  { induction l as [|kv l IH]; intro g; [reflexivity|]. cbn [map fold_left].
    apply IH. }
  rewrite Hmap. destruct (0 <? i), (not_III v); reflexivity.
Qed.

(** The export is the sequence of the writes of its tables, in sorted
    order. *)
Lemma export_writes v (a : archive) : forall i f,
  fold_left (write_table v) (enumerate i (sorted_items a)) f
  = fold_left write
      (flat_map (render_chunks v) (enumerate i (sorted_archive a))) f.
Proof.
  unfold sorted_archive. generalize (sorted_items a) as l.
  induction l as [|[t d] l IH]; intros i f; [reflexivity|].
  cbn [enumerate map flat_map fold_left fst snd].
  rewrite fold_left_app, write_table_chunks. cbn [fst snd]. apply IH.
Qed.

Lemma bare_char_scalar c :
  is_letter c || is_digit c || is_underscore c = true -> is_scalar c = true.
Proof.
  intro H. apply bare_char_range in H. apply is_scalar_spec. lia.
Qed.

(** A key the dialect accepts can be encoded. *)
Lemma valid_key_encodable v key :
  v <> OtherVersion -> _validate_key_static key v Gxt = true -> encodable key.
Proof.
  intros Hv Hvalid. unfold encodable.
  eapply Forall_impl;
    [|exact (proj2 (bare_identifier_chars _ (valid_key_bare _ _ Hv Hvalid)))].
  intros c Hc. apply bare_char_scalar, Hc.
Qed.

Lemma encodable_app a b : encodable a -> encodable b -> encodable (a ++ b).
Proof. unfold encodable. intros Ha Hb. apply Forall_app. split; assumption. Qed.

Lemma render_chunks_scalar v i name (es : table) :
  v <> OtherVersion ->
  encodable name ->
  Forall (fun kv => _validate_key_static (fst kv) v Gxt = true
                    /\ encodable (snd kv)) es ->
  Forall (fun s => forallb is_scalar s = true) (render_chunks v (i, (name, es))).
Proof.
  intros Hv Hname Hes. unfold render_chunks.
  apply Forall_app. split; [destruct (0 <? i); repeat constructor|].
  apply Forall_app. split.
  - destruct (not_III v); [|constructor]. constructor; [|constructor].
    apply forallb_scalar. unfold header_line.
    apply (encodable_app [91]); [repeat constructor|].
    apply encodable_app; [exact Hname | repeat constructor].
  - apply Forall_map. eapply Forall_impl; [|exact Hes].
    intros [k value] [Hvalid Hval]. cbn [fst snd] in *.
    apply forallb_scalar. unfold entry_line. cbn [fst snd].
    apply encodable_app; [exact (valid_key_encodable v k Hv Hvalid)|].
    apply (encodable_app [61]); [repeat constructor|].
    apply encodable_app; [exact Hval | repeat constructor].
Qed.

Lemma chunks_scalar v (a : archive) : forall i,
  v <> OtherVersion ->
  Forall (fun nt => encodable (fst nt)
                    /\ Forall (fun kv =>
                                 _validate_key_static (fst kv) v Gxt = true
                                 /\ encodable (snd kv)) (snd nt)) a ->
  Forall (fun s => forallb is_scalar s = true)
         (flat_map (render_chunks v) (enumerate i a)).
Proof.
  induction a as [|[name es] a IH]; intros i Hv Hall; [constructor|].
  inversion Hall as [|? ? [Hname Hes] Hall']; subst. cbn [fst snd] in *.
  cbn [enumerate flat_map]. apply Forall_app. split.
  - apply render_chunks_scalar; assumption.
  - apply IH; assumption.
Qed.

Lemma concat_render_chunks v xs :
  concat (flat_map (render_chunks v) xs) = concat (map (render_table v) xs).
Proof.
  induction xs as [|x xs IH]; [reflexivity|].
  cbn [flat_map map concat]. rewrite concat_app, IH, render_chunks_text.
  reflexivity.
Qed.

(** Strings that can be encoded are all written. *)
Lemma write_chunks chunks : forall w,
  Forall (fun s => forallb is_scalar s = true) chunks ->
  fold_left write chunks (mk_out w None) = mk_out (w ++ concat chunks) None.
Proof.
  intros w H. etransitivity; [exact (write_all (fun s => s) chunks w H)|].
  rewrite map_id. reflexivity.
Qed.

(** The sorted archive can be encoded when the archive can. *)
Lemma exportable_sorted_encodable v data :
  exportable v data ->
  Forall (fun nt => encodable (fst nt)
                    /\ Forall (fun kv =>
                                 _validate_key_static (fst kv) v Gxt = true
                                 /\ encodable (snd kv)) (snd nt))
         (sorted_archive data).
Proof.
  intros [[Hnd Hvalid] [_ Hscalar]]. unfold sorted_archive.
  apply Forall_map, sorted_items_Forall.
  rewrite Forall_forall in *. intros [name t] Hin. cbn [fst snd].
  destruct (Hvalid _ Hin) as (_ & _ & Htall).
  destruct (Hscalar _ Hin) as (Hname & Hvals). cbn [fst snd] in *.
  split; [exact Hname|]. apply sorted_items_Forall.
  rewrite Forall_forall in *. intros kv Hkv.
  split; [exact (proj1 (proj2 (Htall _ Hkv))) | exact (Hvals _ Hkv)].
Qed.

(** What [export_txt] writes for an archive that can be exported. *)
Lemma export_txt_single_text data v :
  v <> OtherVersion ->
  data <> [] ->
  exportable v data ->
  export_txt_single data v
  = Some (mk_out (concat (map (render_table v)
                            (enumerate 0 (sorted_archive data)))) None).
Proof.
  intros Hv Hne Hexp. unfold export_txt_single.
  destruct data as [|nt data]; [congruence|]. cbn [is_nil]. f_equal.
  rewrite export_writes. unfold opened.
  rewrite write_chunks
    by (apply chunks_scalar;
        [exact Hv | exact (exportable_sorted_encodable v _ Hexp)]).
  rewrite concat_render_chunks. reflexivity.
Qed.

(** The text of the export of an archive that can be exported, read
    back. *)
Lemma export_round_trip : forall data v path,
  v = VC \/ v = SA \/ v = IV ->
  data <> [] ->
  exportable v data ->
  exists text,
    export_txt_single data v = Some (mk_out text None)
    /\ _load_standard_txt [(path, readlines text)] true v
       = Ok (sorted_archive data, [])
    /\ (forall table_name key,
           lookup (sorted_archive data) table_name key
           = lookup data table_name key).
Proof.
  intros data v path Hver Hne Hexp.
  assert (Hv : v <> OtherVersion) by (destruct Hver as [-> | [-> | ->]]; discriminate).
  assert (H3 : not_III v = true) by (destruct Hver as [-> | [-> | ->]]; reflexivity).
  destruct (exportable_sorted v data Hexp) as (Hnd & Hload & Hlines).
  eexists. split; [exact (export_txt_single_text data v Hv Hne Hexp)|].
  split; [|intros tn k; apply lookup_sorted_archive, (exportable_is_archive v), Hexp].
  rewrite render_lines.
  rewrite readlines_lines by (apply lines_one_line; assumption).
  unfold _load_standard_txt. cbn [fold_result load_file].
  destruct (load_archive_lines v path (sorted_archive data) [] 0 1 [] None
              Hv H3 Hnd Hload) as [cur' Hrun].
  cbn [app] in Hrun. rewrite Hrun. reflexivity.
Qed.

(** The first string that cannot be encoded ends the writing: the file
    is left with a proper beginning of the text. *)
Lemma write_first_refused chunks : forall w,
  Exists (fun s => forallb is_scalar s = false) chunks ->
  exists text rest,
    fold_left write chunks (mk_out w None)
    = mk_out (w ++ text) (Some UnicodeEncodeError)
    /\ concat chunks = text ++ rest
    /\ rest <> [].
Proof.
  induction chunks as [|x chunks IH]; intros w Hex;
    [inversion Hex|].
  cbn [fold_left concat].
  destruct (forallb is_scalar x) eqn:Hx.
  - inversion Hex as [? ? Hbad | ? ? Hrest]; subst; [congruence|].
    rewrite (write_scalar w x Hx).
    destruct (IH (w ++ x) Hrest) as (text & rest & Hrun & Hcat & Hne).
    exists (x ++ text), rest. rewrite Hrun, Hcat, <- !app_assoc.
    split; [reflexivity|]. split; [reflexivity | exact Hne].
  - rewrite (write_refused w x Hx). exists [], (x ++ concat chunks).
    split; [|split; [reflexivity|]].
    + rewrite app_nil_r. exact (write_failed (fun s => s) chunks w _).
    + destruct x; [discriminate Hx | discriminate].
Qed.

Lemma entry_line_refused kv :
  Exists (fun c => is_scalar c = false) (snd kv) ->
  forallb is_scalar (entry_line kv) = false.
Proof.
  intro H. unfold entry_line. rewrite !forallb_app, (forallb_not_scalar _ H).
  cbn [andb]. rewrite ?andb_false_r. reflexivity.
Qed.

(** A value that cannot be encoded makes a string that is refused. *)
Lemma render_chunks_refused v i name (es : table) :
  Exists (fun kv => Exists (fun c => is_scalar c = false) (snd kv)) es ->
  Exists (fun s => forallb is_scalar s = false)
         (render_chunks v (i, (name, es))).
Proof.
  intro H. unfold render_chunks. apply Exists_app. right.
  apply Exists_app. right. apply Exists_exists in H.
  destruct H as (kv & Hin & Hbad). apply Exists_exists.
  exists (entry_line kv). split; [apply in_map, Hin|].
  apply entry_line_refused, Hbad.
Qed.

Lemma chunks_refused v (a : archive) : forall i,
  Exists (fun nt => Exists (fun kv => Exists (fun c => is_scalar c = false)
                                             (snd kv)) (snd nt)) a ->
  Exists (fun s => forallb is_scalar s = false)
         (flat_map (render_chunks v) (enumerate i a)).
Proof.
  induction a as [|[name es] a IH]; intros i H; inversion H as [? ? Hhere | ? ? Hlater];
    subst; cbn [enumerate flat_map]; apply Exists_app.
  - left. apply render_chunks_refused. exact Hhere.
  - right. apply IH. exact Hlater.
Qed.

Lemma sorted_items_Exists {V} (P : str * V -> Prop) (d : dict V) :
  Exists P d -> Exists P (sorted_items d).
Proof.
  intro H. apply Exists_exists in H. destruct H as (x & Hin & Hx).
  apply Exists_exists. exists x. split; [|exact Hx].
  eapply Permutation_in; [apply Permutation_sym, sorted_items_perm | exact Hin].
Qed.

Lemma sorted_archive_refused data :
  Exists (fun nt => Exists (fun kv => Exists (fun c => is_scalar c = false)
                                             (snd kv)) (snd nt)) data ->
  Exists (fun nt => Exists (fun kv => Exists (fun c => is_scalar c = false)
                                             (snd kv)) (snd nt))
         (sorted_archive data).
Proof.
  intro H. unfold sorted_archive. apply Exists_map.
  apply sorted_items_Exists. eapply Exists_impl; [|exact H].
  intros nt Hnt. cbn [snd]. apply sorted_items_Exists, Hnt.
Qed.

(** X16.  Export, then import.  For a dialect with tables and an
    archive the import itself can produce, with names and values that
    fit on a line and consist of Unicode scalar values (the file is
    opened with the encoding UTF-8, which refuses a surrogate),
    [export_txt] writes the file without an exception, and the text of
    the file, read by [_load_standard_txt], gives no error and the same
    archive, tables and entries in sorted order: every entry of every
    table comes back with its value, and no other.  When a value of the
    archive holds a surrogate, the write of the first string that cannot
    be encoded ends the export with [UnicodeEncodeError], and the file
    is left with a proper beginning of the text. *)
Theorem export_then_import : forall data v path,
  (v = VC \/ v = SA \/ v = IV ->
   data <> [] ->
   exportable v data ->
   exists text,
     export_txt_single data v = Some (mk_out text None)
     /\ _load_standard_txt [(path, readlines text)] true v
        = Ok (sorted_archive data, [])
     /\ (forall table_name key,
            lookup (sorted_archive data) table_name key
            = lookup data table_name key))
  /\ (Exists (fun nt => Exists (fun kv => Exists (fun c => is_scalar c = false)
                                                 (snd kv)) (snd nt)) data ->
      exists text rest,
        export_txt_single data v
        = Some (mk_out text (Some UnicodeEncodeError))
        /\ concat (map (render_table v) (enumerate 0 (sorted_archive data)))
           = text ++ rest
        /\ rest <> []).
Proof.
  intros data v path. split; [apply export_round_trip|].
  intro Hbad. unfold export_txt_single.
  destruct data as [|nt data]; [inversion Hbad|]. cbn [is_nil].
  rewrite export_writes. unfold opened.
  destruct (write_first_refused
              (flat_map (render_chunks v)
                        (enumerate 0 (sorted_archive (nt :: data)))) []
              (chunks_refused v _ 0 (sorted_archive_refused _ Hbad)))
    as (text & rest & Hrun & Hcat & Hne).
  exists text, rest. rewrite Hrun. cbn [app].
  split; [reflexivity|]. split; [|exact Hne].
  rewrite <- concat_render_chunks. exact Hcat.
Qed.

Lemma export_then_import_witness :
  (exists text,
      export_txt_single two_tables VC = Some (mk_out text None)
      /\ _load_standard_txt [(lit "gta.txt", readlines text)] true VC
         = Ok (sorted_archive two_tables, [])
      /\ (forall table_name key,
             lookup (sorted_archive two_tables) table_name key
             = lookup two_tables table_name key))
  /\ export_txt_single
       [(lit "T", [(lit "B", [98; 55296]); (lit "A", lit "a")])] VC
     = Some (mk_out (lit "[T]" ++ [10] ++ lit "A=a" ++ [10])
                    (Some UnicodeEncodeError)).
Proof.
  split; [|vm_compute; reflexivity].
  apply (proj1 (export_then_import two_tables VC (lit "gta.txt"))).
  - left. reflexivity.
  - discriminate.
  - split; [split|split].
    + repeat constructor; cbn; intuition discriminate.
    + repeat constructor; cbn; try discriminate; intuition discriminate.
    + repeat constructor; cbn; lia.
    + repeat constructor.
Defined.

(** The text of the export of one table that can be exported, read
    back. *)
Lemma export_table_round_trip :
  forall (data : archive) cur (t : table) v path,
  v <> OtherVersion ->
  dict_get data cur = Some t ->
  t <> [] ->
  exportable v [(cur, t)] ->
  exists text,
    export_current_table data (Some cur) v = Some (mk_out text None)
    /\ export_txt_single [(cur, t)] v = Some (mk_out text None)
    /\ _load_standard_txt [(path, readlines text)] (not_III v) v
       = Ok ([(if not_III v then cur else MAIN, sorted_items t)], [])
    /\ (forall key, dict_get (sorted_items t) key = dict_get t key).
Proof.
  intros data cur t v path Hv Hget Ht Hexp.
  pose proof Hexp as [[_ Hvalid] [Hlines Hscalar]].
  inversion Hvalid as [|? ? (Hne & Htnd & Htall) _]; subst.
  inversion Hlines as [|? ? (Hstrip & Hone & Hvals) _]; subst.
  inversion Hscalar as [|? ? (Hname & Henc) _]; subst.
  cbn [fst snd] in *.
  assert (Hchunks : Forall (fun s => forallb is_scalar s = true)
                      (render_chunks v (0, (cur, sorted_items t)))).
  { apply render_chunks_scalar; [exact Hv | exact Hname |].
    apply sorted_items_Forall. rewrite Forall_forall in *. intros kv Hkv.
    split; [exact (proj1 (proj2 (Htall _ Hkv))) | exact (Henc _ Hkv)]. }
  assert (Hwritten : fold_left write (render_chunks v (0, (cur, sorted_items t)))
                       opened
                     = mk_out (render_table v (0, (cur, sorted_items t))) None).
  { unfold opened. rewrite (write_chunks _ [] Hchunks), render_chunks_text.
    reflexivity. }
  exists (render_table v (0, (cur, sorted_items t))).
  split; [|split; [|split]].
  - unfold export_current_table. destruct cur as [|c cur]; [congruence|].
    cbv beta iota. rewrite Hget. destruct t as [|kv t]; [congruence|].
    cbv zeta. f_equal. rewrite <- Hwritten.
    pose proof (write_table_chunks v (0, (c :: cur, kv :: t)) opened) as Hw.
    cbn [fst snd] in Hw. rewrite <- Hw. reflexivity.
  - unfold export_txt_single. cbn [is_nil sorted_items insert enumerate fold_left].
    f_equal. rewrite <- Hwritten.
    exact (write_table_chunks v (0, (cur, t)) opened).
  - rewrite render_table_lines.
    assert (Hes : Forall (fun kv => _validate_key_static (fst kv) v Gxt = true
                                    /\ strip (snd kv) = snd kv) (sorted_items t)).
    { apply sorted_items_Forall. eapply Forall_impl; [|exact Htall]. cbn. tauto. }
    assert (Hol : Forall (fun kv => _validate_key_static (fst kv) v Gxt = true
                                    /\ one_line (snd kv)) (sorted_items t)).
    { apply sorted_items_Forall. rewrite Forall_forall in *. intros kv Hkv.
      split; [exact (proj1 (proj2 (Htall _ Hkv))) | exact (Hvals _ Hkv)]. }
    rewrite readlines_lines by (apply table_lines_one_line; assumption).
    unfold _load_standard_txt. cbn [fold_result load_file].
    destruct (not_III v) eqn:H3; cbv beta iota.
    + match goal with
      | |- context [fold_result ?f ?l ?s] =>
          assert (Hm : fold_result f l s
                       = Ok (mk_state [(cur, sorted_items t)] [] (Some cur)))
      end.
      { apply (load_table_lines v path [] cur (sorted_items t) 0 1 [] None);
          try assumption; [intros [] | apply sorted_items_NoDup, Htnd]. }
      rewrite Hm. reflexivity.
    + match goal with
      | |- context [fold_result ?f ?l ?s] =>
          assert (Hm : fold_result f l s
                       = Ok (mk_state [(MAIN, sorted_items t)] [] (Some MAIN)))
      end.
      { unfold table_lines. rewrite H3. cbn [Z.ltb Z.compare app].
        apply (load_entries false v path [] MAIN (sorted_items t) [] [] 1);
          try assumption; [intros [] |].
        cbn [app]. apply sorted_items_NoDup, Htnd. }
      rewrite Hm. reflexivity.
  - intro key. apply dict_get_perm; [exact Htnd|].
    apply Permutation_sym, sorted_items_perm.
Qed.

(** X17.  One table, exported and imported.  For a table the import
    can produce, with a name and values that fit on a line and consist
    of Unicode scalar values (the file is opened with the encoding
    UTF-8), [export_current_table] writes, without an exception, what
    [export_txt] writes for an archive of that one table; read back, the
    text gives no error and one table with the same entries in sorted
    order.  The table keeps its name in a dialect with tables; in
    dialect III no header is written and the entries come back in
    [MAIN]. *)
Theorem export_table_then_import :
  forall (data : archive) cur (t : table) v path,
  dict_get data cur = Some t ->
  (v <> OtherVersion ->
   t <> [] ->
   exportable v [(cur, t)] ->
   exists text,
     export_current_table data (Some cur) v = Some (mk_out text None)
     /\ export_txt_single [(cur, t)] v = Some (mk_out text None)
     /\ _load_standard_txt [(path, readlines text)] (not_III v) v
        = Ok ([(if not_III v then cur else MAIN, sorted_items t)], [])
     /\ (forall key, dict_get (sorted_items t) key = dict_get t key))
  /\ (cur <> [] ->
      Exists (fun kv => Exists (fun c => is_scalar c = false) (snd kv)) t ->
      exists text rest,
        export_current_table data (Some cur) v
        = Some (mk_out text (Some UnicodeEncodeError))
        /\ export_txt_single [(cur, t)] v
           = Some (mk_out text (Some UnicodeEncodeError))
        /\ render_table v (0, (cur, sorted_items t)) = text ++ rest
        /\ rest <> []).
Proof.
  intros data cur t v path Hget. split.
  - intros Hv Ht Hexp.
    exact (export_table_round_trip data cur t v path Hv Hget Ht Hexp).
  - intros Hcur Hbad.
    destruct (write_first_refused
                (render_chunks v (0, (cur, sorted_items t))) []
                (render_chunks_refused v 0 cur (sorted_items t)
                   (sorted_items_Exists _ t Hbad)))
      as (text & rest & Hrun & Hcat & Hne).
    cbn [app] in Hrun. change (mk_out [] None) with opened in Hrun.
    exists text, rest.
    split; [|split; [|split; [|exact Hne]]].
    + unfold export_current_table. destruct cur as [|c cur]; [congruence|].
      cbv beta iota. rewrite Hget.
      destruct t as [|kv t]; [inversion Hbad|]. cbv zeta. f_equal.
      rewrite <- Hrun.
      pose proof (write_table_chunks v (0, (c :: cur, kv :: t)) opened) as Hw.
      cbn [fst snd] in Hw. rewrite <- Hw. reflexivity.
    + unfold export_txt_single.
      cbn [is_nil sorted_items insert enumerate fold_left].
      f_equal. rewrite <- Hrun.
      exact (write_table_chunks v (0, (cur, t)) opened).
    + rewrite <- render_chunks_text. exact Hcat.
Qed.

Lemma export_table_then_import_witness :
  (exists text,
      export_current_table two_tables (Some (lit "MAIN")) III
      = Some (mk_out text None)
      /\ export_txt_single
           [(lit "MAIN", [(lit "B", lit "two words"); (lit "A", lit "x=1")])] III
         = Some (mk_out text None)
      /\ _load_standard_txt [(lit "gta3.txt", readlines text)] (not_III III) III
         = Ok ([(if not_III III then lit "MAIN" else MAIN,
                 sorted_items [(lit "B", lit "two words"); (lit "A", lit "x=1")])],
               [])
      /\ (forall key,
             dict_get (sorted_items [(lit "B", lit "two words"); (lit "A", lit "x=1")])
               key
             = dict_get [(lit "B", lit "two words"); (lit "A", lit "x=1")] key))
  /\ export_current_table [(lit "T", [(lit "B", [98; 55296]); (lit "A", lit "a")])]
       (Some (lit "T")) VC
     = Some (mk_out (lit "[T]" ++ [10] ++ lit "A=a" ++ [10])
                    (Some UnicodeEncodeError)).
Proof.
  split; [|vm_compute; reflexivity].
  apply (proj1 (export_table_then_import two_tables (lit "MAIN")
           [(lit "B", lit "two words"); (lit "A", lit "x=1")] III (lit "gta3.txt")
           eq_refl)).
  - discriminate.
  - discriminate.
  - split; [split|split].
    + repeat constructor; cbn; intuition discriminate.
    + repeat constructor; cbn; try discriminate; intuition discriminate.
    + repeat constructor; cbn; lia.
    + repeat constructor.
Defined.

(* ------------------------------------------------------------------ *)
(** ** The order of the export *)

Lemma str_ltb_irrefl a : str_ltb a a = false.
Proof.
  induction a as [|x a IH]; [reflexivity|]. cbn [str_ltb].
  rewrite Z.ltb_irrefl, Z.eqb_refl, IH. reflexivity.
Qed.

Lemma str_ltb_trans a : forall b c,
  str_ltb a b = true -> str_ltb b c = true -> str_ltb a c = true.
Proof.
  induction a as [|x a IH]; intros [|y b] [|z c]; cbn [str_ltb];
    try discriminate; try reflexivity.
  intros H1 H2. apply orb_true_iff in H1, H2. apply orb_true_iff.
  rewrite andb_true_iff, Z.ltb_lt, Z.eqb_eq in *.
  destruct H1 as [H1 | [H1 H1']]; destruct H2 as [H2 | [H2 H2']];
    [left; lia | left; lia | left; lia |].
  right. split; [lia | exact (IH _ _ H1' H2')].
Qed.

Lemma str_ltb_connex a : forall b,
  str_ltb a b = false -> str_ltb b a = false -> a = b.
Proof.
  induction a as [|x a IH]; intros [|y b]; cbn [str_ltb];
    try discriminate; [reflexivity|].
  intros H1 H2. apply orb_false_iff in H1, H2.
  rewrite andb_false_iff, Z.ltb_ge, Z.eqb_neq in *.
  destruct H1 as [H1 H1']. destruct H2 as [H2 H2'].
  assert (x = y) by lia. subst y. f_equal. apply IH.
  - destruct H1' as [H | H]; [congruence | exact H].
  - destruct H2' as [H | H]; [congruence | exact H].
Qed.

Lemma insert_sorted {V} (x : str * V) l :
  StronglySorted key_lt l -> ~ In (fst x) (map fst l) ->
  StronglySorted key_lt (insert x l).
Proof.
  induction l as [|y l IH]; intros Hs Hx; cbn [insert].
  - constructor; constructor.
  - inversion Hs as [|? ? Hs' Hy]; subst. cbn [map fst In] in Hx.
    destruct (str_ltb (fst y) (fst x)) eqn:E.
    + constructor; [apply IH; [exact Hs' | tauto]|].
      eapply Permutation_Forall; [apply Permutation_sym, insert_perm|].
      constructor; [exact E | exact Hy].
    + assert (Hxy : key_lt x y).
      { unfold key_lt. destruct (str_ltb (fst x) (fst y)) eqn:E'; [reflexivity|].
        exfalso. apply Hx. left. symmetry. exact (str_ltb_connex _ _ E' E). }
      constructor; [exact Hs|]. constructor; [exact Hxy|].
      eapply Forall_impl; [|exact Hy]. intros z Hz. unfold key_lt in *.
      exact (str_ltb_trans _ _ _ Hxy Hz).
Qed.

(** The items [sorted] returns are in strictly increasing order of their
    keys. *)
Lemma sorted_items_sorted {V} (d : dict V) :
  NoDup (map fst d) -> StronglySorted key_lt (sorted_items d).
Proof.
  induction d as [|x d IH]; intro Hnd; cbn [sorted_items]; [constructor|].
  cbn [map fst] in Hnd. inversion Hnd as [|? ? Hx Hnd']; subst.
  apply insert_sorted; [exact (IH Hnd')|].
  intro Hin. apply Hx.
  eapply Permutation_in; [apply Permutation_map, sorted_items_perm | exact Hin].
Qed.

Lemma sorted_head_not_in {V} (x : str * V) l :
  Forall (key_lt x) l -> ~ In x l.
Proof.
  intros Hall Hin. rewrite Forall_forall in Hall. specialize (Hall _ Hin).
  unfold key_lt in Hall. rewrite str_ltb_irrefl in Hall. discriminate.
Qed.

(** Two sorted lists of the same items are the same list. *)
Lemma sorted_unique {V} (l : dict V) : forall l',
  StronglySorted key_lt l -> StronglySorted key_lt l' ->
  (forall x, In x l <-> In x l') -> l = l'.
Proof.
  induction l as [|x l IH]; intros [|y l'] Hs Hs' Hsame.
  - reflexivity.
  - destruct (proj2 (Hsame y) (or_introl eq_refl)).
  - destruct (proj1 (Hsame x) (or_introl eq_refl)).
  - inversion Hs as [|? ? Hsl Hx]; subst. inversion Hs' as [|? ? Hsl' Hy]; subst.
    assert (Hxy : x = y).
    { destruct (proj1 (Hsame x) (or_introl eq_refl)) as [E | Hin]; [congruence|].
      destruct (proj2 (Hsame y) (or_introl eq_refl)) as [E | Hin']; [exact E|].
      rewrite Forall_forall in Hx, Hy.
      pose proof (Hy _ Hin) as H1. pose proof (Hx _ Hin') as H2.
      unfold key_lt in *. pose proof (str_ltb_trans _ _ _ H1 H2) as H3.
      rewrite str_ltb_irrefl in H3. discriminate. }
    subst y. f_equal. apply IH; [exact Hsl | exact Hsl' |].
    intro z. split; intro Hz.
    + destruct (proj1 (Hsame z) (or_intror Hz)) as [E | Hin]; [|exact Hin].
      subst z. destruct (sorted_head_not_in _ _ Hx Hz).
    + destruct (proj2 (Hsame z) (or_intror Hz)) as [E | Hin]; [|exact Hin].
      subst z. destruct (sorted_head_not_in _ _ Hy Hz).
Qed.

Lemma dict_In_get {V} (d : dict V) x :
  NoDup (map fst d) -> (In x d <-> dict_get d (fst x) = Some (snd x)).
Proof.
  intro Hnd. destruct x as [k v]. cbn [fst snd]. split.
  - apply dict_get_Some_In, Hnd.
  - apply dict_get_In.
Qed.

(** [sorted] depends on what a dictionary holds, not on the order it was
    filled in. *)
Lemma sorted_items_ext {V} (d d' : dict V) :
  NoDup (map fst d) -> NoDup (map fst d') ->
  (forall k, dict_get d k = dict_get d' k) ->
  sorted_items d = sorted_items d'.
Proof.
  intros Hnd Hnd' Hsame.
  apply sorted_unique; [apply sorted_items_sorted, Hnd
                       | apply sorted_items_sorted, Hnd' |].
  intro x. split; intro Hin.
  - eapply Permutation_in; [apply Permutation_sym, sorted_items_perm|].
    apply (dict_In_get d' x Hnd'). rewrite <- Hsame.
    apply (dict_In_get d x Hnd).
    eapply Permutation_in; [apply sorted_items_perm | exact Hin].
  - eapply Permutation_in; [apply Permutation_sym, sorted_items_perm|].
    apply (dict_In_get d x Hnd). rewrite Hsame.
    apply (dict_In_get d' x Hnd').
    eapply Permutation_in; [apply sorted_items_perm | exact Hin].
Qed.

Lemma insert_map {V W} (g : V -> W) (x : str * V) l :
  insert (fst x, g (snd x)) (map (fun kv => (fst kv, g (snd kv))) l)
  = map (fun kv => (fst kv, g (snd kv))) (insert x l).
Proof.
  induction l as [|y l IH]; [reflexivity|]. cbn [map insert fst].
  destruct (str_ltb (fst y) (fst x)); cbn [map]; [rewrite IH|]; reflexivity.
Qed.

Lemma sorted_items_map {V W} (g : V -> W) (d : dict V) :
  sorted_items (map (fun kv => (fst kv, g (snd kv))) d)
  = map (fun kv => (fst kv, g (snd kv))) (sorted_items d).
Proof.
  induction d as [|x d IH]; [reflexivity|]. cbn [map sorted_items].
  rewrite IH. apply insert_map.
Qed.

Lemma dict_get_map {V W} (g : V -> W) (d : dict V) k :
  dict_get (map (fun kv => (fst kv, g (snd kv))) d) k
  = option_map g (dict_get d k).
Proof.
  induction d as [|[n t] d IH]; [reflexivity|]. cbn [map dict_get fst snd].
  destruct (str_eqb n k); [reflexivity | exact IH].
Qed.

(** X18.  The export is canonical: two archives with the same tables
    and the same entries give the same text, whatever the order in which
    tables and entries were added - [sorted] decides the order of the
    text, not the history of the archive. *)
Theorem export_is_canonical : forall (data data' : archive) v,
  is_archive data -> is_archive data' ->
  (forall table_name, dict_mem data table_name = dict_mem data' table_name) ->
  (forall table_name key,
      lookup data table_name key = lookup data' table_name key) ->
  export_txt_single data v = export_txt_single data' v.
Proof.
  intros data data' v [Hnd Hall] [Hnd' Hall'] Hmem Hlook.
  assert (Hnil : is_nil data = is_nil data').
  { destruct data as [|[n t] data], data' as [|[n' t'] data']; try reflexivity.
    - specialize (Hmem n'). unfold dict_mem in Hmem. cbn [dict_get] in Hmem.
      rewrite str_eqb_refl in Hmem. discriminate.
    - specialize (Hmem n). unfold dict_mem in Hmem. cbn [dict_get] in Hmem.
      rewrite str_eqb_refl in Hmem. discriminate. }
  assert (Hsorted : sorted_archive data = sorted_archive data').
  { unfold sorted_archive.
    rewrite <- !(sorted_items_map (@sorted_items str)).
    apply sorted_items_ext.
    - rewrite map_map. exact Hnd.
    - rewrite map_map. exact Hnd'.
    - intro tn. rewrite !dict_get_map.
      change (option_map (@sorted_items str) (@dict_get table data tn)
              = option_map (@sorted_items str) (@dict_get table data' tn)).
      specialize (Hmem tn). unfold dict_mem in Hmem.
      specialize (Hlook tn). unfold lookup in Hlook.
      destruct (dict_get data tn) as [t|] eqn:Ht;
        destruct (dict_get data' tn) as [t'|] eqn:Ht'; try discriminate;
        [|reflexivity].
      cbn [option_map]. f_equal. apply sorted_items_ext; [| |exact Hlook].
      + rewrite Forall_forall in Hall. exact (Hall _ (dict_get_In _ _ _ Ht)).
      + rewrite Forall_forall in Hall'. exact (Hall' _ (dict_get_In _ _ _ Ht')). }
  unfold export_txt_single. rewrite Hnil. destruct (is_nil data'); [reflexivity|].
  rewrite !export_writes, Hsorted. reflexivity.
Qed.

Lemma export_is_canonical_witness :
  export_txt_single two_tables SA
  = export_txt_single
      [(lit "AUX", []);
       (lit "MAIN", [(lit "A", lit "x=1"); (lit "B", lit "two words")])] SA.
Proof.
  apply (export_is_canonical two_tables
           [(lit "AUX", []);
            (lit "MAIN", [(lit "A", lit "x=1"); (lit "B", lit "two words")])] SA).
  - split; [|repeat constructor]; unfold is_dict; cbn [map fst two_tables];
      repeat constructor; cbn; intuition discriminate.
  - split; [|repeat constructor]; unfold is_dict; cbn [map fst];
      repeat constructor; cbn; intuition discriminate.
  - intro tn. unfold dict_mem, two_tables. cbn [dict_get].
    destruct (str_eqb (lit "MAIN") tn), (str_eqb (lit "AUX") tn); reflexivity.
  - intros tn k. unfold lookup, two_tables. cbn [dict_get].
    destruct (str_eqb (lit "MAIN") tn) eqn:E1, (str_eqb (lit "AUX") tn) eqn:E2;
      try reflexivity.
    + apply str_eqb_true in E1, E2. rewrite <- E1 in E2.
      vm_compute in E2. discriminate E2.
    + cbn [dict_get].
      destruct (str_eqb (lit "B") k) eqn:E3, (str_eqb (lit "A") k) eqn:E4;
        try reflexivity.
      apply str_eqb_true in E3, E4. rewrite <- E3 in E4.
      vm_compute in E4. discriminate E4.
Defined.

(* ================================================================== *)
(** * The characters collected for the font generator *)

Import Chars.

Lemma set_mem_In s c : set_mem s c = true <-> In c s.
Proof.
  unfold set_mem. rewrite existsb_exists. split.
  - intros (x & Hx & E). apply Z.eqb_eq in E. subst x. exact Hx.
  - intro H. exists c. split; [exact H | apply Z.eqb_refl].
Qed.

Lemma set_add_In s c x : In x (set_add s c) <-> In x s \/ x = c.
Proof.
  unfold set_add. destruct (set_mem s c) eqn:E.
  - apply set_mem_In in E. split; [tauto|]. intros [H | ->]; assumption.
  - rewrite in_app_iff. cbn [In]. intuition congruence.
Qed.

Lemma set_add_NoDup s c : NoDup s -> NoDup (set_add s c).
Proof.
  intro H. unfold set_add. destruct (set_mem s c) eqn:E; [exact H|].
  assert (Hc : ~ In c s) by (intro Hin; apply set_mem_In in Hin; congruence).
  apply NoDup_rev in H. rewrite <- (rev_involutive (s ++ [c])).
  apply NoDup_rev. rewrite rev_app_distr. cbn [rev app].
  constructor; [rewrite <- in_rev; exact Hc | exact H].
Qed.

Lemma fold_set_add l : forall s,
  NoDup s ->
  NoDup (fold_left set_add l s)
  /\ forall x, In x (fold_left set_add l s) <-> In x s \/ In x l.
Proof.
  induction l as [|c l IH]; intros s Hs; cbn [fold_left].
  - split; [exact Hs|]. intro x. cbn [In]. tauto.
  - destruct (IH (set_add s c) (set_add_NoDup s c Hs)) as [Hnd Hin].
    split; [exact Hnd|]. intro x. rewrite Hin, set_add_In. cbn [In].
    intuition congruence.
Qed.

Lemma fold_special l : forall s,
  NoDup s ->
  NoDup (fold_left (fun s c => if 255 <? c then set_add s c else s) l s)
  /\ forall x,
       In x (fold_left (fun s c => if 255 <? c then set_add s c else s) l s)
       <-> In x s \/ (In x l /\ 255 < x).
Proof.
  induction l as [|c l IH]; intros s Hs; cbn [fold_left].
  - split; [exact Hs|]. intro x. cbn [In]. tauto.
  - destruct (Z.ltb_spec 255 c) as [Hc | Hc].
    + destruct (IH (set_add s c) (set_add_NoDup s c Hs)) as [Hnd Hin].
      split; [exact Hnd|]. intro x. rewrite Hin, set_add_In. cbn [In].
      intuition (subst; auto).
    + destruct (IH s Hs) as [Hnd Hin].
      split; [exact Hnd|]. intro x. rewrite Hin. cbn [In].
      intuition (subst; auto; lia).
Qed.

Lemma set_discard_In s c x : In x (set_discard s c) <-> In x s /\ x <> c.
Proof.
  unfold set_discard. rewrite filter_In, negb_true_iff, Z.eqb_neq. reflexivity.
Qed.

Lemma set_discard_NoDup s c : NoDup s -> NoDup (set_discard s c).
Proof. apply NoDup_filter. Qed.

Lemma insert_ord_In c l x : In x (insert_ord c l) <-> x = c \/ In x l.
Proof.
  induction l as [|y l IH]; cbn [insert_ord In]; [intuition congruence|].
  destruct (y <? c); cbn [In]; [rewrite IH|]; intuition congruence.
Qed.

Lemma insert_ord_sorted c l :
  StronglySorted Z.lt l -> ~ In c l -> StronglySorted Z.lt (insert_ord c l).
Proof.
  induction l as [|y l IH]; intros Hs Hc; cbn [insert_ord].
  - constructor; constructor.
  - inversion Hs as [|? ? Hs' Hy]; subst. cbn [In] in Hc.
    destruct (Z.ltb_spec y c) as [Hlt | Hge].
    + constructor; [apply IH; [exact Hs' | tauto]|].
      apply Forall_forall. intros x Hx. apply insert_ord_In in Hx.
      rewrite Forall_forall in Hy. destruct Hx as [-> | Hx]; [exact Hlt | auto].
    + assert (c < y) by (assert (y <> c) by tauto; lia).
      constructor; [exact Hs|]. constructor; [assumption|].
      eapply Forall_impl; [|exact Hy]. intros z Hz. cbn in Hz. lia.
Qed.

Lemma sorted_ord_spec l :
  NoDup l ->
  StronglySorted Z.lt (sorted_ord l)
  /\ forall x, In x (sorted_ord l) <-> In x l.
Proof.
  induction 1 as [|c l Hc _ [Hs Hin]]; cbn [sorted_ord].
  - split; [constructor | tauto].
  - split.
    + apply insert_ord_sorted; [exact Hs | rewrite Hin; exact Hc].
    + intro x. rewrite insert_ord_In, Hin. cbn [In]. intuition congruence.
Qed.

Lemma all_chars_In data c : In c (all_chars data) <-> occurs data c.
Proof.
  unfold all_chars. rewrite (proj2 (fold_set_add _ [] (NoDup_nil _))).
  cbn [In]. unfold occurs. rewrite in_flat_map. split.
  - intros [[] | ([tn t] & Hnt & Hc)]. cbn [snd] in Hc.
    apply in_flat_map in Hc. destruct Hc as ([k value] & Hkv & Hc).
    exists tn, t, k, value. repeat split; assumption.
  - intros (tn & t & k & value & Hnt & Hkv & Hc). right.
    exists (tn, t). split; [exact Hnt|]. cbn [snd]. apply in_flat_map.
    exists (k, value). split; assumption.
Qed.

(** X19.  [collect_and_filter_chars] returns exactly the characters
    above U+00FF that occur in some value of the archive, other than
    U+2122, U+3000 and U+FEFF, each once and in increasing order of code
    point. *)
Theorem collect_and_filter_chars_spec : forall (data : archive),
  StronglySorted Z.lt (collect_and_filter_chars data)
  /\ forall c,
       In c (collect_and_filter_chars data)
       <-> occurs data c /\ 255 < c
           /\ c <> 8482 /\ c <> 12288 /\ c <> 65279.
Proof.
  intro data. unfold collect_and_filter_chars.
  destruct data as [|nt data]; cbn [is_nil].
  - split; [constructor|]. intro c. split; [intros []|].
    intros [(tn & t & k & value & [] & _) _].
  - cbv zeta. set (a := nt :: data).
    destruct (fold_special (all_chars a) [] (NoDup_nil _)) as [Hnd Hin].
    fold (special_chars (all_chars a)) in Hnd, Hin.
    destruct (sorted_ord_spec
                (set_discard (set_discard (set_discard
                   (special_chars (all_chars a)) 8482) 12288) 65279))
      as [Hs Hsin].
    { repeat apply set_discard_NoDup. exact Hnd. }
    split; [exact Hs|]. intro c.
    rewrite Hsin, !set_discard_In, Hin, all_chars_In. cbn [In]. tauto.
Qed.

(* ================================================================== *)
(** * Saving a San Andreas archive *)

Import SaSave.

Lemma table_sort_method_main name : table_sort_method name MAIN = false.
Proof. unfold table_sort_method. rewrite str_eqb_refl. reflexivity. Qed.

Lemma table_sort_method_plain lhs rhs :
  lhs <> MAIN -> rhs <> MAIN -> table_sort_method lhs rhs = str_ltb lhs rhs.
Proof.
  intros Hl Hr. unfold table_sort_method.
  rewrite (str_eqb_false _ _ Hr), (str_eqb_false _ _ Hl). reflexivity.
Qed.

Lemma insert_by_main {V} (t : V) l :
  insert_by table_sort_method (MAIN, t) l = (MAIN, t) :: l.
Proof.
  destruct l as [|y l]; [reflexivity|]. cbn [insert_by fst].
  rewrite table_sort_method_main. reflexivity.
Qed.

Lemma insert_by_plain {V} (x : str * V) l :
  fst x <> MAIN -> ~ In MAIN (map fst l) ->
  insert_by table_sort_method x l = insert x l.
Proof.
  intro Hx. induction l as [|y l IH]; intro Hl; [reflexivity|].
  cbn [map fst In] in Hl. cbn [insert_by insert].
  rewrite table_sort_method_plain by (try assumption; intro E; apply Hl; left; exact E).
  rewrite IH by tauto. reflexivity.
Qed.

Lemma filter_not_main_none (data : archive) :
  ~ In MAIN (map fst data) ->
  filter (fun nt => negb (str_eqb (fst nt) MAIN)) data = data.
Proof.
  induction data as [|[n t] data IH]; intro H; [reflexivity|].
  cbn [map fst In] in H. cbn [filter fst].
  rewrite str_eqb_false by tauto. cbn [negb]. rewrite IH by tauto. reflexivity.
Qed.

Lemma filter_not_main_keys (data : archive) :
  ~ In MAIN (map fst (filter (fun nt => negb (str_eqb (fst nt) MAIN)) data)).
Proof.
  intro H. apply in_map_iff in H. destruct H as ([n t] & E & Hin).
  apply filter_In in Hin. destruct Hin as [_ Hin]. cbn [fst] in *. subst n.
  rewrite str_eqb_refl in Hin. discriminate.
Qed.

Lemma sorted_items_keys {V} (d : dict V) k :
  In k (map fst (sorted_items d)) <-> In k (map fst d).
Proof.
  split; apply Permutation_in, Permutation_map;
    [apply sorted_items_perm | apply Permutation_sym, sorted_items_perm].
Qed.

(** X20.  The order in which a San Andreas archive is saved: the table
    [MAIN] first, when there is one, and the other tables after it in
    increasing order of their names. *)
Theorem sa_tables_main_first : forall data : archive,
  is_dict data ->
  sa_sorted_items data
  = match dict_get data MAIN with
    | Some t =>
        (MAIN, t)
          :: sorted_items (filter (fun nt => negb (str_eqb (fst nt) MAIN)) data)
    | None => sorted_items data
    end.
Proof.
  intro data. unfold sa_sorted_items, is_dict.
  induction data as [|[n t] data IH]; intro Hnd; [reflexivity|].
  cbn [map fst] in Hnd. inversion Hnd as [|? ? Hn Hnd']; subst.
  specialize (IH Hnd'). cbn [sorted_by dict_get filter fst]. rewrite IH.
  destruct (str_eqb n MAIN) eqn:E; cbn [negb].
  - apply str_eqb_true in E. subst n.
    assert (Hnone : dict_get data MAIN = None) by (apply dict_get_None; exact Hn).
    rewrite Hnone, insert_by_main, (filter_not_main_none data Hn). reflexivity.
  - assert (Hne : n <> MAIN) by (intros ->; rewrite str_eqb_refl in E; discriminate).
    destruct (dict_get data MAIN) as [tm|] eqn:Hm.
    + cbn [insert_by fst]. unfold table_sort_method at 1.
      rewrite E, str_eqb_refl. cbn [sorted_items]. f_equal.
      apply insert_by_plain; [exact Hne|].
      rewrite sorted_items_keys. apply filter_not_main_keys.
    + cbn [sorted_items]. apply insert_by_plain; [exact Hne|].
      rewrite sorted_items_keys. apply dict_get_None. exact Hm.
Qed.

Lemma sa_tables_main_first_witness :
  sa_sorted_items colliding
  = match dict_get colliding MAIN with
    | Some t =>
        (MAIN, t)
          :: sorted_items
               (filter (fun nt => negb (str_eqb (fst nt) MAIN)) colliding)
    | None => sorted_items colliding
    end.
Proof.
  apply (sa_tables_main_first colliding).
  unfold is_dict. repeat constructor; cbn; intuition discriminate.
Defined.

(* ------------------------------------------------------------------ *)

Lemma hex_value_u32 key :
  hashed_8hex key = true -> key <> [] /\ forallb is_hex key = true /\ u32 (hex_value key).
Proof.
  unfold hashed_8hex, chars_between. intro H.
  apply andb_prop in H. destruct H as [H Hall].
  apply andb_prop in H. destruct H as [H1 H8].
  apply Nat.leb_le in H1, H8.
  split; [destruct key; [cbn in H1; lia | discriminate]|]. split; [exact Hall|].
  destruct (digits_hex key false false 0 Hall (Z.le_refl 0)) as (v & Hv & Hb).
  rewrite (digits_value key false false 0 Hall) in Hv.
  apply (f_equal (fun o => match o with Some (x, _, _, _) => x | None => 0 end)) in Hv.
  fold (hex_value key) in Hv. rewrite Hv. unfold u32.
  assert (16 ^ len key <= 16 ^ 8)
    by (apply Z.pow_le_mono_r; unfold len; lia).
  change (16 ^ 8) with 4294967296 in *. lia.
Qed.

(** [int(key, 16)] on 1 to 8 hexadecimal digits: the number they write. *)
Lemma int16_plain_hex ud key :
  key <> [] -> forallb is_hex key = true ->
  PyInt.int16 ud key = Some (hex_value key).
Proof.
  intros Hne Hall. unfold PyInt.int16.
  rewrite transform_ascii by (apply is_hex_ascii, Hall).
  destruct key as [|c key]; [contradiction|].
  pose proof Hall as Hall'. cbn [forallb] in Hall'.
  apply andb_prop in Hall'. destruct Hall' as [Hc Hkey].
  destruct (is_hex_digit16 c Hc) as (Hus & _).
  assert (Hplain : PyInt.c_isspace c = false /\ (c =? 43) = false
                   /\ (c =? 45) = false /\ (c =? 48) && false = false).
  { revert Hc. cbv [is_hex is_digit PyInt.c_isspace].
    zcases; intro; try discriminate; repeat split; reflexivity. }
  destruct Hplain as (Hsp & H43 & H45 & _).
  cbn [PyInt.skip_space]. rewrite Hsp, H43, H45.
  unfold PyInt.unsigned16.
  assert (Hpre : PyInt.strip_prefix (c :: key) = c :: key).
  { unfold PyInt.strip_prefix. destruct key as [|c1 key']; [reflexivity|].
    cbn [forallb] in Hkey. apply andb_prop in Hkey. destruct Hkey as [Hc1 _].
    assert (Hx : (c1 =? 120) || (c1 =? 88) = false).
    { revert Hc1. cbv [is_hex is_digit]. zcases; intro; try discriminate; reflexivity. }
    rewrite Hx, andb_false_r. reflexivity. }
  rewrite Hpre, Hus, (digits_value (c :: key) false false 0 Hall).
  cbn [length Nat.eqb negb orb PyInt.skip_space]. reflexivity.
Qed.

Lemma zdict_get_set_same m n v : zdict_get (zdict_set m n v) n = Some v.
Proof.
  induction m as [|[n' v'] m IH]; cbn [zdict_set zdict_get].
  - rewrite Z.eqb_refl. reflexivity.
  - destruct (Z.eqb_spec n' n) as [E | E]; cbn [zdict_get].
    + rewrite E, Z.eqb_refl. reflexivity.
    + destruct (Z.eqb_spec n' n); [contradiction | exact IH].
Qed.

Lemma zdict_get_set_other m n n' v :
  n <> n' -> zdict_get (zdict_set m n v) n' = zdict_get m n'.
Proof.
  intro Hne. induction m as [|[n0 v0] m IH]; cbn [zdict_set zdict_get].
  - destruct (Z.eqb_spec n n'); [contradiction | reflexivity].
  - destruct (Z.eqb_spec n0 n) as [E | E]; cbn [zdict_get].
    + subst n0. destruct (Z.eqb_spec n n'); [contradiction | reflexivity].
    + rewrite IH. reflexivity.
Qed.

Lemma zdict_set_keys m n v :
  Forall (fun nv => u32 (fst nv)) m -> u32 n ->
  Forall (fun nv => u32 (fst nv)) (zdict_set m n v).
Proof.
  intros Hm Hn. induction Hm as [|[n' v'] m Hx Hm IH]; cbn [zdict_set].
  - constructor; [exact Hn | constructor].
  - destruct (n' =? n); constructor; assumption.
Qed.

Lemma zdict_set_length m n v :
  (length (zdict_set m n v) <= S (length m))%nat.
Proof.
  induction m as [|[n' v'] m IH]; cbn [zdict_set length]; [lia|].
  destruct (n' =? n); cbn [length]; lia.
Qed.

Lemma find_snoc {A} (p : A -> bool) l x :
  find p (l ++ [x])
  = match find p l with
    | Some y => Some y
    | None => if p x then Some x else None
    end.
Proof.
  induction l as [|y l IH]; cbn [app find]; [reflexivity|].
  destruct (p y); [reflexivity | exact IH].
Qed.

(** The integer keys of one table: no key of the dialect fails to
    convert, and of the entries whose keys write the same number the
    last one stays. *)
Lemma int_keys_spec ud (d : table) : forall m0,
  Forall (fun kv => _validate_key_static (fst kv) SA Gxt = true) d ->
  Forall (fun nv => u32 (fst nv)) m0 ->
  exists m,
    fold_result
      (fun m kv =>
         match PyInt.int16 ud (fst kv) with
         | Some n => Ok (zdict_set m n (snd kv))
         | None => Raise ValueError
         end) d m0 = Ok m
    /\ Forall (fun nv => u32 (fst nv)) m
    /\ (length m <= length m0 + length d)%nat
    /\ forall n,
         zdict_get m n
         = match last_value d n with
           | Some v => Some v
           | None => zdict_get m0 n
           end.
Proof.
  induction d as [|[k v] d IH]; intros m0 Hd Hm0.
  - exists m0. cbn [fold_result length]. split; [reflexivity|].
    split; [exact Hm0|]. split; [lia|]. intro n. reflexivity.
  - inversion Hd as [|? ? Hk Hd']; subst. cbn [fst] in Hk.
    cbn [_validate_key_static] in Hk. rewrite fullmatch_re_sa in Hk.
    destruct (hex_value_u32 k Hk) as (Hne & Hall & Hu).
    cbn [fold_result fst snd]. rewrite (int16_plain_hex ud k Hne Hall).
    cbn [bind].
    destruct (IH (zdict_set m0 (hex_value k) v) Hd'
                 (zdict_set_keys _ _ _ Hm0 Hu))
      as (m & Hrun & Hkeys & Hlen & Hget).
    exists m. split; [exact Hrun|]. split; [exact Hkeys|].
    split.
    { pose proof (zdict_set_length m0 (hex_value k) v). cbn [length]. lia. }
    intro n. rewrite Hget. unfold last_value. cbn [rev].
    rewrite find_snoc. cbn [fst].
    destruct (find (fun kv => hex_value (fst kv) =? n) (rev d)) as [kv|];
      [reflexivity|].
    destruct (Z.eqb_spec (hex_value k) n) as [E | E]; cbn [option_map snd].
    + subst n. apply zdict_get_set_same.
    + apply zdict_get_set_other. exact E.
Qed.

Lemma insert_by_Forall {V} (P : str * V -> Prop) lt x l :
  P x -> Forall P l -> Forall P (insert_by lt x l).
Proof.
  intros Hx Hl. induction Hl as [|y l Hy Hl IH]; cbn [insert_by].
  - constructor; [exact Hx | constructor].
  - destruct (lt (fst y) (fst x)); constructor; try assumption.
    constructor; assumption.
Qed.

Lemma sorted_by_Forall {V} (P : str * V -> Prop) lt (d : dict V) :
  Forall P d -> Forall P (sorted_by lt d).
Proof.
  induction 1 as [|x d Hx _ IH]; cbn [sorted_by]; [constructor|].
  apply insert_by_Forall; assumption.
Qed.

(** X21.  The integer keys of a San Andreas archive.  When every key is
    valid for the dialect, the conversion [int(k, 16)] never fails:
    every table is converted, in the order of the save, every key
    becomes a 32-bit number, and no table grows.  Keys that write the
    same number - in another case, or with leading zeros - fall on one
    entry, which keeps the value of the last of them. *)
Theorem sa_int_keys : forall (ud : Z -> option Z) (data : archive),
  Forall (fun nt =>
            Forall (fun kv => _validate_key_static (fst kv) SA Gxt = true)
                   (snd nt)) data ->
  exists g,
    sa_gxt_data ud data = Ok g
    /\ Forall2
         (fun nt ng =>
            fst ng = fst nt
            /\ Forall (fun nv => u32 (fst nv)) (snd ng)
            /\ (length (snd ng) <= length (snd nt))%nat
            /\ forall n, zdict_get (snd ng) n = last_value (snd nt) n)
         (sa_sorted_items data) g.
Proof.
  intros ud data Hvalid. unfold sa_gxt_data.
  assert (Hsorted : Forall (fun nt : str * table =>
                      Forall (fun kv => _validate_key_static (fst kv) SA Gxt = true)
                             (snd nt)) (sa_sorted_items data)).
  { apply sorted_by_Forall, Hvalid. }
  apply for_each_total. eapply Forall_impl; [|exact Hsorted].
  intros [name t] Ht. cbn [fst snd] in *.
  destruct (int_keys_spec ud t [] Ht (Forall_nil _))
    as (m & Hrun & Hkeys & Hlen & Hget).
  exists (name, m). unfold int_keys. rewrite Hrun. cbn [bind fst snd].
  split; [reflexivity|]. split; [reflexivity|]. split; [exact Hkeys|].
  split; [exact Hlen|]. intro n. rewrite Hget.
  destruct (last_value t n); reflexivity.
Qed.

Lemma sa_int_keys_witness :
  exists g,
    sa_gxt_data (fun _ => None) colliding = Ok g
    /\ Forall2
         (fun nt ng =>
            fst ng = fst nt
            /\ Forall (fun nv => u32 (fst nv)) (snd ng)
            /\ (length (snd ng) <= length (snd nt))%nat
            /\ forall n, zdict_get (snd ng) n = last_value (snd nt) n)
         (sa_sorted_items colliding) g.
Proof.
  apply (sa_int_keys (fun _ => None) colliding).
  repeat constructor.
Defined.

(* ================================================================== *)
(** * The batch modes of the entry dialog *)

Import Dialog.

Lemma batch_lines_stripped content :
  Forall (fun line => strip line = line /\ line <> []) (batch_lines content).
Proof.
  unfold batch_lines. apply Forall_map, Forall_forall. intros line Hin.
  apply filter_In in Hin. destruct Hin as [_ Hne].
  split; [apply strip_idem|]. destruct (strip line); [discriminate | discriminate].
Qed.

(** The loop of the dialog: it only appends; when it appends no error,
    it has read one pair from each line. *)
Lemma parse_lines_spec v ft lines : forall i ps es ps' es',
  fold_left (parse_line v ft) (enumerate i lines) (ps, es) = (ps', es') ->
  exists pnew enew,
    ps' = ps ++ pnew /\ es' = es ++ enew
    /\ (enew = [] -> Forall2 (reads_as v ft) lines pnew).
Proof.
  induction lines as [|line lines IH]; intros i ps es ps' es'.
  - cbn [enumerate fold_left]. intros [= <- <-]. exists [], [].
    rewrite !app_nil_r. repeat split. constructor.
  - cbn [enumerate fold_left]. unfold parse_line at 2.
    destruct (split_once 61 line) as [[key value]|] eqn:Hsplit.
    + cbv zeta. destruct (strip key) as [|c k] eqn:Hkey; cbn [is_nil].
      * intro H. destruct (IH _ _ _ _ _ H) as (pnew & enew & -> & -> & _).
        exists pnew, (LineEmptyKey i :: enew). rewrite <- app_assoc.
        repeat split. discriminate.
      * destruct (_validate_key_static (c :: k) v ft) eqn:Hvalid; cbn [negb].
        -- intro H. destruct (IH _ _ _ _ _ H) as (pnew & enew & -> & -> & Hall).
           exists ((c :: k, strip value) :: pnew), enew. rewrite <- app_assoc.
           repeat split. intro He. constructor; [|exact (Hall He)].
           exists key, value. rewrite Hkey.
           repeat split; [exact Hsplit | discriminate | exact Hvalid].
        -- intro H. destruct (IH _ _ _ _ _ H) as (pnew & enew & -> & -> & _).
           eexists pnew, (_ :: enew). rewrite <- app_assoc.
           repeat split. discriminate.
    + intro H. destruct (IH _ _ _ _ _ H) as (pnew & enew & -> & -> & _).
      exists pnew, (LineWithoutSeparator i :: enew). rewrite <- app_assoc.
      repeat split. discriminate.
Qed.

Lemma Forall2_len {A B} (R : A -> B -> Prop) l l' :
  Forall2 R l l' -> len l = len l'.
Proof. intro H. unfold len. rewrite (Forall2_length H). reflexivity. Qed.

Lemma accept_batch_Accepted add edit keys v ft text pairs :
  accept_batch add edit keys v ft text = Accepted pairs ->
  Forall2 (reads_as v ft) (batch_lines (strip text)) pairs
  /\ (edit = true -> len pairs = len keys)
  /\ (add = true -> pairs <> []).
Proof.
  unfold accept_batch. cbv zeta. set (lines := batch_lines (strip text)).
  destruct (edit && negb (len lines =? len keys)) eqn:Hedit; [discriminate|].
  destruct (is_nil lines && add) eqn:Hadd; [discriminate|].
  destruct (fold_left (parse_line v ft) (enumerate 1 lines) ([], []))
    as [ps es] eqn:Hfold.
  destruct (parse_lines_spec v ft lines 1 [] [] ps es Hfold)
    as (pnew & enew & -> & -> & Hall).
  cbn [app]. destruct enew as [|e enew]; cbn [is_nil negb]; [|discriminate].
  intros [= <-]. specialize (Hall eq_refl).
  split; [exact Hall|]. split.
  - intros ->. cbn [andb] in Hedit. apply negb_false_iff, Z.eqb_eq in Hedit.
    rewrite <- (Forall2_len _ _ _ Hall). exact Hedit.
  - intros ->. rewrite andb_true_r in Hadd.
    destruct lines; [discriminate|]. inversion Hall; discriminate.
Qed.

(** X22.  The batch modes of the dialog accept all lines or none.  When
    [accept] sets [key_value_pairs], every non-blank line of the editor
    has given one pair, in order; each key is the stripped text before
    the first ['='], is not empty and passes [validate_key]; each value
    is the stripped rest.  In the edit mode there are as many pairs as
    entries were selected, in the add mode there is at least one. *)
Theorem batch_accept_sound :
  forall add edit keys v ft text pairs,
    accept_batch add edit keys v ft text = Accepted pairs ->
    Forall2 (reads_as v ft) (batch_lines (strip text)) pairs
    /\ Forall (fun kv => fst kv <> []
                         /\ _validate_key_static (fst kv) v ft = true
                         /\ strip (fst kv) = fst kv
                         /\ strip (snd kv) = snd kv) pairs
    /\ (edit = true -> len pairs = len keys)
    /\ (add = true -> pairs <> []).
Proof.
  intros add edit keys v ft text pairs H.
  destruct (accept_batch_Accepted _ _ _ _ _ _ _ H) as (Hall & Hedit & Hadd).
  split; [exact Hall|]. split; [|split; assumption].
  clear - Hall. induction Hall as [|line kv lines pairs Hkv _ IH]; constructor;
    [|exact IH].
  destruct Hkv as (key & value & _ & -> & Hne & Hvalid). cbn [fst snd].
  split; [exact Hne|]. split; [exact Hvalid|]. split; apply strip_idem.
Qed.

Lemma batch_accept_sound_witness :
  Forall2 (reads_as SA Gxt)
    (batch_lines (strip (lit "  1A = one" ++ [10; 32; 10] ++ lit "ff=two  ")))
    [(lit "1A", lit "one"); (lit "ff", lit "two")]
  /\ Forall (fun kv => fst kv <> []
                       /\ _validate_key_static (fst kv) SA Gxt = true
                       /\ strip (fst kv) = fst kv
                       /\ strip (snd kv) = snd kv)
       [(lit "1A", lit "one"); (lit "ff", lit "two")]
  /\ (true = true
      -> len [(lit "1A", lit "one"); (lit "ff", lit "two")]
         = len [lit "AA"; lit "BB"])
  /\ (false = true -> [(lit "1A", lit "one"); (lit "ff", lit "two")] <> []).
Proof.
  apply (batch_accept_sound false true [lit "AA"; lit "BB"] SA Gxt
           (lit "  1A = one" ++ [10; 32; 10] ++ lit "ff=two  ")).
  vm_compute. reflexivity.
Defined.

(* ------------------------------------------------------------------ *)

Lemma classify_reads_as v line kv :
  strip line = line -> line <> [] ->
  reads_as v Gxt line kv ->
  classify false line = KeyValue (fst kv) (snd kv)
  /\ fst kv <> [] /\ _validate_key_static (fst kv) v Gxt = true.
Proof.
  intros Hstrip Hne (key & value & Hsplit & -> & Hkey & Hvalid).
  cbn [fst snd]. split; [|split; assumption].
  unfold classify. rewrite Hstrip.
  destruct line as [|c line]; [congruence|].
  cbn [andb]. rewrite Hsplit. reflexivity.
Qed.

(** The import on the lines the dialog accepts. *)
Lemma load_accepted_lines v path lines : forall pairs (t : table) errs n,
  Forall (fun line => strip line = line /\ line <> []) lines ->
  Forall2 (reads_as v Gxt) lines pairs ->
  fold_result (Main.load_line false v path) (enumerate n lines)
    (mk_state [(MAIN, t)] errs (Some MAIN))
  = Ok (mk_state [(MAIN, store_all pairs t)] errs (Some MAIN)).
Proof.
  induction lines as [|line lines IH]; intros pairs t errs n Hlines Hall;
    inversion Hall as [|? kv ? pairs' Hkv Hall']; subst; [reflexivity|].
  inversion Hlines as [|? ? [Hstrip Hne] Hlines']; subst.
  destruct (classify_reads_as v line kv Hstrip Hne Hkv) as (Hcl & Hk & Hvalid).
  cbn [enumerate fold_result]. rewrite load_line_classify, Hcl.
  cbn [current_table data invalid_keys]. rewrite Hvalid.
  destruct (fst kv) as [|c k] eqn:Hfst; [congruence|].
  cbn [dict_get]. rewrite str_eqb_refl. cbn [bind dict_set].
  rewrite str_eqb_refl.
  rewrite (IH pairs' (dict_set t (c :: k) (snd kv)) errs (n + 1) Hlines' Hall').
  unfold store_all. cbn [fold_left]. rewrite Hfst. reflexivity.
Qed.

(** X23.  The dialog and the import agree.  A text the batch mode of
    the dialog accepts (for a GXT archive) is, line by line, a text that
    [_load_standard_txt] reads without table headers with no error, and
    the table [MAIN] it returns is what storing the pairs of the dialog
    one after the other gives: a later pair with the same key replaces
    the value of an earlier one. *)
Theorem batch_accept_matches_import :
  forall add edit keys v text pairs path,
    accept_batch add edit keys v Gxt text = Accepted pairs ->
    _load_standard_txt [(path, batch_lines (strip text))] false v
    = Ok ([(MAIN, store_all pairs [])], []).
Proof.
  intros add edit keys v text pairs path H.
  destruct (accept_batch_Accepted _ _ _ _ _ _ _ H) as (Hall & _).
  unfold _load_standard_txt. cbn [fold_result load_file].
  match goal with
  | |- context [fold_result ?f ?l ?s] =>
      assert (Hm : fold_result f l s
                   = Ok (mk_state [(MAIN, store_all pairs [])] [] (Some MAIN)))
  end.
  { apply load_accepted_lines; [apply batch_lines_stripped | exact Hall]. }
  rewrite Hm. reflexivity.
Qed.

Lemma batch_accept_matches_import_witness :
  _load_standard_txt
    [(lit "clip.txt", batch_lines (strip (lit "A=1" ++ [10] ++ lit "B = 2" ++ [10] ++ lit "A=3")))] false III
  = Ok ([(MAIN, store_all [(lit "A", lit "1"); (lit "B", lit "2");
                           (lit "A", lit "3")] [])], []).
Proof.
  apply (batch_accept_matches_import true false [] III (lit "A=1" ++ [10] ++ lit "B = 2" ++ [10] ++ lit "A=3") [(lit "A", lit "1"); (lit "B", lit "2"); (lit "A", lit "3")]
           (lit "clip.txt")).
  vm_compute. reflexivity.
Defined.

(* ================================================================== *)
(** * Adding a batch of entries *)

Import Entries.

Lemma add_pairs_spec pairs : forall (t : table) a dups,
  exists new dups',
    fold_left add_pair pairs (t, a, dups) = (t ++ new, a + len new, dups ++ dups')
    /\ len new + len dups' = len pairs
    /\ forall k,
         dict_get (t ++ new) k
         = match dict_get t k with
           | Some v => Some v
           | None => first_value pairs k
           end.
Proof.
  induction pairs as [|[key value] pairs IH]; intros t a dups.
  - exists [], []. cbn [fold_left]. rewrite !app_nil_r, Z.add_0_r.
    split; [reflexivity|]. split; [reflexivity|].
    intro k. destruct (dict_get t k); reflexivity.
  - cbn [fold_left]. unfold add_pair at 2.
    destruct (dict_mem t key) eqn:Hmem.
    + destruct (IH t a (dups ++ [key])) as (new & dups' & Hrun & Hlen & Hget).
      exists new, (key :: dups').
      split; [etransitivity; [exact Hrun|]; rewrite <- app_assoc; reflexivity|].
      split.
      { unfold len in *. cbn [length]. lia. }
      intro k. rewrite Hget. destruct (dict_get t k) as [v|] eqn:Hk; [reflexivity|].
      unfold first_value. cbn [find fst].
      destruct (str_eqb key k) eqn:E; [|reflexivity].
      apply str_eqb_true in E. subst k. unfold dict_mem in Hmem.
      rewrite Hk in Hmem. discriminate.
    + assert (Hfresh : ~ In key (map fst t)).
      { intro Hin. apply dict_mem_In in Hin. congruence. }
      rewrite (dict_set_fresh t key value Hfresh).
      destruct (IH (t ++ [(key, value)]) (a + 1) dups)
        as (new & dups' & Hrun & Hlen & Hget).
      exists ((key, value) :: new), dups'.
      split; [etransitivity; [exact Hrun|]; rewrite <- app_assoc;
              f_equal; f_equal; unfold len; cbn [length]; lia|].
      split; [unfold len in *; cbn [length]; lia|].
      intro k. change (t ++ (key, value) :: new) with (t ++ [(key, value)] ++ new).
      rewrite app_assoc, Hget. unfold first_value. cbn [find fst].
      rewrite <- (dict_set_fresh t key value Hfresh).
      destruct (str_eqb key k) eqn:E.
      * apply str_eqb_true in E. subst k. rewrite dict_get_set_same.
        apply dict_get_None in Hfresh. rewrite Hfresh. reflexivity.
      * rewrite dict_get_set_other
          by (intros ->; rewrite str_eqb_refl in E; discriminate).
        reflexivity.
Qed.

(** X24.  Adding a batch of pairs to a table never changes an entry the
    table has: the table afterwards is the table before followed by the
    new entries.  A key the table lacks gets the value of the first pair
    that names it - a later pair with the same key is counted as a
    duplicate, where the import of the same lines would keep the last
    value - and every pair is counted once, as added or as duplicate. *)
Theorem add_key_batch_spec : forall (t : table) pairs,
  exists new duplicate_keys,
    add_key_batch t pairs = (t ++ new, len new, duplicate_keys)
    /\ len new + len duplicate_keys = len pairs
    /\ forall k,
         dict_get (t ++ new) k
         = match dict_get t k with
           | Some v => Some v
           | None => first_value pairs k
           end.
Proof.
  intros t pairs. unfold add_key_batch.
  destruct (add_pairs_spec pairs t 0 []) as (new & dups & Hrun & Hlen & Hget).
  exists new, dups. split; [exact Hrun|]. split; assumption.
Qed.

(* ================================================================== *)
(** * Editing a batch of entries *)

Lemma split_nl_nonempty s : split_nl s <> [].
Proof.
  destruct s as [|c r]; cbn [split_nl]; [discriminate|].
  destruct (c =? 10); [discriminate|]. destruct (split_nl r); discriminate.
Qed.

Lemma split_nl_plain l : ~ In 10 l -> split_nl l = [l].
Proof.
  induction l as [|c l IH]; intro H; [reflexivity|]. cbn [In] in H.
  cbn [split_nl]. destruct (Z.eqb_spec c 10); [exfalso; apply H; left; congruence|].
  rewrite IH by tauto. reflexivity.
Qed.

Lemma split_nl_line l r : ~ In 10 l -> split_nl (l ++ 10 :: r) = l :: split_nl r.
Proof.
  induction l as [|c l IH]; intro H; [reflexivity|]. cbn [In] in H.
  cbn [app split_nl]. destruct (Z.eqb_spec c 10); [exfalso; apply H; left; congruence|].
  rewrite IH by tauto. reflexivity.
Qed.

Lemma split_join_nl lines :
  lines <> [] -> Forall (fun l => ~ In 10 l) lines ->
  split_nl (join_nl lines) = lines.
Proof.
  intros Hne Hall. induction Hall as [|l lines Hl Hall IH]; [congruence|].
  destruct lines as [|l2 lines]; [exact (split_nl_plain l Hl)|].
  change (join_nl (l :: l2 :: lines)) with (l ++ 10 :: join_nl (l2 :: lines)).
  rewrite (split_nl_line _ _ Hl), IH by discriminate. reflexivity.
Qed.

Lemma join_nl_nonempty lines :
  lines <> [] -> Forall (fun l => l <> []) lines -> join_nl lines <> [].
Proof.
  intros Hne Hall. destruct Hall as [|l lines Hl Hall]; [congruence|].
  destruct lines as [|l2 lines]; [exact Hl|].
  change (join_nl (l :: l2 :: lines)) with (l ++ 10 :: join_nl (l2 :: lines)).
  destruct l; discriminate.
Qed.

Lemma join_nl_stripped lines :
  lines <> [] ->
  Forall (fun l => strip l = l /\ l <> []) lines ->
  strip (join_nl lines) = join_nl lines.
Proof.
  intros Hne Hall. apply strip_fixed.
  - unfold no_leading_space. destruct Hall as [|l lines [Hl Hl0] Hall]; [congruence|].
    destruct (stripped_no_space _ Hl) as [Hlead _]. unfold no_leading_space in Hlead.
    destruct lines as [|l2 lines]; [exact Hlead|].
    change (join_nl (l :: l2 :: lines)) with (l ++ 10 :: join_nl (l2 :: lines)).
    apply lstrip_app_fixed; [exact Hlead | intro; contradiction].
  - unfold no_trailing_space.
    induction Hall as [|l lines [Hl Hl0] Hall IH]; [congruence|].
    destruct (stripped_no_space _ Hl) as [_ Htrail]. unfold no_trailing_space in Htrail.
    destruct lines as [|l2 lines]; [exact Htrail|].
    change (join_nl (l :: l2 :: lines)) with (l ++ 10 :: join_nl (l2 :: lines)).
    rewrite rev_app_distr. cbn [rev]. rewrite <- app_assoc.
    apply lstrip_app_fixed; [apply IH; discriminate|].
    intro E. exfalso.
    apply (join_nl_nonempty (l2 :: lines)); [discriminate | |].
    + eapply Forall_impl; [|exact Hall]. cbn. tauto.
    + apply (f_equal (@rev Z)) in E. rewrite rev_involutive in E. exact E.
Qed.

(** The line the editor shows for an entry, and how the dialog reads
    it. *)
Lemma entry_text_facts key value :
  bare_identifier key = true -> strip value = value -> ~ In 10 value ->
  strip (key ++ 61 :: value) = key ++ 61 :: value
  /\ key ++ 61 :: value <> []
  /\ ~ In 10 (key ++ 61 :: value)
  /\ split_once 61 (key ++ 61 :: value) = Some (key, value)
  /\ strip key = key /\ key <> [].
Proof.
  intros Hkey Hval Hnl. destruct (bare_identifier_chars _ Hkey) as [Hne Hall].
  destruct (stripped_no_space _ Hval) as [_ Htrail].
  split; [|split; [|split; [|split; [|split]]]].
  - apply strip_fixed.
    + unfold no_leading_space. destruct key as [|c key]; [congruence|].
      inversion Hall; subst. cbn [app lstrip].
      rewrite isspace_bare by assumption. reflexivity.
    + unfold no_trailing_space in *. rewrite rev_app_distr. cbn [rev].
      apply lstrip_app_fixed; [|intro E; destruct (rev value); discriminate].
      apply lstrip_app_fixed; [exact Htrail | intros _; reflexivity].
  - destruct key; discriminate.
  - intro Hin. apply in_app_or in Hin. destruct Hin as [Hin | [E | Hin]].
    + rewrite Forall_forall in Hall. pose proof (bare_char_range _ (Hall _ Hin)). lia.
    + discriminate.
    + contradiction.
  - apply split_once_first. intro Hin. rewrite Forall_forall in Hall.
    destruct (bare_char_plain 61 (Hall _ Hin)) as [H61 _]. congruence.
  - apply bare_stripped; assumption.
  - exact Hne.
Qed.

Lemma parse_good_lines v ft entries : forall i ps es,
  Forall (fun kv => bare_identifier (fst kv) = true
                    /\ _validate_key_static (fst kv) v ft = true
                    /\ strip (snd kv) = snd kv
                    /\ ~ In 10 (snd kv)) entries ->
  fold_left (parse_line v ft)
    (enumerate i (map (fun kv => fst kv ++ 61 :: snd kv) entries)) (ps, es)
  = (ps ++ entries, es).
Proof.
  induction entries as [|[k value] entries IH]; intros i ps es Hall.
  - cbn. rewrite app_nil_r. reflexivity.
  - inversion Hall as [|? ? (Hbare & Hvalid & Hval & Hnl) Hall']; subst.
    cbn [fst snd] in *.
    destruct (entry_text_facts k value Hbare Hval Hnl)
      as (_ & _ & _ & Hsplit & Hk & Hne).
    cbn [map enumerate fold_left fst snd]. unfold parse_line at 2.
    rewrite Hsplit. cbv zeta. rewrite Hk, Hval, Hvalid.
    destruct k as [|c k]; [congruence|]. cbn [is_nil negb].
    rewrite (IH (i + 1) (ps ++ [(c :: k, value)]) es Hall'), <- app_assoc.
    reflexivity.
Qed.

(** The text [edit_selected_items] makes for the editor, given to
    [accept] as it is. *)
Lemma accept_batch_text : forall entries v ft,
  entries <> [] ->
  Forall (fun kv => bare_identifier (fst kv) = true
                    /\ _validate_key_static (fst kv) v ft = true
                    /\ strip (snd kv) = snd kv
                    /\ ~ In 10 (snd kv)) entries ->
  accept_batch false true (map fst entries) v ft (batch_text entries)
  = Accepted entries.
Proof.
  intros entries v ft Hne Hall.
  set (lines := map (fun kv : str * str => fst kv ++ 61 :: snd kv) entries).
  assert (Hlines : Forall (fun l => (strip l = l /\ l <> []) /\ ~ In 10 l) lines).
  { unfold lines. apply Forall_map. eapply Forall_impl; [|exact Hall].
    intros [k value] (Hbare & _ & Hval & Hnl). cbn [fst snd] in *.
    destruct (entry_text_facts k value Hbare Hval Hnl) as (H1 & H2 & H3 & _).
    tauto. }
  assert (Hlne : lines <> []) by (unfold lines; destruct entries; [congruence | discriminate]).
  assert (Hstripped : Forall (fun l => strip l = l /\ l <> []) lines)
    by (eapply Forall_impl; [|exact Hlines]; cbn; tauto).
  assert (Hbatch : batch_lines (strip (batch_text entries)) = lines).
  { unfold batch_text. fold lines.
    rewrite (join_nl_stripped lines Hlne Hstripped).
    unfold batch_lines. rewrite split_join_nl;
      [|exact Hlne | eapply Forall_impl; [|exact Hlines]; cbn; tauto].
    clear - Hstripped. induction Hstripped as [|l ls [Hl Hl0] _ IH]; [reflexivity|].
    cbn [filter]. rewrite Hl. destruct l as [|c l]; [congruence|].
    cbn [is_nil negb map]. rewrite Hl, IH. reflexivity. }
  unfold accept_batch. cbv zeta. rewrite Hbatch.
  assert (Hlen : (len lines =? len (map fst entries)) = true).
  { apply Z.eqb_eq. unfold lines, len. rewrite !length_map. reflexivity. }
  rewrite Hlen. cbn [negb andb].
  destruct lines as [|l0 ls] eqn:El; [congruence|]. cbn [is_nil andb].
  rewrite <- El. unfold lines.
  rewrite (parse_good_lines v ft entries 1 [] [] Hall). reflexivity.
Qed.

Lemma bare_char_kept c :
  is_letter c || is_digit c || is_underscore c = true -> editor_keeps c = true.
Proof.
  intro H. apply bare_char_range in H. unfold editor_keeps.
  assert (Hs : is_scalar c = true) by (apply is_scalar_spec; lia).
  rewrite Hs. zcases; reflexivity.
Qed.

Lemma join_nl_kept lines :
  Forall (fun l => forallb editor_keeps l = true) lines ->
  forallb editor_keeps (join_nl lines) = true.
Proof.
  induction 1 as [|l ls Hl _ IH]; [reflexivity|].
  destruct ls as [|l' ls]; [exact Hl|].
  change (join_nl (l :: l' :: ls)) with (l ++ 10 :: join_nl (l' :: ls)).
  rewrite forallb_app, Hl. cbn [forallb andb]. rewrite IH. reflexivity.
Qed.

(** X25.  The batch editor shows entries it will take back.  The text
    [edit_selected_items] makes of the selected entries goes through the
    editor of the dialog ([setPlainText], then [toPlainText]) before
    [accept] reads it.  An editor gives back unchanged a text of
    line feeds and of characters it keeps - Unicode scalar values other
    than NUL, carriage return, U+00A0, U+2028, U+2029, U+FDD0 and
    U+FDD1, which the editor of Qt turns into a space or a line feed.
    With such an editor, for selected entries whose keys are valid
    identifiers and whose values hold only characters the editor keeps,
    no line feed and no surrounding white space, the dialog accepted
    as it stands gives back exactly the selected entries, in order. *)
Theorem batch_edit_unchanged :
  forall (plain_text : str -> str) entries v ft,
  (forall s, forallb editor_keeps s = true -> plain_text s = s) ->
  entries <> [] ->
  Forall (fun kv => bare_identifier (fst kv) = true
                    /\ _validate_key_static (fst kv) v ft = true
                    /\ strip (snd kv) = snd kv
                    /\ ~ In 10 (snd kv)
                    /\ forallb editor_keeps (snd kv) = true) entries ->
  edit_dialog plain_text entries v ft = Accepted entries.
Proof.
  intros plain_text entries v ft Hkeeps Hne Hall. unfold edit_dialog.
  rewrite Hkeeps.
  - apply accept_batch_text; [exact Hne|].
    eapply Forall_impl; [|exact Hall]. cbn. tauto.
  - unfold batch_text. apply join_nl_kept, Forall_map.
    eapply Forall_impl; [|exact Hall].
    intros [k value] (Hbare & _ & _ & _ & Hval). cbn [fst snd] in *.
    rewrite forallb_app. apply andb_true_iff. split.
    + apply forallb_forall. intros c Hc. apply bare_char_kept.
      pose proof (proj2 (bare_identifier_chars _ Hbare)) as Hchars.
      rewrite Forall_forall in Hchars. exact (Hchars c Hc).
    + cbn [forallb]. rewrite Hval. reflexivity.
Qed.

Lemma sample_editor_keeps s :
  forallb editor_keeps s = true -> sample_editor s = s.
Proof.
  unfold sample_editor. induction s as [|c s IH]; [reflexivity|].
  cbn [forallb map]. intro H. apply andb_true_iff in H. destruct H as [Hc Hs].
  rewrite (IH Hs). f_equal. revert Hc. unfold editor_keeps, editor_char.
  destruct (is_scalar c); cbn [andb]; [|discriminate].
  destruct ((c =? 0) || (c =? 13) || (c =? 160) || (c =? 8232) || (c =? 8233)
            || (c =? 64976) || (c =? 64977)) eqn:E; [discriminate|].
  intros _. repeat (apply orb_false_iff in E; destruct E as [E ?]).
  repeat match goal with H : (_ =? _) = false |- _ => rewrite H; clear H end.
  reflexivity.
Qed.

Lemma batch_edit_unchanged_witness :
  edit_dialog sample_editor
    [(lit "0x1234ABCD", lit "two words"); (lit "0XABCDEF01", [])] IV Dat
  = Accepted [(lit "0x1234ABCD", lit "two words"); (lit "0XABCDEF01", [])]
  /\ edit_dialog sample_editor [(lit "KEY", [97; 160; 98])] IV Gxt
     = Accepted [(lit "KEY", [97; 32; 98])]
  /\ edit_dialog sample_editor [(lit "KEY", [97; 8232; 98])] IV Gxt
     = LineCountMismatch.
Proof.
  split; [|split; vm_compute; reflexivity].
  apply (batch_edit_unchanged sample_editor
           [(lit "0x1234ABCD", lit "two words"); (lit "0XABCDEF01", [])] IV Dat).
  - exact sample_editor_keeps.
  - discriminate.
  - repeat constructor; cbn; intuition discriminate.
Defined.

(* ------------------------------------------------------------------ *)

Lemma has_duplicate_NoDup keys : has_duplicate keys = false -> NoDup keys.
Proof.
  induction keys as [|k keys IH]; intro H; [constructor|].
  cbn [has_duplicate] in H. apply orb_false_iff in H. destruct H as [Hk Hrest].
  constructor; [|exact (IH Hrest)].
  intro Hin. assert (Hex : existsb (str_eqb k) keys = true).
  { apply existsb_exists. exists k. split; [exact Hin | apply str_eqb_refl]. }
  congruence.
Qed.

Lemma existsb_str_In k keys : existsb (str_eqb k) keys = true <-> In k keys.
Proof.
  rewrite existsb_exists. split.
  - intros (x & Hx & E). apply str_eqb_true in E. subst x. exact Hx.
  - intro H. exists k. split; [exact H | apply str_eqb_refl].
Qed.

(** Storing items whose keys are new and differ appends them. *)
Lemma store_fresh {V} (l : dict V) : forall acc,
  NoDup (map fst (acc ++ l)) ->
  fold_left (fun a kv => dict_set a (fst kv) (snd kv)) l acc = acc ++ l.
Proof.
  induction l as [|[k v] l IH]; intros acc Hnd; cbn [fold_left].
  - rewrite app_nil_r. reflexivity.
  - cbn [fst snd].
    assert (Hfresh : ~ In k (map fst acc)).
    { rewrite map_app in Hnd. cbn [map fst] in Hnd.
      apply NoDup_remove_2 in Hnd. intro Hin. apply Hnd.
      apply in_or_app. left. exact Hin. }
    rewrite (dict_set_fresh acc k v Hfresh), IH; rewrite <- app_assoc;
      [reflexivity | exact Hnd].
Qed.

Lemma store_all_In {V} (l : dict V) : forall acc k v,
  dict_get (fold_left (fun a kv => dict_set a (fst kv) (snd kv)) l acc) k = Some v ->
  In (k, v) l \/ dict_get acc k = Some v.
Proof.
  induction l as [|[k0 v0] l IH]; intros acc k v; cbn [fold_left fst snd];
    [tauto|].
  intro H. destruct (IH _ _ _ H) as [Hin | Hget]; [left; right; exact Hin|].
  destruct (str_eqb k0 k) eqn:E.
  - apply str_eqb_true in E. subst k0. rewrite dict_get_set_same in Hget.
    left. left. congruence.
  - rewrite dict_get_set_other in Hget
      by (intros ->; rewrite str_eqb_refl in E; discriminate).
    right. exact Hget.
Qed.

Lemma store_all_keys {V} (l : dict V) : forall acc k,
  dict_get (fold_left (fun a kv => dict_set a (fst kv) (snd kv)) l acc) k = None ->
  ~ In k (map fst l).
Proof.
  induction l as [|[k0 v0] l IH]; intros acc k; cbn [fold_left fst snd map];
    [tauto|].
  intros H [E | Hin]; [|exact (IH _ _ H Hin)]. cbn [fst] in E. subst k0.
  clear IH. revert H.
  assert (Hkeep : forall (l : dict V) acc,
             dict_get acc k <> None ->
             dict_get (fold_left (fun a kv => dict_set a (fst kv) (snd kv)) l acc) k
             <> None).
  { clear. induction l as [|[k1 v1] l IH]; intros acc Hacc; cbn [fold_left fst snd];
      [exact Hacc|].
    apply IH. destruct (str_eqb k1 k) eqn:E.
    - apply str_eqb_true in E. subst k1. rewrite dict_get_set_same. discriminate.
    - rewrite dict_get_set_other
        by (intros ->; rewrite str_eqb_refl in E; discriminate).
      exact Hacc. }
  apply Hkeep. rewrite dict_get_set_same. discriminate.
Qed.

Lemma combine_In_fst {A B} (xs : list A) : forall (ys : list B) x y,
  In (x, y) (combine xs ys) -> In x xs /\ In y ys.
Proof.
  induction xs as [|x0 xs IH]; intros [|y0 ys] x y; cbn [combine In]; try tauto.
  intros [E | Hin]; [inversion E; subst; tauto|].
  destruct (IH _ _ _ Hin). tauto.
Qed.

Lemma combine_keys {A B} (xs : list A) : forall ys : list B,
  length ys = length xs -> map fst (combine xs ys) = xs.
Proof.
  induction xs as [|x xs IH]; intros [|y ys] Hlen; cbn in *; try lia;
    [reflexivity|]. rewrite IH by lia. reflexivity.
Qed.

(** Two old keys renamed to the same new key are the same old key. *)
Lemma combine_new_key_inj (olds : list str) : forall (news : list (str * str)) k1 e1 k2 e2,
  NoDup (map fst news) ->
  In (k1, e1) (combine olds news) -> In (k2, e2) (combine olds news) ->
  fst e1 = fst e2 -> k1 = k2.
Proof.
  induction olds as [|o olds IH]; intros [|p news] k1 e1 k2 e2 Hnd;
    cbn [combine In]; try tauto.
  cbn [map fst] in Hnd. inversion Hnd as [|? ? Hp Hnd']; subst.
  intros [E1 | H1] [E2 | H2] Hfst.
  - congruence.
  - inversion E1; subst. exfalso. apply Hp. rewrite Hfst.
    apply in_map. exact (proj2 (combine_In_fst _ _ _ _ H2)).
  - inversion E2; subst. exfalso. apply Hp. rewrite <- Hfst.
    apply in_map. exact (proj2 (combine_In_fst _ _ _ _ H1)).
  - exact (IH news k1 e1 k2 e2 Hnd' H1 H2 Hfst).
Qed.

Lemma NoDup_map_inj_in {A B} (g : A -> B) l :
  NoDup l -> (forall x y, In x l -> In y l -> g x = g y -> x = y) ->
  NoDup (map g l).
Proof.
  induction 1 as [|x l Hx Hnd IH]; intro Hinj; cbn [map]; constructor.
  - intro Hin. apply in_map_iff in Hin. destruct Hin as (y & Hy & Hyl).
    apply Hx. rewrite (Hinj x y (or_introl eq_refl) (or_intror Hyl) (eq_sym Hy)).
    exact Hyl.
  - apply IH. intros a b Ha Hb. apply Hinj; right; assumption.
Qed.

Lemma rebuild_store t edits :
  rebuild t edits
  = fold_left (fun a kv => dict_set a (fst kv) (snd kv))
              (map (edited edits) t) [].
Proof.
  unfold rebuild. generalize (@nil (str * str)).
  induction t as [|kv t IH]; intro acc; [reflexivity|].
  cbn [fold_left map]. rewrite IH. f_equal. unfold edited.
  destruct (dict_get edits (fst kv)) as [[nk nv]|]; reflexivity.
Qed.

(** X26.  A batch edit loses nothing.  When the edit goes through - as
    many pairs as selected keys, no new key twice, no new key equal to a
    key of the table that is not being edited - the table afterwards has
    the entries of the table before, in the same order, each selected
    entry replaced by its new key and value and every other entry as it
    was: the number of entries is the same and no two keys are equal. *)
Theorem batch_edit_keeps_entries :
  forall (t : table) original_keys new_pairs new_table,
    is_dict t ->
    apply_batch_edit t original_keys new_pairs = Updated new_table ->
    new_table = map (edited (edits_of original_keys new_pairs)) t
    /\ length new_table = length t
    /\ is_dict new_table.
Proof.
  intros t olds news new_table Ht. unfold apply_batch_edit.
  destruct (Z.eqb_spec (len news) (len olds)) as [Hlen | Hlen]; cbn [negb];
    [|discriminate].
  destruct (has_duplicate (map fst news)) eqn:Hdup; [discriminate|].
  destruct (existsb _ (map fst news)) eqn:Hconf; [discriminate|].
  intros [= <-].
  apply has_duplicate_NoDup in Hdup.
  set (edits := edits_of olds news).
  assert (Hlen' : length news = length olds) by (unfold len in Hlen; lia).
  assert (Hsome : forall k e, dict_get edits k = Some e -> In (k, e) (combine olds news)).
  { intros k e H. unfold edits, edits_of in H.
    destruct (store_all_In _ _ _ _ H) as [Hin | Hnil]; [exact Hin | discriminate]. }
  assert (Hnone : forall k, dict_get edits k = None -> ~ In k olds).
  { intros k H. unfold edits, edits_of in H. apply store_all_keys in H.
    rewrite (combine_keys olds news Hlen') in H. exact H. }
  assert (Hnoconf : forall k e k2, dict_get edits k = Some e ->
                      In k2 (map fst t) -> dict_get edits k2 = None ->
                      fst e <> k2).
  { intros k e k2 Hk Hk2 Hn E.
    assert (Hex : existsb (fun k => existsb (str_eqb k) (other_keys t olds))
                    (map fst news) = true).
    { apply existsb_exists. exists (fst e). split.
      - apply in_map. exact (proj2 (combine_In_fst _ _ _ _ (Hsome _ _ Hk))).
      - apply existsb_str_In. unfold other_keys. apply filter_In.
        rewrite E. split; [exact Hk2|]. apply negb_true_iff.
        destruct (existsb (str_eqb k2) olds) eqn:Ex; [|reflexivity].
        apply existsb_str_In in Ex. destruct (Hnone _ Hn Ex). }
    congruence. }
  assert (Hkeys : NoDup (map fst (map (edited edits) t))).
  { rewrite map_map. apply NoDup_map_inj_in.
    - unfold is_dict in Ht. apply NoDup_map_inv in Ht. exact Ht.
    - intros [k1 v1] [k2 v2] H1 H2 E.
      assert (Hk : k1 = k2).
      { unfold edited in E. cbn [fst] in E.
        pose proof (in_map fst _ _ H1) as Hk1. pose proof (in_map fst _ _ H2) as Hk2.
        cbn [fst] in Hk1, Hk2.
        destruct (dict_get edits k1) as [e1|] eqn:E1;
          destruct (dict_get edits k2) as [e2|] eqn:E2; cbn [fst] in E.
        - exact (combine_new_key_inj olds news k1 e1 k2 e2 Hdup
                   (Hsome _ _ E1) (Hsome _ _ E2) E).
        - destruct (Hnoconf _ _ _ E1 Hk2 E2 E).
        - destruct (Hnoconf _ _ _ E2 Hk1 E1 (eq_sym E)).
        - exact E. }
      subst k2. f_equal.
      pose proof (dict_get_Some_In t k1 v1 Ht H1) as G1.
      pose proof (dict_get_Some_In t k1 v2 Ht H2) as G2. congruence. }
  rewrite rebuild_store, (store_fresh _ [] Hkeys). cbn [app].
  split; [reflexivity|]. split; [apply length_map | exact Hkeys].
Qed.

Lemma batch_edit_keeps_entries_witness :
  [(lit "B", lit "x"); (lit "A", lit "one"); (lit "C", lit "3")]
  = map (edited (edits_of [lit "A"; lit "B"]
                   [(lit "B", lit "x"); (lit "A", lit "one")]))
        [(lit "A", lit "1"); (lit "B", lit "2"); (lit "C", lit "3")]
  /\ length [(lit "B", lit "x"); (lit "A", lit "one"); (lit "C", lit "3")]
     = length [(lit "A", lit "1"); (lit "B", lit "2"); (lit "C", lit "3")]
  /\ is_dict [(lit "B", lit "x"); (lit "A", lit "one"); (lit "C", lit "3")].
Proof.
  apply (batch_edit_keeps_entries
           [(lit "A", lit "1"); (lit "B", lit "2"); (lit "C", lit "3")]
           [lit "A"; lit "B"] [(lit "B", lit "x"); (lit "A", lit "one")]).
  - unfold is_dict. repeat constructor; cbn; intuition discriminate.
  - vm_compute. reflexivity.
Defined.

(* ================================================================== *)
(** * Opening several text files *)

Import OpenTxt.

Lemma dict_set_same_value {V} (d : dict V) k v :
  dict_get d k = Some v -> dict_set d k v = d.
Proof.
  induction d as [|[k' v'] d IH]; cbn [dict_get dict_set]; [discriminate|].
  destruct (str_eqb k' k); [intros [= ->]; reflexivity|].
  intro H. rewrite (IH H). reflexivity.
Qed.

Lemma dict_set_set {V} (d : dict V) k v w :
  dict_set (dict_set d k v) k w = dict_set d k w.
Proof.
  induction d as [|[k' v'] d IH]; cbn [dict_set].
  - rewrite str_eqb_refl. reflexivity.
  - destruct (str_eqb k' k) eqn:E; cbn [dict_set]; rewrite E;
      [reflexivity | rewrite IH; reflexivity].
Qed.

(** With the answer to overwrite, the loop of the merge over one table
    is [dict.update]. *)
Lemma merge_entries_update name (content : table) : forall (d : archive) a o (t : table),
  dict_get d name = Some t ->
  exists a' o',
    fold_result (merge_entry true name) content (d, a, o)
    = Ok (dict_set d name (store_all content t), a', o').
Proof.
  induction content as [|[k v] content IH]; intros d a o t Hget.
  - exists a, o. cbn [fold_result]. unfold store_all. cbn [fold_left].
    rewrite (dict_set_same_value d name t Hget). reflexivity.
  - cbn [fold_result]. unfold merge_entry at 1. unfold getitem. rewrite Hget.
    cbn [bind].
    set (d1 := dict_set d name (dict_set t k v)).
    assert (Hget1 : dict_get d1 name = Some (dict_set t k v))
      by apply dict_get_set_same.
    assert (Hres : forall a1 o1, exists a' o',
               fold_result (merge_entry true name) content (d1, a1, o1)
               = Ok (dict_set d name (store_all ((k, v) :: content) t), a', o')).
    { intros a1 o1. destruct (IH d1 a1 o1 _ Hget1) as (a' & o' & Hrun).
      exists a', o'. etransitivity; [exact Hrun|]. unfold d1.
      rewrite dict_set_set. reflexivity. }
    destruct (dict_mem t k); cbn [bind]; apply Hres.
Qed.

Lemma update_table_merge (temp : archive) nt a o :
  exists temp' a' o',
    update_table temp nt = Ok temp'
    /\ merge_table true (temp, a, o) nt = Ok (temp', a', o').
Proof.
  destruct nt as [name content]. unfold update_table, merge_table.
  set (temp0 := if negb (dict_mem temp name) then dict_set temp name [] else temp).
  assert (Hmem : dict_mem temp0 name = true).
  { unfold temp0. destruct (dict_mem temp name) eqn:E; cbn [negb];
      [exact E | apply dict_mem_set_same]. }
  unfold dict_mem in Hmem. unfold getitem.
  destruct (dict_get temp0 name) as [t|] eqn:Hget; [|discriminate].
  cbn [bind].
  destruct (merge_entries_update name content temp0 a o t Hget) as (a' & o' & Hrun).
  eexists. exists a', o'. split; [reflexivity | exact Hrun].
Qed.

Lemma update_tables_merge parsed : forall (temp : archive) a o,
  exists temp' a' o',
    fold_result update_table parsed temp = Ok temp'
    /\ fold_result (merge_table true) parsed (temp, a, o) = Ok (temp', a', o').
Proof.
  induction parsed as [|nt parsed IH]; intros temp a o.
  - exists temp, a, o. split; reflexivity.
  - cbn [fold_result].
    destruct (update_table_merge temp nt a o) as (t1 & a1 & o1 & Hu & Hm).
    rewrite Hu, Hm. cbn [bind]. apply IH.
Qed.

(** [update] on every table of a file: the entries of the file replace
    or add, nothing else changes. *)
Lemma update_tables_spec (parsed temp : archive) :
  is_archive parsed ->
  exists temp',
    fold_result update_table parsed temp = Ok temp'
    /\ (forall tn k,
           lookup temp' tn k
           = match lookup parsed tn k with
             | Some value => Some value
             | None => lookup temp tn k
             end)
    /\ (forall tn, dict_mem temp' tn = dict_mem temp tn || dict_mem parsed tn).
Proof.
  intro Hp.
  destruct (update_tables_merge parsed temp 0 0) as (temp' & a' & o' & Hu & Hm).
  destruct (merge_tables_spec true parsed temp 0 0 Hp)
    as (d' & a2 & o2 & Hm' & Hlook & Hmem & _).
  rewrite Hm in Hm'. apply Ok_inj in Hm'. inversion Hm'; subst d' a2 o2.
  exists temp'. split; [exact Hu|]. split; [|exact Hmem].
  intros tn k. rewrite Hlook.
  destruct (lookup parsed tn k); [|reflexivity].
  destruct (lookup temp tn k); reflexivity.
Qed.

Lemma valid_archive_is_archive v a : valid_archive v a -> is_archive a.
Proof.
  intros [Hnd Hall]. split; [exact Hnd|].
  eapply Forall_impl; [|exact Hall]. intros nt (_ & Htnd & _). exact Htnd.
Qed.

Lemma unnamed_entry_no_tables v f : forall u,
  u = false -> unnamed_entry false v u f = false.
Proof.
  induction f as [|line f IH]; intros u ->; [reflexivity|].
  cbn [unnamed_entry].
  destruct (classify false line) as [|name|k value|] eqn:Hcl.
  - apply IH. reflexivity.
  - destruct (classify_no_header _ _ Hcl).
  - cbn [andb orb]. apply IH. reflexivity.
  - apply IH. reflexivity.
Qed.

(** One file read on its own: a valid archive and the keys refused, or
    an exception - the [KeyError] of an entry under an unnamed header,
    or what the opening or the reading of the file raises. *)
Lemma load_one_file file ht v :
  (exists e,
      _load_standard_txt_files [file] ht v = Raise e
      /\ ((e = KeyError /\ ht = true) \/ failure (snd file) = Some e))
  \/ exists a errs,
       _load_standard_txt_files [file] ht v = Ok (a, errs)
       /\ valid_archive v a /\ Forall (rejected v) errs.
Proof.
  unfold _load_standard_txt_files.
  destruct (load_text_files_inv ht v [file] _ false (loader_inv_init ht v))
    as [Hok Hraise].
  match goal with
  | |- context [fold_result ?f ?fs ?st] =>
      destruct (fold_result f fs st) as [st'|e'] eqn:Hrun
  end; cbn [bind].
  - right. destruct (Hok st' eq_refl) as (_ & _ & Harch & Herrs & _).
    exists (data st'), (invalid_keys st').
    split; [reflexivity|]. split; assumption.
  - left. exists e'. split; [reflexivity|].
    destruct (Hraise e' eq_refl)
      as [[-> Hyes] | (before & file' & after & Hfiles & _ & Hf & _)].
    + left. split; [reflexivity|]. destruct ht; [reflexivity|].
      rewrite unnamed_entry_no_tables in Hyes by reflexivity. discriminate.
    + right. destruct before as [|b before]; cbn [app] in Hfiles.
      * injection Hfiles as <- _. exact Hf.
      * injection Hfiles as _ Hrest. destruct before; discriminate.
Qed.

Lemma open_files_spec ht v files : forall (temp : archive) errs,
  match fold_result (open_file ht v) files (temp, errs) with
  | Raise e =>
      (e = KeyError /\ ht = true)
      \/ exists file, In file files /\ failure (snd file) = Some e
  | Ok (temp', errs') =>
      exists new,
        errs' = errs ++ new
        /\ Forall (rejected v) new
        /\ (new = [] ->
            exists archives,
              Forall2 (fun file a =>
                         _load_standard_txt_files [file] ht v = Ok (a, []))
                      files archives
              /\ (forall tn k,
                     lookup temp' tn k
                     = last_lookup archives tn k (lookup temp tn k))
              /\ (forall tn,
                     dict_mem temp' tn
                     = dict_mem temp tn || existsb (fun a => dict_mem a tn) archives))
  end.
Proof.
  induction files as [|file files IH]; intros temp errs.
  - cbn [fold_result]. exists []. rewrite app_nil_r.
    split; [reflexivity|]. split; [constructor|]. intros _.
    exists []. split; [constructor|]. split; [reflexivity|].
    intro tn. cbn [existsb]. rewrite orb_false_r. reflexivity.
  - cbn [fold_result]. unfold open_file at 1.
    destruct (load_one_file file ht v)
      as [(e0 & Hrun & He0) | (a & ferrs & Hrun & Ha & Hferrs)];
      rewrite Hrun; cbn [bind].
    { destruct He0 as [He0 | He0]; [left; exact He0|].
      right. exists file. split; [left; reflexivity | exact He0]. }
    destruct ferrs as [|fe ferrs]; cbn [is_nil negb].
    + destruct (update_tables_spec a temp (valid_archive_is_archive v a Ha))
        as (temp1 & Hupd & Hlook1 & Hmem1).
      rewrite Hupd. cbn [bind]. specialize (IH temp1 errs).
      destruct (fold_result (open_file ht v) files (temp1, errs))
        as [[temp' errs']|e].
      2: { destruct IH as [IH | (file' & Hin & Hf)]; [left; exact IH|].
           right. exists file'. split; [right; exact Hin | exact Hf]. }
      destruct IH as (new & -> & Hnew & Hall).
      exists new. split; [reflexivity|]. split; [exact Hnew|].
      intro Hnil. destruct (Hall Hnil) as (archives & Hfiles & Hlook & Hmem).
      exists (a :: archives). split; [constructor; assumption|]. split.
      * intros tn k. rewrite Hlook. unfold last_lookup. cbn [fold_left].
        rewrite Hlook1. reflexivity.
      * intro tn. rewrite Hmem, Hmem1. cbn [existsb]. rewrite orb_assoc.
        reflexivity.
    + cbn [bind]. specialize (IH temp (errs ++ fe :: ferrs)).
      destruct (fold_result (open_file ht v) files (temp, errs ++ fe :: ferrs))
        as [[temp' errs']|e].
      2: { destruct IH as [IH | (file' & Hin & Hf)]; [left; exact IH|].
           right. exists file'. split; [right; exact Hin | exact Hf]. }
      destruct IH as (new & -> & Hnew & _).
      exists ((fe :: ferrs) ++ new). rewrite <- app_assoc.
      split; [reflexivity|]. split; [apply Forall_app; split; assumption|].
      discriminate.
Qed.

Lemma open_files_result ht v files (temp : archive) errs m :
  fold_result (open_file ht v) files (temp, errs) = m ->
  match m with
  | Raise e =>
      (e = KeyError /\ ht = true)
      \/ exists file, In file files /\ failure (snd file) = Some e
  | Ok (temp', errs') =>
      exists new,
        errs' = errs ++ new
        /\ Forall (rejected v) new
        /\ (new = [] ->
            exists archives,
              Forall2 (fun file a =>
                         _load_standard_txt_files [file] ht v = Ok (a, []))
                      files archives
              /\ (forall tn k,
                     lookup temp' tn k
                     = last_lookup archives tn k (lookup temp tn k))
              /\ (forall tn,
                     dict_mem temp' tn
                     = dict_mem temp tn || existsb (fun a => dict_mem a tn) archives))
  end.
Proof. intros <-. apply open_files_spec. Qed.

(** X27.  Opening text files is all or nothing.  [open_txt] hands an
    archive on only when every file, read on its own, has no invalid
    key; the archive then holds, for each table and key, the value of
    the last file that has it, and the tables of all files.  When some
    file has an invalid key nothing is handed on, and what is reported
    are keys the dialect refuses.  An exception ends the import with
    nothing handed on (the [except] clause reports it): it is the
    [KeyError] of an entry under an unnamed header, in a dialect with
    tables, or the exception that the opening or the reading of one of
    the files raises ([OSError], [UnicodeDecodeError]). *)
Theorem open_txt_all_or_nothing : forall files has_tables v,
  match open_txt_standard files has_tables v with
  | ImportFailed e =>
      (e = KeyError /\ has_tables = true)
      \/ exists file, In file files /\ failure (snd file) = Some e
  | ImportRejected errors => errors <> [] /\ Forall (rejected v) errors
  | Imported temp_data =>
      exists archives,
        Forall2 (fun file a =>
                   _load_standard_txt_files [file] has_tables v = Ok (a, []))
                files archives
        /\ (forall table_name key,
               lookup temp_data table_name key
               = last_lookup archives table_name key None)
        /\ (forall table_name,
               dict_mem temp_data table_name
               = existsb (fun a => dict_mem a table_name) archives)
  end.
Proof.
  intros files ht v. unfold open_txt_standard.
  match goal with
  | |- context [fold_result ?f ?fs ?acc] =>
      destruct (fold_result f fs acc) as [[temp errs]|e'] eqn:Hm
  end.
  2: { exact (open_files_result ht v files [] [] _ Hm). }
  pose proof (open_files_result ht v files [] [] _ Hm) as H. cbv beta iota in H.
  destruct H as (new & -> & Hnew & Hall). cbn [app] in *.
  destruct new as [|e new]; cbn [is_nil negb].
  - destruct (Hall eq_refl) as (archives & Hfiles & Hlook & Hmem).
    exists archives. split; [exact Hfiles|]. split; [exact Hlook | exact Hmem].
  - split; [discriminate | exact Hnew].
Qed.

(* ================================================================== *)
(** * Table names and renaming *)

Import Tables.

Lemma match_to_end_stripped r s : strip s = s -> match_to_end r s = fullmatch r s.
Proof.
  intro H. unfold match_to_end.
  destruct (stripped_no_space s H) as [_ Htrail]. unfold no_trailing_space in Htrail.
  destruct (rev s) as [|c before]; [apply orb_false_r|].
  destruct (Z.eqb_spec c 10) as [-> | Hc].
  - pose proof (lstrip_fixed_head _ _ Htrail) as Hsp. discriminate.
  - replace (match c with 10 => fullmatch r (rev before) | _ => false end)
      with false; [apply orb_false_r|].
    destruct c as [|p|p]; try reflexivity.
    do 4 (destruct p as [p|p|]; try reflexivity). congruence.
Qed.

Lemma match_to_end_newline r s :
  fullmatch r s = true -> match_to_end r (s ++ [10]) = true.
Proof.
  intro H. unfold match_to_end. rewrite rev_app_distr. cbn [rev app].
  rewrite rev_involutive, H. apply orb_true_r.
Qed.

(** X28.  The rule of table names.  For a name without surrounding
    white space - its callers strip the name first -
    [validate_table_name] is the full match of the pattern: 1 to 7
    digits, capitals or underscores for VC and SA, 1 to 7 digits,
    letters or underscores for IV.  Taken alone the function also
    accepts such a name followed by one line feed, since the pattern
    ends in ['$'] and is tried with [re.match]; and for any other
    version it accepts every text, the empty one too. *)
Theorem validate_table_name_spec : forall name : str,
  (strip name = name ->
   validate_table_name name VC = hashed_short_upper name
   /\ validate_table_name name SA = hashed_short_upper name
   /\ validate_table_name name IV = plain_7 name)
  /\ (hashed_short_upper name = true ->
      validate_table_name (name ++ [10]) VC = true
      /\ validate_table_name (name ++ [10]) SA = true)
  /\ (plain_7 name = true -> validate_table_name (name ++ [10]) IV = true)
  /\ validate_table_name name III = true
  /\ validate_table_name name OtherVersion = true.
Proof.
  intro name. split; [|split; [|split; [|split; reflexivity]]].
  - intro H. cbn [validate_table_name].
    rewrite !(match_to_end_stripped _ _ H), fullmatch_re_vc, fullmatch_re_iii.
    repeat split.
  - intro H. cbn [validate_table_name]. rewrite <- fullmatch_re_vc in H.
    rewrite (match_to_end_newline _ _ H). split; reflexivity.
  - intro H. cbn [validate_table_name]. rewrite <- fullmatch_re_iii in H.
    exact (match_to_end_newline _ _ H).
Qed.

Lemma validate_table_name_spec_witness :
  (validate_table_name (lit "MAIN") VC = hashed_short_upper (lit "MAIN")
   /\ validate_table_name (lit "MAIN") SA = hashed_short_upper (lit "MAIN")
   /\ validate_table_name (lit "MAIN") IV = plain_7 (lit "MAIN"))
  /\ (validate_table_name (lit "MAIN" ++ [10]) VC = true
      /\ validate_table_name (lit "MAIN" ++ [10]) SA = true)
  /\ validate_table_name (lit "MAIN" ++ [10]) IV = true.
Proof.
  destruct (validate_table_name_spec (lit "MAIN")) as (H1 & H2 & H3 & _).
  split; [apply H1; vm_compute; reflexivity|].
  split; [apply H2; vm_compute; reflexivity|].
  apply H3. vm_compute. reflexivity.
Defined.

(* ------------------------------------------------------------------ *)







(* ================================================================== *)
(** * The JSON variant and the first variant of the codec *)

Lemma json_decode_bytes bts : Json.decode_bytes bts = decode_bytes bts.
Proof.
  unfold Json.decode_bytes, decode_bytes, encodings.
  cbn [Json.decode_loop decode_loop decode].
  destruct (utf8_decode bts); [reflexivity|].
  destruct (for_each cp1252_char bts); [reflexivity|].
  rewrite for_each_latin1. reflexivity.
Qed.

Lemma land_u32 h : u32 h -> Z.land h 4294967295 = h.
Proof.
  intro H. change 4294967295 with (Z.ones 32).
  rewrite Z.land_ones by lia. apply Z.mod_small. exact H.
Qed.

Lemma json_build_blob items : forall blob offs,
  Json.build_blob items blob offs = build_blob (map Json.written items) blob offs.
Proof.
  induction items as [|it items IH]; intros blob offs; [reflexivity|].
  cbn [Json.build_blob map build_blob Json.written text].
  destruct (utf8_encode (Json.chosen_text it)); cbn [bind]; [apply IH | reflexivity].
Qed.

Lemma json_build_header items : forall offs header,
  Json.build_header (combine items offs) header
  = build_header (combine (map Json.written items) offs) header.
Proof.
  induction items as [|it items IH]; intros [|o offs] header; try reflexivity.
  cbn [combine map Json.build_header build_header Json.written hash].
  destruct (pack_II (Json.jhash it) o); cbn [bind]; [apply IH | reflexivity].
Qed.

(** One entry, read by both variants. *)
Lemma json_entry_item blob blob_size h off :
  u32 h -> 0 <= off ->
  match Json.entry_item blob blob_size (h, off) with
  | Ok j =>
      entry_item blob blob_size (h, off) = Ok (Json.read_as j)
      /\ Json.jhash j = h
      /\ (exists t, Json.original j = Some t)
      /\ Json.translated j = Some [] /\ Json.desc j = Some []
  | Raise e => entry_item blob blob_size (h, off) = Raise e
  end.
Proof.
  intros Hh Hoff. unfold Json.entry_item, entry_item, entry_bytes.
  destruct (Z.ltb_spec off 0); [lia|]. cbn [orb].
  destruct (Z.leb_spec blob_size off); destruct (Z.ltb_spec off blob_size);
    try lia; cbn [bind].
  - unfold Json.read_as. cbn [Json.jhash Json.original Json.translated Json.desc].
    rewrite (land_u32 h Hh). repeat split. exists []. reflexivity.
  - destruct (scan_nul blob blob_size (Z.to_nat (blob_size - off)) off)
      as [j|e] eqn:Hs; cbn [bind]; [|reflexivity].
    destruct (scan_nul_nonzero _ _ _ _ _ Hoff Hs) as [_ Hnz].
    destruct (slice blob off j) as [|b bts] eqn:Hsl; cbn [bind].
    + unfold Json.read_as. cbn [Json.jhash Json.original Json.translated Json.desc].
      rewrite (land_u32 h Hh). repeat split. exists []. reflexivity.
    + rewrite json_decode_bytes.
      destruct (decode_bytes (b :: bts)) as [s|e] eqn:Hd; cbn [bind]; [|reflexivity].
      destruct (decode_bytes_c_text _ _ Hd Hnz) as [_ Hne].
      unfold Json.read_as. cbn [Json.jhash Json.original Json.translated Json.desc].
      rewrite (land_u32 h Hh).
      destruct s as [|c s]; [exfalso; apply Hne; [discriminate | reflexivity]|].
      repeat split. exists (c :: s). reflexivity.
Qed.

Lemma json_for_each blob blob_size entries :
  Forall (fun e => u32 (fst e) /\ u32 (snd e)) entries ->
  match for_each (Json.entry_item blob blob_size) entries with
  | Ok js =>
      for_each (entry_item blob blob_size) entries = Ok (map Json.read_as js)
      /\ map Json.jhash js = map fst entries
      /\ Forall (fun j => (exists t, Json.original j = Some t)
                          /\ Json.translated j = Some []
                          /\ Json.desc j = Some []) js
  | Raise e => for_each (entry_item blob blob_size) entries = Raise e
  end.
Proof.
  induction 1 as [|[h off] entries [Hh Ho] _ IH]; cbn [for_each].
  - repeat split. constructor.
  - cbn [fst snd] in Hh, Ho.
    pose proof (json_entry_item blob blob_size h off Hh (proj1 Ho)) as He.
    destruct (Json.entry_item blob blob_size (h, off)) as [j|e]; cbn [bind].
    + destruct He as (He & Hj & Hrest). rewrite He. cbn [bind].
      destruct (for_each (Json.entry_item blob blob_size) entries) as [js|e];
        cbn [bind].
      * destruct IH as (IH & Hhs & Hall). rewrite IH. cbn [bind map fst].
        split; [reflexivity|]. split; [rewrite Hj, Hhs; reflexivity|].
        constructor; assumption.
      * rewrite IH. reflexivity.
    + rewrite He. reflexivity.
Qed.

(** X30.  The two variants of the codec are one codec.  The JSON
    variant writes for its items the file the first variant writes for
    the same hashes with the text chosen by [translated or original or
    ""], and fails as it fails.  On any file the two variants of
    [parse_whm_table] raise the same exception or return the same
    entries: the same hashes - the mask of the JSON variant changes
    none - and the same texts, except that the JSON variant gives the
    empty text where the first gives the placeholder; its [translated]
    and [desc] are always empty. *)
Theorem json_variant_agrees :
  (forall items : list Json.jitem,
      Json.dump_whm_table items = dump_whm_table (map Json.written items))
  /\ (forall data : bytes,
         match Json.parse_whm_table data with
         | Ok js =>
             parse_whm_table data = Ok (map Json.read_as js)
             /\ Forall (fun j => u32 (Json.jhash j)
                                 /\ (exists t, Json.original j = Some t)
                                 /\ Json.translated j = Some []
                                 /\ Json.desc j = Some []) js
         | Raise e => parse_whm_table data = Raise e
         end).
Proof.
  split.
  - intro items. unfold Json.dump_whm_table, dump_whm_table.
    rewrite json_build_blob.
    destruct (build_blob (map Json.written items) [] []) as [[blob offs]|];
      cbn [bind]; [|reflexivity].
    replace (len (map Json.written items)) with (len items)
      by (unfold len; rewrite length_map; reflexivity).
    destruct (pack_I (len items)); cbn [bind]; [|reflexivity].
    rewrite json_build_header. reflexivity.
  - intro data. unfold Json.parse_whm_table, parse_whm_table.
    destruct (read_entries data) as [[[entries blob_start] blob_size]|e] eqn:Hre;
      cbn [bind]; [|reflexivity].
    destruct (read_entries_inv _ _ _ _ Hre) as (Hes & _ & _).
    pose proof (json_for_each (slice data blob_start (blob_start + blob_size))
                  blob_size entries Hes) as H.
    destruct (for_each (Json.entry_item _ blob_size) entries) as [js|e];
      [|exact H].
    destruct H as (Hrun & Hhs & Hall). split; [exact Hrun|].
    assert (Hu : Forall (fun j => u32 (Json.jhash j)) js).
    { apply Forall_forall. intros j Hj.
      apply (in_map Json.jhash) in Hj. rewrite Hhs in Hj.
      apply in_map_iff in Hj. destruct Hj as (e & <- & He).
      rewrite Forall_forall in Hes. exact (proj1 (Hes _ He)). }
    clear - Hu Hall. induction Hall as [|j js Hj _ IH]; [constructor|].
    inversion Hu; subst. constructor; [tauto | apply IH; assumption].
Qed.

(* ================================================================== *)
(** * What the import stores and what it reports *)

Lemma str_eqb_neq a b : str_eqb a b = false -> a <> b.
Proof. intros E ->. rewrite str_eqb_refl in E. discriminate. Qed.

Lemma stored_cons ht v cur line rest tn k before :
  stored ht v cur (line :: rest) tn k before
  = stored ht v
      (match classify ht line with Header name => Some name | _ => cur end)
      rest tn k (stored ht v cur [line] tn k before).
Proof. cbn [stored]. destruct (classify ht line); reflexivity. Qed.

Lemma has_header_cons ht line rest tn :
  has_header ht (line :: rest) tn
  = has_header ht [line] tn || has_header ht rest tn.
Proof. unfold has_header. cbn [existsb]. rewrite orb_false_r. reflexivity. Qed.

(** A key the dialect refuses is given no value. *)
Lemma stored_refused ht v key tn lines : forall cur before,
  _validate_key_static key v Gxt = false ->
  stored ht v cur lines tn key before = before.
Proof.
  induction lines as [|line lines IH]; intros cur before Hv; [reflexivity|].
  cbn [stored]. destruct (classify ht line) as [|name|k value|];
    try (apply IH; exact Hv).
  rewrite (IH cur _ Hv). destruct cur as [c|]; [|reflexivity].
  destruct (str_eqb k key) eqn:E.
  - apply str_eqb_true in E. subst k. rewrite Hv. reflexivity.
  - rewrite andb_false_r. reflexivity.
Qed.

(** One line, on a state whose current table is open: what it makes of
    the archive. *)
Lemma load_line_content ht v path st n line :
  table_open st ->
  classify ht line <> Header [] ->
  exists st',
    Main.load_line ht v path st (n, line) = Ok st'
    /\ table_open st'
    /\ current_table st'
       = match classify ht line with
         | Header name => Some name
         | _ => current_table st
         end
    /\ (forall tn k,
           lookup (data st') tn k
           = stored ht v (current_table st) [line] tn k (lookup (data st) tn k))
    /\ (forall tn,
           dict_mem (data st') tn
           = dict_mem (data st) tn || has_header ht [line] tn).
Proof.
  intros Hopen Hname. rewrite load_line_classify.
  destruct st as [d es cur]. unfold table_open in *. unfold has_header.
  cbn [data invalid_keys current_table stored existsb] in *.
  destruct (classify ht line) as [|name|key value|] eqn:Hk.
  - exists (mk_state d es cur). cbn [data current_table].
    split; [reflexivity|]. split; [exact Hopen|]. split; [reflexivity|].
    split; [reflexivity|]. intro tn. rewrite orb_false_r. reflexivity.
  - destruct name as [|c name]; [contradiction|].
    eexists. split; [reflexivity|]. cbn [data current_table].
    split; [|split; [reflexivity|split]].
    + intros cur' [= <-].
      destruct (dict_mem d (c :: name)) eqn:Hm;
        [exact Hm | apply dict_mem_set_same].
    + intros tn k. destruct (dict_mem d (c :: name)) eqn:Hm; [reflexivity|].
      destruct (str_eqb (c :: name) tn) eqn:E.
      * apply str_eqb_true in E. subst tn. rewrite lookup_set_same.
        unfold lookup. unfold dict_mem in Hm.
        destruct (dict_get d (c :: name)); [discriminate | reflexivity].
      * apply lookup_set_other, str_eqb_neq, E.
    + intro tn. rewrite orb_false_r.
      destruct (str_eqb (c :: name) tn) eqn:E.
      * apply str_eqb_true in E. subst tn. rewrite orb_true_r.
        destruct (dict_mem d (c :: name)) eqn:Hm;
          [exact Hm | apply dict_mem_set_same].
      * rewrite orb_false_r.
        destruct (dict_mem d (c :: name)) eqn:Hm; [reflexivity|].
        apply dict_mem_set_other, str_eqb_neq, E.
  - destruct cur as [c|].
    + destruct (_validate_key_static key v Gxt) eqn:Hv.
      * destruct key as [|kc key].
        { exists (mk_state d es (Some c)). cbn [data current_table nonempty andb].
          split; [reflexivity|]. split; [exact Hopen|]. split; [reflexivity|].
          split; [reflexivity|]. intro tn. rewrite orb_false_r. reflexivity. }
        { pose proof (Hopen c eq_refl) as Hm. unfold dict_mem in Hm.
          destruct (dict_get d c) as [t|] eqn:Hg; [|discriminate].
          eexists. split; [reflexivity|].
          cbn [data current_table nonempty andb].
          split; [|split; [reflexivity|split]].
          - intros cur' [= <-]. apply dict_mem_set_same.
          - intros tn k. destruct (str_eqb c tn) eqn:E; cbn [andb].
            + apply str_eqb_true in E. subst tn. rewrite lookup_set_same.
              destruct (str_eqb (kc :: key) k) eqn:E2.
              * apply str_eqb_true in E2. subst k. apply dict_get_set_same.
              * rewrite dict_get_set_other by exact (str_eqb_neq _ _ E2).
                unfold lookup. rewrite Hg. reflexivity.
            + apply lookup_set_other, str_eqb_neq, E.
          - intro tn. rewrite orb_false_r.
            destruct (str_eqb c tn) eqn:E.
            + apply str_eqb_true in E. subst tn. rewrite dict_mem_set_same.
              unfold dict_mem. rewrite Hg. reflexivity.
            + apply dict_mem_set_other, str_eqb_neq, E. }
      * eexists. split; [reflexivity|]. cbn [data current_table andb].
        split; [exact Hopen|]. split; [reflexivity|].
        split; [reflexivity|]. intro tn. rewrite orb_false_r. reflexivity.
    + exists (mk_state d es None). cbn [data current_table].
      split; [reflexivity|]. split; [exact Hopen|]. split; [reflexivity|].
      split; [reflexivity|]. intro tn. rewrite orb_false_r. reflexivity.
  - exists (mk_state d es cur). cbn [data current_table].
    split; [reflexivity|]. split; [exact Hopen|]. split; [reflexivity|].
    split; [reflexivity|]. intro tn. rewrite orb_false_r. reflexivity.
Qed.

Lemma load_lines_content ht v path nls : forall st,
  table_open st ->
  named_headers ht (map snd nls) ->
  exists st',
    fold_result (Main.load_line ht v path) nls st = Ok st'
    /\ (forall tn k,
           lookup (data st') tn k
           = stored ht v (current_table st) (map snd nls) tn k
               (lookup (data st) tn k))
    /\ (forall tn,
           dict_mem (data st') tn
           = dict_mem (data st) tn || has_header ht (map snd nls) tn).
Proof.
  induction nls as [|[n line] nls IH]; intros st Hopen Hnames.
  - exists st. split; [reflexivity|]. split; [reflexivity|].
    intro tn. cbn. rewrite orb_false_r. reflexivity.
  - cbn [map snd] in Hnames. inversion Hnames as [|? ? Hline Hrest]; subst.
    destruct (load_line_content ht v path st n line Hopen Hline)
      as (st1 & Hstep & Hopen1 & Hcur1 & Hlook1 & Hmem1).
    destruct (IH st1 Hopen1 Hrest) as (st' & Hfold & Hlook & Hmem).
    exists st'. cbn [fold_result map snd]. rewrite Hstep. cbn [bind].
    split; [exact Hfold|]. split.
    + intros tn k.
      rewrite (stored_cons ht v (current_table st) line (map snd nls)).
      rewrite Hlook, Hlook1, Hcur1. reflexivity.
    + intro tn. rewrite (has_header_cons ht line (map snd nls)).
      rewrite Hmem, Hmem1, orb_assoc. reflexivity.
Qed.

(** C5, as the code has it.  In a text whose table headers all have a
    name, every [key=value] line that stands under a table (after a
    header, or anywhere when the dialect has no tables) and whose key
    fails the rule of the dialect is reported, in order, with its key,
    its 1-based line number, the file and the message; the import goes on
    to the end, and the archive it returns is the one the same text gives
    with those lines emptied, which has no error.  The other lines are
    parsed as if the refused ones were not there: the archive has the
    table [MAIN] of a dialect without tables and a table for each header,
    and no other; in a table, a key has the value of the last
    [key=value] line under a header of that name that gives it one, the
    key being accepted and not empty; a key the dialect refuses has no
    value, and neither has the key of a line that comes before the first
    header. *)
Theorem invalid_keys_are_collected path f has_tables v :
  named_headers has_tables f ->
  exists archive,
    _load_standard_txt [(path, f)] has_tables v
    = Ok (archive, reported has_tables v path (negb has_tables) (enumerate 1 f))
    /\ _load_standard_txt
         [(path, blank_where (invalid_key_line has_tables v) f)] has_tables v
       = Ok (archive, [])
    /\ (forall table_name key,
           lookup archive table_name key
           = stored has_tables v (if has_tables then None else Some MAIN) f
               table_name key None)
    /\ (forall table_name,
           dict_mem archive table_name
           = (negb has_tables && str_eqb MAIN table_name)
             || has_header has_tables f table_name)
    /\ (forall table_name key,
           _validate_key_static key v Gxt = false ->
           lookup archive table_name key = None).
Proof.
  intro Hnames.
  set (init := mk_state (if has_tables then [] else [(MAIN, [])]) []
                        (if has_tables then None else Some MAIN)).
  assert (Hopen : table_open init).
  { intros cur. unfold init. destruct has_tables; cbn; [discriminate|].
    intros [= <-]. reflexivity. }
  assert (Hn : named_headers has_tables (map snd (enumerate 1 f)))
    by (rewrite map_snd_enumerate; exact Hnames).
  destruct (load_lines_spec has_tables v path (enumerate 1 f) init Hopen Hn)
    as (st' & Hfold & _ & Herr & Hblank).
  destruct (load_lines_content has_tables v path (enumerate 1 f) init Hopen Hn)
    as (st2 & Hfold2 & Hlook & Hmem).
  rewrite Hfold in Hfold2. apply Ok_inj in Hfold2. subst st2.
  rewrite map_snd_enumerate in Hlook, Hmem.
  assert (Hlook0 : forall tn k, lookup (data init) tn k = None).
  { intros tn k. unfold init, lookup. destruct has_tables; [reflexivity|].
    cbn [data dict_get]. destruct (str_eqb MAIN tn); reflexivity. }
  assert (Hstored : forall tn k,
             lookup (data st') tn k
             = stored has_tables v (if has_tables then None else Some MAIN) f
                 tn k None).
  { intros tn k. rewrite Hlook, Hlook0. unfold init.
    cbn [current_table]. reflexivity. }
  exists (data st'). unfold _load_standard_txt. fold init.
  cbn [fold_result load_file]. split; [|split; [|split; [|split]]].
  - rewrite Hfold. cbn [bind]. rewrite Herr. unfold init at 1 2.
    cbn [invalid_keys current_table app]. destruct has_tables; reflexivity.
  - unfold blank_where. rewrite enumerate_map.
    pose proof (Hblank []) as Hb.
    replace (with_errors init []) with init in Hb
      by (unfold with_errors, init; destruct has_tables; reflexivity).
    rewrite Hb. reflexivity.
  - exact Hstored.
  - intro tn. rewrite Hmem. f_equal. unfold init, dict_mem.
    destruct has_tables; [reflexivity|]. cbn [data dict_get negb andb].
    destruct (str_eqb MAIN tn); reflexivity.
  - intros tn k Hv. rewrite Hstored. apply stored_refused, Hv.
Qed.

Lemma invalid_keys_are_collected_witness :
  (exists archive,
      _load_standard_txt [(lit "f.txt", sample_text)] true VC
      = Ok (archive, [(lit "bad-key", 4, lit "f.txt", MsgVC)])
      /\ _load_standard_txt
           [(lit "f.txt",
             [[]; lit "[T1]"; lit "ABC=hello"; []; lit "XYZ = world ";
              lit "[T2]"; lit "ABC=other"; lit "[T1]"; lit "ABC=again"])]
           true VC
         = Ok (archive, [])
      /\ (forall table_name key,
             lookup archive table_name key
             = stored true VC None sample_text table_name key None)
      /\ (forall table_name,
             dict_mem archive table_name
             = (negb true && str_eqb MAIN table_name)
               || has_header true sample_text table_name)
      /\ (forall table_name key,
             _validate_key_static key VC Gxt = false ->
             lookup archive table_name key = None))
  /\ stored true VC None sample_text (lit "T1") (lit "ABC") None
     = Some (lit "again")
  /\ stored true VC None sample_text (lit "T1") (lit "XYZ") None
     = Some (lit "world")
  /\ stored true VC None sample_text (lit "T2") (lit "ABC") None
     = Some (lit "other")
  /\ stored true VC None sample_text (lit "T1") (lit "bad-key") None = None
  /\ stored true VC None sample_text (lit "T1") (lit "early") None = None
  /\ has_header true sample_text (lit "T2") = true
  /\ has_header true sample_text (lit "MAIN") = false.
Proof.
  split; [|repeat split; vm_compute; reflexivity].
  apply (invalid_keys_are_collected (lit "f.txt") sample_text true VC).
  repeat constructor; vm_compute; discriminate.
Defined.

(** C5 as stated fails: a [key=value] line with an invalid key that
    comes before the first table header is skipped without an error. *)
Lemma invalid_keys_are_collected_counterexample :
  classify true (lit "bad-key=x") = KeyValue (lit "bad-key") (lit "x")
  /\ _validate_key_static (lit "bad-key") VC Gxt = false
  /\ _load_standard_txt [(lit "f.txt", [lit "bad-key=x"; lit "[T1]"; lit "A=1"])]
       true VC
     = Ok ([(lit "T1", [(lit "A", lit "1")])], []).
Proof. repeat split; vm_compute; reflexivity. Qed.
